(** * Race Strategy Dashboard: telemetry ingestion, lap reconstruction and
    the LRU telemetry cache.

    A shallow embedding of the TypeScript sources
    ([TelemetryFrame], [Vehicle], [Lap], [TelemetryCSVParser],
    [LapTimeCSVParser], [TelemetryRepository], [TelemetryCache]) followed
    by the properties stated for them.

    Conventions of the embedding.
    - A JavaScript [number] is an integer ([Z]) or [NaN]; fractional values
      and the infinities are not represented.  Only order, equality and
      subtraction of numbers are used by the code under study.  The
      arithmetic is that of the integers, which is the arithmetic of the
      code up to 2^53; a property that rests on a difference or on a
      parsed number beyond that says so.
    - A [Date] is its time value in milliseconds, [NaN] for an invalid date.
    - Fields carry their declared TypeScript types.  Where a value may be
      missing at run time (a CSV cell) it is a [cell].  The value of a
      telemetry row is what the reader found in the cell (a [value]), and
      [RowNormalizer] has the normalization and the validity test on
      cells that hold any value.
    - [Date.parse], [Date.prototype.toISOString] and the string-to-number
      coercion belong to the JavaScript runtime and are taken as an
      interface ([JsRuntime]).
    - [console.log] / [console.warn] calls are omitted. *)

From Stdlib Require Import ZArith String Ascii List Lia Bool.
From Stdlib Require Import DecimalString DecimalZ.
From stdpp Require Import gmap strings list sorting.

Local Open Scope string_scope.
Local Open Scope Z_scope.

(* ===================================================================== *)
(** ** JavaScript values and library functions                            *)
(* ===================================================================== *)

Module Js.

(** A JavaScript number. *)
Inductive num : Type :=
| Num (z : Z)
| NaN.

#[global] Instance num_eq_dec : EqDecision num.
Proof. solve_decision. Defined.

(** [a < b], [a > b], [a >= b], [a <= b]: every comparison with [NaN]
    is false. *)
Definition lt (a b : num) : bool :=
  match a, b with Num x, Num y => x <? y | _, _ => false end.
Definition gt (a b : num) : bool := lt b a.
Definition le (a b : num) : bool :=
  match a, b with Num x, Num y => x <=? y | _, _ => false end.
Definition ge (a b : num) : bool := le b a.

(** [a - b], exact: the code rounds a difference beyond 2^53 to the
    nearest double. *)
Definition sub (a b : num) : num :=
  match a, b with Num x, Num y => Num (x - y) | _, _ => NaN end.

Definition isNaN (a : num) : bool :=
  match a with NaN => true | Num _ => false end.

(** [a === b] on numbers: [NaN] equals nothing. *)
Definition strictEq (a b : num) : bool :=
  match a, b with Num x, Num y => x =? y | _, _ => false end.

(** [Math.max] and [Math.min]: [NaN] if an argument is [NaN]. *)
Definition max (a b : num) : num :=
  match a, b with Num x, Num y => Num (Z.max x y) | _, _ => NaN end.
Definition min (a b : num) : num :=
  match a, b with Num x, Num y => Num (Z.min x y) | _, _ => NaN end.

(** Truthiness of a number: [0] and [NaN] are falsy. *)
Definition truthyNum (a : num) : bool :=
  match a with Num z => negb (z =? 0) | NaN => false end.

(** Truthiness of a string: only the empty string is falsy. *)
Definition truthyStr (s : string) : bool :=
  match s with EmptyString => false | String _ _ => true end.

(** A value as the CSV reader hands it over with [dynamicTyping]: a
    number, a text, a boolean or a [Date], the last given by its time
    value ([NaN] for an invalid date). *)
Inductive value : Type :=
| VNum (n : num)
| VStr (s : string)
| VBool (b : bool)
| VDate (t : num).

(** Truthiness of a value: an object is always truthy. *)
Definition truthy (v : value) : bool :=
  match v with
  | VNum n => truthyNum n
  | VStr s => truthyStr s
  | VBool b => b
  | VDate _ => true
  end.

(** [String(n)] for an integer-valued number (decimal notation). *)
Definition intToString (z : Z) : string :=
  NilZero.string_of_int (Z.to_int z).

Definition numToString (a : num) : string :=
  match a with Num z => intToString z | NaN => "NaN" end.

(** A value that is present, [null], or missing ([undefined]). *)
Inductive cell (A : Type) : Type :=
| Absent
| Null
| Val (a : A).
Arguments Absent {A}.
Arguments Null {A}.
Arguments Val {A} a.

(** [a || b] on values of one type: [a] when truthy, else [b]. *)
Definition orElse {A} (truthy : A → bool) (a b : cell A) : cell A :=
  match a with
  | Val x => if truthy x then a else b
  | _ => b
  end.

(** [a ?? b]: [a] unless it is [null] or [undefined]. *)
Definition nullish {A} (a b : cell A) : cell A :=
  match a with
  | Val _ => a
  | _ => b
  end.

(** Object spread [{ k: computed, ...raw }] for one key: an own
    property of [raw] (even one holding [null]) overrides the computed
    value; a missing one leaves it. *)
Definition spread {A} (computed raw : cell A) : cell A :=
  match raw with
  | Absent => computed
  | _ => raw
  end.

(** *** Strings *)

Definition isUpper (c : ascii) : bool :=
  let n := nat_of_ascii c in (65 <=? n)%nat && (n <=? 90)%nat.

Definition lowerAscii (c : ascii) : ascii :=
  if isUpper c then ascii_of_nat (nat_of_ascii c + 32) else c.

(** [s.toLowerCase()], on the ASCII letters. *)
Fixpoint toLowerCase (s : string) : string :=
  match s with
  | EmptyString => EmptyString
  | String c s' => String (lowerAscii c) (toLowerCase s')
  end.

(** [s.startsWith(p)]. *)
Definition startsWith (p s : string) : bool := String.prefix p s.

(** [s.includes(sub)]. *)
Fixpoint includes (sub s : string) : bool :=
  String.prefix sub s ||
  match s with
  | EmptyString => false
  | String _ s' => includes sub s'
  end.

(** Drop the first [n] characters. *)
Fixpoint dropStr (n : nat) (s : string) : string :=
  match n, s with
  | O, _ => s
  | S n', String _ s' => dropStr n' s'
  | S _, EmptyString => EmptyString
  end.

(** White space as [trim] and [parseInt] see it (the ASCII part:
    TAB, LF, VT, FF, CR, SPACE). *)
Definition isSpace (c : ascii) : bool :=
  let n := nat_of_ascii c in
  ((9 <=? n)%nat && (n <=? 13)%nat) || (n =? 32)%nat.

(** [s.trim() === ''] *)
Fixpoint isBlank (s : string) : bool :=
  match s with
  | EmptyString => true
  | String c s' => isSpace c && isBlank s'
  end.

(** Whether the string holds ASCII characters only.  [isSpace] and
    [isBlank] know the ASCII white space; [trim] also strips U+00A0 and
    the other Unicode white space, so they are those of the code on
    ASCII strings. *)
Fixpoint isAscii (s : string) : bool :=
  match s with
  | EmptyString => true
  | String c s' => (nat_of_ascii c <? 128)%nat && isAscii s'
  end.

(** [s.split(sep)] for a one-character separator. *)
Fixpoint split (sep : ascii) (s : string) : list string :=
  match s with
  | EmptyString => [EmptyString]
  | String c s' =>
      if Ascii.eqb c sep then EmptyString :: split sep s'
      else match split sep s' with
           | [] => [String c EmptyString]
           | p :: ps => String c p :: ps
           end
  end.

Definition digitOf (c : ascii) : option Z :=
  let n := nat_of_ascii c in
  if (48 <=? n)%nat && (n <=? 57)%nat then Some (Z.of_nat (n - 48)) else None.

(** The value of the longest prefix of decimal digits, [None] when the
    string does not start with a digit. *)
Fixpoint digitsPrefix (acc : option Z) (s : string) : option Z :=
  match s with
  | EmptyString => acc
  | String c s' =>
      match digitOf c with
      | Some d =>
          digitsPrefix (Some (10 * (match acc with Some a => a | None => 0 end) + d)) s'
      | None => acc
      end
  end.

Fixpoint skipSpaces (s : string) : string :=
  match s with
  | String c s' => if isSpace c then skipSpaces s' else s
  | EmptyString => s
  end.

(** [parseInt(s, 10)], with every digit kept: the code rounds a number
    beyond 2^53 to the nearest double. *)
Definition parseInt (s : string) : num :=
  let body := skipSpaces s in
  let '(neg, rest) :=
    match body with
    | String "-" r => (true, r)
    | String "+" r => (false, r)
    | _ => (false, body)
    end in
  match digitsPrefix None rest with
  | Some v => Num (if neg : bool then - v else v)
  | None => NaN
  end.

(** [s.padStart(n, "0")]: zeros in front up to the length [n], nothing
    when [s] is that long already. *)
Fixpoint zeros (n : nat) : string :=
  match n with
  | O => EmptyString
  | S n' => String "0" (zeros n')
  end.

Definition padStart (n : nat) (s : string) : string :=
  zeros (n - String.length s) ++ s.

(** Whether the character occurs in the string. *)
Fixpoint hasChar (c : ascii) (s : string) : bool :=
  match s with
  | EmptyString => false
  | String c' s' => Ascii.eqb c c' || hasChar c s'
  end.

(** *** Dates *)

(** The largest time value a [Date] can hold. *)
Definition maxTime : Z := 8640000000000000.

(** [new Date(n).getTime()] for a number [n] (TimeClip). *)
Definition timeClip (n : num) : num :=
  match n with
  | Num t => if (Z.abs t <=? maxTime) then Num t else NaN
  | NaN => NaN
  end.

(** *** Stable sort by an integer key, as [Array.prototype.sort] with
    the comparator [(a, b) => key(a) - key(b)]. *)
Section Sort.
Context {A : Type} (key : A → Z).

Fixpoint insertSorted (x : A) (l : list A) : list A :=
  match l with
  | [] => [x]
  | y :: l' => if key x <=? key y then x :: y :: l'
               else y :: insertSorted x l'
  end.

Fixpoint sortBy (l : list A) : list A :=
  match l with
  | [] => []
  | x :: l' => insertSorted x (sortBy l')
  end.
End Sort.

(** *** An insertion-ordered [Map] *)
Section OrderedMap.
Context {K V : Type} `{EqDecision K}.

(** [m.get(k)] *)
Fixpoint mapGet (k : K) (m : list (K * V)) : option V :=
  match m with
  | [] => None
  | (k', v) :: m' => if decide (k = k') then Some v else mapGet k m'
  end.

(** [m.set(k, v)]: an existing key keeps its position, a new one
    goes last. *)
Fixpoint mapSet (k : K) (v : V) (m : list (K * V)) : list (K * V) :=
  match m with
  | [] => [(k, v)]
  | (k', v') :: m' =>
      if decide (k = k') then (k, v) :: m' else (k', v') :: mapSet k v m'
  end.
End OrderedMap.

(** [l.findIndex(p)], with [None] for [-1]. *)
Fixpoint findIndex {A : Type} (p : A → bool) (l : list A) : option nat :=
  match l with
  | [] => None
  | x :: l' => if p x then Some 0%nat else S <$> findIndex p l'
  end.

(** Results of code that may throw. *)
Inductive result (A : Type) : Type :=
| Ok (a : A)
| Throw (message : string).
Arguments Ok {A} a.
Arguments Throw {A} message.

End Js.

(** The part of the JavaScript runtime whose behaviour is not fixed by the
    code under study. *)
Class JsRuntime : Type := {
(** [Date.parse(s)]: the time value, [NaN] when [s] is not a date. *)
Date_parse : string → Js.num;
(** [d.toISOString()] of a valid date. *)
Date_toISOString : Z → string;
(** The string-to-number coercion ([Number(s)]). *)
StringToNumber : string → Js.num;
(** [String(d)] of a valid date, which depends on the time zone. *)
Date_toString : Z → string
}.

(** Values of type [string | Date] and the [Date] operations applied to
    them. *)
Module JsDate.
Import Js.

(** [string | Date]; [OfDate n] is the object [new Date(n)]. *)
Inductive timestampInput : Type :=
| OfString (s : string)
| OfDate (n : num).

Section WithRuntime.
Context `{JsRuntime}.

(** [new Date(s).getTime()] for a string: the constructor clips
    what [Date.parse] returns. *)
Definition parseTime (s : string) : num := timeClip (Date_parse s).

(** [new Date(x).getTime()] for [x : string | Date]. *)
Definition toTime (x : timestampInput) : num :=
  match x with
  | OfString s => parseTime s
  | OfDate n => timeClip n
  end.

(** [!x] for [x : string | Date]: an object is always truthy. *)
Definition falsyTimestamp (x : timestampInput) : bool :=
  match x with
  | OfString s => negb (truthyStr s)
  | OfDate _ => false
  end.

(** [d.toISOString()] for the date with the given time value; throws
    a [RangeError] on an invalid date. *)
Definition isoOf (time : num) : result string :=
  match time with
  | Num ms => Ok (Date_toISOString ms)
  | NaN => Throw "Invalid time value"
  end.
End WithRuntime.
End JsDate.

(* ===================================================================== *)
(** ** Domain entity [TelemetryFrame]                                     *)
(* ===================================================================== *)

Module TelemetryFrame.
Import Js.
Import JsDate.

(** [TelemetryFrameData] *)
Record TelemetryFrameData : Type := {
  d_timestamp : timestampInput;
  d_vehicleId : string;
  d_lap : num;
  d_speed : num;
  d_throttlePos : num;
  d_brakePos : num;
  d_gpsLatitude : num;
  d_gpsLongitude : num;
  d_steeringAngle : option num;
  d_gear : option num
}.

(** The entity: its private fields. [timestamp] is the time value of
    the stored [Date]. *)
Record t : Type := {
  timestamp : num;
  vehicleId : string;
  lap : num;
  speed : num;
  throttlePos : num;
  brakePos : num;
  gpsLatitude : num;
  gpsLongitude : num;
  steeringAngle : option num;
  gear : option num
}.

Section WithRuntime.
Context `{JsRuntime}.

(** [constructor(data: TelemetryFrameData)] *)
Definition new (data : TelemetryFrameData) : result t :=
  if falsyTimestamp (d_timestamp data) || isNaN (toTime (d_timestamp data))
  then Throw "Invalid timestamp"
  else if negb (truthyStr (d_vehicleId data)) || isBlank (d_vehicleId data)
  then Throw "Vehicle ID is required"
  else if lt (d_lap data) (Num 0)
  then Throw "Lap number must be non-negative"
  else if lt (d_speed data) (Num 0)
  then Throw "Speed must be non-negative"
  else if lt (d_throttlePos data) (Num 0) || gt (d_throttlePos data) (Num 100)
  then Throw "Throttle position must be between 0 and 100"
  else if lt (d_brakePos data) (Num 0) || gt (d_brakePos data) (Num 100)
  then Throw "Brake position must be between 0 and 100"
  else Ok {| timestamp := toTime (d_timestamp data);
             vehicleId := d_vehicleId data;
             lap := d_lap data;
             speed := d_speed data;
             throttlePos := d_throttlePos data;
             brakePos := d_brakePos data;
             gpsLatitude := d_gpsLatitude data;
             gpsLongitude := d_gpsLongitude data;
             steeringAngle := d_steeringAngle data;
             gear := d_gear data |}.

(** [toJSON()] *)
Definition toJSON (f : t) : result TelemetryFrameData :=
  match isoOf (timestamp f) with
  | Throw m => Throw m
  | Ok iso =>
      Ok {| d_timestamp := OfString iso;
            d_vehicleId := vehicleId f;
            d_lap := lap f;
            d_speed := speed f;
            d_throttlePos := throttlePos f;
            d_brakePos := brakePos f;
            d_gpsLatitude := gpsLatitude f;
            d_gpsLongitude := gpsLongitude f;
            d_steeringAngle := steeringAngle f;
            d_gear := gear f |}
  end.
End WithRuntime.

(** [frames.sort((a, b) => a.timestamp.getTime() - b.timestamp.getTime())].
    Frames hold valid dates, so the comparator is a total preorder and
    the (stable) sort is the stable sort by time value. *)
Definition timeKey (f : t) : Z :=
  match timestamp f with Num ms => ms | NaN => 0 end.

Definition sortByTimestamp (frames : list t) : list t :=
  sortBy timeKey frames.

(** [get isBraking()] *)
Definition isBraking (f : t) : bool := gt (brakePos f) (Num 5).

(** [get isAccelerating()] *)
Definition isAccelerating (f : t) : bool :=
  gt (throttlePos f) (Num 10) && lt (brakePos f) (Num 5).

(** [get isCoasting()] *)
Definition isCoasting (f : t) : bool :=
  negb (isBraking f) && negb (isAccelerating f).

End TelemetryFrame.

(* ===================================================================== *)
(** ** Domain entities [Vehicle] and [Lap]                                *)
(* ===================================================================== *)

Module Vehicle.
Import Js.

(** [VehicleData] *)
Record VehicleData : Type := {
  d_chassis : string;
  d_carNumber : num
}.

Record t : Type := {
  chassis : string;
  carNumber : num;
  id : string
}.

(** [constructor(data: VehicleData)] *)
Definition new (data : VehicleData) : result t :=
  if negb (truthyStr (d_chassis data)) || isBlank (d_chassis data)
  then Throw "Chassis number is required"
  else if lt (d_carNumber data) (Num 0)
  then Throw "Car number must be non-negative"
  else Ok {| chassis := d_chassis data;
             carNumber := d_carNumber data;
             id := d_chassis data ++ "-" ++ numToString (d_carNumber data) |}.

(** [toJSON()] *)
Definition toJSON (v : t) : VehicleData :=
  {| d_chassis := chassis v; d_carNumber := carNumber v |}.

(** [get isNumberAssigned()]: [carNumber !== 0] *)
Definition isNumberAssigned (v : t) : bool :=
  negb (bool_decide (carNumber v = Num 0)).

(** [equals(other)] *)
Definition equals (v other : t) : bool := String.eqb (chassis v) (chassis other).

End Vehicle.

Module Lap.
Import Js.
Import JsDate.

(** [LapData] *)
Record LapData : Type := {
  d_lapNumber : num;
  d_vehicle : option Vehicle.t;
  d_startTime : timestampInput;
  d_endTime : timestampInput;
  d_sectorTimes : option (gmap string num)
}.

(** The entity.  [sectorTimes] is the [Map] built from the entries of
    the given record; its iteration order is not represented. *)
Record t : Type := {
  lapNumber : num;
  vehicle : Vehicle.t;
  startTime : num;
  endTime : num;
  sectorTimes : gmap string num
}.

(** [LapDataJSON] *)
Record LapDataJSON : Type := {
  j_lapNumber : num;
  j_vehicle : Vehicle.VehicleData;
  j_startTime : string;
  j_endTime : string;
  j_durationMs : num;
  j_sectorTimes : gmap string num
}.

Section WithRuntime.
Context `{JsRuntime}.

(** [constructor(data: LapData)] *)
Definition new (data : LapData) : result t :=
  if lt (d_lapNumber data) (Num 0)
  then Throw "Lap number must be non-negative"
  else match d_vehicle data with
  | None => Throw "Vehicle is required"
  | Some v =>
    if falsyTimestamp (d_startTime data) || isNaN (toTime (d_startTime data))
    then Throw "Invalid start time"
    else if falsyTimestamp (d_endTime data) || isNaN (toTime (d_endTime data))
    then Throw "Invalid end time"
    else if le (toTime (d_endTime data)) (toTime (d_startTime data))
    then Throw "End time must be after start time"
    else Ok {| lapNumber := d_lapNumber data;
               vehicle := v;
               startTime := toTime (d_startTime data);
               endTime := toTime (d_endTime data);
               sectorTimes := default ∅ (d_sectorTimes data) |}
  end.

(** [get durationMs()] *)
Definition durationMs (l : t) : num := sub (endTime l) (startTime l).

(** [toJSON()] *)
Definition toJSON (l : t) : result LapDataJSON :=
  match isoOf (startTime l), isoOf (endTime l) with
  | Ok s, Ok e =>
      Ok {| j_lapNumber := lapNumber l;
            j_vehicle := Vehicle.toJSON (vehicle l);
            j_startTime := s;
            j_endTime := e;
            j_durationMs := durationMs l;
            j_sectorTimes := sectorTimes l |}
  | Throw m, _ => Throw m
  | _, Throw m => Throw m
  end.
End WithRuntime.

(** [get lapTimeFormatted()].  On an integer [Math.floor(a / b)] is the
    floor division and [a % b] the remainder with the sign of [a]. *)
Definition floorDiv (a : num) (b : Z) : num :=
  match a with Num x => Num (x / b) | NaN => NaN end.
Definition remainder (a : num) (b : Z) : num :=
  match a with Num x => Num (Z.rem x b) | NaN => NaN end.

Definition lapTimeFormatted (l : t) : string :=
  let totalMs := durationMs l in
  let minutes := floorDiv totalMs 60000 in
  let seconds := floorDiv (remainder totalMs 60000) 1000 in
  let milliseconds := remainder totalMs 1000 in
  numToString minutes ++ ":" ++ padStart 2 (numToString seconds)
    ++ "." ++ padStart 3 (numToString milliseconds).

(** [getSectorTime(sectorId)] *)
Definition getSectorTime (l : t) (sectorId : string) : option num :=
  sectorTimes l !! sectorId.

(** [compareTo(other)] *)
Definition compareTo (l other : t) : num := sub (durationMs l) (durationMs other).

(** [isFasterThan(other)] *)
Definition isFasterThan (l other : t) : bool := lt (durationMs l) (durationMs other).

End Lap.

(* ===================================================================== *)
(** ** Aggregate [RaceSession]                                            *)
(* ===================================================================== *)

Module RaceSession.
Import Js.
Import JsDate.

(** [RaceSessionData] *)
Record RaceSessionData : Type := {
  d_sessionId : string;
  d_sessionName : string;
  d_trackName : string;
  d_trackLengthKm : num;
  d_sessionDate : timestampInput
}.

(** The aggregate: [_laps] and [_vehicles] are [Map]s in insertion
    order. *)
Record t : Type := {
  sessionId : string;
  sessionName : string;
  trackName : string;
  trackLengthKm : num;
  sessionDate : num;
  laps : list (string * list Lap.t);
  registered : list (string * Vehicle.t)
}.

(** [SessionStatistics] *)
Record SessionStatistics : Type := {
  totalVehicles : nat;
  statsTotalLaps : nat;
  fastestLapTime : option num;
  fastestLapVehicle : option string;
  sessionDuration : num
}.

Section WithRuntime.
Context `{JsRuntime}.

(** [constructor(data: RaceSessionData)] *)
Definition new (data : RaceSessionData) : result t :=
  if negb (truthyStr (d_sessionId data)) || isBlank (d_sessionId data)
  then Throw "Session ID is required"
  else if negb (truthyStr (d_trackName data)) || isBlank (d_trackName data)
  then Throw "Track name is required"
  else if le (d_trackLengthKm data) (Num 0)
  then Throw "Track length must be positive"
  else Ok {| sessionId := d_sessionId data;
             sessionName := d_sessionName data;
             trackName := d_trackName data;
             trackLengthKm := d_trackLengthKm data;
             sessionDate := toTime (d_sessionDate data);
             laps := [];
             registered := [] |}.
End WithRuntime.

(** [addLap(lap)] *)
Definition addLap (s : t) (lap : Lap.t) : t :=
  let vehicleId := Vehicle.id (Lap.vehicle lap) in
  let registered' :=
    match mapGet vehicleId (registered s) with
    | Some _ => registered s
    | None => mapSet vehicleId (Lap.vehicle lap) (registered s)
    end in
  let vehicleLaps := default [] (mapGet vehicleId (laps s)) in
  {| sessionId := sessionId s;
     sessionName := sessionName s;
     trackName := trackName s;
     trackLengthKm := trackLengthKm s;
     sessionDate := sessionDate s;
     laps := mapSet vehicleId (vehicleLaps ++ [lap])%list (laps s);
     registered := registered' |}.

(** [getLapsByVehicle(vehicleId)] *)
Definition getLapsByVehicle (s : t) (vehicleId : string) : list Lap.t :=
  default [] (mapGet vehicleId (laps s)).

(** [get vehicles()] *)
Definition vehicles (s : t) : list Vehicle.t := map snd (registered s).

(** [get totalLaps()] *)
Definition totalLaps (s : t) : nat :=
  fold_left (λ total vehicleLaps, (total + length vehicleLaps)%nat) (map snd (laps s)) 0%nat.

(** The body of the loops of [getFastestLap]. *)
Definition faster (fastest : option Lap.t) (lap : Lap.t) : option Lap.t :=
  match fastest with
  | None => Some lap
  | Some f => if Lap.isFasterThan lap f then Some lap else Some f
  end.

(** [getFastestLap()] *)
Definition getFastestLap (s : t) : option Lap.t :=
  fold_left (λ fastest vehicleLaps, fold_left faster vehicleLaps fastest)
            (map snd (laps s)) None.

(** [getFastestLapForVehicle(vehicleId)]: [reduce] without an initial
    value starts from the first lap. *)
Definition getFastestLapForVehicle (s : t) (vehicleId : string) : option Lap.t :=
  match mapGet vehicleId (laps s) with
  | None => None
  | Some [] => None
  | Some (first :: rest) =>
      Some (fold_left (λ fastest current,
                         if Lap.isFasterThan current fastest then current else fastest)
                      rest first)
  end.

(** The body of the loops of [calculateSessionDuration] on the pair
    [(earliest, latest)]. *)
Definition widen (span : option num * option num) (lap : Lap.t) : option num * option num :=
  (match span.1 with
   | None => Some (Lap.startTime lap)
   | Some earliest =>
       if lt (Lap.startTime lap) earliest then Some (Lap.startTime lap) else Some earliest
   end,
   match span.2 with
   | None => Some (Lap.endTime lap)
   | Some latest =>
       if gt (Lap.endTime lap) latest then Some (Lap.endTime lap) else Some latest
   end).

(** [calculateSessionDuration()] *)
Definition calculateSessionDuration (s : t) : num :=
  match fold_left (λ span vehicleLaps, fold_left widen vehicleLaps span)
                  (map snd (laps s)) (None, None) with
  | (Some earliest, Some latest) => sub latest earliest
  | _ => Num 0
  end.

(** [getStatistics()] *)
Definition getStatistics (s : t) : SessionStatistics :=
  let fastestLap := getFastestLap s in
  {| totalVehicles := length (registered s);
     statsTotalLaps := totalLaps s;
     fastestLapTime := Lap.durationMs <$> fastestLap;
     fastestLapVehicle := (λ l, Vehicle.id (Lap.vehicle l)) <$> fastestLap;
     sessionDuration := calculateSessionDuration s |}.

End RaceSession.

(* ===================================================================== *)
(** ** Domain service [TelemetryAnalysisService]                          *)
(* ===================================================================== *)

Module TelemetryAnalysisService.
Import Js.

(** [BrakingPoint] *)
Record BrakingPoint : Type := {
  bp_timestamp : num;
  bp_speed : num;
  bp_brakePos : num;
  bp_latitude : num;
  bp_longitude : num
}.

(** [SpeedPoint] *)
Record SpeedPoint : Type := {
  sp_timestamp : num;
  sp_speed : num;
  sp_latitude : num;
  sp_longitude : num
}.

Definition brakingPointOf (curr : TelemetryFrame.t) : BrakingPoint :=
  {| bp_timestamp := TelemetryFrame.timestamp curr;
     bp_speed := TelemetryFrame.speed curr;
     bp_brakePos := TelemetryFrame.brakePos curr;
     bp_latitude := TelemetryFrame.gpsLatitude curr;
     bp_longitude := TelemetryFrame.gpsLongitude curr |}.

Definition speedPointOf (curr : TelemetryFrame.t) : SpeedPoint :=
  {| sp_timestamp := TelemetryFrame.timestamp curr;
     sp_speed := TelemetryFrame.speed curr;
     sp_latitude := TelemetryFrame.gpsLatitude curr;
     sp_longitude := TelemetryFrame.gpsLongitude curr |}.

(** The test of [findBrakingPoints] on two neighbouring frames. *)
Definition startsBraking (prev curr : TelemetryFrame.t) : bool :=
  negb (TelemetryFrame.isBraking prev) && TelemetryFrame.isBraking curr &&
  gt (TelemetryFrame.brakePos curr) (Num 20).

(** The loop of [findBrakingPoints] from index [i], [prev] being
    [frames[i - 1]] and [frames] the frames from index [i] on. *)
Fixpoint brakingPointsFrom (prev : TelemetryFrame.t) (frames : list TelemetryFrame.t)
  : list BrakingPoint :=
  match frames with
  | [] => []
  | curr :: rest =>
      if startsBraking prev curr
      then brakingPointOf curr :: brakingPointsFrom curr rest
      else brakingPointsFrom curr rest
  end.

(** [findBrakingPoints(frames)] *)
Definition findBrakingPoints (frames : list TelemetryFrame.t) : list BrakingPoint :=
  match frames with
  | [] => []
  | first :: rest => brakingPointsFrom first rest
  end.

(** The test of [findMinimumSpeedPoints] on three neighbouring
    frames. *)
Definition isLocalMinimum (threshold : num) (prev curr next : TelemetryFrame.t) : bool :=
  lt (TelemetryFrame.speed curr) (TelemetryFrame.speed prev) &&
  lt (TelemetryFrame.speed curr) (TelemetryFrame.speed next) &&
  lt (TelemetryFrame.speed curr) threshold.

(** The loop of [findMinimumSpeedPoints] from index [i], [prev] and
    [curr] being [frames[i - 1]] and [frames[i]], and [frames] the
    frames after index [i]. *)
Fixpoint minimumSpeedPointsFrom (threshold : num) (prev curr : TelemetryFrame.t)
    (frames : list TelemetryFrame.t) : list SpeedPoint :=
  match frames with
  | [] => []
  | next :: rest =>
      if isLocalMinimum threshold prev curr next
      then speedPointOf curr :: minimumSpeedPointsFrom threshold curr next rest
      else minimumSpeedPointsFrom threshold curr next rest
  end.

(** [findMinimumSpeedPoints(frames, threshold = 80)] *)
Definition findMinimumSpeedPoints (frames : list TelemetryFrame.t) (threshold : option num)
  : list SpeedPoint :=
  match frames with
  | prev :: curr :: rest => minimumSpeedPointsFrom (default (Num 80) threshold) prev curr rest
  | _ => []
  end.

End TelemetryAnalysisService.

(* ===================================================================== *)
(** ** [TelemetryCSVParser]: long-format telemetry ingestion              *)
(* ===================================================================== *)

Module TelemetryCSVParser.
Import Js.

(** One record delivered by the CSV reader: the columns that
    [normalizeRow] looks at, each possibly missing or [null], and
    otherwise holding a value of the type that [interface TelemetryRow]
    declares for the field.  [RowNormalizer] below has [normalizeRow]
    and [isValidRow] on cells that hold any value. *)
Record RawRecord : Type := {
  raw_timestamp : cell string;
  raw_Time : cell string;
  raw_time : cell string;
  raw_vehicle_id : cell string;
  raw_VehicleId : cell string;
  raw_vehicleId : cell string;
  raw_lap : cell Z;
  raw_Lap : cell Z;
  raw_lapNumber : cell Z;
  raw_telemetry_name : cell string;
  raw_name : cell string;
  raw_Parameter : cell string;
  raw_signal : cell string;
  raw_telemetry_value : cell Z;
  raw_value : cell Z;
  raw_Value : cell Z;
  raw_result : cell Z
}.

(** What [normalizeRow] returns: the five canonical fields as they are
    at run time, before [isValidRow] has looked at them. *)
Record NormalizedRow : Type := {
  n_timestamp : cell string;
  n_vehicle_id : cell string;
  n_lap : cell Z;
  n_telemetry_name : cell string;
  n_telemetry_value : cell Z
}.

(** [interface TelemetryRow]: a row at its declared type, but for
    [telemetry_value], which [isValidRow] lets through whenever it is
    truthy or the number 0: the rows that reach the pivot hold in it
    what the reader found in the cell. *)
Record TelemetryRow : Type := {
  timestamp : string;
  vehicle_id : string;
  lap : Z;
  telemetry_name : string;
  telemetry_value : value
}.

Definition truthyZ (z : Z) : bool := negb (z =? 0).

(** [normalizeRow(raw)]: the alias chains, then the spread of [raw]
    over them. *)
Definition normalizeRow (raw : RawRecord) : NormalizedRow :=
  {| n_timestamp :=
       spread (orElse truthyStr (orElse truthyStr (raw_timestamp raw) (raw_Time raw))
                      (raw_time raw))
              (raw_timestamp raw);
     n_vehicle_id :=
       spread (orElse truthyStr (orElse truthyStr (raw_vehicle_id raw) (raw_VehicleId raw))
                      (raw_vehicleId raw))
              (raw_vehicle_id raw);
     n_lap :=
       spread (orElse truthyZ (orElse truthyZ (raw_lap raw) (raw_Lap raw))
                      (raw_lapNumber raw))
              (raw_lap raw);
     n_telemetry_name :=
       spread (orElse truthyStr
                 (orElse truthyStr
                    (orElse truthyStr (raw_telemetry_name raw) (raw_name raw))
                    (raw_Parameter raw))
                 (raw_signal raw))
              (raw_telemetry_name raw);
     n_telemetry_value :=
       spread (nullish (nullish (nullish (raw_telemetry_value raw) (raw_value raw))
                                (raw_Value raw))
                       (raw_result raw))
              (raw_telemetry_value raw) |}.

(** Truthiness of a cell: [undefined] and [null] are falsy. *)
Definition truthyCell {A} (truthy : A → bool) (c : cell A) : bool :=
  match c with Val a => truthy a | _ => false end.

(** [c === 0] *)
Definition isZero (c : cell Z) : bool :=
  match c with Val z => z =? 0 | _ => false end.

(** [typeof c === 'number'] *)
Definition isNumber (c : cell Z) : bool :=
  match c with Val _ => true | _ => false end.

(** [isValidRow(row)] *)
Definition isValidRow (row : NormalizedRow) : bool :=
  truthyCell truthyStr (n_telemetry_name row) &&
  (truthyCell truthyZ (n_telemetry_value row) || isZero (n_telemetry_value row)) &&
  truthyCell truthyStr (n_timestamp row) &&
  truthyCell truthyStr (n_vehicle_id row) &&
  isNumber (n_lap row).

(** A normalized row seen at the declared type [TelemetryRow]; defined
    exactly when every field holds a value. *)
Definition narrow (row : NormalizedRow) : option TelemetryRow :=
  match n_timestamp row, n_vehicle_id row, n_lap row,
        n_telemetry_name row, n_telemetry_value row with
  | Val ts, Val vid, Val l, Val name, Val v =>
      Some {| timestamp := ts; vehicle_id := vid; lap := l;
              telemetry_name := name; telemetry_value := VNum (Num v) |}
  | _, _, _, _, _ => None
  end.

(** [normalizeVehicleId]: [vehicleId.replace(/^GR86-/, '')] *)
Definition normalizeVehicleId (vehicleId : string) : string :=
  if startsWith "GR86-" vehicleId then dropStr 5 vehicleId else vehicleId.

(** [clamp(value, min, max)] *)
Definition clamp (value lo hi : num) : num := Js.min (Js.max value lo) hi.

(** *** The pivot *)

(** The values held by a group's metric table: the table is declared
    [Map<string, number>] but receives the vehicle id string and
    whatever the rows hold as their values. *)
Definition truthyMetric (m : value) : bool := truthy m.

(** [a || b] where either side may be [undefined]. *)
Definition orMetric (a b : option value) : option value :=
  match a with
  | Some v => if truthyMetric v then a else b
  | None => b
  end.

Section WithRuntime.
Context `{JsRuntime}.

(** [String(v)] *)
Definition metricToString (v : option value) : string :=
  match v with
  | Some (VNum n) => numToString n
  | Some (VStr s) => s
  | Some (VBool b) => if b then "true" else "false"
  | Some (VDate (Num t)) => Date_toString t
  | Some (VDate NaN) => "Invalid Date"
  | None => "undefined"
  end.

(** The number a metric stands for where a number is expected
    ([Math.max], [Math.min] and the comparisons of the frame
    constructor).  A field of the frame data that is declared [number]
    is given as this number. *)
Definition toNumber (v : option value) : num :=
  match v with
  | Some (VNum n) => n
  | Some (VStr s) => StringToNumber s
  | Some (VBool b) => Num (if b then 1 else 0)
  | Some (VDate t) => t
  | None => NaN
  end.

(** [new Date(v).getTime()] *)
Definition dateOfMetric (v : option value) : num :=
  match v with
  | Some (VNum n) => timeClip n
  | Some (VStr s) => JsDate.parseTime s
  | Some (VBool b) => timeClip (Num (if b then 1 else 0))
  | Some (VDate t) => timeClip t
  | None => NaN
  end.

(** [`${row.timestamp}_${row.vehicle_id}_${row.lap}`] *)
Definition groupKey (row : TelemetryRow) : string :=
  timestamp row ++ "_" ++ vehicle_id row ++ "_" ++ intToString (lap row).

(** [if (!metrics.has(k)) metrics.set(k, v)] *)
Definition setIfMissing (k : string) (v : value) (metrics : gmap string value)
  : gmap string value :=
  match metrics !! k with
  | Some _ => metrics
  | None => <[k := v]> metrics
  end.

(** The body of the first loop of [pivotToFrames], on the metric
    table of the row's group. *)
Definition foldRow (row : TelemetryRow) (metrics : gmap string value)
  : gmap string value :=
  let m1 := <[toLowerCase (telemetry_name row) := telemetry_value row]> metrics in
  let m2 := setIfMissing "_timestamp" (VNum (JsDate.parseTime (timestamp row))) m1 in
  let m3 := setIfMissing "_vehicle_id" (VStr (vehicle_id row)) m2 in
  setIfMissing "_lap" (VNum (Num (lap row))) m3.

Definition addRow (groups : list (string * gmap string value)) (row : TelemetryRow)
  : list (string * gmap string value) :=
  let key := groupKey row in
  let groups1 := match mapGet key groups with
                 | Some _ => groups
                 | None => mapSet key ∅ groups
                 end in
  mapSet key (foldRow row (default ∅ (mapGet key groups1))) groups1.

Definition groupRows (rows : list TelemetryRow) : list (string * gmap string value) :=
  fold_left addRow rows [].

(** The [frameData] literal built for one group. *)
Definition frameDataOf (metrics : gmap string value)
  : TelemetryFrame.TelemetryFrameData :=
  {| TelemetryFrame.d_timestamp :=
       JsDate.OfDate (dateOfMetric (metrics !! "_timestamp"));
     TelemetryFrame.d_vehicleId :=
       normalizeVehicleId (metricToString (metrics !! "_vehicle_id"));
     TelemetryFrame.d_lap := toNumber (metrics !! "_lap");
     TelemetryFrame.d_speed :=
       toNumber (orMetric (orMetric (metrics !! "speed") (metrics !! "speed_can"))
                          (Some (VNum (Num 0))));
     TelemetryFrame.d_throttlePos :=
       clamp (toNumber (orMetric
                          (orMetric (orMetric (metrics !! "ath") (metrics !! "throttle_pos"))
                                    (metrics !! "throttle"))
                          (Some (VNum (Num 0)))))
             (Num 0) (Num 100);
     TelemetryFrame.d_brakePos :=
       clamp (Js.max
                (Js.max
                   (toNumber (orMetric (metrics !! "pbrake_f") (Some (VNum (Num 0)))))
                   (toNumber (orMetric (metrics !! "pbrake_r") (Some (VNum (Num 0))))))
                (toNumber (orMetric (metrics !! "brake_pos") (Some (VNum (Num 0))))))
             (Num 0) (Num 100);
     TelemetryFrame.d_gpsLatitude :=
       toNumber (orMetric
                   (orMetric (orMetric (metrics !! "gps_lat") (metrics !! "gps_latitude"))
                             (metrics !! "latitude"))
                   (Some (VNum (Num 0))));
     TelemetryFrame.d_gpsLongitude :=
       toNumber (orMetric
                   (orMetric (orMetric (metrics !! "gps_lon") (metrics !! "gps_longitude"))
                             (metrics !! "longitude"))
                   (Some (VNum (Num 0))));
     TelemetryFrame.d_steeringAngle := None;
     TelemetryFrame.d_gear :=
       match orMetric (metrics !! "gear") None with
       | Some v => Some (toNumber (Some v))
       | None => None
       end |}.

(** The second loop: one frame per group, a group whose frame cannot
    be constructed is skipped. *)
Fixpoint buildFrames (groups : list (string * gmap string value))
  : list TelemetryFrame.t :=
  match groups with
  | [] => []
  | (_, metrics) :: rest =>
      match TelemetryFrame.new (frameDataOf metrics) with
      | Ok frame => frame :: buildFrames rest
      | Throw _ => buildFrames rest
      end
  end.

(** [pivotToFrames(rows)] *)
Definition pivotToFrames (rows : list TelemetryRow) : list TelemetryFrame.t :=
  TelemetryFrame.sortByTimestamp (buildFrames (groupRows rows)).

(** *** [parseFile] *)

(** [filter?: { vehicleId?: string; lap?: number }] *)
Record Filter : Type := {
  f_vehicleId : option string;
  f_lap : option Z
}.

(** The options of [parseFile]; [maxRows] and [skipRows] after
    defaulting, [onProgress] by whether a callback was given. *)
Record Options : Type := {
  maxRows : Z;
  skipRows : Z;
  filter : option Filter;
  onProgress : bool
}.

(** [options = {}] *)
Definition defaultOptions : Options :=
  {| maxRows := 100000; skipRows := 0; filter := None; onProgress := false |}.

(** The variables captured by the callbacks, the promise and the
    calls made to [parser.abort] and [onProgress]. *)
Record State : Type := {
  rawRows : list TelemetryRow;
  rowCount : Z;
  aborted : bool;
  parserAborted : bool;
  settled : option (list TelemetryFrame.t);
  progress : list Z
}.

Definition initial : State :=
  {| rawRows := []; rowCount := 0; aborted := false; parserAborted := false;
     settled := None; progress := [] |}.

(** [resolve(frames)]: a promise settles once. *)
Definition resolve (frames : list TelemetryFrame.t) (st : State) : State :=
  match settled st with
  | Some _ => st
  | None =>
      {| rawRows := rawRows st; rowCount := rowCount st; aborted := aborted st;
         parserAborted := parserAborted st; settled := Some frames;
         progress := progress st |}
  end.

(** [filter.vehicleId && rowVehicleId !== filter.vehicleId] *)
Definition wrongVehicle (f : Filter) (row : TelemetryRow) : bool :=
  match f_vehicleId f with
  | Some v => truthyStr v && negb (String.eqb (normalizeVehicleId (vehicle_id row)) v)
  | None => false
  end.

(** [filter.lap && row.lap !== filter.lap] *)
Definition wrongLap (f : Filter) (row : TelemetryRow) : bool :=
  match f_lap f with
  | Some l => truthyZ l && negb (lap row =? l)
  | None => false
  end.

(** The block under [if (filter)]: [false] when it leaves the
    iteration by [continue]. *)
Definition passesFilter (flt : option Filter) (row : TelemetryRow) : bool :=
  match flt with
  | None => true
  | Some f =>
      if wrongVehicle f row then false
      else if wrongLap f row then false
      else true
  end.

(** [rawRows.push(row)] and the test on [maxRows] that follows it;
    the flag tells whether the callback returned. *)
Definition pushRow (opts : Options) (row : TelemetryRow) (st : State) : State * bool :=
  let rows := (rawRows st ++ [row])%list in
  if Z.of_nat (length rows) >=? maxRows opts then
    (resolve (pivotToFrames rows)
       {| rawRows := rows; rowCount := rowCount st; aborted := true;
          parserAborted := true; settled := settled st; progress := progress st |},
     true)
  else
    ({| rawRows := rows; rowCount := rowCount st; aborted := aborted st;
        parserAborted := parserAborted st; settled := settled st;
        progress := progress st |},
     false).

(** [for (const raw of rows) { ... }]; the flag tells whether the
    loop was left by [return]. *)
Fixpoint rowLoop (opts : Options) (rows : list RawRecord) (st : State) : State * bool :=
  match rows with
  | [] => (st, false)
  | raw :: rest =>
      if rowCount st <=? skipRows opts then rowLoop opts rest st
      else
        let row := normalizeRow raw in
        if isValidRow row then
          match narrow row with
          | Some r =>
              if passesFilter (filter opts) r then
                let '(st', returned) := pushRow opts r st in
                if returned then (st', true) else rowLoop opts rest st'
              else rowLoop opts rest st
          | None => rowLoop opts rest st
          end
        else rowLoop opts rest st
  end.

(** The [chunk] callback. *)
Definition chunk (opts : Options) (st : State) (rows : list RawRecord) : State :=
  if aborted st then st
  else
    let n := Z.of_nat (length rows) in
    let st1 := {| rawRows := rawRows st; rowCount := rowCount st + n;
                  aborted := aborted st; parserAborted := parserAborted st;
                  settled := settled st; progress := progress st |} in
    let '(st2, returned) := rowLoop opts rows st1 in
    if returned then st2
    else if (rowCount st2 / 50000) >? ((rowCount st2 - n) / 50000) then
      if onProgress opts then
        {| rawRows := rawRows st2; rowCount := rowCount st2; aborted := aborted st2;
           parserAborted := parserAborted st2; settled := settled st2;
           progress := (progress st2 ++ [rowCount st2])%list |}
      else st2
    else st2.

(** The [complete] callback. *)
Definition complete (st : State) : State :=
  if aborted st then st else resolve (pivotToFrames (rawRows st)) st.

(** The reader: it hands over the chunks in order and stops handing
    over once [parser.abort()] has been called. *)
Fixpoint feed (opts : Options) (chunks : list (list RawRecord)) (st : State) : State :=
  match chunks with
  | [] => st
  | rows :: rest =>
      let st' := chunk opts st rows in
      if parserAborted st' then st' else feed opts rest st'
  end.

(** [parseFile(file, options)] on a file read without error: the state
    once the reader has called [complete]; the promise is in
    [settled]. *)
Definition parseFile (opts : Options) (chunks : list (list RawRecord)) : State :=
  complete (feed opts chunks initial).
End WithRuntime.

End TelemetryCSVParser.

(* ===================================================================== *)
(** ** [normalizeRow] and [isValidRow] on what the reader delivers        *)
(* ===================================================================== *)

(** [TelemetryCSVParser] above has the cells of a record at the types
    that [interface TelemetryRow] declares.  [normalizeRow] takes
    [raw: any], and the reader is set up with [dynamicTyping]: here the
    two functions are given on cells that hold any value. *)
Module RowNormalizer.
Import Js.

(** One record as the CSV reader hands it to [normalizeRow]: the columns
    that it looks at, each missing, [null] or holding a value. *)
Record RawRecord : Type := {
  raw_timestamp : cell value;
  raw_Time : cell value;
  raw_time : cell value;
  raw_vehicle_id : cell value;
  raw_VehicleId : cell value;
  raw_vehicleId : cell value;
  raw_lap : cell value;
  raw_Lap : cell value;
  raw_lapNumber : cell value;
  raw_telemetry_name : cell value;
  raw_name : cell value;
  raw_Parameter : cell value;
  raw_signal : cell value;
  raw_telemetry_value : cell value;
  raw_value : cell value;
  raw_Value : cell value;
  raw_result : cell value
}.

(** What [normalizeRow] returns: the five canonical fields. *)
Record NormalizedRow : Type := {
  n_timestamp : cell value;
  n_vehicle_id : cell value;
  n_lap : cell value;
  n_telemetry_name : cell value;
  n_telemetry_value : cell value
}.

(** [a || b] *)
Definition or (a b : cell value) : cell value := orElse truthy a b.

(** [normalizeRow(raw)]: the alias chains, then the spread of [raw]
    over them. *)
Definition normalizeRow (raw : RawRecord) : NormalizedRow :=
  {| n_timestamp :=
       spread (or (or (raw_timestamp raw) (raw_Time raw)) (raw_time raw))
              (raw_timestamp raw);
     n_vehicle_id :=
       spread (or (or (raw_vehicle_id raw) (raw_VehicleId raw)) (raw_vehicleId raw))
              (raw_vehicle_id raw);
     n_lap :=
       spread (or (or (raw_lap raw) (raw_Lap raw)) (raw_lapNumber raw))
              (raw_lap raw);
     n_telemetry_name :=
       spread (or (or (or (raw_telemetry_name raw) (raw_name raw)) (raw_Parameter raw))
                  (raw_signal raw))
              (raw_telemetry_name raw);
     n_telemetry_value :=
       spread (nullish (nullish (nullish (raw_telemetry_value raw) (raw_value raw))
                                (raw_Value raw))
                       (raw_result raw))
              (raw_telemetry_value raw) |}.

(** Truthiness of a cell: [undefined] and [null] are falsy. *)
Definition truthyCell (c : cell value) : bool :=
  match c with Val v => truthy v | _ => false end.

(** [c === 0] *)
Definition isZero (c : cell value) : bool :=
  match c with Val (VNum n) => strictEq n (Num 0) | _ => false end.

(** [typeof c === 'number'] *)
Definition isNumber (c : cell value) : bool :=
  match c with Val (VNum _) => true | _ => false end.

(** [isValidRow(row)] *)
Definition isValidRow (row : NormalizedRow) : bool :=
  truthyCell (n_telemetry_name row) &&
  (truthyCell (n_telemetry_value row) || isZero (n_telemetry_value row)) &&
  truthyCell (n_timestamp row) &&
  truthyCell (n_vehicle_id row) &&
  isNumber (n_lap row).

(** A normalized row seen at the type [TelemetryCSVParser.TelemetryRow]:
    defined when the timestamp, the vehicle id and the name are texts
    and the lap is an integer. *)
Definition asRow (row : NormalizedRow) : option TelemetryCSVParser.TelemetryRow :=
  match n_timestamp row, n_vehicle_id row, n_lap row,
        n_telemetry_name row, n_telemetry_value row with
  | Val (VStr ts), Val (VStr vid), Val (VNum (Num l)), Val (VStr name), Val v =>
      Some {| TelemetryCSVParser.timestamp := ts;
              TelemetryCSVParser.vehicle_id := vid;
              TelemetryCSVParser.lap := l;
              TelemetryCSVParser.telemetry_name := name;
              TelemetryCSVParser.telemetry_value := v |}
  | _, _, _, _, _ => None
  end.

(** A cell of [TelemetryCSVParser] as the value it stands for. *)
Definition ofText (c : cell string) : cell value :=
  match c with Val s => Val (VStr s) | Null => Null | Absent => Absent end.

Definition ofNumber (c : cell Z) : cell value :=
  match c with Val z => Val (VNum (Num z)) | Null => Null | Absent => Absent end.

Definition ofRecord (raw : TelemetryCSVParser.RawRecord) : RawRecord :=
  {| raw_timestamp := ofText (TelemetryCSVParser.raw_timestamp raw);
     raw_Time := ofText (TelemetryCSVParser.raw_Time raw);
     raw_time := ofText (TelemetryCSVParser.raw_time raw);
     raw_vehicle_id := ofText (TelemetryCSVParser.raw_vehicle_id raw);
     raw_VehicleId := ofText (TelemetryCSVParser.raw_VehicleId raw);
     raw_vehicleId := ofText (TelemetryCSVParser.raw_vehicleId raw);
     raw_lap := ofNumber (TelemetryCSVParser.raw_lap raw);
     raw_Lap := ofNumber (TelemetryCSVParser.raw_Lap raw);
     raw_lapNumber := ofNumber (TelemetryCSVParser.raw_lapNumber raw);
     raw_telemetry_name := ofText (TelemetryCSVParser.raw_telemetry_name raw);
     raw_name := ofText (TelemetryCSVParser.raw_name raw);
     raw_Parameter := ofText (TelemetryCSVParser.raw_Parameter raw);
     raw_signal := ofText (TelemetryCSVParser.raw_signal raw);
     raw_telemetry_value := ofNumber (TelemetryCSVParser.raw_telemetry_value raw);
     raw_value := ofNumber (TelemetryCSVParser.raw_value raw);
     raw_Value := ofNumber (TelemetryCSVParser.raw_Value raw);
     raw_result := ofNumber (TelemetryCSVParser.raw_result raw) |}.

Definition ofNormalized (row : TelemetryCSVParser.NormalizedRow) : NormalizedRow :=
  {| n_timestamp := ofText (TelemetryCSVParser.n_timestamp row);
     n_vehicle_id := ofText (TelemetryCSVParser.n_vehicle_id row);
     n_lap := ofNumber (TelemetryCSVParser.n_lap row);
     n_telemetry_name := ofText (TelemetryCSVParser.n_telemetry_name row);
     n_telemetry_value := ofNumber (TelemetryCSVParser.n_telemetry_value row) |}.
End RowNormalizer.

(* ===================================================================== *)
(** ** [LapTimeCSVParser]: lap boundaries from lap-completion rows        *)
(* ===================================================================== *)

Module LapTimeCSVParser.
Import Js.

(** A column outside the four named ones ([string | number]). *)
Inductive field : Type :=
| FNum (n : num)
| FStr (s : string).

(** [interface LapCSVRow].  [value] may be empty in the file; the
    remaining columns are in [others]. *)
Record LapCSVRow : Type := {
  vehicle_id : string;
  lap : Z;
  timestamp : string;
  value : cell Z;
  others : gmap string field
}.

(** The number that [row.value] stands for in a comparison. *)
Definition valueNumber (c : cell Z) : num :=
  match c with
  | Val z => Num z
  | Null => Num 0
  | Absent => NaN
  end.

(** Step 1 of [processRows]: [vehicleMap], in insertion order. *)
Definition addToVehicle (vehicleMap : list (string * list LapCSVRow)) (row : LapCSVRow)
  : list (string * list LapCSVRow) :=
  let rows := default [] (mapGet (vehicle_id row) vehicleMap) in
  mapSet (vehicle_id row) (rows ++ [row])%list vehicleMap.

Definition groupByVehicle (rows : list LapCSVRow) : list (string * list LapCSVRow) :=
  fold_left addToVehicle rows [].

(** The [forEach] that fills [uniqueRows]. *)
Definition keepLarger (uniqueRows : list (Z * LapCSVRow)) (row : LapCSVRow)
  : list (Z * LapCSVRow) :=
  match mapGet (lap row) uniqueRows with
  | None => mapSet (lap row) row uniqueRows
  | Some existing =>
      if gt (valueNumber (value row)) (valueNumber (value existing))
      then mapSet (lap row) row uniqueRows
      else uniqueRows
  end.

(** [sortedUniqueRows] of one vehicle. *)
Definition sortedUniqueRows (vehicleRows : list LapCSVRow) : list LapCSVRow :=
  let sorted := sortBy lap vehicleRows in
  let uniqueRows := fold_left keepLarger sorted [] in
  sortBy lap (map snd uniqueRows).

(** [parseVehicleId] *)
Definition parseVehicleId (vehicleId : string) : Vehicle.VehicleData :=
  match split "-" vehicleId with
  | _ :: p1 :: p2 :: _ =>
      {| Vehicle.d_chassis := p1; Vehicle.d_carNumber := parseInt p2 |}
  | _ => {| Vehicle.d_chassis := vehicleId; Vehicle.d_carNumber := Num 0 |}
  end.

(** [parseSectorTimes].  Of the four named columns only [timestamp]
    matches the key test, and it holds a string, so the named columns
    contribute nothing. *)
Definition isSectorEntry (key : string) (v : field) : bool :=
  (startsWith "sector_" key || includes "im" (toLowerCase key)) &&
  match v with
  | FNum n => gt n (Num 0)
  | FStr _ => false
  end.

Definition parseSectorTimes (row : LapCSVRow) : gmap string num :=
  omap (λ v, match v with FNum n => Some n | FStr _ => None end)
       (filter (λ kv, isSectorEntry kv.1 kv.2 = true) (others row)).

Section WithRuntime.
Context `{JsRuntime}.

(** The [startTime] that [convertToLap] settles on, as a time value. *)
Definition startOf (row : LapCSVRow) (prevRow : option LapCSVRow) : num :=
  let endTime := JsDate.parseTime (timestamp row) in
  let startTime :=
    match prevRow with
    | Some p => JsDate.parseTime (timestamp p)
    | None => timeClip (sub endTime (Num 120000))
    end in
  if ge startTime endTime then timeClip (sub endTime (Num 120000))
  else startTime.

(** [convertToLap(row, prevRow)] *)
Definition convertToLap (row : LapCSVRow) (prevRow : option LapCSVRow) : result Lap.t :=
  match Vehicle.new (parseVehicleId (vehicle_id row)) with
  | Throw m => Throw m
  | Ok vehicle =>
      Lap.new {| Lap.d_lapNumber := Num (lap row);
                 Lap.d_vehicle := Some vehicle;
                 Lap.d_startTime := JsDate.OfDate (startOf row prevRow);
                 Lap.d_endTime := JsDate.OfDate (JsDate.parseTime (timestamp row));
                 Lap.d_sectorTimes := Some (parseSectorTimes row) |}
  end.

(** Step 3: the loop over [sortedUniqueRows] with [prevRow] the row
    before the current one; a row whose lap cannot be constructed is
    skipped. *)
Fixpoint convertAll (prevRow : option LapCSVRow) (rows : list LapCSVRow) : list Lap.t :=
  match rows with
  | [] => []
  | row :: rest =>
      match convertToLap row prevRow with
      | Ok l => l :: convertAll (Some row) rest
      | Throw _ => convertAll (Some row) rest
      end
  end.

(** The laps of one vehicle. *)
Definition vehicleLaps (vehicleRows : list LapCSVRow) : list Lap.t :=
  convertAll None (sortedUniqueRows vehicleRows).

(** [processRows(rows)] *)
Definition processRows (rows : list LapCSVRow) : list Lap.t :=
  concat (map (λ kv, vehicleLaps kv.2) (groupByVehicle rows)).
End WithRuntime.

End LapTimeCSVParser.

(* ===================================================================== *)
(** ** The telemetry repository and its LRU cache                         *)
(* ===================================================================== *)

(** [interface ITelemetryRepository].  The queries of a repository read
    its state; [saveTelemetry] and [clear] change it. *)
Module ITelemetryRepository.
Class t (R : Type) : Type := {
  getTelemetryByVehicleAndLap : R → string → Z → list TelemetryFrame.t;
  getTelemetryByTimeRange : R → string → Js.num → Js.num → list TelemetryFrame.t;
  getAllVehicleIds : R → list string;
  getMaxLapNumber : R → string → Js.num;
  saveTelemetry : R → list TelemetryFrame.t → R;
  clear : R → R
}.
End ITelemetryRepository.

Module TelemetryRepository.
Import Js.

(** [Map<string, Map<number, TelemetryFrame[]>>], both in insertion
    order. *)
Definition t : Type := list (string * list (num * list TelemetryFrame.t)).

(** [new TelemetryRepository()] *)
Definition empty : t := [].

Definition getTelemetryByVehicleAndLap (repo : t) (vehicleId : string) (lap : Z)
  : list TelemetryFrame.t :=
  match mapGet vehicleId repo with
  | None => []
  | Some vehicleData => default [] (mapGet (Num lap) vehicleData)
  end.

Definition inRange (startTime endTime : num) (frame : TelemetryFrame.t) : bool :=
  ge (TelemetryFrame.timestamp frame) startTime &&
  le (TelemetryFrame.timestamp frame) endTime.

Definition getTelemetryByTimeRange (repo : t) (vehicleId : string)
    (startTime endTime : num) : list TelemetryFrame.t :=
  match mapGet vehicleId repo with
  | None => []
  | Some vehicleData =>
      TelemetryFrame.sortByTimestamp
        (List.filter (inRange startTime endTime) (concat (map snd vehicleData)))
  end.

Definition getAllVehicleIds (repo : t) : list string := map fst repo.

Definition getMaxLapNumber (repo : t) (vehicleId : string) : num :=
  match mapGet vehicleId repo with
  | None => Num 0
  | Some vehicleData =>
      match map fst vehicleData with
      | [] => Num 0
      | k :: ks => fold_left Js.max ks k
      end
  end.

(** The body of the first loop of [saveTelemetry]. *)
Definition addFrame (repo : t) (frame : TelemetryFrame.t) : t :=
  let vehicleId := TelemetryFrame.vehicleId frame in
  let lap := TelemetryFrame.lap frame in
  let vehicleData := default [] (mapGet vehicleId repo) in
  let lapData := default [] (mapGet lap vehicleData) in
  mapSet vehicleId (mapSet lap (lapData ++ [frame])%list vehicleData) repo.

Definition sortLaps (repo : t) : t :=
  map (λ v, (v.1, map (λ l, (l.1, TelemetryFrame.sortByTimestamp l.2)) v.2)) repo.

Definition saveTelemetry (repo : t) (frames : list TelemetryFrame.t) : t :=
  sortLaps (fold_left addFrame frames repo).

Definition clear (repo : t) : t := [].

#[global] Instance repository : ITelemetryRepository.t t := {|
  ITelemetryRepository.getTelemetryByVehicleAndLap := getTelemetryByVehicleAndLap;
  ITelemetryRepository.getTelemetryByTimeRange := getTelemetryByTimeRange;
  ITelemetryRepository.getAllVehicleIds := getAllVehicleIds;
  ITelemetryRepository.getMaxLapNumber := getMaxLapNumber;
  ITelemetryRepository.saveTelemetry := saveTelemetry;
  ITelemetryRepository.clear := clear
|}.
End TelemetryRepository.

Module LapRepository.
Import Js.

(** [Map<string, Lap[]>], in insertion order. *)
Definition t : Type := list (string * list Lap.t).

(** [new LapRepository()] *)
Definition empty : t := [].

Definition getLapsByVehicle (repo : t) (vehicleId : string) : list Lap.t :=
  match mapGet vehicleId repo with
  | Some laps => laps
  | None => []
  end.

(** [lap => lap.lapNumber === lapNumber] *)
Definition hasNumber (lapNumber : num) (lap : Lap.t) : bool :=
  strictEq (Lap.lapNumber lap) lapNumber.

Definition getLap (repo : t) (vehicleId : string) (lapNumber : num) : option Lap.t :=
  match mapGet vehicleId repo with
  | None => None
  | Some laps => List.find (hasNumber lapNumber) laps
  end.

Definition getAllLaps (repo : t) : list Lap.t := concat (map snd repo).

(** The body of the first loop of [saveLaps]. *)
Definition addLap (repo : t) (lap : Lap.t) : t :=
  let vehicleId := Vehicle.id (Lap.vehicle lap) in
  let vehicleLaps := default [] (mapGet vehicleId repo) in
  match findIndex (hasNumber (Lap.lapNumber lap)) vehicleLaps with
  | Some existingIndex => mapSet vehicleId (<[existingIndex := lap]> vehicleLaps) repo
  | None => mapSet vehicleId (vehicleLaps ++ [lap])%list repo
  end.

(** [vehicleLaps.sort((a, b) => a.lapNumber - b.lapNumber)].  On laps
    whose numbers are numbers the comparator is a total preorder and
    the (stable) sort is the stable sort by lap number; the properties
    of [saveLaps] are stated for such laps. *)
Definition lapKey (lap : Lap.t) : Z :=
  match Lap.lapNumber lap with Num n => n | NaN => 0 end.

Definition sortLaps (repo : t) : t :=
  map (λ v, (v.1, sortBy lapKey v.2)) repo.

Definition saveLaps (repo : t) (laps : list Lap.t) : t :=
  sortLaps (fold_left addLap laps repo).

Definition getAllVehicleIds (repo : t) : list string := map fst repo.

Definition clear (repo : t) : t := [].

Record Statistics : Type := {
  totalVehicles : nat;
  totalLaps : nat
}.

Definition getStatistics (repo : t) : Statistics :=
  {| totalVehicles := length repo;
     totalLaps := fold_left (λ total laps, (total + length laps)%nat) (map snd repo) 0%nat |}.
End LapRepository.

Module TelemetryCache.
Import Js.

(** [interface CacheNode]; [prev] and [next] are references into the
    store of nodes, [None] for [null]. *)
Record CacheNode : Type := {
  key : string;
  prev : option nat;
  next : option nat
}.

(** [interface CacheEntry] *)
Record CacheEntry : Type := {
  data : list TelemetryFrame.t;
  node : nat
}.

(** The cache: its fields, and the store holding every node object
    created so far (a reference is an index into it). *)
Record t (R : Type) : Type := {
  repository : R;
  cache : gmap string CacheEntry;
  maxSize : Z;
  head : option nat;
  tail : option nat;
  nodes : list CacheNode
}.
Arguments repository {R}.
Arguments cache {R}.
Arguments maxSize {R}.
Arguments head {R}.
Arguments tail {R}.
Arguments nodes {R}.

(** [interface CacheStats], without the derived percentage. *)
Record CacheStats : Type := {
  size : nat;
  statsMaxSize : Z
}.

Section Cache.
Context {R : Type} `{ITelemetryRepository.t R}.

(** [new TelemetryCache(repository, maxSize)] *)
Definition new (repo : R) (maxSize : Z) : t R :=
  {| repository := repo; cache := ∅; maxSize := maxSize;
     head := None; tail := None; nodes := [] |}.

(** Assignments to the fields of the cache. *)
Definition withCache (c : gmap string CacheEntry) (st : t R) : t R :=
  {| repository := repository st; cache := c; maxSize := maxSize st;
     head := head st; tail := tail st; nodes := nodes st |}.
Definition withHead (h : option nat) (st : t R) : t R :=
  {| repository := repository st; cache := cache st; maxSize := maxSize st;
     head := h; tail := tail st; nodes := nodes st |}.
Definition withTail (tl : option nat) (st : t R) : t R :=
  {| repository := repository st; cache := cache st; maxSize := maxSize st;
     head := head st; tail := tl; nodes := nodes st |}.
Definition withNodes (ns : list CacheNode) (st : t R) : t R :=
  {| repository := repository st; cache := cache st; maxSize := maxSize st;
     head := head st; tail := tail st; nodes := ns |}.
Definition withRepository (repo : R) (st : t R) : t R :=
  {| repository := repo; cache := cache st; maxSize := maxSize st;
     head := head st; tail := tail st; nodes := nodes st |}.

(** Reading and writing the fields of the node at a reference. *)
Definition prevOf (st : t R) (l : nat) : option nat :=
  match nodes st !! l with Some n => prev n | None => None end.
Definition nextOf (st : t R) (l : nat) : option nat :=
  match nodes st !! l with Some n => next n | None => None end.
Definition setPrev (l : nat) (v : option nat) (st : t R) : t R :=
  withNodes (alter (λ n, {| key := key n; prev := v; next := next n |}) l (nodes st)) st.
Definition setNext (l : nat) (v : option nat) (st : t R) : t R :=
  withNodes (alter (λ n, {| key := key n; prev := prev n; next := v |}) l (nodes st)) st.

(** [addToFront(node)] *)
Definition addToFront (l : nat) (st : t R) : t R :=
  let st := setNext l (head st) st in
  let st := setPrev l None st in
  let st := match head st with
            | Some h => setPrev h (Some l) st
            | None => st
            end in
  let st := withHead (Some l) st in
  match tail st with
  | None => withTail (Some l) st
  | Some _ => st
  end.

(** [moveToFront(key)] *)
Definition moveToFront (k : string) (st : t R) : t R :=
  match cache st !! k with
  | None => st
  | Some entry =>
      let l := node entry in
      let st := match prevOf st l with
                | Some p => setNext p (nextOf st l) st
                | None => st
                end in
      let st := match nextOf st l with
                | Some n => setPrev n (prevOf st l) st
                | None => st
                end in
      let st := if decide (tail st = Some l) then withTail (prevOf st l) st else st in
      addToFront l st
  end.

(** [remove(key)] *)
Definition remove (k : string) (st : t R) : t R :=
  match cache st !! k with
  | None => st
  | Some entry =>
      let l := node entry in
      let st := match prevOf st l with
                | Some p => setNext p (nextOf st l) st
                | None => st
                end in
      let st := match nextOf st l with
                | Some n => setPrev n (prevOf st l) st
                | None => st
                end in
      let st := if decide (head st = Some l) then withHead (nextOf st l) st else st in
      if decide (tail st = Some l) then withTail (prevOf st l) st else st
  end.

(** [removeTail()] *)
Definition removeTail (st : t R) : t R :=
  match tail st with
  | None => st
  | Some tl =>
      match prevOf st tl with
      | Some p => withTail (Some p) (setNext p None st)
      | None => withTail None (withHead None st)
      end
  end.

(** [this.tail.key] *)
Definition keyOf (st : t R) (l : nat) : string :=
  match nodes st !! l with Some n => key n | None => "" end.

(** [set(key, data)] *)
Definition set (k : string) (d : list TelemetryFrame.t) (st : t R) : t R :=
  let st := match cache st !! k with
            | Some _ => remove k st
            | None => st
            end in
  let st := match tail st with
            | Some tl =>
                if Z.of_nat (base.size (cache st)) >=? maxSize st
                then removeTail (withCache (delete (keyOf st tl) (cache st)) st)
                else st
            | None => st
            end in
  let l := length (nodes st) in
  let st := withNodes (nodes st ++ [{| key := k; prev := None; next := None |}])%list st in
  let st := withCache (<[k := {| data := d; node := l |}]> (cache st)) st in
  addToFront l st.

(** [`${vehicleId}-${lap}`] *)
Definition cacheKey (vehicleId : string) (lap : Z) : string :=
  vehicleId ++ "-" ++ intToString lap.

(** [getTelemetryByVehicleAndLap(vehicleId, lap)] *)
Definition getTelemetryByVehicleAndLap (st : t R) (vehicleId : string) (lap : Z)
  : list TelemetryFrame.t * t R :=
  let k := cacheKey vehicleId lap in
  match cache st !! k with
  | Some _ =>
      let st := moveToFront k st in
      (match cache st !! k with Some e => data e | None => [] end, st)
  | None =>
      let d := ITelemetryRepository.getTelemetryByVehicleAndLap (repository st) vehicleId lap in
      (d, set k d st)
  end.

(** [getTelemetryByTimeRange]: not cached. *)
Definition getTelemetryByTimeRange (st : t R) (vehicleId : string)
    (startTime endTime : num) : list TelemetryFrame.t * t R :=
  (ITelemetryRepository.getTelemetryByTimeRange (repository st) vehicleId startTime endTime,
   st).

Definition getAllVehicleIds (st : t R) : list string * t R :=
  (ITelemetryRepository.getAllVehicleIds (repository st), st).

Definition getMaxLapNumber (st : t R) (vehicleId : string) : num * t R :=
  (ITelemetryRepository.getMaxLapNumber (repository st) vehicleId, st).

(** [this.cache.clear(); this.head = null; this.tail = null] *)
Definition invalidate (st : t R) : t R :=
  withTail None (withHead None (withCache ∅ st)).

Definition saveTelemetry (st : t R) (frames : list TelemetryFrame.t) : t R :=
  let st := invalidate st in
  withRepository (ITelemetryRepository.saveTelemetry (repository st) frames) st.

Definition clear (st : t R) : t R :=
  let st := invalidate st in
  withRepository (ITelemetryRepository.clear (repository st)) st.

(** [getCacheStats()] *)
Definition getCacheStats (st : t R) : CacheStats :=
  {| size := base.size (cache st); statsMaxSize := maxSize st |}.
End Cache.

End TelemetryCache.

(* ===================================================================== *)
(** ** Use case [GetVehicleTelemetry]                                     *)
(* ===================================================================== *)

Module GetVehicleTelemetry.
Import Js.

Section UseCase.
Context {R : Type} `{ITelemetryRepository.t R}.

(** [execute(vehicleId, lap)] on a repository that hands out a copy of
    its frames, as [TelemetryRepository] does: the sort in place works
    on the copy. *)
Definition execute (repo : R) (vehicleId : string) (lap : Z)
  : result (list TelemetryFrame.t) :=
  if negb (truthyStr vehicleId) || isBlank vehicleId
  then Throw "Vehicle ID is required"
  else if lap <? 0
  then Throw "Lap number must be non-negative"
  else Ok (TelemetryFrame.sortByTimestamp
             (ITelemetryRepository.getTelemetryByVehicleAndLap repo vehicleId lap)).
End UseCase.

End GetVehicleTelemetry.

(* ===================================================================== *)
(** ** Definitions used to state the properties                           *)
(* ===================================================================== *)

(** A runtime to evaluate examples with: dates are written as their time
    value in decimal, and no other string is a date or a number. *)
Module ExampleRuntime.
Import Js.

Definition parse (s : string) : num :=
  match NilZero.int_of_string s with
  | Some d =>
      if String.eqb (intToString (Z.of_int d)) s && (Z.abs (Z.of_int d) <=? maxTime)
      then Num (Z.of_int d)
      else NaN
  | None => NaN
  end.

#[global] Instance runtime : JsRuntime := {|
  Date_parse := parse;
  Date_toISOString := intToString;
  StringToNumber := λ _, NaN;
  Date_toString := intToString
|}.
End ExampleRuntime.

(** What the code relies on from [Date]: an ISO string is not empty and
    parses back to the time value it was printed from. *)
Class JsDateLaws `{JsRuntime} : Prop := {
  toISOString_nonempty : ∀ t, Date_toISOString t ≠ "";
  parse_toISOString :
    ∀ t, Z.abs t ≤ Js.maxTime → Date_parse (Date_toISOString t) = Js.Num t
}.

Module IngestionSpec.
Import Js TelemetryCSVParser.

(** The validity predicate in the words of the specification, on the
    canonical fields of a normalized record. *)
Definition nonEmpty (c : cell string) : Prop := ∃ s, c = Val s ∧ s ≠ "".
Definition present (c : cell Z) : Prop := ∃ v, c = Val v.
Definition numeric (c : cell Z) : Prop := ∃ n, c = Val n.

Definition valid (row : NormalizedRow) : Prop :=
  nonEmpty (n_telemetry_name row) ∧
  present (n_telemetry_value row) ∧
  nonEmpty (n_timestamp row) ∧
  nonEmpty (n_vehicle_id row) ∧
  numeric (n_lap row).

(** The typed row of a record that passes [isValidRow]. *)
Definition validRow (raw : RawRecord) : option TelemetryRow :=
  if isValidRow (normalizeRow raw) then narrow (normalizeRow raw) else None.

(** The row that a record contributes when it is looked at: it has to
    be valid and to pass the filter. *)
Definition accept (opts : Options) (raw : RawRecord) : option TelemetryRow :=
  match validRow raw with
  | Some r => if passesFilter (filter opts) r then Some r else None
  | None => None
  end.

(** The rows a chunk contributes; [count] is the number of records
    read up to and including this chunk. *)
Definition matchedChunk (opts : Options) (count : Z) (rows : list RawRecord)
  : list TelemetryRow :=
  if count <=? skipRows opts then [] else omap (accept opts) rows.

(** The rows the whole stream contributes, in stream order, when
    nothing stops the reader. [count] is the number of records read
    before the first chunk. *)
Fixpoint matched (opts : Options) (count : Z) (chunks : list (list RawRecord))
  : list TelemetryRow :=
  match chunks with
  | [] => []
  | rows :: rest =>
      let count' := count + Z.of_nat (length rows) in
      (matchedChunk opts count' rows ++ matched opts count' rest)%list
  end.

Section Capped.
Context `{JsRuntime}.

(** The state in which the row loop leaves a run that had
    accumulated no more than [all] when [all] is what it has now
    seen, and whether it left by [return]. *)
Definition capped (opts : Options) (st : State) (all : list TelemetryRow)
  : State * bool :=
  let m := Z.to_nat (maxRows opts) in
  if (m <=? length all)%nat then
    ({| rawRows := take m all; rowCount := rowCount st; aborted := true;
        parserAborted := true; settled := Some (pivotToFrames (take m all));
        progress := progress st |}, true)
  else
    ({| rawRows := all; rowCount := rowCount st; aborted := false;
        parserAborted := false; settled := None; progress := progress st |},
     false).

(** A run that has neither aborted nor settled. *)
Definition running (st : State) : Prop :=
  aborted st = false ∧ parserAborted st = false ∧ settled st = None.

(** A run that has aborted and settled with the pivot of the rows it
    holds. *)
Definition settledWithRows (st : State) : Prop :=
  aborted st = true ∧ settled st = Some (pivotToFrames (rawRows st)).
End Capped.

(** A row whose value is a number, as [TelemetryRow] declares it. *)
Definition numberRow (row : TelemetryRow) : Prop := ∃ n, telemetry_value row = VNum n.

(** The shape of a group's metric table when the rows hold numbers:
    apart from the timestamp and the vehicle id that the pivot stores
    itself, every entry is a number. *)
Definition numericTable (metrics : gmap string value) : Prop :=
  ∀ k v, metrics !! k = Some v →
         k = "_timestamp" ∨ k = "_vehicle_id" ∨ ∃ n, v = VNum n.

(** A position in percent. *)
Definition percent (n : num) : Prop := ∃ z, n = Num z ∧ 0 ≤ z ≤ 100.

(** A position in percent, or [NaN]. *)
Definition percentOrNaN (n : num) : Prop := n = NaN ∨ percent n.

(** The value of a channel of a group, [0] when the group has no row
    for it. *)
Definition channel (metrics : gmap string value) (name : string) : Z :=
  match metrics !! name with
  | Some (VNum (Num z)) => z
  | _ => 0
  end.

(** A row of the vehicle [v] and the lap [l]. *)
Definition rowOf (v : string) (l : Z) (row : TelemetryRow) : Prop :=
  normalizeVehicleId (vehicle_id row) = v ∧ lap row = l.

(** A metric table that carries the vehicle [v] and the lap [l]. *)
Definition tableOf (v : string) (l : Z) (metrics : gmap string value) : Prop :=
  (∃ vid, metrics !! "_vehicle_id" = Some (VStr vid) ∧ normalizeVehicleId vid = v) ∧
  metrics !! "_lap" = Some (VNum (Num l)).

(** Names that the pivot keeps for its own entries of a metric table. *)
Definition reserved (name : string) : Prop :=
  name = "_timestamp" ∨ name = "_vehicle_id" ∨ name = "_lap".
End IngestionSpec.

(** The validity of a record in the words of the specification, on the
    cells that the reader delivers. *)
Module ValiditySpec.
Import Js RowNormalizer.

(** A cell that is missing, [null] or the empty text. *)
Definition empty (c : cell value) : bool :=
  match c with
  | Val (VStr s) => negb (truthyStr s)
  | Val _ => false
  | _ => true
  end.

(** A cell that holds a value. *)
Definition present (c : cell value) : bool :=
  match c with Val _ => true | _ => false end.

(** A cell that holds a number. *)
Definition numeric (c : cell value) : bool :=
  match c with Val (VNum _) => true | _ => false end.

(** The first alias that is not empty. *)
Fixpoint firstNonEmpty (aliases : list (cell value)) : cell value :=
  match aliases with
  | [] => Absent
  | c :: rest => if empty c then firstNonEmpty rest else c
  end.

(** The first alias that holds a value. *)
Fixpoint firstPresent (aliases : list (cell value)) : cell value :=
  match aliases with
  | [] => Absent
  | c :: rest => if present c then c else firstPresent rest
  end.

(** The record is valid: its name, timestamp and vehicle id are not
    empty, its value is present and its lap is a number, each looked up
    through its aliases in order. *)
Definition valid (raw : RawRecord) : bool :=
  negb (empty (firstNonEmpty [raw_telemetry_name raw; raw_name raw;
                              raw_Parameter raw; raw_signal raw])) &&
  present (firstPresent [raw_telemetry_value raw; raw_value raw;
                         raw_Value raw; raw_result raw]) &&
  negb (empty (firstNonEmpty [raw_timestamp raw; raw_Time raw; raw_time raw])) &&
  negb (empty (firstNonEmpty [raw_vehicle_id raw; raw_VehicleId raw; raw_vehicleId raw])) &&
  numeric (firstNonEmpty [raw_lap raw; raw_Lap raw; raw_lapNumber raw]).

(** A cell at the declared type [string], or without a value. *)
Definition textCell (c : cell value) : Prop :=
  match c with Val (VStr _) => True | Val _ => False | _ => True end.

(** A cell at the declared type [number], or without a value; the
    reader yields no [NaN]. *)
Definition numberCell (c : cell value) : Prop :=
  match c with Val (VNum (Num _)) => True | Val _ => False | _ => True end.

(** A record whose cells are at the types that [interface TelemetryRow]
    declares for the fields they stand for. *)
Definition declared (raw : RawRecord) : Prop :=
  Forall textCell [raw_timestamp raw; raw_Time raw; raw_time raw;
                   raw_vehicle_id raw; raw_VehicleId raw; raw_vehicleId raw;
                   raw_telemetry_name raw; raw_name raw; raw_Parameter raw;
                   raw_signal raw] ∧
  Forall numberCell [raw_lap raw; raw_Lap raw; raw_lapNumber raw;
                     raw_telemetry_value raw; raw_value raw; raw_Value raw;
                     raw_result raw].

(** A canonical column that the file does not have, or that is filled
    in this record. *)
Definition missingOrFilled (c : cell value) : Prop :=
  c = Absent ∨ empty c = false.

Definition canonicalFilled (raw : RawRecord) : Prop :=
  Forall missingOrFilled [raw_timestamp raw; raw_vehicle_id raw; raw_lap raw;
                          raw_telemetry_name raw; raw_telemetry_value raw].
End ValiditySpec.

Module LapSpec.
Import Js LapTimeCSVParser.

(** The unique rows under construction: one row per lap number, filed
    under its own lap number. *)
Definition filedByLap (m : list (Z * LapCSVRow)) : Prop :=
  NoDup (map fst m) ∧ ∀ e, e ∈ m → lap e.2 = e.1.

(** The rows of one vehicle, in input order. *)
Definition rowsOf (v : string) (rows : list LapCSVRow) : list LapCSVRow :=
  List.filter (λ r, bool_decide (vehicle_id r = v)) rows.

(** Each row of a sequence with the row before it. *)
Definition consecutive (rows : list LapCSVRow) : list (option LapCSVRow * LapCSVRow) :=
  zip (None :: map Some rows) rows.

(** The vehicle ids of the rows, each once, in the order in which they
    are first met. *)
Definition seen (ids : list string) (v : string) : list string :=
  if decide (v ∈ ids) then ids else (ids ++ [v])%list.

Definition vehiclesOf (rows : list LapCSVRow) : list string :=
  fold_left seen (map vehicle_id rows) [].

(** The start stated for a lap that ends at [e]: the time of the row
    before it, and 120000 ms before the end for a first row or when the
    row before is not earlier than the end. *)
Definition statedStart (e : Z) (prevTime : option Z) : Z :=
  match prevTime with
  | None => e - 120000
  | Some pt => if pt >=? e then e - 120000 else pt
  end.

Section WithRuntime.
Context `{JsRuntime}.

(** The lap of a row, when one can be constructed. *)
Definition lapOf (pr : option LapCSVRow * LapCSVRow) : option Lap.t :=
  match convertToLap pr.2 pr.1 with
  | Ok l => Some l
  | Throw _ => None
  end.

(** The boundaries stated for the lap [l] of [row], [prevRow] being the
    row before it among the unique rows of the vehicle. *)
Definition boundaries (row : LapCSVRow) (prevRow : option LapCSVRow) (l : Lap.t) : Prop :=
  ∃ e, JsDate.parseTime (timestamp row) = Num e ∧
       Lap.endTime l = Num e ∧
       match prevRow with
       | None => Lap.startTime l = Num (e - 120000)
       | Some p =>
           ∃ pt, JsDate.parseTime (timestamp p) = Num pt ∧
                 Lap.startTime l = Num (if pt >=? e then e - 120000 else pt)
       end.
End WithRuntime.
End LapSpec.

Module CacheSpec.
Import Js.

(** A call of the repository interface and what it returns. *)
Inductive call : Type :=
| Get (vehicleId : string) (lap : Z)
| Range (vehicleId : string) (startTime endTime : num)
| VehicleIds
| MaxLap (vehicleId : string)
| Save (frames : list TelemetryFrame.t)
| Clear.

Inductive response : Type :=
| Frames (frames : list TelemetryFrame.t)
| Ids (ids : list string)
| Number (n : num)
| Done.

Section Runs.
Context {R : Type} `{ITelemetryRepository.t R}.

(** One call made on the repository itself. *)
Definition direct (repo : R) (c : call) : response * R :=
  match c with
  | Get v l => (Frames (ITelemetryRepository.getTelemetryByVehicleAndLap repo v l), repo)
  | Range v s e => (Frames (ITelemetryRepository.getTelemetryByTimeRange repo v s e), repo)
  | VehicleIds => (Ids (ITelemetryRepository.getAllVehicleIds repo), repo)
  | MaxLap v => (Number (ITelemetryRepository.getMaxLapNumber repo v), repo)
  | Save frames => (Done, ITelemetryRepository.saveTelemetry repo frames)
  | Clear => (Done, ITelemetryRepository.clear repo)
  end.

(** The same call made on the cache that wraps the repository. *)
Definition cached (st : TelemetryCache.t R) (c : call) : response * TelemetryCache.t R :=
  match c with
  | Get v l =>
      let '(frames, st') := TelemetryCache.getTelemetryByVehicleAndLap st v l in
      (Frames frames, st')
  | Range v s e =>
      let '(frames, st') := TelemetryCache.getTelemetryByTimeRange st v s e in
      (Frames frames, st')
  | VehicleIds =>
      let '(ids, st') := TelemetryCache.getAllVehicleIds st in (Ids ids, st')
  | MaxLap v =>
      let '(n, st') := TelemetryCache.getMaxLapNumber st v in (Number n, st')
  | Save frames => (Done, TelemetryCache.saveTelemetry st frames)
  | Clear => (Done, TelemetryCache.clear st)
  end.

(** The responses to a sequence of calls, and the state it leaves. *)
Fixpoint runDirect (repo : R) (calls : list call) : list response * R :=
  match calls with
  | [] => ([], repo)
  | c :: rest =>
      let '(r, repo') := direct repo c in
      let '(rs, final) := runDirect repo' rest in
      (r :: rs, final)
  end.

Fixpoint runCached (st : TelemetryCache.t R) (calls : list call)
  : list response * TelemetryCache.t R :=
  match calls with
  | [] => ([], st)
  | c :: rest =>
      let '(r, st') := cached st c in
      let '(rs, final) := runCached st' rest in
      (r :: rs, final)
  end.

(** Every cached entry holds what the repository returns for the
    vehicle and the non-negative lap that its key was made from. *)
Definition coherent (st : TelemetryCache.t R) : Prop :=
  ∀ k entry, TelemetryCache.cache st !! k = Some entry →
    ∀ v l, 0 ≤ l → TelemetryCache.cacheKey v l = k →
      TelemetryCache.data entry
      = ITelemetryRepository.getTelemetryByVehicleAndLap (TelemetryCache.repository st) v l.
End Runs.

(** A call whose lap number, if it has one, is not negative. *)
Definition lapNotNegative (c : call) : Prop :=
  match c with
  | Get _ l => 0 ≤ l
  | _ => True
  end.

(** The keys held by the cache. *)
Definition keys {R : Type} (st : TelemetryCache.t R) : gset string :=
  dom (TelemetryCache.cache st).

(** The nodes met from [start] along the [next] references, at most
    [fuel] of them. *)
Fixpoint walk {R : Type} (fuel : nat) (st : TelemetryCache.t R) (start : option nat)
  : list nat :=
  match fuel, start with
  | S fuel', Some l => l :: walk fuel' st (TelemetryCache.nextOf st l)
  | _, _ => []
  end.

(** The node at reference [l] is the [i]-th of the list [ls]: its
    [prev] is the node before it and its [next] the node after it. *)
Definition nodeAt {R : Type} (st : TelemetryCache.t R) (ls : list nat) (i l : nat) : Prop :=
  ∃ n, TelemetryCache.nodes st !! l = Some n ∧
       TelemetryCache.prev n = match i with O => None | S j => ls !! j end ∧
       TelemetryCache.next n = ls !! S i.

(** The recency list is the sequence [ls] of distinct nodes, from [head]
    to [tail], with consistent links in both directions. *)
Definition linked {R : Type} (st : TelemetryCache.t R) (ls : list nat) : Prop :=
  NoDup ls ∧
  TelemetryCache.head st = ls !! 0%nat ∧
  TelemetryCache.tail st = last ls ∧
  ∀ i l, ls !! i = Some l → nodeAt st ls i l.

(** The map and the list [ls] hold the same entries: the node of every
    key of the map is in the list and carries that key, and the key of
    every node of the list is in the map with that node. *)
Definition agrees {R : Type} (st : TelemetryCache.t R) (ls : list nat) : Prop :=
  (∀ k e, TelemetryCache.cache st !! k = Some e →
          TelemetryCache.node e ∈ ls ∧ TelemetryCache.keyOf st (TelemetryCache.node e) = k) ∧
  (∀ l, l ∈ ls → ∃ e, TelemetryCache.cache st !! TelemetryCache.keyOf st l = Some e ∧
                      TelemetryCache.node e = l).

(** The invariant of the cache: map and list agree on an acyclic,
    consistently linked list. *)
Definition consistent {R : Type} (st : TelemetryCache.t R) : Prop :=
  ∃ ls, linked st ls ∧ agrees st ls.

(** The keys of the nodes of [ls], most recently used first. *)
Definition recency {R : Type} (st : TelemetryCache.t R) (ls : list nat) : list string :=
  map (TelemetryCache.keyOf st) ls.

(** The list after the eviction that [set] performs when the cache is
    full. *)
Definition afterEviction {R : Type} (st : TelemetryCache.t R) (ls : list nat) : list nat :=
  if Z.of_nat (length ls) >=? TelemetryCache.maxSize st
  then take (length ls - 1) ls else ls.

(** The [m] keys used last, the last one first. *)
Definition mostRecent (m : Z) (used : list string) : list string :=
  take (Z.to_nat m) (reverse used).

(** A lookup given by its vehicle and lap, and its key. *)
Definition keyOfCall (p : string * Z) : string := TelemetryCache.cacheKey p.1 p.2.
Definition getOf (p : string * Z) : call := Get p.1 p.2.

(** The state after the first three statements of [moveToFront], which
    take the node [l] out of the list. *)
Definition unlinked {R : Type} (l : nat) (st : TelemetryCache.t R) : TelemetryCache.t R :=
  let st := match TelemetryCache.prevOf st l with
            | Some p => TelemetryCache.setNext p (TelemetryCache.nextOf st l) st
            | None => st
            end in
  let st := match TelemetryCache.nextOf st l with
            | Some n => TelemetryCache.setPrev n (TelemetryCache.prevOf st l) st
            | None => st
            end in
  if decide (TelemetryCache.tail st = Some l)
  then TelemetryCache.withTail (TelemetryCache.prevOf st l) st else st.

(** A lookup whose key is held by the node at the head of the list. *)
Definition hitsHead {R : Type} (st : TelemetryCache.t R) (c : call) : Prop :=
  match c with
  | Get v l => ∃ e, TelemetryCache.cache st !! TelemetryCache.cacheKey v l = Some e ∧
                    TelemetryCache.head st = Some (TelemetryCache.node e)
  | _ => False
  end.

(** Whether the key is held by the cache. *)
Definition holds {R : Type} (st : TelemetryCache.t R) (k : string) : bool :=
  bool_decide (is_Some (TelemetryCache.cache st !! k)).
End CacheSpec.

Module ProgressSpec.
Import Js TelemetryCSVParser.

End ProgressSpec.

Module LruSpec.
Import Js CacheSpec.

(** A sequence of calls none of which is a lookup of the key whose node
    is at the head of the list when the call is made. *)
Fixpoint avoidsHead {R : Type} `{ITelemetryRepository.t R}
    (st : TelemetryCache.t R) (calls : list call) : Prop :=
  match calls with
  | [] => True
  | c :: rest => ¬ hitsHead st c ∧ avoidsHead (cached st c).2 rest
  end.
End LruSpec.

Module RepositorySpec.
Import Js.

(** A frame of the vehicle [v] and the lap [l]. *)
Definition filedAt (v : string) (l : Z) (f : TelemetryFrame.t) : bool :=
  bool_decide (TelemetryFrame.vehicleId f = v ∧ TelemetryFrame.lap f = Num l).

(** Ascending order of the time values. *)
Definition byTime (frames : list TelemetryFrame.t) : Prop :=
  Sorted (λ a b, TelemetryFrame.timeKey a ≤ TelemetryFrame.timeKey b) frames.

(** The repository after the batches have been saved one after the
    other. *)
Definition saved (batches : list (list TelemetryFrame.t)) : TelemetryRepository.t :=
  fold_left TelemetryRepository.saveTelemetry batches TelemetryRepository.empty.

(** The frames that the repository holds for a vehicle, lap after lap,
    and the lap numbers it holds them under. *)
Definition framesOf (repo : TelemetryRepository.t) (v : string) : list TelemetryFrame.t :=
  concat (map snd (default [] (mapGet v repo))).

Definition lapsOf (repo : TelemetryRepository.t) (v : string) : list num :=
  map fst (default [] (mapGet v repo)).

(** A frame of the vehicle [v]; one of them within a time range. *)
Definition ofVehicle (v : string) (f : TelemetryFrame.t) : bool :=
  bool_decide (TelemetryFrame.vehicleId f = v).

Definition ofVehicleWithin (v : string) (startTime endTime : num) (f : TelemetryFrame.t)
  : bool :=
  ofVehicle v f && TelemetryRepository.inRange startTime endTime f.
End RepositorySpec.

Module LapRepositorySpec.
Import Js.

(** The repository after the batches have been saved one after the
    other. *)
Definition saved (batches : list (list Lap.t)) : LapRepository.t :=
  fold_left LapRepository.saveLaps batches LapRepository.empty.

(** A lap whose number is a number. *)
Definition numbered (lap : Lap.t) : Prop := ∃ n, Lap.lapNumber lap = Num n.

(** A lap of the vehicle [v] with the number [n], and the last of them
    in a list. *)
Definition filedAs (v : string) (n : Z) (lap : Lap.t) : bool :=
  bool_decide (Vehicle.id (Lap.vehicle lap) = v ∧ Lap.lapNumber lap = Num n).

Definition lastSaved (v : string) (n : Z) (laps : list Lap.t) : option Lap.t :=
  last (List.filter (filedAs v n) laps).

(** Strictly ascending lap numbers. *)
Definition byNumber (laps : list Lap.t) : Prop :=
  StronglySorted (λ a b, lt (Lap.lapNumber a) (Lap.lapNumber b) = true) laps.

(** What [saveLaps] keeps of the laps held for the vehicle [v], and of
    the repository. *)
Definition filed (v : string) (laps : list Lap.t) : Prop :=
  Forall (λ lap, Vehicle.id (Lap.vehicle lap) = v ∧ numbered lap) laps ∧
  NoDup (map LapRepository.lapKey laps).

Definition wellFiled (repo : LapRepository.t) : Prop :=
  NoDup (map fst repo) ∧ ∀ v laps, (v, laps) ∈ repo → filed v laps.
End LapRepositorySpec.

Module SessionSpec.
Import Js.

(** The session after the laps have been added one after the other. *)
Definition added (s : RaceSession.t) (laps : list Lap.t) : RaceSession.t :=
  fold_left RaceSession.addLap laps s.

(** A lap of the vehicle with the given id. *)
Definition drivenBy (vehicleId : string) (lap : Lap.t) : bool :=
  bool_decide (Vehicle.id (Lap.vehicle lap) = vehicleId).

(** A lap between two valid dates, the first before the second. *)
Definition timed (lap : Lap.t) : Prop :=
  ∃ s e, Lap.startTime lap = Num s ∧ Lap.endTime lap = Num e ∧ s < e.
End SessionSpec.

(** Inputs for the examples. *)
Module Examples.
Import Js.

(** A record with the canonical column names only. *)
Definition record (ts vid : string) (l : Z) (name : string) (v : Z)
  : TelemetryCSVParser.RawRecord :=
  {| TelemetryCSVParser.raw_timestamp := Val ts;
     TelemetryCSVParser.raw_Time := Absent;
     TelemetryCSVParser.raw_time := Absent;
     TelemetryCSVParser.raw_vehicle_id := Val vid;
     TelemetryCSVParser.raw_VehicleId := Absent;
     TelemetryCSVParser.raw_vehicleId := Absent;
     TelemetryCSVParser.raw_lap := Val l;
     TelemetryCSVParser.raw_Lap := Absent;
     TelemetryCSVParser.raw_lapNumber := Absent;
     TelemetryCSVParser.raw_telemetry_name := Val name;
     TelemetryCSVParser.raw_name := Absent;
     TelemetryCSVParser.raw_Parameter := Absent;
     TelemetryCSVParser.raw_signal := Absent;
     TelemetryCSVParser.raw_telemetry_value := Val v;
     TelemetryCSVParser.raw_value := Absent;
     TelemetryCSVParser.raw_Value := Absent;
     TelemetryCSVParser.raw_result := Absent |}.

(** A record whose lap comes under the alias [Lap]. *)
Definition lapAliasRecord (l : Z) : TelemetryCSVParser.RawRecord :=
  {| TelemetryCSVParser.raw_timestamp := Val "1000";
     TelemetryCSVParser.raw_Time := Absent;
     TelemetryCSVParser.raw_time := Absent;
     TelemetryCSVParser.raw_vehicle_id := Val "GR86-V1";
     TelemetryCSVParser.raw_VehicleId := Absent;
     TelemetryCSVParser.raw_vehicleId := Absent;
     TelemetryCSVParser.raw_lap := Absent;
     TelemetryCSVParser.raw_Lap := Val l;
     TelemetryCSVParser.raw_lapNumber := Absent;
     TelemetryCSVParser.raw_telemetry_name := Val "Speed";
     TelemetryCSVParser.raw_name := Absent;
     TelemetryCSVParser.raw_Parameter := Absent;
     TelemetryCSVParser.raw_signal := Absent;
     TelemetryCSVParser.raw_telemetry_value := Val 120;
     TelemetryCSVParser.raw_value := Absent;
     TelemetryCSVParser.raw_Value := Absent;
     TelemetryCSVParser.raw_result := Absent |}.

(** A frame with the given time, vehicle and lap. *)
Definition frame (time : Z) (vid : string) (l : Z) : TelemetryFrame.t :=
  {| TelemetryFrame.timestamp := Num time;
     TelemetryFrame.vehicleId := vid;
     TelemetryFrame.lap := Num l;
     TelemetryFrame.speed := Num 120;
     TelemetryFrame.throttlePos := Num 85;
     TelemetryFrame.brakePos := Num 0;
     TelemetryFrame.gpsLatitude := Num 30;
     TelemetryFrame.gpsLongitude := Num (-97);
     TelemetryFrame.steeringAngle := None;
     TelemetryFrame.gear := Some (Num 3) |}.

(** The data that [frame] is constructed from. *)
Definition frameData (time : Z) (vid : string) (l : Z) : TelemetryFrame.TelemetryFrameData :=
  {| TelemetryFrame.d_timestamp := JsDate.OfDate (Num time);
     TelemetryFrame.d_vehicleId := vid;
     TelemetryFrame.d_lap := Num l;
     TelemetryFrame.d_speed := Num 120;
     TelemetryFrame.d_throttlePos := Num 85;
     TelemetryFrame.d_brakePos := Num 0;
     TelemetryFrame.d_gpsLatitude := Num 30;
     TelemetryFrame.d_gpsLongitude := Num (-97);
     TelemetryFrame.d_steeringAngle := None;
     TelemetryFrame.d_gear := Some (Num 3) |}.

(** The vehicle with chassis [032] and car number 15. *)
Definition vehicle : Vehicle.t :=
  {| Vehicle.chassis := "032"; Vehicle.carNumber := Num 15; Vehicle.id := "032-15" |}.

(** A lap of that vehicle from [startTime] to [endTime], and the data
    it is constructed from. *)
Definition lap (n startTime endTime : Z) : Lap.t :=
  {| Lap.lapNumber := Num n;
     Lap.vehicle := vehicle;
     Lap.startTime := Num startTime;
     Lap.endTime := Num endTime;
     Lap.sectorTimes := ∅ |}.

Definition lapData (n startTime endTime : Z) : Lap.LapData :=
  {| Lap.d_lapNumber := Num n;
     Lap.d_vehicle := Some vehicle;
     Lap.d_startTime := JsDate.OfDate (Num startTime);
     Lap.d_endTime := JsDate.OfDate (Num endTime);
     Lap.d_sectorTimes := None |}.

(** A filter on vehicle ["V1"] and lap [0], with the default options
    otherwise. *)
Definition lapZeroOptions : TelemetryCSVParser.Options :=
  {| TelemetryCSVParser.maxRows := 100000;
     TelemetryCSVParser.skipRows := 0;
     TelemetryCSVParser.filter :=
       Some {| TelemetryCSVParser.f_vehicleId := Some "V1";
               TelemetryCSVParser.f_lap := Some 0 |};
     TelemetryCSVParser.onProgress := false |}.

(** A filter on vehicle ["V1"] and lap [5]. *)
Definition lapFiveOptions : TelemetryCSVParser.Options :=
  {| TelemetryCSVParser.maxRows := 100000;
     TelemetryCSVParser.skipRows := 0;
     TelemetryCSVParser.filter :=
       Some {| TelemetryCSVParser.f_vehicleId := Some "V1";
               TelemetryCSVParser.f_lap := Some 5 |};
     TelemetryCSVParser.onProgress := false |}.

(** The data of a session, and the session constructed from it in the
    example runtime. *)
Definition sessionData : RaceSession.RaceSessionData :=
  {| RaceSession.d_sessionId := "R1";
     RaceSession.d_sessionName := "Race 1";
     RaceSession.d_trackName := "COTA";
     RaceSession.d_trackLengthKm := Num 5;
     RaceSession.d_sessionDate := JsDate.OfDate (Num 0) |}.

Definition session : RaceSession.t :=
  {| RaceSession.sessionId := "R1";
     RaceSession.sessionName := "Race 1";
     RaceSession.trackName := "COTA";
     RaceSession.trackLengthKm := Num 5;
     RaceSession.sessionDate := Num 0;
     RaceSession.laps := [];
     RaceSession.registered := [] |}.

(** A row of the lap-timing file without further columns. *)
Definition lapRow (vid : string) (l : Z) (ts : string) (v : Z) : LapTimeCSVParser.LapCSVRow :=
  {| LapTimeCSVParser.vehicle_id := vid;
     LapTimeCSVParser.lap := l;
     LapTimeCSVParser.timestamp := ts;
     LapTimeCSVParser.value := Val v;
     LapTimeCSVParser.others := ∅ |}.



(** A typed row of vehicle [GR86-V1] at time [1000] in lap 3. *)
Definition row (name : string) (v : Z) : TelemetryCSVParser.TelemetryRow :=
  {| TelemetryCSVParser.timestamp := "1000";
     TelemetryCSVParser.vehicle_id := "GR86-V1";
     TelemetryCSVParser.lap := 3;
     TelemetryCSVParser.telemetry_name := name;
     TelemetryCSVParser.telemetry_value := VNum (Num v) |}.

(** A record as the reader delivers it, of vehicle [GR86-V1] at time
    [1000]: the lap under the columns [lap], [Lap] and [lapNumber], the
    name and the value under their canonical columns. *)
Definition reading (l L lapNumber : cell value) (name : string) (v : cell value)
  : RowNormalizer.RawRecord :=
  {| RowNormalizer.raw_timestamp := Val (VStr "1000");
     RowNormalizer.raw_Time := Absent;
     RowNormalizer.raw_time := Absent;
     RowNormalizer.raw_vehicle_id := Val (VStr "GR86-V1");
     RowNormalizer.raw_VehicleId := Absent;
     RowNormalizer.raw_vehicleId := Absent;
     RowNormalizer.raw_lap := l;
     RowNormalizer.raw_Lap := L;
     RowNormalizer.raw_lapNumber := lapNumber;
     RowNormalizer.raw_telemetry_name := Val (VStr name);
     RowNormalizer.raw_name := Absent;
     RowNormalizer.raw_Parameter := Absent;
     RowNormalizer.raw_signal := Absent;
     RowNormalizer.raw_telemetry_value := v;
     RowNormalizer.raw_value := Absent;
     RowNormalizer.raw_Value := Absent;
     RowNormalizer.raw_result := Absent |}.

(** A row of vehicle [GR86-V1] at time [1000] in lap 3 with any value. *)
Definition rowOf (name : string) (v : value) : TelemetryCSVParser.TelemetryRow :=
  {| TelemetryCSVParser.timestamp := "1000";
     TelemetryCSVParser.vehicle_id := "GR86-V1";
     TelemetryCSVParser.lap := 3;
     TelemetryCSVParser.telemetry_name := name;
     TelemetryCSVParser.telemetry_value := v |}.

(** A cap of two matched rows, no filter. *)
Definition capTwoOptions : TelemetryCSVParser.Options :=
  {| TelemetryCSVParser.maxRows := 2;
     TelemetryCSVParser.skipRows := 0;
     TelemetryCSVParser.filter := None;
     TelemetryCSVParser.onProgress := false |}.

(** Three valid records of one vehicle in two chunks. *)
Definition threeRecords : list (list TelemetryCSVParser.RawRecord) :=
  [[record "1000" "GR86-V1" 3 "Speed" 120; record "1000" "GR86-V1" 3 "aTH" 85];
   [record "2000" "GR86-V1" 3 "Speed" 121]].

(** The cache calls of the examples, all for lap 1. *)
Definition gets (vehicleIds : list string) : list CacheSpec.call :=
  map (λ v, CacheSpec.Get v 1) vehicleIds.
End Examples.

(* ===================================================================== *)
(** ** Facts about the JavaScript library functions                       *)
(* ===================================================================== *)

Module JsFacts.
Import Js.

Section Sorting.
Context {A : Type} (key : A → Z).

Lemma insertSorted_perm (x : A) (l : list A) : insertSorted key x l ≡ₚ x :: l.
Proof.
  induction l as [|y l IH]; [done|].
  simpl. destruct (key x <=? key y); [done|].
  rewrite IH. apply Permutation_swap.
Qed.

Lemma sortBy_perm (l : list A) : sortBy key l ≡ₚ l.
Proof.
  induction l as [|x l IH]; [done|].
  simpl. by rewrite insertSorted_perm, IH.
Qed.

Lemma sortBy_elem_of (x : A) (l : list A) : x ∈ sortBy key l ↔ x ∈ l.
Proof. by rewrite sortBy_perm. Qed.

(** Ascending order of the keys. *)
Lemma insertSorted_sorted (x : A) (l : list A) :
  Sorted (λ a b, key a ≤ key b) l →
  Sorted (λ a b, key a ≤ key b) (insertSorted key x l).
Proof.
  induction l as [|y l IH]; intros Hs.
  - repeat constructor.
  - simpl. destruct (Z.leb_spec (key x) (key y)) as [Hle|Hgt].
    + constructor; [done|]. by constructor.
    + apply Sorted_inv in Hs as [Hs Hhd].
      constructor; [by apply IH|].
      destruct l as [|z l]; simpl.
      * constructor. lia.
      * destruct (Z.leb_spec (key x) (key z)); constructor; [lia|].
        by apply HdRel_inv in Hhd.
Qed.

Lemma sortBy_sorted (l : list A) : Sorted (λ a b, key a ≤ key b) (sortBy key l).
Proof.
  induction l as [|x l IH]; [constructor|].
  simpl. by apply insertSorted_sorted.
Qed.
End Sorting.

Section OrderedMaps.
Context {K V : Type} `{EqDecision K}.

Lemma mapGet_elem_of (k : K) (v : V) (m : list (K * V)) :
  mapGet k m = Some v → (k, v) ∈ m.
Proof.
  induction m as [|[k' v'] m IH]; [done|].
  simpl. destruct (decide (k = k')) as [->|].
  - intros [= ->]. apply list_elem_of_here.
  - intros Hg. apply list_elem_of_further. by apply IH.
Qed.

Lemma mapSet_elem_of (k : K) (v : V) (m : list (K * V)) (e : K * V) :
  e ∈ mapSet k v m → e = (k, v) ∨ e ∈ m.
Proof.
  induction m as [|[k' v'] m IH]; simpl.
  - rewrite list_elem_of_singleton. by left.
  - destruct (decide (k = k')) as [->|].
    + rewrite !elem_of_cons. tauto.
    + rewrite !elem_of_cons. intros [->|Hin]; [tauto|].
      destruct (IH Hin); tauto.
Qed.

Lemma mapSet_mapSet (k : K) (v w : V) (m : list (K * V)) :
  mapSet k v (mapSet k w m) = mapSet k v m.
Proof.
  induction m as [|[k' v'] m IH]; simpl.
  - by rewrite decide_True.
  - destruct (decide (k = k')) as [->|Hne]; simpl.
    + by rewrite decide_True.
    + rewrite decide_False by done. by rewrite IH.
Qed.

Lemma mapGet_mapSet_eq (k : K) (v : V) (m : list (K * V)) :
  mapGet k (mapSet k v m) = Some v.
Proof.
  induction m as [|[k' v'] m IH]; simpl.
  - by rewrite decide_True.
  - destruct (decide (k = k')) as [->|Hne]; simpl.
    + by rewrite decide_True.
    + by rewrite decide_False.
Qed.

Lemma mapGet_mapSet_ne (k k0 : K) (v : V) (m : list (K * V)) :
  k0 ≠ k → mapGet k0 (mapSet k v m) = mapGet k0 m.
Proof.
  intros Hne. induction m as [|[k' v'] m IH]; simpl.
  - by rewrite decide_False.
  - destruct (decide (k = k')) as [->|Hne']; simpl.
    + by rewrite !decide_False.
    + destruct (decide (k0 = k')); [done|apply IH].
Qed.
End OrderedMaps.

(** *** Decimal notation *)

Lemma to_int_proper (z : Z) :
  Z.to_int z ≠ Decimal.Pos Decimal.Nil ∧ Z.to_int z ≠ Decimal.Neg Decimal.Nil.
Proof.
  destruct z as [|p|p]; simpl; split; try done;
    intros [= Hp]; by apply (DecimalPos.Unsigned.to_uint_nonnil p).
Qed.

Lemma intToString_parse (z : Z) :
  NilZero.int_of_string (intToString z) = Some (Z.to_int z).
Proof.
  unfold intToString. destruct (to_int_proper z). by apply NilZero.isi.
Qed.

Lemma intToString_inj (a b : Z) : intToString a = intToString b → a = b.
Proof.
  intros Heq. apply DecimalZ.to_int_inj.
  pose proof (intToString_parse a) as Ha. rewrite Heq, intToString_parse in Ha.
  by injection Ha.
Qed.

Lemma intToString_nonempty (z : Z) : intToString z ≠ "".
Proof.
  intros Heq. pose proof (intToString_parse z) as Hp. rewrite Heq in Hp.
  simpl in Hp. destruct (to_int_proper z). congruence.
Qed.

Lemma digits_no_dash (d : Decimal.uint) : hasChar "-" (NilEmpty.string_of_uint d) = false.
Proof. induction d; simpl; done. Qed.

Lemma intToString_no_dash (z : Z) : 0 ≤ z → hasChar "-" (intToString z) = false.
Proof.
  intros Hz. destruct z as [|p|p]; [done| |lia].
  unfold intToString. cbn [Z.to_int NilZero.string_of_int].
  unfold NilZero.string_of_uint.
  destruct (Pos.to_uint p) eqn:Hp; [done|..]; rewrite <- Hp; apply digits_no_dash.
Qed.

Lemma hasChar_app (c : ascii) (a b : string) :
  hasChar c (a ++ b) = hasChar c a || hasChar c b.
Proof.
  induction a as [|x a IH]; [done|]. simpl. rewrite IH. by rewrite orb_assoc.
Qed.

(** A dash followed by a dash-free suffix can be split off in one way
    only. *)
Lemma dash_suffix_inj (a b x y : string) :
  hasChar "-" x = false → hasChar "-" y = false →
  a ++ String "-" x = b ++ String "-" y → a = b ∧ x = y.
Proof.
  intros Hx Hy. revert b. induction a as [|c a IH]; intros [|c' b] Heq.
  - simpl in Heq. by injection Heq.
  - simpl in Heq. injection Heq as Hc Hxe.
    assert (Hd : hasChar "-" (b ++ String "-" y) = true)
      by (rewrite hasChar_app; simpl; apply orb_true_r).
    congruence.
  - simpl in Heq. injection Heq as Hc Hye.
    assert (Hd : hasChar "-" (a ++ String "-" x) = true)
      by (rewrite hasChar_app; simpl; apply orb_true_r).
    congruence.
  - simpl in Heq. injection Heq as Hc Heq.
    destruct (IH b Heq) as [Ha Hxy]. by subst.
Qed.

Lemma timeClip_idem (n : num) : timeClip (timeClip n) = timeClip n.
Proof.
  destruct n as [t|]; [|done]. simpl.
  destruct (Z.abs t <=? maxTime) eqn:Ht; [|done]. simpl. by rewrite Ht.
Qed.

Lemma timeClip_num (n : num) (t : Z) :
  timeClip n = Num t → n = Num t ∧ Z.abs t ≤ maxTime.
Proof.
  destruct n as [x|]; [|done]. simpl.
  destruct (Z.leb_spec (Z.abs x) maxTime); [|done].
  intros [= ->]. done.
Qed.

(** The example runtime prints and parses dates consistently. *)
#[global] Instance example_laws : @JsDateLaws ExampleRuntime.runtime.
Proof.
  split.
  - intros t. apply intToString_nonempty.
  - intros t Ht. cbn [Date_parse Date_toISOString ExampleRuntime.runtime].
    unfold ExampleRuntime.parse.
    rewrite intToString_parse, DecimalZ.of_to, String.eqb_refl.
    by destruct (Z.leb_spec (Z.abs t) maxTime); [|lia].
Qed.
End JsFacts.

(* ===================================================================== *)
(** ** Properties of the ingestion controller                             *)
(* ===================================================================== *)

Module IngestionProofs.
Import Js TelemetryCSVParser IngestionSpec.

Section Run.
Context `{JsRuntime}.
Variable opts : Options.
Hypothesis cap_positive : 1 ≤ maxRows opts.

Let m : nat := Z.to_nat (maxRows opts).

Lemma cap_test (n : nat) :
  (Z.of_nat n >=? maxRows opts) = (m <=? n)%nat.
Proof.
  subst m. destruct (Nat.leb_spec (Z.to_nat (maxRows opts)) n); lia.
Qed.

Lemma capped_cons st r all :
  (length (rawRows st) < m)%nat →
  (length (rawRows st) + 1 < m)%nat →
  capped opts
    {| rawRows := (rawRows st ++ [r])%list; rowCount := rowCount st;
       aborted := aborted st; parserAborted := parserAborted st;
       settled := settled st; progress := progress st |}
    ((rawRows st ++ [r]) ++ all)%list
  = capped opts st (rawRows st ++ r :: all)%list.
Proof.
  intros _ _. unfold capped. simpl.
  by rewrite <- app_assoc.
Qed.

Lemma rowLoop_skipped rows st :
  rowCount st ≤ skipRows opts → rowLoop opts rows st = (st, false).
Proof.
  intros Hskip. induction rows as [|raw rest IH]; [done|].
  simpl. destruct (Z.leb_spec (rowCount st) (skipRows opts)); [done | lia].
Qed.

Lemma rowLoop_spec rows st :
  running st →
  (length (rawRows st) < m)%nat →
  skipRows opts < rowCount st →
  rowLoop opts rows st
  = capped opts st (rawRows st ++ omap (accept opts) rows)%list.
Proof.
  revert st. induction rows as [|raw rest IH]; intros st Hrun Hlen Hskip.
  - simpl. rewrite app_nil_r. unfold capped. fold m.
    destruct (Nat.leb_spec m (length (rawRows st))); [lia|].
    destruct Hrun as (Ha & Hp & Hs). destruct st; simpl in *; by subst.
  - simpl rowLoop.
    destruct (Z.leb_spec (rowCount st) (skipRows opts)); [lia|].
    change (omap (accept opts) (raw :: rest))
      with (match accept opts raw with
            | Some y => y :: omap (accept opts) rest
            | None => omap (accept opts) rest
            end).
    specialize (IH st Hrun Hlen Hskip) as IHst.
    set (tl := omap (accept opts) rest) in *.
    unfold accept at 1, validRow.
    destruct (isValidRow (normalizeRow raw)); [|done].
    destruct (narrow (normalizeRow raw)) as [r|]; [|done].
    destruct (passesFilter (filter opts) r); [|done].
    clear IHst.
    unfold pushRow. rewrite cap_test, length_app. simpl length.
    destruct (Nat.leb_spec m (length (rawRows st) + 1)) as [Hfull|Hroom].
    + destruct Hrun as (Ha & Hp & Hs).
      assert (Htake : take m (rawRows st ++ r :: tl) = (rawRows st ++ [r])%list).
      { replace (rawRows st ++ r :: tl)%list with ((rawRows st ++ [r]) ++ tl)%list
          by (by rewrite <- app_assoc).
        rewrite take_app_le by (rewrite length_app; simpl; lia).
        apply take_ge. rewrite length_app. simpl. lia. }
      unfold resolve, capped. fold m. cbn [settled rawRows rowCount progress aborted parserAborted].
      rewrite Hs, Htake, length_app. simpl length.
      by destruct (Nat.leb_spec m (length (rawRows st) + S (length tl))); [|lia].
    + subst tl. rewrite IH.
      * cbn [rawRows]. apply capped_cons; lia.
      * destruct Hrun as (Ha & Hp & Hs). by repeat split.
      * cbn [rawRows]. rewrite length_app. simpl. lia.
      * done.
Qed.

Lemma chunk_aborted st rows : aborted st = true → chunk opts st rows = st.
Proof. intros Ha. unfold chunk. by rewrite Ha. Qed.

(** The chunk callback on a run that has room left. *)
Lemma chunk_spec rows st :
  running st →
  (length (rawRows st) < m)%nat →
  let c := rowCount st + Z.of_nat (length rows) in
  let all := (rawRows st ++ matchedChunk opts c rows)%list in
  chunk opts st rows =
    if (m <=? length all)%nat then
      {| rawRows := take m all; rowCount := c; aborted := true;
         parserAborted := true; settled := Some (pivotToFrames (take m all));
         progress := progress st |}
    else
      {| rawRows := all; rowCount := c; aborted := false;
         parserAborted := false; settled := None;
         progress :=
           if (c / 50000 >? (c - Z.of_nat (length rows)) / 50000) && onProgress opts
           then (progress st ++ [c])%list else progress st |}.
Proof.
  intros Hrun Hlen c all. pose proof Hrun as (Ha & Hp & Hs).
  unfold chunk. fold c.
  set (st1 := {| rawRows := rawRows st; rowCount := c; aborted := aborted st;
                 parserAborted := parserAborted st; settled := settled st;
                 progress := progress st |}).
  rewrite Ha.
  assert (Hrun1 : running st1) by done.
  subst all. unfold matchedChunk.
  destruct (Z.leb_spec c (skipRows opts)) as [Hs1|Hs1].
  - rewrite (rowLoop_skipped rows st1) by done.
    rewrite app_nil_r.
    destruct (Nat.leb_spec m (length (rawRows st))); [lia|].
    cbn [rowCount rawRows aborted parserAborted settled progress st1].
    rewrite Ha, Hp, Hs.
    assert (Hst1 : st1 = {| rawRows := rawRows st; rowCount := c; aborted := false;
                            parserAborted := false; settled := None;
                            progress := progress st |})
      by (subst st1; by rewrite Ha, Hp, Hs).
    rewrite Hst1.
    destruct (c / 50000 >? (c - Z.of_nat (length rows)) / 50000); [|done].
    by destruct (onProgress opts).
  - rewrite (rowLoop_spec rows st1) by done.
    unfold capped. fold m. cbn [rawRows rowCount progress st1].
    destruct (m <=? length (rawRows st ++ omap (accept opts) rows))%nat; [done|].
    cbn [rowCount rawRows aborted parserAborted settled progress].
    destruct (c / 50000 >? (c - Z.of_nat (length rows)) / 50000); [|done].
    by destruct (onProgress opts).
Qed.

(** What the reader leaves behind, from a run that has room left. *)
Lemma feed_spec chunks st :
  running st →
  (length (rawRows st) < m)%nat →
  let all := (rawRows st ++ matched opts (rowCount st) chunks)%list in
  let fin := feed opts chunks st in
  rawRows fin = take m all ∧
  aborted fin = (m <=? length all)%nat ∧
  parserAborted fin = (m <=? length all)%nat ∧
  settled fin = (if (m <=? length all)%nat
                 then Some (pivotToFrames (take m all)) else None).
Proof.
  revert st. induction chunks as [|rows rest IH]; intros st Hrun Hlen all fin.
  - subst all fin. simpl. rewrite app_nil_r.
    destruct Hrun as (Ha & Hp & Hs).
    destruct (Nat.leb_spec m (length (rawRows st))); [lia|].
    rewrite take_ge by lia. done.
  - subst all fin. cbn [feed matched].
    pose proof (chunk_spec rows st Hrun Hlen) as Hc. cbv zeta in Hc.
    set (c := rowCount st + Z.of_nat (length rows)) in *.
    set (here := matchedChunk opts c rows) in *.
    set (later := matched opts c rest).
    destruct (Nat.leb_spec m (length (rawRows st ++ here))) as [Hfull|Hroom].
    + rewrite Hc. cbn [parserAborted rawRows aborted settled].
      assert (Hall : (m <= length (rawRows st ++ here ++ later))%nat).
      { rewrite !length_app in *. lia. }
      assert (Htake : take m (rawRows st ++ here ++ later) = take m (rawRows st ++ here)).
      { rewrite app_assoc. by rewrite take_app_le. }
      destruct (Nat.leb_spec m (length (rawRows st ++ here ++ later))); [|lia].
      by rewrite Htake.
    + rewrite Hc. cbn [parserAborted].
      match goal with |- context [feed opts rest ?s] => set (st' := s) end.
      specialize (IH st'). cbv zeta in IH.
      assert (Hrun' : running st') by done.
      specialize (IH Hrun' Hroom).
      cbn [rawRows rowCount st'] in IH.
      fold later in IH. by rewrite <- app_assoc in IH.
Qed.

(** Once the reader has been told to stop, chunks that follow in the
    file make no difference. *)
Lemma feed_stopped chunks more st :
  running st →
  (length (rawRows st) < m)%nat →
  parserAborted (feed opts chunks st) = true →
  feed opts (chunks ++ more) st = feed opts chunks st.
Proof.
  revert st. induction chunks as [|rows rest IH]; intros st Hrun Hlen Hstop.
  - destruct Hrun as (_ & Hp & _). simpl in Hstop. congruence.
  - cbn [feed app] in *.
    destruct (parserAborted (chunk opts st rows)) eqn:Hp; [done|].
    pose proof (chunk_spec rows st Hrun Hlen) as Hc. cbv zeta in Hc.
    destruct (Nat.leb_spec m
                (length (rawRows st ++
                   matchedChunk opts (rowCount st + Z.of_nat (length rows)) rows)))
      as [Hfull|Hroom].
    + rewrite Hc in Hp. done.
    + apply IH; [by rewrite Hc | by rewrite Hc | done].
Qed.

(** After the [return] of the row loop, the rest of the chunk is not
    looked at. *)
Lemma rowLoop_returned rows1 rows2 st :
  (rowLoop opts rows1 st).2 = true →
  rowLoop opts (rows1 ++ rows2) st = rowLoop opts rows1 st.
Proof.
  revert st. induction rows1 as [|raw rest IH]; intros st Hret; [done|].
  cbn [app rowLoop] in *.
  destruct (rowCount st <=? skipRows opts); [by apply IH|].
  destruct (isValidRow (normalizeRow raw)); [|by apply IH].
  destruct (narrow (normalizeRow raw)) as [r|]; [|by apply IH].
  destruct (passesFilter (filter opts) r); [|by apply IH].
  destruct (pushRow opts r st) as [st' [|]]; [done|by apply IH].
Qed.

(** The row loop never takes the accumulated rows past the cap, and
    goes on only while they are below it. *)
Lemma rowLoop_bound rows st :
  (length (rawRows st) < m)%nat →
  (length (rawRows (rowLoop opts rows st).1) ≤ m)%nat ∧
  ((rowLoop opts rows st).2 = false →
   (length (rawRows (rowLoop opts rows st).1) < m)%nat).
Proof.
  revert st. induction rows as [|raw rest IH]; intros st Hlen.
  - simpl. split; [lia|done].
  - cbn [rowLoop].
    destruct (rowCount st <=? skipRows opts); [by apply IH|].
    destruct (isValidRow (normalizeRow raw)); [|by apply IH].
    destruct (narrow (normalizeRow raw)) as [r|]; [|by apply IH].
    destruct (passesFilter (filter opts) r); [|by apply IH].
    unfold pushRow. rewrite cap_test, length_app. simpl length.
    destruct (Nat.leb_spec m (length (rawRows st) + 1)) as [Hfull|Hroom].
    + unfold resolve. cbn [settled rawRows].
      destruct (settled st); cbn [fst snd rawRows]; rewrite length_app; simpl;
        (split; [lia|done]).
    + apply IH. cbn [rawRows]. rewrite length_app. simpl. lia.
Qed.

Lemma initial_running : running initial.
Proof. done. Qed.

Lemma initial_room : (length (rawRows initial) < m)%nat.
Proof. subst m. simpl. lia. Qed.
End Run.

(** C3.  With a cap of [M >= 1] matched rows the accumulated rows never
    number more than [M], neither after any chunk nor inside the row
    loop; the promise settles with the pivot of exactly the rows
    accumulated, which are the first [M] matched rows of the stream;
    and when the [M]-th row is accumulated the reader is aborted, the
    rest of the chunk and all later chunks go unprocessed. *)
Theorem cap_respected `{JsRuntime} (opts : Options) (chunks : list (list RawRecord)) :
  1 ≤ maxRows opts →
  let m := Z.to_nat (maxRows opts) in
  let final := parseFile opts chunks in
  (∀ pre, (length (rawRows (feed opts pre initial)) ≤ m)%nat) ∧
  (∀ st rows, (length (rawRows st) < m)%nat →
              (length (rawRows (rowLoop opts rows st).1) ≤ m)%nat) ∧
  rawRows final = take m (matched opts 0 chunks) ∧
  settled final = Some (pivotToFrames (rawRows final)) ∧
  ((m ≤ length (matched opts 0 chunks))%nat →
     aborted final = true ∧ parserAborted final = true ∧
     length (rawRows final) = m ∧
     ∀ more, parseFile opts (chunks ++ more) = final) ∧
  (∀ st rows, aborted st = true → chunk opts st rows = st) ∧
  (∀ st rows1 rows2, (rowLoop opts rows1 st).2 = true →
                     rowLoop opts (rows1 ++ rows2) st = rowLoop opts rows1 st).
Proof.
  intros Hcap m final.
  pose proof (feed_spec opts Hcap chunks initial initial_running (initial_room opts Hcap))
    as (Hrows & Hab & Hpab & Hset).
  cbn [rawRows rowCount initial app] in Hrows, Hab, Hpab, Hset. fold m in Hrows, Hab, Hpab, Hset.
  assert (Hfinal_rows : rawRows final = take m (matched opts 0 chunks)).
  { subst final. unfold parseFile, complete.
    destruct (aborted (feed opts chunks initial)); [done|].
    unfold resolve. by destruct (settled (feed opts chunks initial)). }
  split; [|split; [|split; [|split; [|split; [|split]]]]].
  - intros pre.
    pose proof (feed_spec opts Hcap pre initial initial_running (initial_room opts Hcap))
      as (Hr & _).
    rewrite Hr. rewrite length_take. fold m. lia.
  - intros st rows Hlen. by apply rowLoop_bound.
  - done.
  - rewrite Hfinal_rows. subst final. unfold parseFile, complete.
    rewrite Hab.
    destruct (m <=? length (matched opts 0 chunks))%nat; [done|].
    unfold resolve. rewrite Hset. cbn [settled]. by rewrite Hrows.
  - intros Hreach.
    assert (Hleb : (m <=? length (matched opts 0 chunks))%nat = true)
      by by apply Nat.leb_le.
    rewrite Hleb in Hab, Hpab.
    assert (Hfin : final = feed opts chunks initial).
    { subst final. unfold parseFile, complete. by rewrite Hab. }
    rewrite Hfin. split; [done|]. split; [done|]. split.
    + rewrite Hrows, length_take. lia.
    + intros more. unfold parseFile.
      rewrite (feed_stopped opts Hcap chunks more initial initial_running
                 (initial_room opts Hcap) Hpab).
      unfold complete. by rewrite Hab.
  - intros st rows Ha. by apply chunk_aborted.
  - intros st rows1 rows2. apply rowLoop_returned.
Qed.

Section Validity.
Context `{JsRuntime}.

Lemma truthy_nonEmpty (c : cell string) :
  truthyCell truthyStr c = true ↔ nonEmpty c.
Proof.
  unfold nonEmpty. destruct c as [| |s]; simpl.
  - split; [done|]. by intros (s & ? & _).
  - split; [done|]. by intros (s & ? & _).
  - destruct s as [|a s]; simpl.
    + split; [done|]. intros (s' & Heq & Hne). by injection Heq as <-.
    + split; [|done]. intros _. by eexists.
Qed.

Lemma value_present (c : cell Z) :
  truthyCell truthyZ c || isZero c = true ↔ present c.
Proof.
  unfold present, truthyZ. destruct c as [| |z]; simpl.
  - split; [done|]. by intros (v & ?).
  - split; [done|]. by intros (v & ?).
  - split; [by eexists|]. intros _. by destruct (z =? 0).
Qed.

Lemma number_numeric (c : cell Z) : isNumber c = true ↔ numeric c.
Proof.
  unfold numeric. destruct c as [| |z]; simpl.
  - split; [done|]. by intros (v & ?).
  - split; [done|]. by intros (v & ?).
  - split; [by eexists|done].
Qed.

Lemma isValidRow_valid (row : NormalizedRow) : isValidRow row = true ↔ valid row.
Proof.
  unfold isValidRow, valid.
  rewrite !andb_true_iff, !truthy_nonEmpty, value_present, number_numeric.
  tauto.
Qed.

Lemma isValidRow_narrow (row : NormalizedRow) :
  isValidRow row = true → is_Some (narrow row).
Proof.
  intros Hv. apply isValidRow_valid in Hv.
  destruct Hv as ((n & Hn & _) & (v & Hv) & (t & Ht & _) & (i & Hi & _) & (l & Hl)).
  unfold narrow. rewrite Hn, Hv, Ht, Hi, Hl. by eexists.
Qed.

Variable opts : Options.

(** Where the rows that the row loop holds come from. *)
Lemma rowLoop_origin rows st r :
  r ∈ rawRows (rowLoop opts rows st).1 →
  r ∈ rawRows st ∨ ∃ raw, raw ∈ rows ∧ accept opts raw = Some r.
Proof.
  revert st. induction rows as [|raw rest IH]; intros st Hin; [by left|].
  cbn [rowLoop] in Hin.
  assert (Hrest : ∀ st', r ∈ rawRows (rowLoop opts rest st').1 →
                         r ∈ rawRows st' ∨
                         ∃ raw0, raw0 ∈ raw :: rest ∧ accept opts raw0 = Some r).
  { intros st' Hin'. destruct (IH st' Hin') as [?|(raw0 & ? & ?)]; [by left|].
    right. exists raw0. split; [by apply list_elem_of_further|done]. }
  destruct (rowCount st <=? skipRows opts); [by apply Hrest|].
  destruct (isValidRow (normalizeRow raw)) eqn:Hv; [|by apply Hrest].
  destruct (narrow (normalizeRow raw)) as [r0|] eqn:Hn; [|by apply Hrest].
  destruct (passesFilter (filter opts) r0) eqn:Hpass; [|by apply Hrest].
  assert (Hr0 : accept opts raw = Some r0).
  { unfold accept, validRow. rewrite Hv, Hn. by rewrite Hpass. }
  assert (Hpush : ∀ x, x ∈ rawRows (pushRow opts r0 st).1 → x ∈ rawRows st ∨ x = r0).
  { intros x. unfold pushRow, resolve.
    destruct (Z.of_nat _ >=? maxRows opts); cbn [fst settled rawRows];
      [destruct (settled st); cbn [rawRows]|];
      rewrite elem_of_app, list_elem_of_singleton; tauto. }
  destruct (pushRow opts r0 st) as [st' [|]] eqn:Hp; cbn [fst] in *.
  - destruct (Hpush r Hin) as [?| ->]; [by left|].
    right. exists raw. split; [apply list_elem_of_here|done].
  - destruct (Hrest st' Hin) as [Hin'|?]; [|by right].
    destruct (Hpush r Hin') as [?| ->]; [by left|].
    right. exists raw. split; [apply list_elem_of_here|done].
Qed.

Lemma chunk_origin rows st r :
  r ∈ rawRows (chunk opts st rows) →
  r ∈ rawRows st ∨ ∃ raw, raw ∈ rows ∧ accept opts raw = Some r.
Proof.
  unfold chunk. destruct (aborted st); [by left|].
  match goal with |- context [rowLoop opts rows ?s] => set (st1 := s) end.
  pose proof (rowLoop_origin rows st1 r) as Ho.
  destruct (rowLoop opts rows st1) as [st2 ret]. cbn [fst] in Ho.
  destruct ret; [done|].
  destruct (_ >? _); [|done]. by destruct (onProgress opts).
Qed.

Lemma feed_origin chunks st r :
  r ∈ rawRows (feed opts chunks st) →
  r ∈ rawRows st ∨ ∃ rows raw, rows ∈ chunks ∧ raw ∈ rows ∧ accept opts raw = Some r.
Proof.
  revert st. induction chunks as [|rows rest IH]; intros st Hin; [by left|].
  cbn [feed] in Hin.
  assert (Hhere : r ∈ rawRows (chunk opts st rows) →
                  r ∈ rawRows st ∨
                  ∃ rows0 raw, rows0 ∈ rows :: rest ∧ raw ∈ rows0 ∧ accept opts raw = Some r).
  { intros Hc. destruct (chunk_origin rows st r Hc) as [?|(raw & ? & ?)]; [by left|].
    right. exists rows, raw. split; [apply list_elem_of_here|done]. }
  destruct (parserAborted (chunk opts st rows)); [by apply Hhere|].
  destruct (IH _ Hin) as [?|(rows0 & raw & ? & ? & ?)]; [by apply Hhere|].
  right. exists rows0, raw. split; [by apply list_elem_of_further|done].
Qed.

Lemma rowLoop_settles rows st :
  running st →
  if (rowLoop opts rows st).2 then settledWithRows (rowLoop opts rows st).1
  else running (rowLoop opts rows st).1.
Proof.
  revert st. induction rows as [|raw rest IH]; intros st Hrun; [done|].
  cbn [rowLoop].
  destruct (rowCount st <=? skipRows opts); [by apply IH|].
  destruct (isValidRow (normalizeRow raw)); [|by apply IH].
  destruct (narrow (normalizeRow raw)) as [r0|]; [|by apply IH].
  destruct (passesFilter (filter opts) r0); [|by apply IH].
  unfold pushRow. destruct Hrun as (Ha & Hp & Hs).
  destruct (Z.of_nat _ >=? maxRows opts).
  - unfold resolve. cbn [settled]. rewrite Hs. by split.
  - apply IH. by repeat split.
Qed.

Lemma chunk_settles rows st :
  running st →
  running (chunk opts st rows) ∨
  (settledWithRows (chunk opts st rows) ∧ parserAborted (chunk opts st rows) = true).
Proof.
  intros Hrun. pose proof Hrun as (Ha & Hp & Hs). unfold chunk. rewrite Ha.
  match goal with |- context [rowLoop opts rows ?s] => set (st1 := s) end.
  assert (Hrun1 : running st1) by done.
  pose proof (rowLoop_settles rows st1 Hrun1) as Hl.
  assert (Hpa : (rowLoop opts rows st1).2 = true →
                parserAborted (rowLoop opts rows st1).1 = true).
  { clear Hl. revert Hrun1. generalize st1. clear.
    induction rows as [|raw rest IH]; intros st Hrun; [done|].
    cbn [rowLoop].
    destruct (rowCount st <=? skipRows opts); [by apply IH|].
    destruct (isValidRow (normalizeRow raw)); [|by apply IH].
    destruct (narrow (normalizeRow raw)) as [r0|]; [|by apply IH].
    destruct (passesFilter (filter opts) r0); [|by apply IH].
    unfold pushRow. destruct Hrun as (Ha & Hp & Hs).
    destruct (Z.of_nat _ >=? maxRows opts).
    - unfold resolve. cbn [settled]. by rewrite Hs.
    - apply IH. by repeat split. }
  destruct (rowLoop opts rows st1) as [st2 [|]]; cbn [fst snd] in *.
  - right. split; [done|by apply Hpa].
  - left. destruct (_ >? _); [|done]. by destruct (onProgress opts).
Qed.

Lemma feed_settles chunks st :
  running st →
  running (feed opts chunks st) ∨ settledWithRows (feed opts chunks st).
Proof.
  revert st. induction chunks as [|rows rest IH]; intros st Hrun; [by left|].
  cbn [feed].
  destruct (chunk_settles rows st Hrun) as [Hr|[Hs Hp]].
  - destruct Hr as (Ha & Hp & Hs). rewrite Hp. apply IH. by repeat split.
  - rewrite Hp. by right.
Qed.

Lemma parseFile_settles chunks :
  settled (parseFile opts chunks)
  = Some (pivotToFrames (rawRows (parseFile opts chunks))).
Proof.
  unfold parseFile, complete.
  destruct (feed_settles chunks initial (initial_running)) as [(Ha & Hp & Hs)|[Ha Hs]].
  - rewrite Ha. unfold resolve. by rewrite Hs.
  - by rewrite Ha.
Qed.

Lemma parseFile_rawRows chunks :
  rawRows (parseFile opts chunks) = rawRows (feed opts chunks initial).
Proof.
  unfold parseFile, complete. destruct (aborted _); [done|].
  unfold resolve. by destruct (settled _).
Qed.
End Validity.

(** With nothing skipped and no filter the rows a stream contributes are
    its valid records. *)
Lemma matched_unfiltered (cap : Z) (callback : bool) (chunks : list (list RawRecord)) count :
  0 ≤ count →
  matched {| maxRows := cap; skipRows := 0; filter := None; onProgress := callback |}
          count chunks
  = omap validRow (concat chunks).
Proof.
  revert count. induction chunks as [|rows rest IH]; intros count Hc; [done|].
  cbn [matched concat]. rewrite omap_app, IH by lia. f_equal.
  unfold matchedChunk. cbn [skipRows].
  destruct (Z.leb_spec (count + Z.of_nat (length rows)) 0) as [Hz|Hz].
  - destruct rows; [done|simpl in Hz; lia].
  - clear. induction rows as [|raw rows IHr]; [done|].
    cbn [omap list_omap]. unfold accept at 1. cbn [filter passesFilter].
    destruct (validRow raw); by rewrite <- IHr.
Qed.

(** On cells of the declared types, a normalized record passes
    [isValidRow] exactly when its telemetry name, timestamp and vehicle
    id are non-empty, its telemetry value is present and its lap is a
    number; a value of zero is present.  Every row that is accumulated,
    and so every row that the pivot receives, is the typed view of a
    valid record of the stream; without filter or skipping the
    accumulated rows are the valid records, in order, up to the cap. *)
Lemma accumulated_rows_are_valid `{JsRuntime} :
  (∀ raw : RawRecord, isValidRow (normalizeRow raw) = true ↔ valid (normalizeRow raw)) ∧
  (∀ name ts vid l,
     name ≠ "" → ts ≠ "" → vid ≠ "" →
     isValidRow {| n_timestamp := Val ts; n_vehicle_id := Val vid; n_lap := Val l;
                   n_telemetry_name := Val name; n_telemetry_value := Val 0 |} = true) ∧
  (∀ opts chunks,
     let final := parseFile opts chunks in
     settled final = Some (pivotToFrames (rawRows final)) ∧
     ∀ r, r ∈ rawRows final →
          ∃ rows raw, rows ∈ chunks ∧ raw ∈ rows ∧
                      valid (normalizeRow raw) ∧ narrow (normalizeRow raw) = Some r) ∧
  (∀ cap callback chunks,
     1 ≤ cap →
     rawRows (parseFile {| maxRows := cap; skipRows := 0; filter := None;
                           onProgress := callback |} chunks)
     = take (Z.to_nat cap) (omap validRow (concat chunks))).
Proof.
  split; [|split; [|split]].
  - intros raw. apply isValidRow_valid.
  - intros name ts vid l Hn Ht Hv. apply isValidRow_valid.
    repeat split; try (by eexists).
  - intros opts chunks final. split; [apply parseFile_settles|].
    intros r Hr. subst final. rewrite parseFile_rawRows in Hr.
    destruct (feed_origin opts chunks initial r Hr) as [Hin|(rows & raw & ? & ? & Hv)].
    { by apply elem_of_nil in Hin. }
    exists rows, raw. split; [done|]. split; [done|].
    unfold accept, validRow in Hv.
    destruct (isValidRow (normalizeRow raw)) eqn:Hvalid; [|done].
    split; [by apply isValidRow_valid|].
    destruct (narrow (normalizeRow raw)) as [r0|]; [|done].
    by destruct (passesFilter (filter opts) r0).
  - intros cap callback chunks Hcap.
    rewrite parseFile_rawRows.
    set (o := {| maxRows := cap; skipRows := 0; filter := None; onProgress := callback |}).
    pose proof (feed_spec o Hcap chunks initial initial_running (initial_room o Hcap))
      as (Hrows & _).
    cbn [rawRows rowCount initial app] in Hrows. rewrite Hrows.
    subst o. by rewrite matched_unfiltered.
Qed.

(** C10.  A filter whose lap is [0] lets through the rows of every lap
    of the vehicle: the run is, state for state, the run of the same
    filter with the lap left out. *)
Theorem lap_zero_filter_is_no_lap_filter `{JsRuntime}
    (cap skip : Z) (callback : bool) (v : option string)
    (chunks : list (list RawRecord)) :
  (∀ row, passesFilter (Some {| f_vehicleId := v; f_lap := Some 0 |}) row
          = passesFilter (Some {| f_vehicleId := v; f_lap := None |}) row) ∧
  (∀ row, passesFilter (Some {| f_vehicleId := v; f_lap := Some 0 |}) row
          = negb (wrongVehicle {| f_vehicleId := v; f_lap := Some 0 |} row)) ∧
  parseFile {| maxRows := cap; skipRows := skip;
               filter := Some {| f_vehicleId := v; f_lap := Some 0 |};
               onProgress := callback |} chunks
  = parseFile {| maxRows := cap; skipRows := skip;
                 filter := Some {| f_vehicleId := v; f_lap := None |};
                 onProgress := callback |} chunks.
Proof.
  assert (Hpass : ∀ row,
             passesFilter (Some {| f_vehicleId := v; f_lap := Some 0 |}) row
             = passesFilter (Some {| f_vehicleId := v; f_lap := None |}) row).
  { intros row. unfold passesFilter, wrongLap, wrongVehicle. by simpl. }
  split; [done|]. split.
  { intros row. unfold passesFilter, wrongLap. simpl.
    by destruct (wrongVehicle _ row). }
  set (o0 := {| maxRows := cap; skipRows := skip;
                filter := Some {| f_vehicleId := v; f_lap := Some 0 |};
                onProgress := callback |}).
  set (o1 := {| maxRows := cap; skipRows := skip;
                filter := Some {| f_vehicleId := v; f_lap := None |};
                onProgress := callback |}).
  assert (Hloop : ∀ rows st, rowLoop o0 rows st = rowLoop o1 rows st).
  { induction rows as [|raw rest IH]; intros st; [done|].
    cbn [rowLoop]. change (skipRows o0) with (skipRows o1).
    destruct (rowCount st <=? skipRows o1); [done|].
    destruct (isValidRow (normalizeRow raw)); [|done].
    destruct (narrow (normalizeRow raw)) as [r|]; [|done].
    change (filter o0) with (Some {| f_vehicleId := v; f_lap := Some 0 |}).
    change (filter o1) with (Some {| f_vehicleId := v; f_lap := None |}).
    rewrite Hpass.
    destruct (passesFilter _ r); [|done].
    change (pushRow o0 r st) with (pushRow o1 r st).
    destruct (pushRow o1 r st) as [st' [|]]; [done|apply IH]. }
  assert (Hchunk : ∀ st rows, chunk o0 st rows = chunk o1 st rows).
  { intros st rows. unfold chunk. by rewrite Hloop. }
  assert (Hfeed : ∀ cs st, feed o0 cs st = feed o1 cs st).
  { induction cs as [|rows rest IH]; intros st; [done|].
    cbn [feed]. rewrite Hchunk. destruct (parserAborted _); [done|apply IH]. }
  unfold parseFile. by rewrite Hfeed.
Qed.
End IngestionProofs.

(* ===================================================================== *)
(** ** Properties of the pivot                                            *)
(* ===================================================================== *)

Module PivotProofs.
Import Js JsFacts TelemetryCSVParser IngestionSpec.

(** An entry that is missing or a number read from a row. *)
Local Abbreviation numericEntry o := (o = None ∨ ∃ n, o = Some (VNum n)).

Lemma numericTable_empty : numericTable ∅.
Proof. intros k v Hk. by rewrite lookup_empty in Hk. Qed.

Lemma numericTable_insert (k : string) (v : value) (metrics : gmap string value) :
  numericTable metrics →
  (k = "_timestamp" ∨ k = "_vehicle_id" ∨ ∃ n, v = VNum n) →
  numericTable (<[k := v]> metrics).
Proof.
  intros Hm Hv k' v'. rewrite lookup_insert. case_decide as Hk.
  - intros [= <-]. by subst k'.
  - apply Hm.
Qed.

Lemma numericTable_channel (k : string) (metrics : gmap string value) :
  numericTable metrics → k ≠ "_timestamp" → k ≠ "_vehicle_id" →
  numericEntry (metrics !! k).
Proof.
  intros Hm H1 H2. destruct (metrics !! k) as [v|] eqn:Hk; [|by left].
  right. destruct (Hm k v Hk) as [?|[?|(n & ->)]]; [done|done|by exists n].
Qed.

Lemma orMetric_numeric (a b : option value) :
  numericEntry a → numericEntry b → numericEntry (orMetric a b).
Proof.
  intros [->|(n & ->)] Hb; [done|].
  simpl. destruct (truthyNum n); [|done]. right. by exists n.
Qed.

(** A chain of numbers that ends in a default never yields [NaN]: a
    [NaN] on the way is falsy. *)
Lemma orMetric_default (a : option value) (d : Z) :
  numericEntry a → ∃ z, orMetric a (Some (VNum (Num d))) = Some (VNum (Num z)).
Proof.
  intros [->|([z|] & ->)]; [by exists d| |by exists d].
  simpl. destruct (negb (z =? 0)); [by exists z|by exists d].
Qed.

Lemma clamp_percent (z : Z) : percent (clamp (Num z) (Num 0) (Num 100)).
Proof. unfold percent, clamp. simpl. eexists. split; [done|lia]. Qed.

Lemma clamp_any (n : num) : percentOrNaN (clamp n (Num 0) (Num 100)).
Proof. destruct n as [z|]; [right; apply clamp_percent|by left]. Qed.

Section WithRuntime.
Context `{JsRuntime}.

Lemma foldRow_numeric (row : TelemetryRow) (metrics : gmap string value) :
  numberRow row → numericTable metrics → numericTable (foldRow row metrics).
Proof.
  intros [n Hn] Hm. unfold foldRow, setIfMissing. rewrite Hn.
  repeat match goal with
         | |- numericTable (match ?m !! ?k with _ => _ end) =>
             destruct (m !! k)
         | |- numericTable (<[_ := _]> _) => apply numericTable_insert
         end; try done; eauto 6.
Qed.

Lemma addRow_numeric (groups : list (string * gmap string value)) (row : TelemetryRow) :
  numberRow row →
  Forall (λ g, numericTable g.2) groups →
  Forall (λ g, numericTable g.2) (addRow groups row).
Proof.
  intros Hrow. rewrite !Forall_forall. intros Hg g Hin. unfold addRow in Hin.
  set (groups1 := match mapGet (groupKey row) groups with
                  | Some _ => groups
                  | None => mapSet (groupKey row) ∅ groups
                  end) in Hin.
  assert (Hg1 : ∀ g, g ∈ groups1 → numericTable g.2).
  { intros g' Hin'. subst groups1. destruct (mapGet (groupKey row) groups); [by apply Hg|].
    apply mapSet_elem_of in Hin' as [->|?]; [apply numericTable_empty|by apply Hg]. }
  apply mapSet_elem_of in Hin as [->|?]; [|by apply Hg1].
  apply foldRow_numeric; [done|].
  destruct (mapGet (groupKey row) groups1) as [metrics|] eqn:Hget; simpl.
  - apply (Hg1 (groupKey row, metrics)). by apply mapGet_elem_of.
  - apply numericTable_empty.
Qed.

Lemma groupRows_numeric (rows : list TelemetryRow) :
  Forall numberRow rows → Forall (λ g, numericTable g.2) (groupRows rows).
Proof.
  unfold groupRows. intros Hrows.
  assert (Hgen : ∀ groups, Forall (λ g, numericTable g.2) groups →
                           Forall (λ g, numericTable g.2) (fold_left addRow rows groups)).
  { induction Hrows as [|row rest Hrow _ IH]; intros groups Hg; [done|].
    simpl. apply IH. by apply addRow_numeric. }
  by apply Hgen.
Qed.

Lemma frameDataOf_percent (metrics : gmap string value) :
  numericTable metrics →
  percent (TelemetryFrame.d_throttlePos (frameDataOf metrics)) ∧
  percent (TelemetryFrame.d_brakePos (frameDataOf metrics)).
Proof.
  intros Hm.
  assert (Hch : ∀ k, k ≠ "_timestamp" → k ≠ "_vehicle_id" → numericEntry (metrics !! k))
    by (intros; by apply numericTable_channel).
  cbn [frameDataOf TelemetryFrame.d_throttlePos TelemetryFrame.d_brakePos]. split.
  - destruct (orMetric_default
                (orMetric (orMetric (metrics !! "ath") (metrics !! "throttle_pos"))
                          (metrics !! "throttle")) 0) as (z & ->).
    { repeat apply orMetric_numeric; by apply Hch. }
    apply clamp_percent.
  - destruct (orMetric_default (metrics !! "pbrake_f") 0) as (f & ->); [by apply Hch|].
    destruct (orMetric_default (metrics !! "pbrake_r") 0) as (r & ->); [by apply Hch|].
    destruct (orMetric_default (metrics !! "brake_pos") 0) as (b & ->); [by apply Hch|].
    apply clamp_percent.
Qed.

(** Whatever the table holds, [clamp] returns a position in percent or
    [NaN]. *)
Lemma frameDataOf_percentOrNaN (metrics : gmap string value) :
  percentOrNaN (TelemetryFrame.d_throttlePos (frameDataOf metrics)) ∧
  percentOrNaN (TelemetryFrame.d_brakePos (frameDataOf metrics)).
Proof.
  cbn [frameDataOf TelemetryFrame.d_throttlePos TelemetryFrame.d_brakePos].
  split; apply clamp_any.
Qed.

Lemma channel_or_zero (metrics : gmap string value) (name : string) :
  numericTable metrics → name ≠ "_timestamp" → name ≠ "_vehicle_id" →
  toNumber (orMetric (metrics !! name) (Some (VNum (Num 0)))) = Num (channel metrics name).
Proof.
  intros Hm H1 H2. unfold channel.
  destruct (numericTable_channel name metrics Hm H1 H2) as [->|([z|] & ->)]; [done| |done].
  simpl. by destruct (Z.eqb_spec z 0) as [->|].
Qed.

Lemma frameDataOf_brake (metrics : gmap string value) :
  numericTable metrics →
  TelemetryFrame.d_brakePos (frameDataOf metrics)
  = Num (Z.min (Z.max (Z.max (Z.max (channel metrics "pbrake_f")
                                    (channel metrics "pbrake_r"))
                             (channel metrics "brake_pos")) 0) 100).
Proof.
  intros Hm. cbn [frameDataOf TelemetryFrame.d_brakePos].
  by rewrite !channel_or_zero.
Qed.

(** A frame that the constructor returns holds the data it was given. *)
Lemma new_fields (data : TelemetryFrame.TelemetryFrameData) (f : TelemetryFrame.t) :
  TelemetryFrame.new data = Ok f →
  f = {| TelemetryFrame.timestamp := JsDate.toTime (TelemetryFrame.d_timestamp data);
         TelemetryFrame.vehicleId := TelemetryFrame.d_vehicleId data;
         TelemetryFrame.lap := TelemetryFrame.d_lap data;
         TelemetryFrame.speed := TelemetryFrame.d_speed data;
         TelemetryFrame.throttlePos := TelemetryFrame.d_throttlePos data;
         TelemetryFrame.brakePos := TelemetryFrame.d_brakePos data;
         TelemetryFrame.gpsLatitude := TelemetryFrame.d_gpsLatitude data;
         TelemetryFrame.gpsLongitude := TelemetryFrame.d_gpsLongitude data;
         TelemetryFrame.steeringAngle := TelemetryFrame.d_steeringAngle data;
         TelemetryFrame.gear := TelemetryFrame.d_gear data |}.
Proof.
  unfold TelemetryFrame.new.
  repeat match goal with |- context [if ?c then _ else _] => destruct c end;
    by intros [= <-].
Qed.

Lemma buildFrames_origin (groups : list (string * gmap string value)) (f : TelemetryFrame.t) :
  f ∈ buildFrames groups →
  ∃ g, g ∈ groups ∧ TelemetryFrame.new (frameDataOf g.2) = Ok f.
Proof.
  induction groups as [|[k metrics] rest IH]; simpl; [by intros ?%elem_of_nil|].
  destruct (TelemetryFrame.new (frameDataOf metrics)) as [f0|msg] eqn:Hnew.
  - rewrite elem_of_cons. intros [->|Hin].
    + exists (k, metrics). split; [apply list_elem_of_here|done].
    + destruct (IH Hin) as (g & ? & ?). exists g. split; [by apply list_elem_of_further|done].
  - intros Hin. destruct (IH Hin) as (g & ? & ?).
    exists g. split; [by apply list_elem_of_further|done].
Qed.

Lemma pivotToFrames_origin (rows : list TelemetryRow) (f : TelemetryFrame.t) :
  f ∈ pivotToFrames rows →
  ∃ g, g ∈ groupRows rows ∧ TelemetryFrame.new (frameDataOf g.2) = Ok f.
Proof.
  unfold pivotToFrames, TelemetryFrame.sortByTimestamp.
  rewrite sortBy_elem_of. apply buildFrames_origin.
Qed.
End WithRuntime.

(** C7, amended.  When the rows hold numbers as their values, every
    frame that the pivot returns has its throttle and brake positions
    within 0 and 100, whatever the numbers, and the brake position given
    to the constructor is the largest of the three brake channels, a
    missing one counting as 0, brought into that range.  Whatever the
    rows hold, each position is within 0 and 100 or [NaN], and for no
    group does the frame constructor leave by its throttle or brake
    range error. *)
Theorem pivot_positions_clamped `{JsRuntime} (rows : list TelemetryRow) :
  (Forall numberRow rows →
   Forall (λ f, percent (TelemetryFrame.throttlePos f) ∧
                percent (TelemetryFrame.brakePos f))
          (pivotToFrames rows) ∧
   Forall (λ g, TelemetryFrame.d_brakePos (frameDataOf g.2)
                = Num (Z.min (Z.max (Z.max (Z.max (channel g.2 "pbrake_f")
                                                  (channel g.2 "pbrake_r"))
                                           (channel g.2 "brake_pos")) 0) 100))
          (groupRows rows)) ∧
  Forall (λ f, percentOrNaN (TelemetryFrame.throttlePos f) ∧
               percentOrNaN (TelemetryFrame.brakePos f))
         (pivotToFrames rows) ∧
  Forall (λ g, TelemetryFrame.new (frameDataOf g.2)
               ≠ Throw "Throttle position must be between 0 and 100" ∧
               TelemetryFrame.new (frameDataOf g.2)
               ≠ Throw "Brake position must be between 0 and 100")
         (groupRows rows).
Proof.
  split; [|split].
  - intros Hrows. pose proof (groupRows_numeric rows Hrows) as Hnum.
    rewrite Forall_forall in Hnum. split; apply Forall_forall.
    + intros f Hf. apply pivotToFrames_origin in Hf as (g & Hg & Hnew).
      apply new_fields in Hnew. rewrite Hnew.
      cbn [TelemetryFrame.throttlePos TelemetryFrame.brakePos].
      apply frameDataOf_percent. by apply Hnum.
    + intros g Hg. apply frameDataOf_brake. by apply Hnum.
  - apply Forall_forall. intros f Hf.
    apply pivotToFrames_origin in Hf as (g & Hg & Hnew).
    apply new_fields in Hnew. rewrite Hnew.
    cbn [TelemetryFrame.throttlePos TelemetryFrame.brakePos].
    apply frameDataOf_percentOrNaN.
  - apply Forall_forall. intros g Hg.
    destruct (frameDataOf_percentOrNaN g.2) as [Ht Hb].
    unfold TelemetryFrame.new.
    assert (Hrange : ∀ n, percentOrNaN n → lt n (Num 0) || gt n (Num 100) = false).
    { intros n [->|(z & -> & Hz)]; [done|]. unfold gt, lt.
      destruct (Z.ltb_spec z 0); [lia|]. destruct (Z.ltb_spec 100 z); [lia|]. done. }
    rewrite (Hrange _ Ht), (Hrange _ Hb).
    repeat match goal with |- context [if ?c then _ else _] => destruct c end;
      split; congruence.
Qed.

Section FilterExact.
Context `{JsRuntime}.
Variables (v : string) (l : Z).

Lemma lookup_setIfMissing (k k' : string) (x : value) (metrics : gmap string value) :
  setIfMissing k x metrics !! k'
  = if decide (k = k') then Some (default x (metrics !! k)) else metrics !! k'.
Proof.
  unfold setIfMissing. destruct (metrics !! k) as [y|] eqn:Hk.
  - case_decide; [by subst|done].
  - rewrite lookup_insert. by case_decide.
Qed.

(** Folding a row of the vehicle and lap, whose metric has no reserved
    name, into a table that carries them or has no rows yet. *)
Lemma foldRow_tableOf (row : TelemetryRow) (metrics : gmap string value) :
  rowOf v l row → ¬ reserved (toLowerCase (telemetry_name row)) →
  tableOf v l metrics ∨ metrics = ∅ →
  tableOf v l (foldRow row metrics).
Proof.
  intros [Hv Hl] Hname Hm. unfold foldRow, tableOf.
  rewrite !lookup_setIfMissing. simpl.
  assert (H1 : toLowerCase (telemetry_name row) ≠ "_vehicle_id")
    by (intros Heq; apply Hname; right; by left).
  assert (H2 : toLowerCase (telemetry_name row) ≠ "_lap")
    by (intros Heq; apply Hname; right; by right).
  rewrite !lookup_insert_ne by done.
  destruct Hm as [[(vid & Hvid & Hnorm) Hlap]| ->].
  - rewrite Hvid, Hlap. simpl. split; [by exists vid|done].
  - rewrite !lookup_empty. simpl. split; [by eexists|by rewrite Hl].
Qed.

(** [addRow] sets the table of the row's group to the one it had, or an
    empty one, with the row folded in. *)
Lemma addRow_unfold (groups : list (string * gmap string value)) (row : TelemetryRow) :
  addRow groups row
  = mapSet (groupKey row)
      (foldRow row (default ∅ (mapGet (groupKey row) groups))) groups.
Proof.
  unfold addRow. destruct (mapGet (groupKey row) groups) as [metrics|] eqn:Hget.
  - by rewrite Hget.
  - by rewrite mapGet_mapSet_eq, mapSet_mapSet.
Qed.

Lemma addRow_tableOf (groups : list (string * gmap string value)) (row : TelemetryRow) :
  rowOf v l row → ¬ reserved (toLowerCase (telemetry_name row)) →
  Forall (λ g, tableOf v l g.2) groups →
  Forall (λ g, tableOf v l g.2) (addRow groups row).
Proof.
  intros Hrow Hname. rewrite !Forall_forall, addRow_unfold. intros Hg g Hin.
  apply mapSet_elem_of in Hin as [->|Hin]; [|by apply Hg].
  apply foldRow_tableOf; [done..|].
  destruct (mapGet (groupKey row) groups) as [metrics|] eqn:Hget; simpl; [|by right].
  left. apply (Hg (groupKey row, metrics)). by apply mapGet_elem_of.
Qed.

Lemma groupRows_tableOf (rows : list TelemetryRow) :
  Forall (λ row, rowOf v l row ∧ ¬ reserved (toLowerCase (telemetry_name row))) rows →
  Forall (λ g, tableOf v l g.2) (groupRows rows).
Proof.
  unfold groupRows. intros Hrows.
  assert (Hgen : ∀ groups, Forall (λ g, tableOf v l g.2) groups →
                           Forall (λ g, tableOf v l g.2) (fold_left addRow rows groups)).
  { induction Hrows as [|row rest [Hrow Hname] _ IH]; intros groups Hg; [done|].
    simpl. apply IH. by apply addRow_tableOf. }
  by apply Hgen.
Qed.

Lemma frameDataOf_tableOf (metrics : gmap string value) :
  tableOf v l metrics →
  TelemetryFrame.d_vehicleId (frameDataOf metrics) = v ∧
  TelemetryFrame.d_lap (frameDataOf metrics) = Num l.
Proof.
  intros [(vid & Hvid & Hnorm) Hlap].
  cbn [frameDataOf TelemetryFrame.d_vehicleId TelemetryFrame.d_lap].
  by rewrite Hvid, Hlap.
Qed.

(** What the filter lets through when its vehicle id is not empty and
    its lap is not zero. *)
Lemma passesFilter_rowOf (row : TelemetryRow) :
  v ≠ "" → l ≠ 0 →
  passesFilter (Some {| f_vehicleId := Some v; f_lap := Some l |}) row = true →
  rowOf v l row.
Proof.
  intros Hv Hl. unfold passesFilter, wrongVehicle, wrongLap, rowOf, truthyZ. simpl.
  assert (truthyStr v = true) as -> by by destruct v.
  destruct (Z.eqb_spec l 0); [done|]. simpl.
  destruct (String.eqb_spec (normalizeVehicleId (vehicle_id row)) v); [|done].
  destruct (Z.eqb_spec (lap row) l); [|done]. simpl. done.
Qed.
End FilterExact.

(** Filter exactness where it holds: with a filter whose vehicle id is
    not empty and whose lap is not zero, and no record whose metric has
    a reserved name, every returned frame has the vehicle id and the lap
    of the filter. *)
Lemma filter_exact_for_nonzero_lap `{JsRuntime} (opts : Options) (v : string) (l : Z)
    (chunks : list (list RawRecord)) (frames : list TelemetryFrame.t) :
  filter opts = Some {| f_vehicleId := Some v; f_lap := Some l |} →
  v ≠ "" → l ≠ 0 →
  (∀ rows raw r, rows ∈ chunks → raw ∈ rows → validRow raw = Some r →
                 ¬ reserved (toLowerCase (telemetry_name r))) →
  settled (parseFile opts chunks) = Some frames →
  Forall (λ f, TelemetryFrame.vehicleId f = v ∧ TelemetryFrame.lap f = Num l) frames.
Proof.
  intros Hfilter Hv Hl Hnames Hsettled.
  rewrite IngestionProofs.parseFile_settles in Hsettled. injection Hsettled as <-.
  rewrite IngestionProofs.parseFile_rawRows.
  set (acc := rawRows (feed opts chunks initial)).
  assert (Hacc : Forall (λ row, rowOf v l row ∧
                                ¬ reserved (toLowerCase (telemetry_name row))) acc).
  { apply Forall_forall. intros r Hr.
    destruct (IngestionProofs.feed_origin opts chunks initial r Hr)
      as [Hin|(rows & raw & Hrows & Hraw & Hacc)].
    { by apply elem_of_nil in Hin. }
    unfold accept in Hacc. destruct (validRow raw) as [r0|] eqn:Hvalid; [|done].
    destruct (passesFilter (filter opts) r0) eqn:Hpass; [|done].
    injection Hacc as ->. split.
    - rewrite Hfilter in Hpass. by apply passesFilter_rowOf.
    - by apply (Hnames rows raw). }
  apply Forall_forall. intros f Hf.
  destruct (pivotToFrames_origin acc f Hf) as (g & Hg & Hnew).
  pose proof (groupRows_tableOf v l acc Hacc) as Htables.
  rewrite Forall_forall in Htables.
  destruct (frameDataOf_tableOf v l g.2 (Htables g Hg)) as [Hvid Hlap].
  rewrite (new_fields _ _ Hnew).
  cbn [TelemetryFrame.vehicleId TelemetryFrame.lap]. by rewrite Hvid, Hlap.
Qed.
End PivotProofs.

(* ===================================================================== *)
(** ** Properties of the lap boundary reconstruction                      *)
(* ===================================================================== *)

Module LapProofs.
Import Js JsFacts LapTimeCSVParser LapSpec.

Lemma mapSet_keys (k : Z) (v : LapCSVRow) (m : list (Z * LapCSVRow)) :
  map fst (mapSet k v m)
  = if decide (k ∈ map fst m) then map fst m else (map fst m ++ [k])%list.
Proof.
  induction m as [|[k' v'] m IH]; [done|].
  cbn [mapSet map fst]. destruct (decide (k = k')) as [->|Hne].
  - cbn [map fst]. rewrite decide_True; [done|apply list_elem_of_here].
  - cbn [map fst]. rewrite IH.
    destruct (decide (k ∈ map fst m)) as [Hin|Hnin].
    + rewrite decide_True; [done|by apply list_elem_of_further].
    + rewrite decide_False; [done|]. rewrite elem_of_cons. tauto.
Qed.

Lemma mapSet_filed (r : LapCSVRow) (m : list (Z * LapCSVRow)) :
  filedByLap m → filedByLap (mapSet (lap r) r m).
Proof.
  intros [Hnd Hlap]. split.
  - rewrite mapSet_keys. case_decide; [done|].
    apply NoDup_app. split; [done|]. split.
    + intros x Hx ?%list_elem_of_singleton. by subst.
    + apply NoDup_singleton.
  - intros e [->|Hin]%mapSet_elem_of; [done|by apply Hlap].
Qed.

Lemma keepLarger_filed (m : list (Z * LapCSVRow)) (r : LapCSVRow) :
  filedByLap m → filedByLap (keepLarger m r).
Proof.
  intros Hm. unfold keepLarger.
  destruct (mapGet (lap r) m); [|by apply mapSet_filed].
  destruct (gt _ _); [by apply mapSet_filed|done].
Qed.

Lemma uniqueRows_filed (rows : list LapCSVRow) (m : list (Z * LapCSVRow)) :
  filedByLap m → filedByLap (fold_left keepLarger rows m).
Proof.
  revert m. induction rows as [|r rest IH]; intros m Hm; [done|].
  simpl. apply IH. by apply keepLarger_filed.
Qed.

Lemma keepLarger_origin (m : list (Z * LapCSVRow)) (r : LapCSVRow) (e : Z * LapCSVRow) :
  e ∈ keepLarger m r → e.2 = r ∨ e ∈ m.
Proof.
  unfold keepLarger.
  destruct (mapGet (lap r) m).
  - destruct (gt _ _); [|by right]. intros [->|?]%mapSet_elem_of; [by left|by right].
  - intros [->|?]%mapSet_elem_of; [by left|by right].
Qed.

Lemma uniqueRows_origin (rows : list LapCSVRow) (m : list (Z * LapCSVRow)) (e : Z * LapCSVRow) :
  e ∈ fold_left keepLarger rows m → e.2 ∈ rows ∨ e ∈ m.
Proof.
  revert m. induction rows as [|r rest IH]; intros m Hin; [by right|].
  simpl in Hin. destruct (IH _ Hin) as [?|Hk].
  - left. by apply list_elem_of_further.
  - destruct (keepLarger_origin m r e Hk) as [->|?]; [|by right].
    left. apply list_elem_of_here.
Qed.

Lemma keepLarger_keys (m : list (Z * LapCSVRow)) (r : LapCSVRow) (k : Z) :
  k ∈ map fst (keepLarger m r) ↔ k = lap r ∨ k ∈ map fst m.
Proof.
  unfold keepLarger.
  assert (Hset : k ∈ map fst (mapSet (lap r) r m) ↔ k = lap r ∨ k ∈ map fst m).
  { rewrite mapSet_keys. case_decide as Hin.
    - split; [by right|]. intros [->|?]; done.
    - rewrite elem_of_app, list_elem_of_singleton. tauto. }
  destruct (mapGet (lap r) m) as [existing|] eqn:Hget; [|done].
  assert (Hin : lap r ∈ map fst m).
  { apply mapGet_elem_of in Hget. apply list_elem_of_fmap. by exists (lap r, existing). }
  destruct (gt _ _); [done|]. split; [by right|]. by intros [->|?].
Qed.

Lemma uniqueRows_keys (rows : list LapCSVRow) (m : list (Z * LapCSVRow)) (k : Z) :
  k ∈ map fst (fold_left keepLarger rows m) ↔ k ∈ map lap rows ∨ k ∈ map fst m.
Proof.
  revert m. induction rows as [|r rest IH]; intros m.
  - simpl. split; [by right|]. by intros [?%elem_of_nil|?].
  - cbn [fold_left map]. rewrite IH, keepLarger_keys, elem_of_cons. tauto.
Qed.

(** Ascending without repetition is strictly ascending. *)
Lemma sorted_nodup_strict (l : list LapCSVRow) :
  Sorted (λ a b, lap a ≤ lap b) l → NoDup (map lap l) →
  Sorted (λ a b, lap a < lap b) l.
Proof.
  induction l as [|x l IH]; [constructor|].
  intros [Hs Hhd]%Sorted_inv [Hnin Hnd]%NoDup_cons.
  constructor; [by apply IH|].
  destruct l as [|y l]; constructor.
  apply HdRel_inv in Hhd.
  assert (lap x ≠ lap y); [|lia].
  intros Heq. apply Hnin. rewrite Heq. apply list_elem_of_here.
Qed.

Lemma sortedUniqueRows_strict (vehicleRows : list LapCSVRow) :
  Sorted (λ a b, lap a < lap b) (sortedUniqueRows vehicleRows).
Proof.
  unfold sortedUniqueRows.
  set (m := fold_left keepLarger (sortBy lap vehicleRows) []).
  assert (Hm : filedByLap m).
  { apply uniqueRows_filed. split; [constructor|]. by intros e ?%elem_of_nil. }
  apply sorted_nodup_strict; [apply sortBy_sorted|].
  assert (Hperm : map lap (sortBy lap (map snd m)) ≡ₚ map fst m).
  { rewrite sortBy_perm. destruct Hm as [_ Hlap].
    clear -Hlap. induction m as [|e m IH]; [done|].
    cbn [map]. rewrite (Hlap e) by apply list_elem_of_here.
    f_equiv. apply IH. intros e' He'. apply Hlap. by apply list_elem_of_further. }
  rewrite Hperm. apply Hm.
Qed.

Lemma sortedUniqueRows_origin (vehicleRows : list LapCSVRow) (r : LapCSVRow) :
  r ∈ sortedUniqueRows vehicleRows → r ∈ vehicleRows.
Proof.
  unfold sortedUniqueRows. rewrite sortBy_elem_of.
  intros (e & -> & He)%list_elem_of_fmap.
  apply uniqueRows_origin in He as [?|?%elem_of_nil]; [|done].
  by apply sortBy_elem_of in H.
Qed.

Lemma sortedUniqueRows_laps (vehicleRows : list LapCSVRow) (k : Z) :
  k ∈ map lap (sortedUniqueRows vehicleRows) ↔ k ∈ map lap vehicleRows.
Proof.
  unfold sortedUniqueRows.
  set (m := fold_left keepLarger (sortBy lap vehicleRows) []).
  assert (Hm : filedByLap m).
  { apply uniqueRows_filed. split; [constructor|]. by intros e ?%elem_of_nil. }
  assert (Hkeys : k ∈ map lap (sortBy lap (map snd m)) ↔ k ∈ map fst m).
  { rewrite sortBy_perm. destruct Hm as [_ Hlap].
    rewrite !list_elem_of_fmap. split.
    - intros (r & -> & (e & -> & He)%list_elem_of_fmap).
      exists e. split; [by apply Hlap|done].
    - intros (e & -> & He). exists e.2. split; [symmetry; by apply Hlap|].
      apply list_elem_of_fmap. by exists e. }
  rewrite Hkeys. subst m. rewrite uniqueRows_keys.
  assert (Hsort : k ∈ map lap (sortBy lap vehicleRows) ↔ k ∈ map lap vehicleRows)
    by by rewrite sortBy_perm.
  rewrite Hsort. split; [|by left]. by intros [?|?%elem_of_nil].
Qed.

Lemma rowsOf_app (v : string) (l1 l2 : list LapCSVRow) :
  rowsOf v (l1 ++ l2) = (rowsOf v l1 ++ rowsOf v l2)%list.
Proof. apply List.filter_app. Qed.

(** The vehicle map holds, for each vehicle, its rows in input order. *)
Lemma groupByVehicle_get (rows : list LapCSVRow) (m : list (string * list LapCSVRow))
    (v : string) :
  default [] (mapGet v (fold_left addToVehicle rows m))
  = (default [] (mapGet v m) ++ rowsOf v rows)%list.
Proof.
  revert m. induction rows as [|r rest IH]; intros m.
  - simpl. by rewrite app_nil_r.
  - cbn [fold_left]. rewrite IH. unfold addToVehicle.
    change (r :: rest) with ([r] ++ rest)%list. rewrite rowsOf_app, app_assoc. f_equal.
    unfold rowsOf. cbn [List.filter].
    destruct (decide (vehicle_id r = v)) as [<-|Hne].
    + rewrite mapGet_mapSet_eq, bool_decide_eq_true_2 by done. done.
    + rewrite mapGet_mapSet_ne, bool_decide_eq_false_2 by done. by rewrite app_nil_r.
Qed.

Lemma addToVehicle_keys (m : list (string * list LapCSVRow)) (r : LapCSVRow) :
  NoDup (map fst m) → NoDup (map fst (addToVehicle m r)).
Proof.
  intros Hnd. unfold addToVehicle.
  generalize (default [] (mapGet (vehicle_id r) m) ++ [r])%list. intros rs.
  generalize (vehicle_id r). intros k.
  induction m as [|[k' v'] m IH]; cbn [mapSet map fst].
  - apply NoDup_singleton.
  - apply NoDup_cons in Hnd as [Hnin Hnd].
    destruct (decide (k = k')) as [->|Hne]; cbn [map fst].
    + by apply NoDup_cons.
    + apply NoDup_cons. split; [|by apply IH].
      intros ((k0 & v0) & Hk & [[= -> ->]|Hin]%mapSet_elem_of)%list_elem_of_fmap;
        simpl in Hk; subst; [done|].
      apply Hnin. apply list_elem_of_fmap. by exists (k0, v0).
Qed.

Lemma groupByVehicle_keys (rows : list LapCSVRow) (m : list (string * list LapCSVRow)) :
  NoDup (map fst m) → NoDup (map fst (fold_left addToVehicle rows m)).
Proof.
  revert m. induction rows as [|r rest IH]; intros m Hm; [done|].
  simpl. apply IH. by apply addToVehicle_keys.
Qed.

Lemma elem_of_mapGet {V : Type} (k : string) (v : V) (m : list (string * V)) :
  NoDup (map fst m) → (k, v) ∈ m → mapGet k m = Some v.
Proof.
  induction m as [|[k' v'] m IH]; [by intros _ ?%elem_of_nil|].
  cbn [map fst mapGet]. intros [Hnin Hnd]%NoDup_cons [[= -> ->]|Hin]%elem_of_cons.
  - by rewrite decide_True.
  - rewrite decide_False; [by apply IH|].
    intros ->. apply Hnin. apply list_elem_of_fmap. by exists (k', v).
Qed.

Lemma groupByVehicle_rows (rows : list LapCSVRow) (v : string) (rs : list LapCSVRow) :
  (v, rs) ∈ groupByVehicle rows → rs = rowsOf v rows.
Proof.
  intros Hin. unfold groupByVehicle in *.
  pose proof (groupByVehicle_get rows [] v) as Hget.
  rewrite (elem_of_mapGet v rs) in Hget; [done| |done].
  apply groupByVehicle_keys. constructor.
Qed.

Section WithRuntime.
Context `{JsRuntime}.

Lemma parseTime_clipped (s : string) :
  timeClip (JsDate.parseTime s) = JsDate.parseTime s.
Proof. apply timeClip_idem. Qed.

Lemma convertAll_consecutive (prevRow : option LapCSVRow) (rows : list LapCSVRow) :
  convertAll prevRow rows = omap lapOf (zip (prevRow :: map Some rows) rows).
Proof.
  revert prevRow. induction rows as [|row rest IH]; intros prevRow; [done|].
  cbn [convertAll map zip zip_with omap list_omap]. unfold lapOf at 1. cbn [fst snd].
  rewrite IH. by destruct (convertToLap row prevRow).
Qed.

(** The boundaries of a lap that [convertToLap] returns. *)
Lemma convertToLap_boundaries (row : LapCSVRow) (prevRow : option LapCSVRow) (l : Lap.t) :
  convertToLap row prevRow = Ok l →
  boundaries row prevRow l ∧ lt (Lap.startTime l) (Lap.endTime l) = true.
Proof.
  unfold convertToLap, boundaries.
  destruct (Vehicle.new _) as [vehicle|]; [|done].
  unfold Lap.new. cbn [Lap.d_lapNumber Lap.d_vehicle Lap.d_startTime Lap.d_endTime
                       Lap.d_sectorTimes JsDate.falsyTimestamp JsDate.toTime orb].
  rewrite parseTime_clipped.
  destruct (lt (Num (lap row)) (Num 0)); [done|].
  destruct (isNaN (timeClip (startOf row prevRow))) eqn:Hstart; [done|].
  destruct (JsDate.parseTime (timestamp row)) as [e|] eqn:He; [|done].
  cbn [isNaN].
  destruct (le (Num e) (timeClip (startOf row prevRow))) eqn:Hle; [done|].
  intros [= <-]. cbn [Lap.startTime Lap.endTime].
  assert (Hs : ∃ s, timeClip (startOf row prevRow) = Num s ∧ s < e).
  { destruct (timeClip (startOf row prevRow)) as [s|]; [|done].
    exists s. split; [done|]. simpl in Hle. lia. }
  destruct Hs as (s & Hs & Hlt). rewrite Hs.
  split; [|simpl; lia].
  exists e. split; [done|]. split; [done|].
  apply timeClip_num in Hs as [Hs _].
  unfold startOf in Hs. rewrite He in Hs. cbn [sub] in Hs.
  destruct prevRow as [p|].
  - destruct (JsDate.parseTime (timestamp p)) as [pt|] eqn:Hp.
    + exists pt. split; [done|]. f_equal. unfold ge, le in Hs.
      destruct (Z.leb_spec e pt) as [Hge|Hlt'].
      * apply timeClip_num in Hs as [[= <-] _].
        destruct (Z.geb_spec pt e); [done|lia].
      * injection Hs as <-. destruct (Z.geb_spec pt e); [lia|done].
    + simpl in Hs. done.
  - destruct (timeClip (Num (e - 120000))) as [c|] eqn:Hc.
    + apply timeClip_num in Hc as [[= <-] _].
      unfold ge, le in Hs. destruct (Z.leb_spec e (e - 120000)); [lia|].
      by injection Hs as <-.
    + simpl in Hs. done.
Qed.
(** The lap that [convertToLap] builds from a row whose vehicle, lap
    number and timestamp are in order. *)
Lemma convertToLap_builds (row : LapCSVRow) (prevRow : option LapCSVRow)
    (vehicle : Vehicle.t) (e : Z) (prevTime : option Z) :
  Vehicle.new (parseVehicleId (vehicle_id row)) = Ok vehicle →
  0 ≤ lap row →
  JsDate.parseTime (timestamp row) = Num e →
  120000 - maxTime ≤ e →
  (JsDate.parseTime ∘ timestamp) <$> prevRow = Num <$> prevTime →
  convertToLap row prevRow
  = Ok {| Lap.lapNumber := Num (lap row);
          Lap.vehicle := vehicle;
          Lap.startTime := Num (statedStart e prevTime);
          Lap.endTime := Num e;
          Lap.sectorTimes := parseSectorTimes row |}.
Proof.
  intros Hv Hlap He Hlow Hprev. unfold convertToLap. rewrite Hv.
  pose proof He as [_ Her]%timeClip_num.
  assert (Hstart : startOf row prevRow = Num (statedStart e prevTime) ∧
                   Z.abs (statedStart e prevTime) ≤ maxTime ∧ statedStart e prevTime < e).
  { assert (Hforced : timeClip (sub (Num e) (Num 120000)) = Num (e - 120000)).
    { simpl. destruct (Z.leb_spec (Z.abs (e - 120000)) maxTime); [done|lia]. }
    unfold startOf. rewrite He, Hforced.
    destruct prevRow as [p|], prevTime as [pt|]; try done; cbn [fmap option_fmap option_map] in Hprev.
    - injection Hprev as Hp. cbn [compose] in Hp. rewrite Hp.
      pose proof Hp as [_ Hpr]%timeClip_num.
      unfold statedStart, ge, le.
      destruct (Z.leb_spec e pt), (Z.geb_spec pt e); try lia; (split; [done|lia]).
    - unfold statedStart, ge, le. destruct (Z.leb_spec e (e - 120000)); [lia|].
      split; [done|lia]. }
  destruct Hstart as (Hs & Hsr & Hlt).
  unfold Lap.new. cbn [Lap.d_lapNumber Lap.d_vehicle Lap.d_startTime Lap.d_endTime
                       Lap.d_sectorTimes JsDate.falsyTimestamp JsDate.toTime orb].
  rewrite parseTime_clipped, He, Hs. unfold lt, le. cbn [timeClip isNaN].
  destruct (Z.ltb_spec (lap row) 0); [lia|].
  destruct (Z.leb_spec (Z.abs (statedStart e prevTime)) maxTime); [|lia].
  cbn [isNaN]. destruct (Z.leb_spec e (statedStart e prevTime)); [lia|]. done.
Qed.

(** After a row whose timestamp is no date no lap is built. *)
Lemma convertToLap_after_invalid (row p : LapCSVRow) :
  JsDate.parseTime (timestamp p) = NaN →
  ∃ m, convertToLap row (Some p) = Throw m.
Proof.
  intros Hp. unfold convertToLap.
  destruct (Vehicle.new _) as [vehicle|m]; [|by eexists].
  unfold Lap.new. cbn [Lap.d_lapNumber Lap.d_vehicle Lap.d_startTime Lap.d_endTime
                       Lap.d_sectorTimes JsDate.falsyTimestamp JsDate.toTime orb].
  destruct (lt _ _); [by eexists|].
  assert (startOf row (Some p) = NaN) as ->.
  { unfold startOf. rewrite Hp. by destruct (JsDate.parseTime (timestamp row)). }
  by eexists.
Qed.
End WithRuntime.

(** The keys of a map after [set]: a new key goes last. *)
Lemma mapSet_order {V : Type} (k : string) (v : V) (m : list (string * V)) :
  map fst (mapSet k v m) = seen (map fst m) k.
Proof.
  unfold seen. induction m as [|[k' v'] m IH]; [done|].
  cbn [mapSet map fst]. destruct (decide (k = k')) as [->|Hne].
  - cbn [map fst]. rewrite decide_True; [done|apply list_elem_of_here].
  - cbn [map fst]. rewrite IH.
    destruct (decide (k ∈ map fst m)) as [Hin|Hnin].
    + rewrite decide_True; [done|by apply list_elem_of_further].
    + rewrite decide_False; [done|]. rewrite elem_of_cons. tauto.
Qed.

Lemma groupByVehicle_order (rows : list LapCSVRow) (m : list (string * list LapCSVRow)) :
  map fst (fold_left addToVehicle rows m) = fold_left seen (map vehicle_id rows) (map fst m).
Proof.
  revert m. induction rows as [|r rest IH]; intros m; [done|].
  cbn [fold_left map]. rewrite IH. f_equal. apply mapSet_order.
Qed.

(** The vehicle map holds one group per vehicle of the input, in the
    order of their first rows, each with the rows of its vehicle. *)
Lemma groupByVehicle_groups (rows : list LapCSVRow) :
  groupByVehicle rows = map (λ v, (v, rowsOf v rows)) (vehiclesOf rows).
Proof.
  unfold vehiclesOf. pose proof (groupByVehicle_order rows []) as Horder.
  cbn [map] in Horder. rewrite <- Horder. fold (groupByVehicle rows). clear Horder.
  assert (Hall : ∀ g, g ∈ groupByVehicle rows → g.2 = rowsOf g.1 rows).
  { intros [v rs] Hg. by apply groupByVehicle_rows. }
  induction (groupByVehicle rows) as [|[v rs] gs IH]; [done|].
  cbn [map fst]. pose proof (Hall (v, rs) (list_elem_of_here _ _)) as Hrs.
  cbn [fst snd] in Hrs. rewrite <- Hrs. f_equal.
  apply IH. intros g Hg. by apply Hall, list_elem_of_further.
Qed.

Lemma vehiclesOf_elem_of (rows : list LapCSVRow) (v : string) :
  v ∈ vehiclesOf rows ↔ ∃ r, r ∈ rows ∧ vehicle_id r = v.
Proof.
  unfold vehiclesOf.
  assert (Hgen : ∀ ids acc, v ∈ fold_left seen ids acc ↔ v ∈ acc ∨ v ∈ ids).
  { induction ids as [|i ids IH]; intros acc; simpl.
    - rewrite elem_of_nil. tauto.
    - rewrite IH, elem_of_cons. unfold seen.
      destruct (decide (i ∈ acc)) as [Hi|Hi].
      + split; [tauto|]. intros [?|[->|?]]; tauto.
      + rewrite elem_of_app, list_elem_of_singleton. split; [tauto|].
        intros [?|[->|?]]; tauto. }
  rewrite Hgen, elem_of_nil, list_elem_of_fmap.
  split; [intros [[]|(r & -> & ?)]; by exists r|intros (r & ? & <-); right; by exists r].
Qed.

(** C6.  The laps are built vehicle by vehicle, in the order in which
    the vehicles are first met in the input, and every vehicle of the
    input has its laps built: from the vehicle's rows with one row kept
    per lap number, in strictly ascending order of lap number, each row
    taken with the one before it.  From a row whose vehicle id, lap
    number and timestamp are in order a lap is built that ends at the
    row's timestamp and starts at the timestamp of the row before, or
    120000 ms before its end when it is the vehicle's first row or when
    the row before is not earlier than its end; no lap is built after a
    row whose timestamp is no date; and every lap that is built has
    these boundaries and ends after it starts. *)
Theorem lap_boundaries `{JsRuntime} (rows : list LapCSVRow) :
  processRows rows
  = concat (map (λ v, omap lapOf (consecutive (sortedUniqueRows (rowsOf v rows))))
                (vehiclesOf rows)) ∧
  (∀ v, v ∈ vehiclesOf rows ↔ ∃ r, r ∈ rows ∧ vehicle_id r = v) ∧
  (∀ v,
    let u := sortedUniqueRows (rowsOf v rows) in
    Sorted (λ a b, lap a < lap b) u ∧
    (∀ r, r ∈ u → r ∈ rows ∧ vehicle_id r = v) ∧
    (∀ k, k ∈ map lap u ↔ ∃ r, r ∈ rows ∧ vehicle_id r = v ∧ lap r = k)) ∧
  (∀ row prevRow vehicle e prevTime,
     Vehicle.new (parseVehicleId (vehicle_id row)) = Ok vehicle →
     0 ≤ lap row →
     JsDate.parseTime (timestamp row) = Num e →
     120000 - maxTime ≤ e →
     (JsDate.parseTime ∘ timestamp) <$> prevRow = Num <$> prevTime →
     convertToLap row prevRow
     = Ok {| Lap.lapNumber := Num (lap row);
             Lap.vehicle := vehicle;
             Lap.startTime := Num (statedStart e prevTime);
             Lap.endTime := Num e;
             Lap.sectorTimes := parseSectorTimes row |}) ∧
  (∀ row p, JsDate.parseTime (timestamp p) = NaN →
            ∃ m, convertToLap row (Some p) = Throw m) ∧
  (∀ row prevRow l,
     convertToLap row prevRow = Ok l →
     boundaries row prevRow l ∧ lt (Lap.startTime l) (Lap.endTime l) = true).
Proof.
  assert (Hrows : ∀ v r, r ∈ rowsOf v rows ↔ r ∈ rows ∧ vehicle_id r = v).
  { intros v r. unfold rowsOf. rewrite list_elem_of_In, filter_In, <- list_elem_of_In.
    by rewrite bool_decide_eq_true. }
  split; [|split; [|split; [|split; [|split]]]].
  - unfold processRows. rewrite groupByVehicle_groups, map_map. f_equal.
    apply map_ext. intros v. cbn [snd]. apply convertAll_consecutive.
  - apply vehiclesOf_elem_of.
  - intros v u. subst u. split; [apply sortedUniqueRows_strict|]. split.
    + intros r Hr. by apply Hrows, sortedUniqueRows_origin.
    + intros k. rewrite sortedUniqueRows_laps, list_elem_of_fmap. split.
      * intros (r & -> & [? ?]%Hrows). by exists r.
      * intros (r & ? & ? & <-). exists r. split; [done|]. by apply Hrows.
  - intros row prevRow vehicle e prevTime. apply convertToLap_builds.
  - intros row p. apply convertToLap_after_invalid.
  - apply convertToLap_boundaries.
Qed.
End LapProofs.

(* ===================================================================== *)
(** ** Properties of the entities                                         *)
(* ===================================================================== *)

Module EntityProofs.
Import Js JsFacts JsDate.

Section WithRuntime.
Context `{JsRuntime} `{!JsDateLaws}.

Lemma toTime_range (x : timestampInput) (t : Z) :
  toTime x = Num t → Z.abs t ≤ maxTime.
Proof.
  destruct x as [s|n]; simpl; unfold parseTime; by intros [_ ?]%timeClip_num.
Qed.

(** Printing a valid time value and reading it back. *)
Lemma iso_round_trip (t : Z) :
  Z.abs t ≤ maxTime →
  falsyTimestamp (OfString (Date_toISOString t)) = false ∧
  toTime (OfString (Date_toISOString t)) = Num t.
Proof.
  intros Ht. split.
  - simpl. pose proof (toISOString_nonempty t).
    by destruct (Date_toISOString t).
  - simpl. unfold parseTime. rewrite parse_toISOString by done.
    simpl. by destruct (Z.leb_spec (Z.abs t) maxTime); [|lia].
Qed.

Lemma frame_round_trip (data : TelemetryFrame.TelemetryFrameData) (f : TelemetryFrame.t) :
  TelemetryFrame.new data = Ok f →
  ∃ json, TelemetryFrame.toJSON f = Ok json ∧ TelemetryFrame.new json = Ok f.
Proof.
  unfold TelemetryFrame.new.
  destruct (falsyTimestamp (TelemetryFrame.d_timestamp data)); [done|].
  destruct (toTime (TelemetryFrame.d_timestamp data)) as [t|] eqn:Ht; [|done].
  cbn [orb isNaN].
  destruct (negb (truthyStr (TelemetryFrame.d_vehicleId data))
            || isBlank (TelemetryFrame.d_vehicleId data)) eqn:Hv; [done|].
  destruct (lt (TelemetryFrame.d_lap data) (Num 0)) eqn:Hl; [done|].
  destruct (lt (TelemetryFrame.d_speed data) (Num 0)) eqn:Hs; [done|].
  destruct (lt (TelemetryFrame.d_throttlePos data) (Num 0)
            || gt (TelemetryFrame.d_throttlePos data) (Num 100)) eqn:Hth; [done|].
  destruct (lt (TelemetryFrame.d_brakePos data) (Num 0)
            || gt (TelemetryFrame.d_brakePos data) (Num 100)) eqn:Hb; [done|].
  intros [= <-].
  destruct (iso_round_trip t (toTime_range _ _ Ht)) as [Hfalsy Htime].
  unfold TelemetryFrame.toJSON. cbn [TelemetryFrame.timestamp isoOf].
  eexists. split; [done|].
  cbn [TelemetryFrame.d_timestamp TelemetryFrame.d_vehicleId TelemetryFrame.d_lap
       TelemetryFrame.d_speed TelemetryFrame.d_throttlePos TelemetryFrame.d_brakePos
       TelemetryFrame.d_gpsLatitude TelemetryFrame.d_gpsLongitude
       TelemetryFrame.d_steeringAngle TelemetryFrame.d_gear
       TelemetryFrame.vehicleId TelemetryFrame.lap TelemetryFrame.speed
       TelemetryFrame.throttlePos TelemetryFrame.brakePos TelemetryFrame.gpsLatitude
       TelemetryFrame.gpsLongitude TelemetryFrame.steeringAngle TelemetryFrame.gear].
  rewrite Hfalsy, Htime. cbn [orb isNaN]. by rewrite Hv, Hl, Hs, Hth, Hb.
Qed.

Lemma vehicle_round_trip (data : Vehicle.VehicleData) (v : Vehicle.t) :
  Vehicle.new data = Ok v → Vehicle.new (Vehicle.toJSON v) = Ok v.
Proof.
  unfold Vehicle.new.
  destruct (negb (truthyStr (Vehicle.d_chassis data)) || isBlank (Vehicle.d_chassis data))
    eqn:Hc; [done|].
  destruct (lt (Vehicle.d_carNumber data) (Num 0)) eqn:Hn; [done|].
  intros [= <-]. simpl. by rewrite Hc, Hn.
Qed.

Lemma lap_round_trip (data : Lap.LapData) (l : Lap.t) :
  Lap.new data = Ok l →
  ∃ j, Lap.toJSON l = Ok j ∧
       Lap.j_vehicle j = Vehicle.toJSON (Lap.vehicle l) ∧
       Lap.j_durationMs j = Lap.durationMs l ∧
       Lap.new {| Lap.d_lapNumber := Lap.j_lapNumber j;
                  Lap.d_vehicle := Some (Lap.vehicle l);
                  Lap.d_startTime := OfString (Lap.j_startTime j);
                  Lap.d_endTime := OfString (Lap.j_endTime j);
                  Lap.d_sectorTimes := Some (Lap.j_sectorTimes j) |} = Ok l.
Proof.
  unfold Lap.new.
  destruct (lt (Lap.d_lapNumber data) (Num 0)) eqn:Hn; [done|].
  destruct (Lap.d_vehicle data) as [v|]; [|done].
  destruct (falsyTimestamp (Lap.d_startTime data)); [done|].
  destruct (toTime (Lap.d_startTime data)) as [s|] eqn:Hs; [|done].
  destruct (falsyTimestamp (Lap.d_endTime data)); [done|].
  destruct (toTime (Lap.d_endTime data)) as [e|] eqn:He; [|done].
  cbn [orb isNaN].
  destruct (le (Num e) (Num s)) eqn:Hle; [done|].
  intros [= <-].
  destruct (iso_round_trip s (toTime_range _ _ Hs)) as [Hfs Hts].
  destruct (iso_round_trip e (toTime_range _ _ He)) as [Hfe Hte].
  unfold Lap.toJSON. cbn [Lap.startTime Lap.endTime isoOf].
  eexists. split; [done|].
  cbn [Lap.j_vehicle Lap.j_durationMs Lap.j_lapNumber Lap.j_startTime Lap.j_endTime
       Lap.j_sectorTimes Lap.vehicle Lap.lapNumber Lap.sectorTimes
       Lap.d_lapNumber Lap.d_vehicle Lap.d_startTime Lap.d_endTime Lap.d_sectorTimes].
  split; [done|]. split; [done|].
  rewrite Hfs, Hts, Hfe, Hte. cbn [orb isNaN]. by rewrite Hn, Hle.
Qed.
End WithRuntime.

(** C9.  A frame that the constructor has returned is returned again by
    the constructor applied to its [toJSON()] form; and a lap is
    returned again by its constructor applied to the fields of its
    [toJSON()] form, with the vehicle rebuilt from its own plain form,
    the serialized duration being the lap's. *)
Theorem serialization_round_trip `{JsRuntime} `{!JsDateLaws} :
  (∀ data f,
     TelemetryFrame.new data = Ok f →
     ∃ json, TelemetryFrame.toJSON f = Ok json ∧ TelemetryFrame.new json = Ok f) ∧
  (∀ vehicleData v data l,
     Vehicle.new vehicleData = Ok v →
     Lap.d_vehicle data = Some v →
     Lap.new data = Ok l →
     ∃ j, Lap.toJSON l = Ok j ∧
          Vehicle.new (Lap.j_vehicle j) = Ok v ∧
          Lap.j_durationMs j = Lap.durationMs l ∧
          Lap.new {| Lap.d_lapNumber := Lap.j_lapNumber j;
                     Lap.d_vehicle := Some v;
                     Lap.d_startTime := OfString (Lap.j_startTime j);
                     Lap.d_endTime := OfString (Lap.j_endTime j);
                     Lap.d_sectorTimes := Some (Lap.j_sectorTimes j) |} = Ok l).
Proof.
  split; [apply frame_round_trip|].
  intros vehicleData v data l Hv Hdv Hl.
  assert (Hlv : Lap.vehicle l = v).
  { revert Hl. unfold Lap.new. rewrite Hdv.
    repeat match goal with |- context [if ?c then _ else _] => destruct c end;
      by intros [= <-]. }
  destruct (lap_round_trip data l Hl) as (j & Hj & Hjv & Hd & Hnew).
  exists j. rewrite Hlv in Hjv, Hnew. split; [done|]. split; [|done].
  rewrite Hjv. by apply (vehicle_round_trip vehicleData).
Qed.
End EntityProofs.

(* ===================================================================== *)
(** ** Properties of the telemetry cache                                  *)
(* ===================================================================== *)

Module CacheProofs.
Import Js JsFacts TelemetryCache CacheSpec.

Section Transparency.
Context {R : Type} `{ITelemetryRepository.t R}.

(** The list operations leave the map, the repository and the capacity
    alone. *)
Local Ltac by_cases :=
  repeat (simpl;
          match goal with
          | |- context [match ?o with Some _ => _ | None => _ end] => destruct o
          | |- context [if ?c then _ else _] => destruct c
          end);
  simpl; done.

Lemma addToFront_fields (l : nat) (st : t R) :
  cache (addToFront l st) = cache st ∧
  repository (addToFront l st) = repository st ∧
  maxSize (addToFront l st) = maxSize st.
Proof. unfold addToFront. by_cases. Qed.

Lemma moveToFront_fields (k : string) (st : t R) :
  cache (moveToFront k st) = cache st ∧
  repository (moveToFront k st) = repository st ∧
  maxSize (moveToFront k st) = maxSize st.
Proof.
  unfold moveToFront. destruct (cache st !! k) as [e|]; [|done].
  match goal with |- context [addToFront ?l ?s] =>
    destruct (addToFront_fields l s) as (-> & -> & ->) end.
  by_cases.
Qed.

Lemma remove_fields (k : string) (st : t R) :
  cache (remove k st) = cache st ∧
  repository (remove k st) = repository st ∧
  maxSize (remove k st) = maxSize st.
Proof.
  unfold remove. destruct (cache st !! k) as [e|]; [|done]. by_cases.
Qed.

Lemma removeTail_fields (st : t R) :
  cache (removeTail st) = cache st ∧
  repository (removeTail st) = repository st ∧
  maxSize (removeTail st) = maxSize st.
Proof. unfold removeTail. by_cases. Qed.

(** What [set] does to the map: it adds the entry, and may drop others. *)
Lemma set_fields (k : string) (d : list TelemetryFrame.t) (st : t R) :
  repository (set k d st) = repository st ∧
  maxSize (set k d st) = maxSize st ∧
  (∃ e, cache (set k d st) !! k = Some e ∧ data e = d) ∧
  (∀ k' e', k' ≠ k → cache (set k d st) !! k' = Some e' → cache st !! k' = Some e').
Proof.
  unfold set.
  set (st1 := match cache st !! k with Some _ => remove k st | None => st end).
  assert (H1 : cache st1 = cache st ∧ repository st1 = repository st ∧
               maxSize st1 = maxSize st).
  { subst st1. destruct (cache st !! k); [apply remove_fields|done]. }
  set (st2 := match tail st1 with
              | Some tl =>
                  if Z.of_nat (base.size (cache st1)) >=? maxSize st1
                  then removeTail (withCache (delete (keyOf st1 tl) (cache st1)) st1)
                  else st1
              | None => st1
              end).
  assert (H2 : repository st2 = repository st ∧ maxSize st2 = maxSize st ∧
               ∀ k' e', cache st2 !! k' = Some e' → cache st !! k' = Some e').
  { destruct H1 as (Hc & Hr & Hm). subst st2. destruct (tail st1) as [tl|].
    - destruct (_ >=? _).
      + destruct (removeTail_fields (withCache (delete (keyOf st1 tl) (cache st1)) st1))
          as (-> & -> & ->).
        simpl. split; [done|]. split; [done|].
        intros k' e'. rewrite lookup_delete. case_decide; [done|]. by rewrite Hc.
      + rewrite Hc. done.
    - rewrite Hc. done. }
  destruct H2 as (Hr & Hm & Hsub).
  match goal with |- context [addToFront ?l ?s] =>
    destruct (addToFront_fields l s) as (-> & -> & ->) end.
  simpl. split; [done|]. split; [done|]. split.
  - eexists. by rewrite lookup_insert_eq.
  - intros k' e' Hne. rewrite lookup_insert_ne by done. apply Hsub.
Qed.

(** The key of a vehicle and a non-negative lap determines both. *)
Lemma cacheKey_inj (v v' : string) (l l' : Z) :
  0 ≤ l → 0 ≤ l' → cacheKey v l = cacheKey v' l' → v = v' ∧ l = l'.
Proof.
  intros Hl Hl' Heq. unfold cacheKey in Heq.
  change (v ++ String "-" (intToString l) = v' ++ String "-" (intToString l')) in Heq.
  apply dash_suffix_inj in Heq as [-> Hs]; [|by apply intToString_no_dash..].
  split; [done|]. by apply intToString_inj.
Qed.

Lemma new_coherent (repo : R) (size : Z) : coherent (new repo size).
Proof. intros k e Hk. simpl in Hk. by rewrite lookup_empty in Hk. Qed.

(** A lookup through the cache returns what the repository returns. *)
Lemma get_coherent (st : t R) (v : string) (l : Z) :
  coherent st → 0 ≤ l →
  (getTelemetryByVehicleAndLap st v l).1
  = ITelemetryRepository.getTelemetryByVehicleAndLap (repository st) v l ∧
  repository (getTelemetryByVehicleAndLap st v l).2 = repository st ∧
  coherent (getTelemetryByVehicleAndLap st v l).2.
Proof.
  intros Hco Hl. unfold getTelemetryByVehicleAndLap.
  destruct (cache st !! cacheKey v l) as [e|] eqn:Hk; cbn [fst snd].
  - destruct (moveToFront_fields (cacheKey v l) st) as (Hc & Hr & _).
    rewrite Hc, Hk, Hr. split; [by apply (Hco _ _ Hk)|]. split; [done|].
    intros k' e' Hk' v' l' Hl' Hkey. rewrite Hc in Hk'. rewrite Hr.
    by apply (Hco _ _ Hk').
  - set (d := ITelemetryRepository.getTelemetryByVehicleAndLap (repository st) v l).
    destruct (set_fields (cacheKey v l) d st) as (Hr & _ & (e & He & Hd) & Hother).
    split; [done|]. split; [done|].
    intros k' e' Hk' v' l' Hl' Hkey. rewrite Hr.
    destruct (decide (k' = cacheKey v l)) as [->|Hne].
    + rewrite He in Hk'. injection Hk' as <-. rewrite Hd.
      apply cacheKey_inj in Hkey as [-> ->]; done.
    + apply (Hco k' e'); [by apply Hother|done..].
Qed.

Lemma invalidate_coherent (st : t R) (repo : R) :
  coherent (withRepository repo (invalidate st)).
Proof. intros k e Hk. simpl in Hk. by rewrite lookup_empty in Hk. Qed.

(** One call: the same response, the same repository until the next. *)
Lemma cached_direct (st : t R) (c : call) :
  coherent st → lapNotNegative c →
  (cached st c).1 = (direct (repository st) c).1 ∧
  repository (cached st c).2 = (direct (repository st) c).2 ∧
  coherent (cached st c).2.
Proof.
  intros Hco Hc. destruct c as [v l|v s e| |v|frames|]; cbn [cached direct].
  - destruct (get_coherent st v l Hco Hc) as (Hd & Hr & Hco').
    destruct (getTelemetryByVehicleAndLap st v l) as [d st']. cbn [fst snd] in *.
    by rewrite Hd.
  - done.
  - done.
  - done.
  - unfold saveTelemetry. cbn [fst snd]. split; [done|]. split; [done|].
    apply invalidate_coherent.
  - unfold clear. cbn [fst snd]. split; [done|]. split; [done|].
    apply invalidate_coherent.
Qed.

Lemma runCached_direct (calls : list call) (st : t R) :
  coherent st → Forall lapNotNegative calls →
  (runCached st calls).1 = (runDirect (repository st) calls).1 ∧
  repository (runCached st calls).2 = (runDirect (repository st) calls).2.
Proof.
  revert st. induction calls as [|c rest IH]; intros st Hco Hcalls; [done|].
  apply Forall_cons in Hcalls as [Hc Hrest].
  destruct (cached_direct st c Hco Hc) as (Hr & Hrepo & Hco').
  cbn [runCached runDirect].
  destruct (cached st c) as [r st']. destruct (direct (repository st) c) as [r' repo'].
  cbn [fst snd] in *. subst r' repo'.
  specialize (IH st' Hco' Hrest).
  destruct (runCached st' rest) as [rs fin]. destruct (runDirect (repository st') rest) as [rs' fin'].
  cbn [fst snd] in *. destruct IH as [-> ->]. done.
Qed.
End Transparency.

Section Recency.
Context {R : Type} `{ITelemetryRepository.t R}.

(** Reading the store of nodes after an assignment to a field. *)
Lemma nodes_setPrev (a : nat) (v : option nat) (st : t R) (x : nat) :
  nodes (setPrev a v st) !! x
  = if decide (x = a)
    then (λ n, {| key := key n; prev := v; next := next n |}) <$> nodes st !! x
    else nodes st !! x.
Proof.
  unfold setPrev. cbn [nodes withNodes]. case_decide as Hx.
  - subst. apply list_lookup_alter_eq.
  - by apply list_lookup_alter_ne.
Qed.

Lemma nodes_setNext (a : nat) (v : option nat) (st : t R) (x : nat) :
  nodes (setNext a v st) !! x
  = if decide (x = a)
    then (λ n, {| key := key n; prev := prev n; next := v |}) <$> nodes st !! x
    else nodes st !! x.
Proof.
  unfold setNext. cbn [nodes withNodes]. case_decide as Hx.
  - subst. apply list_lookup_alter_eq.
  - by apply list_lookup_alter_ne.
Qed.

(** The key of a node never changes. *)
Lemma keyOf_setPrev (a : nat) (v : option nat) (st : t R) (x : nat) :
  keyOf (setPrev a v st) x = keyOf st x.
Proof.
  unfold keyOf. rewrite nodes_setPrev. case_decide; [|done].
  by destruct (nodes st !! x).
Qed.

Lemma keyOf_setNext (a : nat) (v : option nat) (st : t R) (x : nat) :
  keyOf (setNext a v st) x = keyOf st x.
Proof.
  unfold keyOf. rewrite nodes_setNext. case_decide; [|done].
  by destruct (nodes st !! x).
Qed.

Lemma keyOf_addToFront (l : nat) (st : t R) (x : nat) :
  keyOf (addToFront l st) x = keyOf st x.
Proof.
  unfold addToFront.
  assert (Hk : ∀ s : t R, (∀ y, keyOf s y = keyOf st y) →
               keyOf (match tail s with
                      | Some _ => s
                      | None => withTail (Some l) s
                      end) x = keyOf st x).
  { intros s Hs. destruct (tail s); apply Hs. }
  apply Hk. intros y.
  change (keyOf (withHead (Some l) ?s) y) with (keyOf s y).
  match goal with |- keyOf (match ?o with Some _ => _ | None => _ end) _ = _ => destruct o end.
  - by rewrite !keyOf_setPrev, keyOf_setNext.
  - by rewrite keyOf_setPrev, keyOf_setNext.
Qed.

Lemma keyOf_removeTail (st : t R) (x : nat) :
  keyOf (removeTail st) x = keyOf st x.
Proof.
  unfold removeTail. destruct (tail st) as [tl|]; [|done].
  destruct (prevOf st tl) as [p|]; [|done].
  change (keyOf (withTail (Some p) ?s) x) with (keyOf s x).
  apply keyOf_setNext.
Qed.

(** The store of nodes after [addToFront] of a node that is not the
    head. *)
Lemma nodes_addToFront (l : nat) (st : t R) (x : nat) :
  head st ≠ Some l →
  nodes (addToFront l st) !! x
  = if decide (x = l)
    then (λ n, {| key := key n; prev := None; next := head st |}) <$> nodes st !! x
    else if decide (head st = Some x)
    then (λ n, {| key := key n; prev := Some l; next := next n |}) <$> nodes st !! x
    else nodes st !! x.
Proof.
  intros Hhead. unfold addToFront.
  assert (Hn : ∀ s : t R, nodes (match tail s with
                                 | Some _ => s
                                 | None => withTail (Some l) s
                                 end) = nodes s)
    by (intros s; by destruct (tail s)).
  rewrite Hn. cbn [nodes withHead].
  change (head (setPrev l None (setNext l (head st) st))) with (head st).
  destruct (head st) as [h|] eqn:Hh.
  - rewrite !nodes_setPrev, nodes_setNext.
    destruct (decide (x = l)) as [->|Hxl].
    + rewrite decide_False by congruence. by destruct (nodes st !! l).
    + destruct (decide (x = h)) as [->|Hxh].
      * by rewrite decide_True.
      * rewrite decide_False; [done|congruence].
  - rewrite nodes_setPrev, nodes_setNext.
    destruct (decide (x = l)) as [->|Hxl]; [|done].
    by destruct (nodes st !! l).
Qed.

Lemma head_addToFront (l : nat) (st : t R) : head (addToFront l st) = Some l.
Proof. unfold addToFront. by destruct (tail _). Qed.

Lemma tail_addToFront (l : nat) (st : t R) :
  tail (addToFront l st) = match tail st with Some tl => Some tl | None => Some l end.
Proof.
  unfold addToFront. simpl.
  destruct (head st); simpl; destruct (tail st) eqn:Ht; simpl; by rewrite ?Ht.
Qed.

(** Putting a node that is not in the list in front of it. *)
Lemma addToFront_linked (l : nat) (st : t R) (ls : list nat) :
  linked st ls → l ∉ ls → is_Some (nodes st !! l) →
  linked (addToFront l st) (l :: ls).
Proof.
  intros (Hnd & Hhead & Htail & Hnodes) Hfresh [n0 Hn0].
  assert (Hne : head st ≠ Some l).
  { rewrite Hhead. intros Hl. apply Hfresh. by apply list_elem_of_lookup_2 in Hl. }
  split; [by apply NoDup_cons|]. split; [by rewrite head_addToFront|]. split.
  { rewrite tail_addToFront, Htail. destruct ls as [|x ls']; [done|].
    rewrite (last_cons l). by destruct (last (x :: ls')) eqn:Hlast; [|apply last_None in Hlast]. }
  intros i x Hx. unfold nodeAt. rewrite nodes_addToFront by done.
  destruct i as [|i].
  - injection Hx as <-. rewrite decide_True by done. rewrite Hn0.
    eexists. split; [done|]. simpl. split; [done|]. by rewrite Hhead.
  - cbn [lookup list_lookup] in Hx. change (ls !! i = Some x) in Hx.
    assert (Hxl : x ≠ l).
    { intros ->. apply Hfresh. by apply list_elem_of_lookup_2 in Hx. }
    rewrite decide_False by done.
    destruct (Hnodes i x Hx) as (n & Hn & Hp & Hnx).
    rewrite Hn. simpl.
    destruct (decide (head st = Some x)) as [Hhx|Hhx].
    + assert (i = 0%nat) as ->.
      { rewrite Hhead in Hhx. eapply NoDup_lookup; eauto. }
      eexists. split; [done|]. simpl. split; [done|]. by rewrite Hnx.
    + destruct i as [|i]; [by rewrite Hhead in Hhx|].
      eexists. split; [done|]. split; [by rewrite Hp|]. by rewrite Hnx.
Qed.

(** Taking the tail node off the list. *)
Lemma removeTail_linked (st : t R) (init : list nat) (tl : nat) :
  linked st (init ++ [tl]) → linked (removeTail st) init.
Proof.
  intros (Hnd & Hhead & Htail & Hnodes).
  apply NoDup_app in Hnd as (Hndi & Hnotin & _).
  rewrite last_snoc in Htail.
  destruct (Hnodes (length init) tl) as (n & Hn & Hp & _).
  { by rewrite list_lookup_middle. }
  unfold removeTail. rewrite Htail. unfold prevOf. rewrite Hn, Hp.
  destruct init as [|x init'] using rev_ind.
  - simpl. split; [constructor|]. split; [done|]. split; [done|].
    by intros i l ?.
  - clear IHinit'. rewrite length_app. simpl length.
    replace (length init' + 1)%nat with (S (length init')) by lia.
    rewrite lookup_app_l by (rewrite length_app; simpl; lia).
    rewrite list_lookup_middle by done.
    split; [done|]. split.
    { cbn [head withTail]. change (head (setNext x None st)) with (head st).
      rewrite Hhead. destruct init'; done. }
    split; [by rewrite last_snoc|].
    intros i l Hl. unfold nodeAt. cbn [nodes withTail]. rewrite nodes_setNext.
    destruct (Hnodes i l) as (nl & Hnl & Hpl & Hxl).
    { by apply lookup_app_l_Some. }
    rewrite Hnl. simpl.
    assert (Hi : (i < length (init' ++ [x]))%nat) by by eapply lookup_lt_Some.
    rewrite length_app in Hi. simpl in Hi.
    destruct (decide (l = x)) as [->|Hlx].
    + assert (i = length init') as ->.
      { eapply NoDup_lookup; [exact Hndi|exact Hl|]. by rewrite list_lookup_middle. }
      eexists. split; [done|]. simpl. split.
      * rewrite Hpl. destruct (length init') as [|j] eqn:Hlen; [done|].
        rewrite lookup_app_l; [done|]. rewrite length_app. simpl. lia.
      * symmetry. apply lookup_ge_None. rewrite length_app. simpl. lia.
    + assert (i ≠ length init').
      { intros ->. rewrite list_lookup_middle in Hl by done. congruence. }
      eexists. split; [done|]. split.
      * rewrite Hpl. destruct i as [|j]; [done|].
        rewrite lookup_app_l; [done|]. rewrite length_app. simpl. lia.
      * rewrite Hxl. rewrite lookup_app_l; [done|]. rewrite length_app. simpl. lia.
Qed.

(** When map and list agree the nodes of the list carry distinct keys,
    and the map has as many entries as the list has nodes. *)
Lemma agrees_keys_distinct (st : t R) (ls : list nat) :
  NoDup ls → agrees st ls → NoDup (recency st ls).
Proof.
  intros Hnd [_ Hlist]. unfold recency. apply NoDup_fmap_2_strong; [|done].
  intros x y Hx Hy Hkey.
  destruct (Hlist x Hx) as (ex & Hex & <-). destruct (Hlist y Hy) as (ey & Hey & <-).
  rewrite Hkey in Hex. congruence.
Qed.

Lemma agrees_dom (st : t R) (ls : list nat) :
  agrees st ls → keys st = list_to_set (recency st ls).
Proof.
  intros [Hmap Hlist]. unfold keys, recency. apply set_eq. intros k.
  rewrite elem_of_dom, elem_of_list_to_set, list_elem_of_fmap. split.
  - intros [e He]. destruct (Hmap k e He) as [Hin Hk]. by exists (node e).
  - intros (l & -> & Hl). destruct (Hlist l Hl) as (e & He & _). by exists e.
Qed.

Lemma agrees_size (st : t R) (ls : list nat) :
  NoDup ls → agrees st ls → base.size (cache st) = length ls.
Proof.
  intros Hnd Hag.
  rewrite <- size_dom. change (dom (cache st)) with (keys st).
  rewrite (agrees_dom st ls Hag), size_list_to_set by by apply agrees_keys_distinct.
  unfold recency. by rewrite length_map.
Qed.

Lemma eviction_agrees (st : t R) (init : list nat) (tl : nat) :
  NoDup (init ++ [tl]) → agrees st (init ++ [tl]) →
  agrees (removeTail (withCache (delete (keyOf st tl) (cache st)) st)) init.
Proof.
  intros Hnd [Hmap Hlist].
  apply NoDup_app in Hnd as (_ & Hnotin & _).
  destruct (removeTail_fields (withCache (delete (keyOf st tl) (cache st)) st))
    as (Hc & _ & _).
  assert (Hkey : ∀ x, keyOf (removeTail (withCache (delete (keyOf st tl) (cache st)) st)) x
                      = keyOf st x) by (intros x; by rewrite keyOf_removeTail).
  split.
  - intros k e. rewrite Hc. cbn [cache withCache]. rewrite lookup_delete.
    case_decide as Hk; [done|]. intros He.
    destruct (Hmap k e He) as [Hin Hke]. rewrite Hkey. split; [|done].
    apply elem_of_app in Hin as [?|Htl%list_elem_of_singleton]; [done|].
    rewrite Htl in Hke. congruence.
  - intros l Hl. rewrite Hkey, Hc. cbn [cache withCache].
    destruct (Hlist l) as (e & He & Hnode); [apply elem_of_app; by left|].
    exists e. split; [|done]. rewrite lookup_delete_ne; [done|].
    intros Hk. destruct (Hlist tl) as (e' & He' & Hnode'); [apply elem_of_app; right; apply list_elem_of_here|].
    rewrite Hk in He'. rewrite He in He'. injection He' as <-.
    apply (Hnotin l Hl). rewrite <- Hnode, Hnode'. apply list_elem_of_here.
Qed.

(** The eviction step of [set]. *)
Lemma eviction_consistent (st : t R) (ls : list nat) :
  linked st ls → agrees st ls →
  let st' := match tail st with
             | Some tl =>
                 if Z.of_nat (base.size (cache st)) >=? maxSize st
                 then removeTail (withCache (delete (keyOf st tl) (cache st)) st)
                 else st
             | None => st
             end in
  linked st' (afterEviction st ls) ∧ agrees st' (afterEviction st ls) ∧
  (∀ x, keyOf st' x = keyOf st x) ∧
  length (nodes st') = length (nodes st) ∧
  (∀ k, cache st !! k = None → cache st' !! k = None) ∧
  repository st' = repository st ∧ maxSize st' = maxSize st.
Proof.
  intros Hl Hag st'. pose proof Hl as (Hnd & _ & Htail & _).
  unfold afterEviction. subst st'. rewrite Htail, (agrees_size st ls Hnd Hag).
  destruct ls as [|x ls0 _] using rev_ind.
  - simpl. by destruct (_ >=? _).
  - rewrite last_snoc. destruct (_ >=? _); [|done].
    rewrite length_app. simpl length.
    replace (length ls0 + 1 - 1)%nat with (length ls0) by lia.
    rewrite take_app_length.
    split; [apply (removeTail_linked _ ls0 x); exact Hl|].
    split; [by apply eviction_agrees|].
    split; [intros y; by rewrite keyOf_removeTail|].
    destruct (removeTail_fields (withCache (delete (keyOf st x) (cache st)) st))
      as (Hc & Hr & Hm).
    split.
    { unfold removeTail. cbn [tail withCache]. destruct (tail st) as [tl|]; [|done].
      unfold prevOf. cbn [nodes withCache].
      destruct (match nodes st !! tl with Some n => prev n | None => None end); [|done].
      cbn [nodes withTail setNext withNodes]. by rewrite length_alter. }
    split; [|done].
    intros k Hk. rewrite Hc. cbn [cache withCache].
    rewrite lookup_delete. by case_decide.
Qed.

(** [set] for a key that the map does not hold: the list gets a new
    node in front, after the eviction if there was one. *)
Lemma set_miss (st : t R) (ls : list nat) (k : string) (d : list TelemetryFrame.t) :
  linked st ls → agrees st ls → cache st !! k = None →
  let ls' := afterEviction st ls in
  let l := length (nodes st) in
  linked (set k d st) (l :: ls') ∧ agrees (set k d st) (l :: ls') ∧
  recency (set k d st) (l :: ls') = k :: recency st ls'.
Proof.
  intros Hl Hag Hk ls' l. unfold set. rewrite Hk.
  destruct (eviction_consistent st ls Hl Hag) as (Hl2 & Hag2 & Hkey2 & Hlen2 & Hnone2 & _).
  cbv zeta in *. fold ls' in Hl2, Hag2.
  set (st2 := match tail st with
              | Some tl =>
                  if Z.of_nat (base.size (cache st)) >=? maxSize st
                  then removeTail (withCache (delete (keyOf st tl) (cache st)) st)
                  else st
              | None => st
              end) in *.
  rewrite Hlen2. fold l.
  set (node0 := {| key := k; prev := None; next := None |}).
  pose (st4 := withCache (<[k := {| data := d; node := l |}]> (cache st2))
                 (withNodes (nodes st2 ++ [node0]) st2)).
  match goal with |- context [addToFront l ?s] => change s with st4 end.
  assert (Hold : ∀ x n, nodes st2 !! x = Some n → nodes st4 !! x = Some n).
  { intros x n Hx. subst st4. cbn [nodes withCache withNodes]. by apply lookup_app_l_Some. }
  assert (Hnew : nodes st4 !! l = Some node0).
  { subst st4 l. cbn [nodes withCache withNodes]. rewrite <- Hlen2.
    by rewrite list_lookup_middle. }
  assert (Hin2 : ∀ x, x ∈ ls' → ∃ n, nodes st2 !! x = Some n).
  { intros x (i & Hi)%list_elem_of_lookup_1.
    destruct Hl2 as (_ & _ & _ & Hn). destruct (Hn i x Hi) as (n & ? & _). by exists n. }
  assert (Hfresh : l ∉ ls').
  { intros (n & Hn)%Hin2. apply lookup_lt_Some in Hn. subst l. lia. }
  assert (Hl4 : linked st4 ls').
  { destruct Hl2 as (Hnd & Hh & Ht & Hn). split; [done|]. split; [done|]. split; [done|].
    intros i x Hx. destruct (Hn i x Hx) as (n & Hnx & ? & ?).
    exists n. split; [by apply Hold|done]. }
  assert (Hkey4 : ∀ x, x ∈ ls' → keyOf st4 x = keyOf st x).
  { intros x (n & Hn)%Hin2. rewrite <- Hkey2. unfold keyOf. by rewrite (Hold x n Hn), Hn. }
  assert (Hkeyl : keyOf st4 l = k) by (unfold keyOf; by rewrite Hnew).
  assert (Hc5 : cache (addToFront l st4) = <[k := {| data := d; node := l |}]> (cache st2))
    by by destruct (addToFront_fields l st4) as (-> & _).
  split; [|split].
  - apply addToFront_linked; [done|done|by eexists].
  - split.
    + intros k' e'. rewrite Hc5, keyOf_addToFront, lookup_insert.
      case_decide as Hkk.
      * intros [= <-]. subst k'. cbn [node]. split; [apply list_elem_of_here|done].
      * intros He'. destruct Hag2 as [Hmap2 _].
        destruct (Hmap2 k' e' He') as [Hin Hke].
        split; [by apply list_elem_of_further|].
        by rewrite Hkey4, <- Hkey2.
    + intros x Hx. rewrite Hc5, keyOf_addToFront.
      apply elem_of_cons in Hx as [->|Hx].
      * rewrite Hkeyl, lookup_insert_eq. by eexists.
      * rewrite Hkey4 by done. destruct Hag2 as [_ Hlist2].
        destruct (Hlist2 x Hx) as (e & He & Hnode). rewrite Hkey2 in He.
        exists e. split; [|done]. rewrite lookup_insert_ne; [done|].
        intros Heq. rewrite <- Heq, Hnone2 in He; done.
  - unfold recency. cbn [map]. rewrite keyOf_addToFront, Hkeyl. f_equal.
    apply map_ext_in. intros x Hx%list_elem_of_In.
    by rewrite keyOf_addToFront, Hkey4.
Qed.

Lemma new_consistent (repo : R) (m : Z) :
  linked (new repo m) [] ∧ agrees (new repo m) [].
Proof.
  split.
  - split; [constructor|]. split; [done|]. split; [done|]. by intros i l ?.
  - split.
    + intros k e Hk. simpl in Hk. by rewrite lookup_empty in Hk.
    + by intros l ?%elem_of_nil.
Qed.

Lemma mostRecent_snoc (m : Z) (used : list string) (k : string) (n : nat) :
  1 ≤ m → n = length (mostRecent m used) →
  k :: (if Z.of_nat n >=? m then take (n - 1) (mostRecent m used) else mostRecent m used)
  = mostRecent m (used ++ [k]).
Proof.
  intros Hm ->. unfold mostRecent. rewrite reverse_snoc.
  rewrite length_take, length_reverse.
  destruct (Z.to_nat m) as [|m'] eqn:Hm'; [lia|].
  cbn [take]. f_equal.
  destruct (Z.geb_spec (Z.of_nat (S m' `min` length used)) m) as [Hfull|Hroom].
  - rewrite take_take. f_equal. lia.
  - rewrite !take_ge; [done|rewrite length_reverse; lia..].
Qed.

(** One lookup of a key that has not been used before. *)
Lemma miss_step (st : t R) (ls : list nat) (used : list string) (v : string) (l : Z) :
  1 ≤ maxSize st →
  linked st ls → agrees st ls → recency st ls = mostRecent (maxSize st) used →
  cacheKey v l ∉ used →
  let st' := (getTelemetryByVehicleAndLap st v l).2 in
  maxSize st' = maxSize st ∧
  ∃ ls', linked st' ls' ∧ agrees st' ls' ∧
         recency st' ls' = mostRecent (maxSize st) (used ++ [cacheKey v l]).
Proof.
  intros Hm Hl Hag Hrec Hnew st'.
  assert (Hmiss : cache st !! cacheKey v l = None).
  { destruct (cache st !! cacheKey v l) as [e|] eqn:He; [|done].
    destruct Hag as [Hmap _]. destruct (Hmap _ _ He) as [Hin Hk].
    exfalso. apply Hnew. clear Hnew.
    assert (Hr : cacheKey v l ∈ recency st ls).
    { unfold recency. apply list_elem_of_fmap. by exists (node e). }
    rewrite Hrec in Hr. unfold mostRecent in Hr.
    apply elem_of_reverse.
    by apply (subseteq_take (Z.to_nat (maxSize st)) (reverse used)). }
  subst st'. unfold getTelemetryByVehicleAndLap. rewrite Hmiss. cbn [snd].
  set (d := ITelemetryRepository.getTelemetryByVehicleAndLap (repository st) v l).
  destruct (set_fields (cacheKey v l) d st) as (_ & Hmax & _).
  split; [done|].
  destruct (set_miss st ls (cacheKey v l) d Hl Hag Hmiss) as (Hl' & Hag' & Hrec').
  eexists. split; [exact Hl'|]. split; [exact Hag'|].
  rewrite Hrec'. unfold afterEviction, recency. rewrite <- (mostRecent_snoc _ _ _ (length ls)).
  - f_equal. fold (recency st ls). destruct (_ >=? _); [|done].
    by rewrite <- Hrec, <- firstn_map.
  - done.
  - rewrite <- Hrec. unfold recency. by rewrite length_map.
Qed.

Lemma misses_run (calls : list (string * Z)) (st : t R) (ls : list nat) (used : list string) :
  1 ≤ maxSize st →
  linked st ls → agrees st ls → recency st ls = mostRecent (maxSize st) used →
  NoDup (used ++ map keyOfCall calls) →
  let st' := (runCached st (map getOf calls)).2 in
  ∃ ls', linked st' ls' ∧ agrees st' ls' ∧
         recency st' ls' = mostRecent (maxSize st) (used ++ map keyOfCall calls).
Proof.
  revert st ls used. induction calls as [|[v l] rest IH]; intros st ls used Hm Hl Hag Hrec Hnd.
  - simpl. rewrite app_nil_r. by exists ls.
  - cbn [map runCached getOf cached fst snd].
    assert (Hnew : cacheKey v l ∉ used).
    { apply NoDup_app in Hnd as (_ & Hdis & _). intros Hin. apply (Hdis _ Hin).
      apply list_elem_of_here. }
    destruct (miss_step st ls used v l Hm Hl Hag Hrec Hnew) as (Hmax & ls1 & Hl1 & Hag1 & Hrec1).
    destruct (getTelemetryByVehicleAndLap st v l) as [d st1]. cbn [snd] in *.
    specialize (IH st1 ls1 (used ++ [cacheKey v l])%list).
    rewrite Hmax in IH.
    destruct IH as (ls' & Hl' & Hag' & Hrec'); [done..| |].
    { rewrite <- app_assoc. exact Hnd. }
    destruct (runCached st1 (map getOf rest)) as [rs fin]. cbn [snd] in *.
    exists ls'. split; [done|]. split; [done|].
    rewrite Hrec'. by rewrite <- app_assoc.
Qed.

(** Lookups of distinct keys, none repeated, through a new cache of
    capacity [m >= 1]: the invariant holds at the end, and the cache
    holds exactly the keys of the last [m] lookups. *)
Lemma misses_keep_most_recent (repo : R) (m : Z) (calls : list (string * Z)) :
  1 ≤ m → NoDup (map keyOfCall calls) →
  let st := (runCached (new repo m) (map getOf calls)).2 in
  consistent st ∧
  keys st = list_to_set (mostRecent m (map keyOfCall calls)) ∧
  base.size (cache st) = (Z.to_nat m `min` length calls)%nat.
Proof.
  intros Hm Hnd st.
  destruct (new_consistent repo m) as [Hl0 Hag0].
  assert (Hrec0 : recency (new repo m) [] = mostRecent (maxSize (new repo m)) [])
    by (unfold mostRecent, recency; simpl; by destruct (Z.to_nat m)).
  destruct (misses_run calls (new repo m) [] [] Hm Hl0 Hag0 Hrec0 Hnd)
    as (ls & Hl & Hag & Hrec).
  fold st in Hl, Hag, Hrec. cbn [maxSize new app] in Hrec.
  split; [by exists ls|]. split.
  - by rewrite (agrees_dom st ls Hag), Hrec.
  - destruct Hl as (Hndl & _).
    rewrite (agrees_size st ls Hndl Hag).
    transitivity (length (recency st ls)); [unfold recency; by rewrite length_map|].
    rewrite Hrec. unfold mostRecent. by rewrite length_take, length_reverse, length_map.
Qed.
End Recency.

Section Refresh.
Context {R : Type} `{ITelemetryRepository.t R}.
Local Open Scope list_scope.

(** The list without its element at position [length pre]. *)
Lemma lookup_without (pre post : list nat) (l : nat) (i : nat) :
  (pre ++ post) !! i
  = (pre ++ l :: post) !! (if decide (i < length pre)%nat then i else S i).
Proof.
  case_decide as Hi.
  - by rewrite !lookup_app_l.
  - rewrite !lookup_app_r by lia.
    replace (S i - length pre)%nat with (S (i - length pre)) by lia. done.
Qed.

Lemma moveToFront_unlinked (k : string) (e : CacheEntry) (st : t R) :
  cache st !! k = Some e →
  moveToFront k st = addToFront (node e) (unlinked (node e) st).
Proof. intros He. unfold moveToFront, unlinked. by rewrite He. Qed.

Lemma unlinked_linked (st : t R) (pre post : list nat) (l : nat) :
  pre ≠ [] →
  linked st (pre ++ l :: post) →
  linked (unlinked l st) (pre ++ post) ∧
  (∀ x, keyOf (unlinked l st) x = keyOf st x) ∧
  is_Some (nodes (unlinked l st) !! l) ∧
  cache (unlinked l st) = cache st.
Proof.
  intros Hpre (Hnd & Hhead & Htail & Hnodes).
  destruct pre as [|p pre0 _] using rev_ind; [done|]. clear Hpre.
  set (old := ((pre0 ++ [p]) ++ l :: post)%list) in *.
  assert (Hlen : length (pre0 ++ [p]) = S (length pre0)) by (rewrite length_app; simpl; lia).
  assert (Hl : old !! S (length pre0) = Some l).
  { subst old. apply list_lookup_middle. by rewrite Hlen. }
  assert (Hp : old !! length pre0 = Some p).
  { subst old. rewrite <- app_assoc. by apply list_lookup_middle. }
  destruct (Hnodes _ _ Hl) as (nl & Hnl & Hpl & Hxl). rewrite Hp in Hpl.
  assert (Hnext : next nl = post !! 0%nat).
  { rewrite Hxl. subst old. rewrite lookup_app_r by lia. rewrite Hlen.
    by replace (S (S (length pre0)) - S (length pre0))%nat with 1%nat by lia. }
  assert (Hlp : l ≠ p).
  { intros ->. pose proof (NoDup_lookup _ _ _ _ Hnd Hl Hp). lia. }
  assert (Hprev0 : prevOf st l = Some p) by (unfold prevOf; by rewrite Hnl).
  assert (Hnext0 : nextOf st l = next nl) by (unfold nextOf; by rewrite Hnl).
  unfold unlinked. rewrite Hprev0, Hnext0.
  set (st1 := setNext p (next nl) st).
  assert (Hnl1 : nodes st1 !! l = Some nl).
  { subst st1. rewrite nodes_setNext. by rewrite decide_False. }
  assert (Hprev1 : prevOf st1 l = Some p) by (unfold prevOf; by rewrite Hnl1).
  assert (Hnext1 : nextOf st1 l = next nl) by (unfold nextOf; by rewrite Hnl1).
  rewrite Hprev1, Hnext1.
  set (st2 := match next nl with Some n => setPrev n (Some p) st1 | None => st1 end).
  assert (Hnodes2 : ∀ x, nodes st2 !! x
            = if decide (Some x = next nl)
              then (λ n, {| key := key n; prev := Some p; next := next n |}) <$> nodes st1 !! x
              else nodes st1 !! x).
  { intros x. subst st2. destruct (next nl) as [n|].
    - rewrite nodes_setPrev. destruct (decide (x = n)) as [->|Hxn].
      + by rewrite decide_True.
      + rewrite decide_False; [done|congruence].
    - by rewrite decide_False. }
  assert (Hln : Some l ≠ next nl).
  { rewrite Hnext. intros Heq. symmetry in Heq.
    assert (old !! S (S (length pre0)) = Some l).
    { subst old. rewrite lookup_app_r by lia. rewrite Hlen.
      by replace (S (S (length pre0)) - S (length pre0))%nat with 1%nat by lia. }
    pose proof (NoDup_lookup _ _ _ _ Hnd Hl H0). lia. }
  assert (Hnl2 : nodes st2 !! l = Some nl).
  { rewrite Hnodes2. by rewrite decide_False. }
  assert (Htail2 : tail st2 = tail st).
  { subst st2 st1. by destruct (next nl). }
  assert (Hhead2 : head st2 = head st).
  { subst st2 st1. by destruct (next nl). }
  assert (Hcache2 : cache st2 = cache st).
  { subst st2 st1. by destruct (next nl). }
  assert (Hkey2 : ∀ x, keyOf st2 x = keyOf st x).
  { intros x. subst st2 st1. destruct (next nl).
    - by rewrite keyOf_setPrev, keyOf_setNext.
    - by rewrite keyOf_setNext. }
  assert (Hprev2 : prevOf st2 l = Some p) by (unfold prevOf; by rewrite Hnl2).
  rewrite Hprev2.
  set (st3 := if decide (tail st2 = Some l) then withTail (Some p) st2 else st2).
  assert (Hnodes3 : nodes st3 = nodes st2) by (subst st3; by case_decide).
  assert (Hhead3 : head st3 = head st) by (subst st3; by case_decide).
  assert (Hcache3 : cache st3 = cache st) by (subst st3; by case_decide).
  assert (Hkey3 : ∀ x, keyOf st3 x = keyOf st x).
  { intros x. rewrite <- Hkey2. unfold keyOf. by rewrite Hnodes3. }
  split; [|split; [done|split; [by rewrite Hnodes3, Hnl2|done]]].
  split; [|split; [|split]].
  - subst old. rewrite <- app_assoc in Hnd. rewrite <- app_assoc.
    apply NoDup_app in Hnd as (H1 & H2 & H3).
    apply NoDup_app. split; [done|]. split.
    + intros x Hx Hin. apply (H2 x Hx).
      apply elem_of_app in Hin as [Hin|Hin]; apply elem_of_app; [by left|].
      right. by apply list_elem_of_further.
    + apply NoDup_app in H3 as (H4 & H5 & H6). apply NoDup_cons in H6 as [_ H6].
      apply NoDup_app. split; [done|]. split; [|done].
      intros x Hx Hin. apply (H5 x Hx). by apply list_elem_of_further.
  - rewrite Hhead3, Hhead. subst old. rewrite <- !app_assoc.
    destruct pre0; done.
  - subst st3. rewrite Htail2, Htail.
    assert (Hlast : last old = match last post with Some z => Some z | None => Some l end).
    { subst old. rewrite last_app, last_cons. by destruct (last post). }
    rewrite Hlast, last_app.
    destruct (last post) as [z|] eqn:Hz.
    + assert (Hzl : z ≠ l).
      { intros ->. apply last_Some_elem_of in Hz.
        apply list_elem_of_lookup_1 in Hz as (j & Hj).
        assert (Hj' : old !! (S (S (length pre0)) + j)%nat = Some l).
        { subst old. rewrite lookup_app_r by lia. rewrite Hlen.
          by replace (S (S (length pre0)) + j - S (length pre0))%nat with (S j) by lia. }
        pose proof (NoDup_lookup _ _ _ _ Hnd Hl Hj'). lia. }
      rewrite decide_False by congruence. by rewrite Htail2, Htail, Hlast.
    + rewrite decide_True by done. cbn [tail withTail]. by rewrite last_snoc.
  - intros i x Hx. unfold nodeAt. rewrite Hnodes3, Hnodes2.
    rewrite (lookup_without _ _ l) in Hx. fold old in Hx.
    subst st1. rewrite nodes_setNext.
    set (i' := if decide (i < length (pre0 ++ [p]))%nat then i else S i) in *.
    destruct (Hnodes i' x Hx) as (nx & Hnx & Hpx & Hxx). rewrite Hnx.
    assert (Hnew : ∀ j, ((pre0 ++ [p]) ++ post) !! j
                        = old !! (if decide (j < length (pre0 ++ [p]))%nat then j else S j))
      by (intros j; apply lookup_without).
    destruct (decide (x = p)) as [->|Hxp].
    + (* the node before the one taken out *)
      assert (i' = length pre0) by (eapply NoDup_lookup; eauto).
      assert (i = length pre0) as ->.
      { subst i'. case_decide; lia. }
      assert (Hpn : Some p ≠ next nl).
      { rewrite Hnext. intros Heq. symmetry in Heq.
        assert (old !! S (S (length pre0)) = Some p).
        { subst old. rewrite lookup_app_r by lia. rewrite Hlen.
          by replace (S (S (length pre0)) - S (length pre0))%nat with 1%nat by lia. }
        pose proof (NoDup_lookup _ _ _ _ Hnd Hp H1). lia. }
      rewrite decide_False by done. cbn [fmap option_fmap option_map].
      eexists. split; [done|]. cbn [prev next]. split.
      * rewrite Hpx. rewrite H0. destruct (length pre0) as [|j] eqn:Hj; [done|].
        rewrite Hnew. rewrite decide_True by lia. done.
      * rewrite Hnext, Hnew. rewrite decide_False by lia.
        subst old. rewrite lookup_app_r by lia. rewrite Hlen.
        by replace (S (S (length pre0)) - S (length pre0))%nat with 1%nat by lia.
    + destruct (decide (Some x = next nl)) as [Hxn|Hxn].
      * (* the node after the one taken out *)
        assert (Hx2 : old !! S (S (length pre0)) = Some x).
        { rewrite Hxn, Hnext. subst old. rewrite lookup_app_r by lia. rewrite Hlen.
          by replace (S (S (length pre0)) - S (length pre0))%nat with 1%nat by lia. }
        assert (i' = S (S (length pre0))) by (eapply NoDup_lookup; eauto).
        assert (i = S (length pre0)) as ->.
        { subst i'. case_decide; lia. }
        cbn [fmap option_fmap option_map].
        eexists. split; [done|]. cbn [prev next]. split.
        -- rewrite Hnew. rewrite decide_True by lia. done.
        -- rewrite Hxx, H0, Hnew. rewrite decide_False by lia. done.
      * (* any other node *)
        assert (Hi1 : i' ≠ length pre0) by (intros Heq; rewrite Heq, Hp in Hx; congruence).
        assert (Hi2 : i' ≠ S (length pre0)).
        { intros Heq. subst i'. case_decide; lia. }
        assert (Hi3 : i' ≠ S (S (length pre0))).
        { intros Heq. apply Hxn. rewrite Hnext, <- Hx, Heq.
          subst old. rewrite lookup_app_r by lia. rewrite Hlen.
          by replace (S (S (length pre0)) - S (length pre0))%nat with 1%nat by lia. }
        eexists. split; [done|]. split.
        -- rewrite Hpx. subst i'. case_decide as Hi.
           ++ destruct i as [|j]; [done|]. rewrite Hnew. by rewrite decide_True by lia.
           ++ destruct i as [|j]; [lia|]. rewrite Hnew. rewrite decide_False by lia. done.
        -- rewrite Hxx, Hnew. subst i'. case_decide as Hi.
           ++ rewrite decide_True by lia. done.
           ++ rewrite decide_False by lia. done.
Qed.

(** A lookup of a key whose node is in the list but not at its head
    moves the node to the head and leaves the order of the others. *)
Lemma hit_refreshes (st : t R) (ls : list nat) (k : string) (e : CacheEntry) :
  linked st ls → agrees st ls → cache st !! k = Some e → head st ≠ Some (node e) →
  ∃ pre post,
    ls = pre ++ node e :: post ∧
    linked (moveToFront k st) (node e :: pre ++ post) ∧
    agrees (moveToFront k st) (node e :: pre ++ post) ∧
    recency (moveToFront k st) (node e :: pre ++ post) = k :: recency st (pre ++ post).
Proof.
  intros Hl Hag He Hhead. pose proof Hag as [Hmap Hlist].
  destruct (Hmap k e He) as [Hin Hkey].
  apply list_elem_of_split in Hin as (pre & post & ->).
  exists pre, post. split; [done|].
  assert (Hpre : pre ≠ []).
  { intros ->. destruct Hl as (_ & Hh & _). by rewrite Hh in Hhead. }
  destruct (unlinked_linked st pre post (node e) Hpre Hl) as (Hl3 & Hkey3 & Hsome & Hcache3).
  assert (Hfresh : node e ∉ pre ++ post).
  { destruct Hl as (Hnd & _). apply NoDup_app in Hnd as (_ & Hdis & Hnd2).
    apply NoDup_cons in Hnd2 as [Hnot _].
    intros [Hp|Hp]%elem_of_app; [|done]. apply (Hdis _ Hp). apply list_elem_of_here. }
  rewrite (moveToFront_unlinked k e st He).
  assert (Hkeys : ∀ x, keyOf (addToFront (node e) (unlinked (node e) st)) x = keyOf st x)
    by (intros x; by rewrite keyOf_addToFront).
  assert (Hc : cache (addToFront (node e) (unlinked (node e) st)) = cache st)
    by (destruct (addToFront_fields (node e) (unlinked (node e) st)) as (-> & _); done).
  split; [by apply addToFront_linked|]. split; [split|].
  - intros k' e' He'. rewrite Hc in He'. rewrite Hkeys.
    destruct (Hmap k' e' He') as [Hin' Hk']. split; [|done].
    apply elem_of_app in Hin' as [?|[->|?]%elem_of_cons].
    + apply list_elem_of_further, elem_of_app. by left.
    + apply list_elem_of_here.
    + apply list_elem_of_further, elem_of_app. by right.
  - intros x Hx. rewrite Hc, Hkeys. apply Hlist.
    apply elem_of_cons in Hx as [->|[?|?]%elem_of_app].
    + apply elem_of_app. right. apply list_elem_of_here.
    + apply elem_of_app. by left.
    + apply elem_of_app. right. by apply list_elem_of_further.
  - unfold recency. cbn [map]. rewrite Hkeys, Hkey. f_equal.
    apply map_ext. intros x. apply Hkeys.
Qed.

Lemma invalidate_consistent (st : t R) (repo : R) :
  consistent (withRepository repo (invalidate st)).
Proof.
  exists []. split.
  - split; [constructor|]. split; [done|]. split; [done|]. by intros i l ?.
  - split.
    + intros k e Hk. simpl in Hk. by rewrite lookup_empty in Hk.
    + by intros l ?%elem_of_nil.
Qed.

(** Every call keeps the invariant, save a lookup of the key whose node
    is at the head of the list. *)
Lemma cached_consistent (st : t R) (c : call) :
  consistent st → ¬ hitsHead st c → consistent (cached st c).2.
Proof.
  intros (ls & Hl & Hag) Hnot. destruct c as [v l|v s e| |v|frames|]; cbn [cached snd].
  - unfold getTelemetryByVehicleAndLap.
    destruct (cache st !! cacheKey v l) as [e|] eqn:He; cbn [snd].
    + destruct (hit_refreshes st ls (cacheKey v l) e Hl Hag He) as (pre & post & _ & Hl' & Hag' & _).
      { intros Hh. apply Hnot. simpl. by exists e. }
      by eexists.
    + destruct (set_miss st ls (cacheKey v l)
                  (ITelemetryRepository.getTelemetryByVehicleAndLap (repository st) v l)
                  Hl Hag He) as (Hl' & Hag' & _).
      by eexists.
  - by exists ls.
  - by exists ls.
  - by exists ls.
  - apply invalidate_consistent.
  - apply invalidate_consistent.
Qed.

(** A lookup of the key whose node is at the head of the list links the
    node to itself, and the invariant is lost. *)
Lemma hit_on_head_breaks (st : t R) (k : string) (e : CacheEntry) :
  is_Some (nodes st !! node e) →
  cache st !! k = Some e → head st = Some (node e) →
  nextOf (moveToFront k st) (node e) = Some (node e) ∧
  head (moveToFront k st) = Some (node e) ∧
  ¬ consistent (moveToFront k st).
Proof.
  intros Hsome He Hhead. rewrite (moveToFront_unlinked k e st He).
  set (l := node e) in *. set (s := unlinked l st).
  assert (Hh : head s = Some l).
  { subst s. unfold unlinked.
    repeat match goal with
           | |- context [match ?o with Some _ => _ | None => _ end] => destruct o
           | |- context [if ?c then _ else _] => destruct c
           end; done. }
  assert (Hs : is_Some (nodes s !! l)).
  { subst s. unfold unlinked.
    assert (Hp : ∀ a v (x : t R), is_Some (nodes x !! l) → is_Some (nodes (setPrev a v x) !! l)).
    { intros a v x [n Hn]. rewrite nodes_setPrev, Hn. case_decide; by eexists. }
    assert (Hn : ∀ a v (x : t R), is_Some (nodes x !! l) → is_Some (nodes (setNext a v x) !! l)).
    { intros a v x [n Hx]. rewrite nodes_setNext, Hx. case_decide; by eexists. }
    repeat match goal with
           | |- context [match ?o with Some _ => _ | None => _ end] => destruct o
           | |- context [if ?c then _ else _] => destruct c
           end; cbn [nodes withTail]; auto. }
  assert (Hnext : nextOf (addToFront l s) l = Some l).
  { destruct Hs as [n Hn]. unfold nextOf, addToFront.
    assert (Hnodes : ∀ x : t R, nodes (match tail x with
                                       | Some _ => x
                                       | None => withTail (Some l) x
                                       end) = nodes x)
      by (intros x; by destruct (tail x)).
    rewrite Hnodes. cbn [nodes withHead].
    change (head (setPrev l None (setNext l (head s) s))) with (head s).
    rewrite Hh. rewrite !nodes_setPrev, nodes_setNext, !decide_True, Hn by done. done. }
  split; [done|]. split; [apply head_addToFront|].
  intros (ls & (Hnd & Hhd & _ & Hnodes) & _).
  rewrite head_addToFront in Hhd. symmetry in Hhd.
  destruct (Hnodes 0%nat l Hhd) as (n & Hn & _ & Hnx).
  unfold nextOf in Hnext. rewrite Hn, Hnx in Hnext.
  pose proof (NoDup_lookup _ _ _ _ Hnd Hhd Hnext). lia.
Qed.
End Refresh.

(** C8, as amended.  For every sequence of calls whose lap numbers are
    not negative, the cache in front of a repository gives, call for
    call, the responses of the repository used directly, and leaves the
    repository in the same state. *)
Theorem cache_transparent_for_laps_from_zero
    {R : Type} `{ITelemetryRepository.t R} (repo : R) (size : Z) (calls : list call) :
  Forall lapNotNegative calls →
  (runCached (new repo size) calls).1 = (runDirect repo calls).1 ∧
  repository (runCached (new repo size) calls).2 = (runDirect repo calls).2.
Proof.
  intros Hcalls. apply (runCached_direct calls (new repo size)); [apply new_coherent|done].
Qed.

(** C8, as stated, fails: after a frame of vehicle ["V-"], lap 1, has
    been saved and looked up, the lookup of vehicle ["V"], lap -1, finds
    the entry of the first under the same key ["V--1"] and returns its
    frame, where the repository returns none. *)
Lemma cache_not_transparent_for_negative_lap :
  let calls := [Save [Examples.frame 1000 "V-" 1]; Get "V-" 1; Get "V" (-1)] in
  (runCached (new TelemetryRepository.empty 100) calls).1
  = [Done; Frames [Examples.frame 1000 "V-" 1]; Frames [Examples.frame 1000 "V-" 1]] ∧
  (runDirect TelemetryRepository.empty calls).1
  = [Done; Frames [Examples.frame 1000 "V-" 1]; Frames []] ∧
  (runCached (new TelemetryRepository.empty 100) calls).1
  ≠ (runDirect TelemetryRepository.empty calls).1.
Proof.
  assert (Hc : (runCached (new TelemetryRepository.empty 100)
                  [Save [Examples.frame 1000 "V-" 1]; Get "V-" 1; Get "V" (-1)]).1
               = [Done; Frames [Examples.frame 1000 "V-" 1];
                  Frames [Examples.frame 1000 "V-" 1]])
    by (vm_compute; reflexivity).
  assert (Hd : (runDirect TelemetryRepository.empty
                  [Save [Examples.frame 1000 "V-" 1]; Get "V-" 1; Get "V" (-1)]).1
               = [Done; Frames [Examples.frame 1000 "V-" 1]; Frames []])
    by (vm_compute; reflexivity).
  cbv zeta. rewrite Hc, Hd. split; [done|]. split; [done|]. discriminate.
Qed.

(** C2 at its failing input.  A lookup of the key that was looked up
    last finds its node at the head of the list and links the node to
    itself: the list, walked from the head, never ends.  And with room
    for two entries, after A, B, B, C the map holds the key of B while
    the list, walked from the head, holds the node of C only. *)
Theorem hit_on_head_corrupts_list :
  (let st := (runCached (new TelemetryRepository.empty 100) (Examples.gets ["A"; "A"])).2 in
   head st = Some 0%nat ∧ tail st = Some 0%nat ∧
   nextOf st 0 = Some 0%nat ∧ prevOf st 0 = Some 0%nat ∧
   walk 5 st (head st) = [0; 0; 0; 0; 0]%nat) ∧
  (let st := (runCached (new TelemetryRepository.empty 2)
                (Examples.gets ["A"; "B"; "B"; "C"])).2 in
   holds st "B-1" = true ∧ holds st "C-1" = true ∧
   (node <$> cache st !! "B-1") = Some 1%nat ∧
   (node <$> cache st !! "C-1") = Some 2%nat ∧
   walk 5 st (head st) = [2%nat]).
Proof. split; vm_compute; repeat split; reflexivity. Qed.

(** C1 at its failing input.  With room for two entries, after A, B, B
    the lookup of A refreshes A; the lookup of C that follows evicts A,
    the key used last, and keeps B.  With room for one entry, after
    A, A, B, C the cache holds two entries. *)
Theorem refreshed_key_is_evicted :
  (let st := (runCached (new TelemetryRepository.empty 2)
                (Examples.gets ["A"; "B"; "B"; "A"])).2 in
   holds st "A-1" = true ∧ holds st "B-1" = true ∧ head st = (node <$> cache st !! "A-1")) ∧
  (let st := (runCached (new TelemetryRepository.empty 2)
                (Examples.gets ["A"; "B"; "B"; "A"; "C"])).2 in
   holds st "A-1" = false ∧ holds st "B-1" = true ∧ holds st "C-1" = true) ∧
  (let st := (runCached (new TelemetryRepository.empty 1)
                (Examples.gets ["A"; "A"; "B"; "C"])).2 in
   getCacheStats st = {| size := 2; statsMaxSize := 1 |}).
Proof. repeat split; vm_compute; reflexivity. Qed.
End CacheProofs.

(* ===================================================================== *)
(** ** The properties at concrete inputs                                  *)
(* ===================================================================== *)

Module Checks.
Import Js TelemetryCSVParser IngestionSpec CacheSpec.

(** C4 at its failing input.  With the filter [{vehicleId: "V1", lap: 0}]
    a record of lap 3 of that vehicle is accumulated, and the frame that
    is returned has lap 3. *)
Theorem lap_zero_filter_returns_other_laps :
  settled (parseFile (H := ExampleRuntime.runtime) Examples.lapZeroOptions
             [[Examples.record "1000" "GR86-V1" 3 "Speed" 120]])
  = Some [{| TelemetryFrame.timestamp := Num 1000;
             TelemetryFrame.vehicleId := "V1";
             TelemetryFrame.lap := Num 3;
             TelemetryFrame.speed := Num 120;
             TelemetryFrame.throttlePos := Num 0;
             TelemetryFrame.brakePos := Num 0;
             TelemetryFrame.gpsLatitude := Num 0;
             TelemetryFrame.gpsLongitude := Num 0;
             TelemetryFrame.steeringAngle := None;
             TelemetryFrame.gear := None |}].
Proof. vm_compute. reflexivity. Qed.

(** A record of lap 5 whose metric is named [_lap]: its value takes the
    place of the lap in the metric table, and the frame has lap 9 under
    a filter on lap 5. *)
Lemma reserved_metric_name_replaces_lap :
  settled (parseFile (H := ExampleRuntime.runtime) Examples.lapFiveOptions
             [[Examples.record "1000" "GR86-V1" 5 "_lap" 9]])
  = Some [{| TelemetryFrame.timestamp := Num 1000;
             TelemetryFrame.vehicleId := "V1";
             TelemetryFrame.lap := Num 9;
             TelemetryFrame.speed := Num 0;
             TelemetryFrame.throttlePos := Num 0;
             TelemetryFrame.brakePos := Num 0;
             TelemetryFrame.gpsLatitude := Num 0;
             TelemetryFrame.gpsLongitude := Num 0;
             TelemetryFrame.steeringAngle := None;
             TelemetryFrame.gear := None |}].
Proof. vm_compute. reflexivity. Qed.

(** Filter exactness at a stream with records of laps 5 and 3 under the
    filter on lap 5. *)
Lemma filter_exact_for_nonzero_lap_example (frames : list TelemetryFrame.t) :
  settled (parseFile (H := ExampleRuntime.runtime) Examples.lapFiveOptions
             [[Examples.record "1000" "GR86-V1" 5 "Speed" 120;
               Examples.record "2000" "GR86-V1" 3 "Speed" 130]]) = Some frames →
  Forall (λ f, TelemetryFrame.vehicleId f = "V1" ∧ TelemetryFrame.lap f = Num 5) frames.
Proof.
  apply (PivotProofs.filter_exact_for_nonzero_lap (H := ExampleRuntime.runtime)
           Examples.lapFiveOptions "V1" 5); [reflexivity|discriminate|lia|].
  intros rows raw r Hrows Hraw Hvalid.
  apply list_elem_of_singleton in Hrows as ->.
  apply elem_of_cons in Hraw as [->|Hraw];
    [|apply list_elem_of_singleton in Hraw as ->];
    vm_compute in Hvalid; injection Hvalid as <-;
    intros [Hn|[Hn|Hn]]; vm_compute in Hn; discriminate Hn.
Qed.

(** C5 at its failing input.  The record [{timestamp: '1000',
    vehicle_id: 'GR86-V1', Lap: 0, telemetry_name: 'Speed',
    telemetry_value: 120}] is valid in the words of the specification:
    its lap, under the alias [Lap], is the number 0.  The chain
    [raw.lap || raw.Lap || raw.lapNumber] passes over the 0, the
    normalized row has no lap, [isValidRow] returns [false], and a run
    on this record accumulates no row and returns no frame.  With lap 3
    under [Lap], with lap 0 under [lap] or under [lapNumber], and with
    the value 0, the record is accepted. *)
Theorem lap_zero_under_alias_is_dropped :
  let speed := Val (VNum (Num 120)) in
  let zero := Examples.reading Absent (Val (VNum (Num 0))) Absent "Speed" speed in
  ValiditySpec.valid zero = true ∧
  RowNormalizer.n_lap (RowNormalizer.normalizeRow zero) = Absent ∧
  RowNormalizer.isValidRow (RowNormalizer.normalizeRow zero) = false ∧
  RowNormalizer.ofRecord (Examples.lapAliasRecord 0) = zero ∧
  rawRows (parseFile (H := ExampleRuntime.runtime) defaultOptions
             [[Examples.lapAliasRecord 0]]) = [] ∧
  settled (parseFile (H := ExampleRuntime.runtime) defaultOptions
             [[Examples.lapAliasRecord 0]]) = Some [] ∧
  RowNormalizer.asRow
    (RowNormalizer.normalizeRow
       (Examples.reading Absent (Val (VNum (Num 3))) Absent "Speed" speed))
  = Some (Examples.row "Speed" 120) ∧
  Forall (λ raw, RowNormalizer.isValidRow (RowNormalizer.normalizeRow raw) = true)
         [Examples.reading Absent (Val (VNum (Num 3))) Absent "Speed" speed;
          Examples.reading (Val (VNum (Num 0))) Absent Absent "Speed" speed;
          Examples.reading Absent Absent (Val (VNum (Num 0))) "Speed" speed;
          Examples.reading (Val (VNum (Num 3))) Absent Absent "Speed" (Val (VNum (Num 0)))].
Proof. repeat split; try (vm_compute; reflexivity). repeat constructor. Qed.

(** The lap of a record through the alias chain [raw.lap || raw.Lap ||
    raw.lapNumber] and the spread of the record: lap 0 in the column
    [lap] is kept, by the spread; lap 3 in the column [Lap] is taken;
    lap 0 in the column [Lap] is lost, the normalized row has no lap and
    the record is not valid. *)
Lemma lap_through_aliases :
  validRow (Examples.record "1000" "GR86-V1" 0 "Speed" 120)
  = Some {| timestamp := "1000"; vehicle_id := "GR86-V1"; lap := 0;
            telemetry_name := "Speed"; telemetry_value := VNum (Num 120) |} ∧
  validRow (Examples.lapAliasRecord 3)
  = Some {| timestamp := "1000"; vehicle_id := "GR86-V1"; lap := 3;
            telemetry_name := "Speed"; telemetry_value := VNum (Num 120) |} ∧
  n_lap (normalizeRow (Examples.lapAliasRecord 0)) = Absent ∧
  validRow (Examples.lapAliasRecord 0) = None.
Proof. repeat split; vm_compute; reflexivity. Qed.

(** A text that is no number in the throttle and brake channels.  The
    records [{timestamp: '1000', vehicle_id: 'GR86-V1', lap: 3,
    telemetry_name: 'ath', telemetry_value: 'N/A'}] and the like for
    [pbrake_f] pass [isValidRow], the text being truthy; [clamp] returns
    [NaN] for it, the comparisons of the frame constructor are false for
    [NaN], and the pivot returns a frame whose throttle and brake
    positions are [NaN]. *)
Lemma text_in_position_channel_gives_NaN :
  let rows := [Examples.rowOf "ath" (VStr "N/A"); Examples.rowOf "pbrake_f" (VStr "N/A")] in
  Forall2 (λ raw row,
             RowNormalizer.isValidRow (RowNormalizer.normalizeRow raw) = true ∧
             RowNormalizer.asRow (RowNormalizer.normalizeRow raw) = Some row)
          [Examples.reading (Val (VNum (Num 3))) Absent Absent "ath" (Val (VStr "N/A"));
           Examples.reading (Val (VNum (Num 3))) Absent Absent "pbrake_f" (Val (VStr "N/A"))]
          rows ∧
  (∃ f, pivotToFrames (H := ExampleRuntime.runtime) rows = [f] ∧
        TelemetryFrame.throttlePos f = NaN ∧ TelemetryFrame.brakePos f = NaN) ∧
  ¬ Forall (λ f, percent (TelemetryFrame.throttlePos f) ∧
                 percent (TelemetryFrame.brakePos f))
           (pivotToFrames (H := ExampleRuntime.runtime) rows).
Proof.
  split; [|split].
  - repeat constructor.
  - eexists. split; [vm_compute; reflexivity|]. split; reflexivity.
  - intros Hall.
    assert (Hframes : ∃ f, pivotToFrames (H := ExampleRuntime.runtime)
                             [Examples.rowOf "ath" (VStr "N/A");
                              Examples.rowOf "pbrake_f" (VStr "N/A")] = [f] ∧
                           TelemetryFrame.throttlePos f = NaN).
    { eexists. split; [vm_compute; reflexivity|reflexivity]. }
    destruct Hframes as (f & Hf & Ht). cbv zeta in Hall. rewrite Hf in Hall.
    apply Forall_cons in Hall as [[(z & Hz & _) _] _]. rewrite Ht in Hz. discriminate Hz.
Qed.

(** A throttle of -5 and brake channels of -20 and 250: the frame has
    throttle 0 and brake 100. *)
Lemma pivot_positions_clamped_witness :
  let rows := [Examples.row "ath" (-5); Examples.row "pbrake_f" (-20);
               Examples.row "pbrake_r" 250] in
  Forall numberRow rows ∧
  Forall (λ f, percent (TelemetryFrame.throttlePos f) ∧
               percent (TelemetryFrame.brakePos f))
         (pivotToFrames (H := ExampleRuntime.runtime) rows) ∧
  ∃ f, pivotToFrames (H := ExampleRuntime.runtime) rows = [f] ∧
       TelemetryFrame.throttlePos f = Num 0 ∧ TelemetryFrame.brakePos f = Num 100.
Proof.
  assert (Hrows : Forall numberRow [Examples.row "ath" (-5); Examples.row "pbrake_f" (-20);
                                    Examples.row "pbrake_r" 250]).
  { repeat constructor; by eexists. }
  split; [exact Hrows|]. split.
  - exact (proj1 (proj1 (PivotProofs.pivot_positions_clamped
                           (H := ExampleRuntime.runtime) _) Hrows)).
  - eexists. split; [vm_compute; reflexivity|]. split; reflexivity.
Defined.

(** Laps 2, 1 and 3 of the example vehicle and lap 1 of a second one:
    the vehicles come in the order in which they are first met; lap 1
    starts 120000 ms before its end; lap 2 ends at 150000, before the
    end of lap 1 at 200000, and starts 120000 ms before its end; lap 3
    starts at the end of lap 2. *)
Lemma lap_boundaries_witness :
  LapTimeCSVParser.convertToLap (H := ExampleRuntime.runtime)
    (Examples.lapRow "GR86-032-15" 2 "150000" 0)
    (Some (Examples.lapRow "GR86-032-15" 1 "200000" 0))
  = Ok (Examples.lap 2 30000 150000) ∧
  LapTimeCSVParser.processRows (H := ExampleRuntime.runtime)
    [Examples.lapRow "GR86-032-15" 2 "150000" 0;
     Examples.lapRow "GR86-004-7" 1 "500000" 0;
     Examples.lapRow "GR86-032-15" 1 "200000" 0;
     Examples.lapRow "GR86-032-15" 3 "400000" 0]
  = [Examples.lap 1 80000 200000;
     Examples.lap 2 30000 150000;
     Examples.lap 3 150000 400000;
     {| Lap.lapNumber := Num 1;
        Lap.vehicle := {| Vehicle.chassis := "004"; Vehicle.carNumber := Num 7;
                          Vehicle.id := "004-7" |};
        Lap.startTime := Num 380000;
        Lap.endTime := Num 500000;
        Lap.sectorTimes := ∅ |}].
Proof.
  destruct (LapProofs.lap_boundaries (H := ExampleRuntime.runtime)
              [Examples.lapRow "GR86-032-15" 2 "150000" 0;
               Examples.lapRow "GR86-004-7" 1 "500000" 0;
               Examples.lapRow "GR86-032-15" 1 "200000" 0;
               Examples.lapRow "GR86-032-15" 3 "400000" 0])
    as (Hlaps & _ & _ & Hbuilds & _).
  split.
  - apply (Hbuilds (Examples.lapRow "GR86-032-15" 2 "150000" 0)
                   (Some (Examples.lapRow "GR86-032-15" 1 "200000" 0))
                   Examples.vehicle 150000 (Some 200000));
      [vm_compute; reflexivity|simpl; lia|vm_compute; reflexivity
      |unfold maxTime; lia|vm_compute; reflexivity].
  - rewrite Hlaps. vm_compute. reflexivity.
Defined.

(** The cap at two rows, on three valid records in two chunks. *)
Lemma cap_respected_witness :
  1 ≤ maxRows Examples.capTwoOptions ∧
  settled (parseFile (H := ExampleRuntime.runtime) Examples.capTwoOptions Examples.threeRecords)
  = Some (pivotToFrames (H := ExampleRuntime.runtime)
            (rawRows (parseFile (H := ExampleRuntime.runtime)
                        Examples.capTwoOptions Examples.threeRecords))).
Proof.
  assert (Hcap : 1 ≤ maxRows Examples.capTwoOptions) by (simpl; lia).
  split; [exact Hcap|].
  destruct (IngestionProofs.cap_respected (H := ExampleRuntime.runtime)
              Examples.capTwoOptions Examples.threeRecords Hcap)
    as (_ & _ & _ & Hs & _).
  exact Hs.
Defined.

(** The valid records up to a cap of two. *)
Lemma accumulated_rows_are_valid_example :
  1 ≤ 2 ∧
  rawRows (parseFile (H := ExampleRuntime.runtime)
             {| maxRows := 2; skipRows := 0; filter := None; onProgress := false |}
             Examples.threeRecords)
  = take (Z.to_nat 2) (omap validRow (concat Examples.threeRecords)).
Proof.
  assert (Hcap : 1 ≤ 2) by lia.
  split; [exact Hcap|].
  destruct (IngestionProofs.accumulated_rows_are_valid (H := ExampleRuntime.runtime))
    as (_ & _ & _ & Hrows).
  exact (Hrows 2 false Examples.threeRecords Hcap).
Defined.

(** A, B, A through a cache of two entries over the in-memory
    repository. *)
Lemma cache_transparent_witness :
  Forall lapNotNegative (Examples.gets ["A"; "B"; "A"]) ∧
  (runCached (TelemetryCache.new TelemetryRepository.empty 2)
     (Examples.gets ["A"; "B"; "A"])).1
  = (runDirect TelemetryRepository.empty (Examples.gets ["A"; "B"; "A"])).1.
Proof.
  assert (Hlaps : Forall lapNotNegative (Examples.gets ["A"; "B"; "A"])).
  { repeat constructor; simpl; lia. }
  split; [exact Hlaps|].
  exact (proj1 (CacheProofs.cache_transparent_for_laps_from_zero
                  TelemetryRepository.empty 2 (Examples.gets ["A"; "B"; "A"]) Hlaps)).
Defined.

(** A frame in the example runtime. *)
Lemma serialization_round_trip_witness :
  TelemetryFrame.new (H := ExampleRuntime.runtime) (Examples.frameData 1000 "V1" 3)
  = Ok (Examples.frame 1000 "V1" 3) ∧
  ∃ json,
    TelemetryFrame.toJSON (H := ExampleRuntime.runtime) (Examples.frame 1000 "V1" 3) = Ok json ∧
    TelemetryFrame.new (H := ExampleRuntime.runtime) json = Ok (Examples.frame 1000 "V1" 3).
Proof.
  assert (Hnew : TelemetryFrame.new (H := ExampleRuntime.runtime)
                   (Examples.frameData 1000 "V1" 3)
                 = Ok (Examples.frame 1000 "V1" 3)) by (vm_compute; reflexivity).
  split; [exact Hnew|].
  exact (proj1 (EntityProofs.serialization_round_trip (H := ExampleRuntime.runtime))
           _ _ Hnew).
Defined.
End Checks.

(* ===================================================================== *)
(** ** Further properties of the entities                                 *)
(* ===================================================================== *)

Module EntityInvariants.
Import Js JsFacts JsDate.

(** X1.  A frame is in exactly one of the three driving states:
    braking, accelerating or coasting.  With the brake at exactly 5 it is
    coasting whatever the throttle. *)
Theorem frame_in_one_driving_state (f : TelemetryFrame.t) :
  ((TelemetryFrame.isBraking f = true ∧ TelemetryFrame.isAccelerating f = false ∧
    TelemetryFrame.isCoasting f = false) ∨
   (TelemetryFrame.isBraking f = false ∧ TelemetryFrame.isAccelerating f = true ∧
    TelemetryFrame.isCoasting f = false) ∨
   (TelemetryFrame.isBraking f = false ∧ TelemetryFrame.isAccelerating f = false ∧
    TelemetryFrame.isCoasting f = true)) ∧
  (TelemetryFrame.brakePos f = Num 5 → TelemetryFrame.isCoasting f = true).
Proof.
  unfold TelemetryFrame.isCoasting, TelemetryFrame.isAccelerating, TelemetryFrame.isBraking.
  split.
  - destruct (TelemetryFrame.brakePos f) as [b|], (TelemetryFrame.throttlePos f) as [t|];
      unfold gt, lt; simpl;
      repeat match goal with
             | |- context [?x <? ?y] => destruct (Z.ltb_spec x y)
             end; simpl; try tauto; lia.
  - intros ->. unfold gt, lt. simpl. by rewrite andb_false_r.
Qed.

Section WithRuntime.
Context `{JsRuntime}.

Lemma toTime_valid (x : timestampInput) :
  isNaN (toTime x) = false → ∃ ms, toTime x = Num ms ∧ Z.abs ms ≤ maxTime.
Proof.
  intros Hn. destruct (toTime x) as [ms|] eqn:Ht; [|done].
  exists ms. split; [done|].
  destruct x as [s|n]; simpl in Ht.
  - unfold parseTime in Ht. by apply timeClip_num in Ht as [_ ?].
  - by apply timeClip_num in Ht as [_ ?].
Qed.
End WithRuntime.

(** X2.  A frame that the constructor returns holds a valid date, a
    vehicle id that is not blank, and numbers within their ranges: the
    lap and the speed are not negative and the throttle and brake
    positions lie between 0 and 100, each when it is a number at all
    ([NaN] passes every comparison of the constructor). *)
Theorem constructed_frame_is_valid `{JsRuntime}
    (data : TelemetryFrame.TelemetryFrameData) (f : TelemetryFrame.t) :
  TelemetryFrame.new data = Ok f →
  (∃ ms, TelemetryFrame.timestamp f = Num ms ∧ Z.abs ms ≤ maxTime) ∧
  isBlank (TelemetryFrame.vehicleId f) = false ∧
  (∀ z, TelemetryFrame.lap f = Num z → 0 ≤ z) ∧
  (∀ z, TelemetryFrame.speed f = Num z → 0 ≤ z) ∧
  (∀ z, TelemetryFrame.throttlePos f = Num z → 0 ≤ z ≤ 100) ∧
  (∀ z, TelemetryFrame.brakePos f = Num z → 0 ≤ z ≤ 100).
Proof.
  unfold TelemetryFrame.new.
  destruct (falsyTimestamp _ || isNaN _) eqn:Hts; [done|].
  destruct (negb _ || isBlank _) eqn:Hid; [done|].
  destruct (lt (TelemetryFrame.d_lap data) (Num 0)) eqn:Hlap; [done|].
  destruct (lt (TelemetryFrame.d_speed data) (Num 0)) eqn:Hspeed; [done|].
  destruct (lt (TelemetryFrame.d_throttlePos data) (Num 0) || _) eqn:Hth; [done|].
  destruct (lt (TelemetryFrame.d_brakePos data) (Num 0) || _) eqn:Hbr; [done|].
  intros [= <-]. simpl.
  apply orb_false_iff in Hts as [_ Hts], Hid as [_ Hid], Hth as [Hth1 Hth2], Hbr as [Hbr1 Hbr2].
  split; [by apply toTime_valid|]. split; [done|].
  unfold gt, lt in *.
  split; [|split; [|split]]; intros z Hz; rewrite Hz in *; lia.
Qed.

Lemma constructed_frame_is_valid_witness :
  TelemetryFrame.new (H := ExampleRuntime.runtime) (Examples.frameData 1000 "V1" 3)
  = Ok (Examples.frame 1000 "V1" 3) ∧
  ∀ z, TelemetryFrame.throttlePos (Examples.frame 1000 "V1" 3) = Num z → 0 ≤ z ≤ 100.
Proof.
  assert (Hnew : TelemetryFrame.new (H := ExampleRuntime.runtime)
                   (Examples.frameData 1000 "V1" 3)
                 = Ok (Examples.frame 1000 "V1" 3)) by (vm_compute; reflexivity).
  split; [exact Hnew|].
  exact (proj1 (proj2 (proj2 (proj2 (proj2
           (constructed_frame_is_valid (H := ExampleRuntime.runtime) _ _ Hnew)))))).
Defined.

Lemma numToString_inj (a b : num) : numToString a = numToString b → a = b.
Proof.
  assert (Hnan : ∀ z, intToString z ≠ "NaN").
  { intros z Heq. pose proof (intToString_parse z) as Hp. by rewrite Heq in Hp. }
  destruct a as [x|], b as [y|]; simpl; intros Heq.
  - f_equal. by apply intToString_inj.
  - by apply Hnan in Heq.
  - symmetry in Heq. by apply Hnan in Heq.
  - done.
Qed.

(** A dash after a dash-free prefix can be split off in one way only. *)
Lemma dash_prefix_inj (a b x y : string) :
  hasChar "-" a = false → hasChar "-" b = false →
  a ++ String "-" x = b ++ String "-" y → a = b ∧ x = y.
Proof.
  revert b. induction a as [|c a IH]; intros [|c' b] Ha Hb Heq.
  - simpl in Heq. by injection Heq.
  - simpl in Heq. injection Heq as <- _. simpl in Hb. done.
  - simpl in Heq. injection Heq as -> _. simpl in Ha. done.
  - simpl in Heq. injection Heq as -> Heq. simpl in Ha, Hb.
    apply orb_false_iff in Ha as [_ Ha], Hb as [_ Hb].
    destruct (IH b Ha Hb Heq) as [-> ->]. done.
Qed.

(** X3.  The id of a vehicle, chassis and car number joined by a dash,
    determines the vehicle when the chassis holds no dash: two vehicles
    that the constructor returns with dash-free chassis and the same id
    have the same chassis and the same car number, and [equals] holds
    of them.  (With a dash in a chassis the id can be read in two ways:
    the number 1e-7 is printed with one.) *)
Theorem vehicle_id_determines_vehicle (d1 d2 : Vehicle.VehicleData) (v1 v2 : Vehicle.t) :
  Vehicle.new d1 = Ok v1 → Vehicle.new d2 = Ok v2 →
  hasChar "-" (Vehicle.chassis v1) = false → hasChar "-" (Vehicle.chassis v2) = false →
  Vehicle.id v1 = Vehicle.id v2 →
  v1 = v2 ∧ Vehicle.equals v1 v2 = true.
Proof.
  unfold Vehicle.new.
  destruct (negb _ || isBlank (Vehicle.d_chassis d1)); [done|].
  destruct (lt (Vehicle.d_carNumber d1) (Num 0)); [done|].
  destruct (negb _ || isBlank (Vehicle.d_chassis d2)); [done|].
  destruct (lt (Vehicle.d_carNumber d2) (Num 0)); [done|].
  intros [= <-] [= <-]. cbn [Vehicle.id Vehicle.chassis].
  change (Vehicle.d_chassis d1 ++ "-" ++ numToString (Vehicle.d_carNumber d1))
    with (Vehicle.d_chassis d1 ++ String "-" (numToString (Vehicle.d_carNumber d1))).
  change (Vehicle.d_chassis d2 ++ "-" ++ numToString (Vehicle.d_carNumber d2))
    with (Vehicle.d_chassis d2 ++ String "-" (numToString (Vehicle.d_carNumber d2))).
  intros Hc1 Hc2 Hid.
  apply dash_prefix_inj in Hid as [Hc Hn]; [|done..].
  apply numToString_inj in Hn. rewrite Hc, Hn. split; [done|].
  unfold Vehicle.equals. cbn [Vehicle.chassis]. apply String.eqb_refl.
Qed.

Lemma vehicle_id_determines_vehicle_witness :
  ∃ v, Vehicle.new {| Vehicle.d_chassis := "032"; Vehicle.d_carNumber := Num 15 |} = Ok v ∧
       hasChar "-" (Vehicle.chassis v) = false ∧
       Vehicle.id v = "032-15" ∧ Vehicle.equals v v = true.
Proof.
  eexists. split; [reflexivity|]. split; [reflexivity|]. split; [reflexivity|].
  exact (proj2 (vehicle_id_determines_vehicle
                  {| Vehicle.d_chassis := "032"; Vehicle.d_carNumber := Num 15 |}
                  {| Vehicle.d_chassis := "032"; Vehicle.d_carNumber := Num 15 |}
                  _ _ eq_refl eq_refl eq_refl eq_refl eq_refl)).
Defined.

Lemma new_lap_times `{JsRuntime} (data : Lap.LapData) (l : Lap.t) :
  Lap.new data = Ok l →
  ∃ s e, Lap.startTime l = Num s ∧ Lap.endTime l = Num e ∧ s < e ∧
         Lap.durationMs l = Num (e - s) ∧ 1 ≤ e - s ≤ 2 * maxTime.
Proof.
  unfold Lap.new.
  destruct (lt (Lap.d_lapNumber data) (Num 0)); [done|].
  destruct (Lap.d_vehicle data) as [v|]; [|done].
  destruct (falsyTimestamp (Lap.d_startTime data) || _) eqn:Hs; [done|].
  destruct (falsyTimestamp (Lap.d_endTime data) || _) eqn:He; [done|].
  destruct (le _ _) eqn:Hle; [done|].
  intros [= <-]. cbn [Lap.startTime Lap.endTime]. unfold Lap.durationMs.
  cbn [Lap.startTime Lap.endTime].
  apply orb_false_iff in Hs as [_ Hs], He as [_ He].
  apply toTime_valid in Hs as (s & Hs & Hsr), He as (e & He & Her).
  rewrite Hs, He in *. exists s, e. unfold le in Hle.
  destruct (Z.leb_spec e s); [done|]. simpl. repeat split; lia.
Qed.

(** X4.  A lap that the constructor returns starts and ends at valid
    dates and ends after it starts; its duration is a number of at
    least one millisecond and at most twice the largest time value, and
    it is the end less the start when that difference is at most 2^53,
    up to which the subtraction of the code is exact. *)
Theorem constructed_lap_has_positive_duration `{JsRuntime} (data : Lap.LapData) (l : Lap.t) :
  Lap.new data = Ok l →
  ∃ s e d, Lap.startTime l = Num s ∧ Lap.endTime l = Num e ∧ s < e ∧
           Z.abs s ≤ maxTime ∧ Z.abs e ≤ maxTime ∧
           Lap.durationMs l = Num d ∧ 1 ≤ d ≤ 2 * maxTime ∧
           (e - s ≤ 2 ^ 53 → d = e - s).
Proof.
  intros Hnew. destruct (new_lap_times data l Hnew) as (s & e & Hs & He & Hlt & Hd & Hr).
  exists s, e, (e - s). repeat split; try done; try lia.
  - revert Hnew. unfold Lap.new.
    destruct (lt (Lap.d_lapNumber data) (Num 0)); [done|].
    destruct (Lap.d_vehicle data) as [v|]; [|done].
    destruct (falsyTimestamp (Lap.d_startTime data) || _) eqn:Hfs; [done|].
    destruct (falsyTimestamp (Lap.d_endTime data) || _); [done|].
    destruct (le _ _); [done|]. intros [= <-]. cbn [Lap.startTime] in Hs.
    apply orb_false_iff in Hfs as [_ Hfs].
    apply toTime_valid in Hfs as (s' & Hs' & ?). congruence.
  - revert Hnew. unfold Lap.new.
    destruct (lt (Lap.d_lapNumber data) (Num 0)); [done|].
    destruct (Lap.d_vehicle data) as [v|]; [|done].
    destruct (falsyTimestamp (Lap.d_startTime data) || _); [done|].
    destruct (falsyTimestamp (Lap.d_endTime data) || _) eqn:Hfe; [done|].
    destruct (le _ _); [done|]. intros [= <-]. cbn [Lap.endTime] in He.
    apply orb_false_iff in Hfe as [_ Hfe].
    apply toTime_valid in Hfe as (e' & He' & ?). congruence.
Qed.

Lemma constructed_lap_has_positive_duration_witness :
  Lap.new (H := ExampleRuntime.runtime) (Examples.lapData 3 1000 164361)
  = Ok (Examples.lap 3 1000 164361) ∧
  Lap.durationMs (Examples.lap 3 1000 164361) = Num 163361.
Proof.
  assert (Hnew : Lap.new (H := ExampleRuntime.runtime) (Examples.lapData 3 1000 164361)
                 = Ok (Examples.lap 3 1000 164361)) by (vm_compute; reflexivity).
  split; [exact Hnew|].
  destruct (constructed_lap_has_positive_duration (H := ExampleRuntime.runtime) _ _ Hnew)
    as (s & e & d & Hs & He & _ & _ & _ & Hd & _ & Hexact).
  injection Hs as <-. injection He as <-. rewrite Hd, Hexact; [reflexivity|lia].
Defined.

(** Two-digit and three-digit fields: padded to their width, and read
    back by [parseInt]. *)
Lemma padStart_two (n : Z) :
  0 ≤ n < 100 →
  String.length (padStart 2 (intToString n)) = 2%nat ∧
  parseInt (padStart 2 (intToString n)) = Num n.
Proof.
  intros Hn.
  assert (Hall : forallb (λ k : nat,
                   Nat.eqb (String.length (padStart 2 (intToString (Z.of_nat k)))) 2 &&
                   bool_decide (parseInt (padStart 2 (intToString (Z.of_nat k)))
                                = Num (Z.of_nat k)))
                   (seq 0 100) = true) by (vm_compute; reflexivity).
  rewrite forallb_forall in Hall.
  assert (Hin : In (Z.to_nat n) (seq 0 100)) by (apply in_seq; lia).
  apply Hall in Hin. rewrite Z2Nat.id in Hin by lia.
  apply andb_true_iff in Hin as [Hlen Hp].
  split; [by apply Nat.eqb_eq|by apply bool_decide_eq_true in Hp].
Qed.

Lemma padStart_three (n : Z) :
  0 ≤ n < 1000 →
  String.length (padStart 3 (intToString n)) = 3%nat ∧
  parseInt (padStart 3 (intToString n)) = Num n.
Proof.
  intros Hn.
  assert (Hall : forallb (λ k : nat,
                   Nat.eqb (String.length (padStart 3 (intToString (Z.of_nat k)))) 3 &&
                   bool_decide (parseInt (padStart 3 (intToString (Z.of_nat k)))
                                = Num (Z.of_nat k)))
                   (seq 0 1000) = true) by (vm_compute; reflexivity).
  rewrite forallb_forall in Hall.
  assert (Hin : In (Z.to_nat n) (seq 0 1000)) by (apply in_seq; lia).
  apply Hall in Hin. rewrite Z2Nat.id in Hin by lia.
  apply andb_true_iff in Hin as [Hlen Hp].
  split; [by apply Nat.eqb_eq|by apply bool_decide_eq_true in Hp].
Qed.

(** X5.  The formatted time of a lap that the constructor returns is
    [M:SS.mmm]: the minutes in decimal, a colon, the seconds on two
    digits, a point and the milliseconds on three digits, where
    [M * 60000 + SS * 1000 + mmm] is the duration, the seconds are
    below 60 and the milliseconds below 1000. *)
Theorem lap_time_is_minutes_seconds_millis `{JsRuntime} (data : Lap.LapData) (l : Lap.t) :
  Lap.new data = Ok l →
  ∃ (m s ms : Z) (ss mss : string),
    Lap.durationMs l = Num (m * 60000 + s * 1000 + ms) ∧
    0 ≤ m ∧ 0 ≤ s < 60 ∧ 0 ≤ ms < 1000 ∧
    Lap.lapTimeFormatted l = intToString m ++ ":" ++ ss ++ "." ++ mss ∧
    String.length ss = 2%nat ∧ String.length mss = 3%nat ∧
    parseInt ss = Num s ∧ parseInt mss = Num ms.
Proof.
  intros Hnew. destruct (new_lap_times data l Hnew) as (s0 & e0 & _ & _ & _ & Hd & Hpos & _).
  set (d := e0 - s0) in *.
  assert (Hrem1 : Z.rem d 60000 = d mod 60000) by (apply Z.rem_mod_nonneg; lia).
  assert (Hrem2 : Z.rem d 1000 = d mod 1000) by (apply Z.rem_mod_nonneg; lia).
  pose proof (Z.mod_pos_bound d 60000 ltac:(lia)) as Hb1.
  pose proof (Z.mod_pos_bound d 1000 ltac:(lia)) as Hb2.
  assert (Hs : 0 ≤ (d mod 60000) / 1000 < 60).
  { split; [apply Z.div_pos; lia|apply Z.div_lt_upper_bound; lia]. }
  destruct (padStart_two ((d mod 60000) / 1000) ltac:(lia)) as [Hl2 Hp2].
  destruct (padStart_three (d mod 1000) ltac:(lia)) as [Hl3 Hp3].
  exists (d / 60000), ((d mod 60000) / 1000), (d mod 1000),
         (padStart 2 (intToString ((d mod 60000) / 1000))),
         (padStart 3 (intToString (d mod 1000))).
  split.
  { rewrite Hd. f_equal.
    pose proof (Z.div_mod d 60000 ltac:(lia)) as H1.
    pose proof (Z.div_mod (d mod 60000) 1000 ltac:(lia)) as H2.
    pose proof (Z.div_mod d 1000 ltac:(lia)) as H3.
    pose proof (Z.mod_pos_bound (d mod 60000) 1000 ltac:(lia)) as Hb3.
    lia. }
  split; [apply Z.div_pos; lia|]. split; [done|]. split; [lia|].
  split; [|done].
  unfold Lap.lapTimeFormatted. rewrite Hd. cbn [Lap.floorDiv Lap.remainder numToString].
  by rewrite Hrem1, Hrem2.
Qed.

Lemma lap_time_is_minutes_seconds_millis_witness :
  Lap.new (H := ExampleRuntime.runtime) (Examples.lapData 3 1000 164361)
  = Ok (Examples.lap 3 1000 164361) ∧
  Lap.lapTimeFormatted (Examples.lap 3 1000 164361) = "2:43.361" ∧
  ∃ (m s ms : Z) (ss mss : string),
    Lap.durationMs (Examples.lap 3 1000 164361) = Num (m * 60000 + s * 1000 + ms) ∧
    0 ≤ m ∧ 0 ≤ s < 60 ∧ 0 ≤ ms < 1000 ∧
    Lap.lapTimeFormatted (Examples.lap 3 1000 164361)
    = intToString m ++ ":" ++ ss ++ "." ++ mss ∧
    String.length ss = 2%nat ∧ String.length mss = 3%nat ∧
    parseInt ss = Num s ∧ parseInt mss = Num ms.
Proof.
  assert (Hnew : Lap.new (H := ExampleRuntime.runtime) (Examples.lapData 3 1000 164361)
                 = Ok (Examples.lap 3 1000 164361)) by (vm_compute; reflexivity).
  split; [exact Hnew|]. split; [vm_compute; reflexivity|].
  exact (lap_time_is_minutes_seconds_millis (H := ExampleRuntime.runtime) _ _ Hnew).
Defined.
End EntityInvariants.

(* ===================================================================== *)
(** ** Properties of the in-memory repository and of its use case         *)
(* ===================================================================== *)

Module MapFacts.
Import Js JsFacts.

Section Maps.
Context {K V : Type} `{EqDecision K}.

Lemma mapGet_fmap {W : Type} (g : V → W) (k : K) (m : list (K * V)) :
  mapGet k (map (λ e, (e.1, g e.2)) m) = g <$> mapGet k m.
Proof.
  induction m as [|[k' v'] m IH]; [done|].
  simpl. by destruct (decide (k = k')).
Qed.

Lemma mapGet_None (k : K) (m : list (K * V)) :
  mapGet k m = None ↔ k ∉ map fst m.
Proof.
  induction m as [|[k' v'] m IH]; simpl.
  - split; [intros _ ?%elem_of_nil; done|done].
  - rewrite not_elem_of_cons. destruct (decide (k = k')) as [->|Hne].
    + split; [done|]. by intros [? _].
    + rewrite IH. tauto.
Qed.

Lemma mapSet_fst (k : K) (v : V) (m : list (K * V)) :
  map fst (mapSet k v m)
  = match mapGet k m with Some _ => map fst m | None => (map fst m ++ [k])%list end.
Proof.
  induction m as [|[k' v'] m IH]; [done|].
  simpl. destruct (decide (k = k')) as [->|Hne]; [done|].
  simpl. rewrite IH. by destruct (mapGet k m).
Qed.

Lemma mapSet_NoDup (k : K) (v : V) (m : list (K * V)) :
  NoDup (map fst m) → NoDup (map fst (mapSet k v m)).
Proof.
  intros Hnd. rewrite mapSet_fst. destruct (mapGet k m) eqn:Hg; [done|].
  apply NoDup_app. split; [done|]. split; [|apply NoDup_singleton].
  intros x Hx ->%list_elem_of_singleton. by apply mapGet_None in Hg.
Qed.

Lemma mapGet_is_Some (k : K) (m : list (K * V)) :
  is_Some (mapGet k m) ↔ k ∈ map fst m.
Proof.
  destruct (mapGet k m) eqn:Hg.
  - split; [intros _|by eexists].
    apply mapGet_elem_of in Hg. apply list_elem_of_fmap. by eexists (_, _).
  - split; [by intros [? ?]|]. intros Hin. by apply mapGet_None in Hg.
Qed.
End Maps.

Section Sorting.
Context {A : Type} (key : A → Z).

(** Sorting a sorted list changes nothing. *)
Lemma sortBy_id (l : list A) :
  Sorted (λ a b, key a ≤ key b) l → sortBy key l = l.
Proof.
  induction l as [|x l IH]; [done|].
  intros [Hs Hhd]%Sorted_inv. simpl. rewrite IH by done.
  destruct l as [|y l]; [done|]. simpl.
  apply HdRel_inv in Hhd. by destruct (Z.leb_spec (key x) (key y)); [|lia].
Qed.
End Sorting.
End MapFacts.

Module RepositoryProofs.
Import Js JsFacts MapFacts TelemetryRepository RepositorySpec.

Lemma get_addFrame (repo : t) (f : TelemetryFrame.t) (v : string) (l : Z) :
  getTelemetryByVehicleAndLap (addFrame repo f) v l
  = (getTelemetryByVehicleAndLap repo v l ++
     if filedAt v l f then [f] else [])%list.
Proof.
  unfold getTelemetryByVehicleAndLap, addFrame, filedAt.
  destruct (decide (v = TelemetryFrame.vehicleId f)) as [->|Hv].
  - rewrite mapGet_mapSet_eq.
    destruct (decide (Num l = TelemetryFrame.lap f)) as [Hl|Hl].
    + rewrite Hl, mapGet_mapSet_eq. rewrite bool_decide_true by done.
      by destruct (mapGet (TelemetryFrame.vehicleId f) repo).
    + rewrite mapGet_mapSet_ne by done.
      rewrite bool_decide_false by (intros [_ ?]; congruence).
      rewrite app_nil_r. by destruct (mapGet (TelemetryFrame.vehicleId f) repo).
  - rewrite mapGet_mapSet_ne by done.
    rewrite bool_decide_false by (intros [? _]; congruence).
    by rewrite app_nil_r.
Qed.

Lemma get_addFrames (frames : list TelemetryFrame.t) (repo : t) (v : string) (l : Z) :
  getTelemetryByVehicleAndLap (fold_left addFrame frames repo) v l
  = (getTelemetryByVehicleAndLap repo v l ++ List.filter (filedAt v l) frames)%list.
Proof.
  revert repo. induction frames as [|f frames IH]; intros repo; simpl.
  - by rewrite app_nil_r.
  - rewrite IH, get_addFrame. rewrite <- app_assoc. by destruct (filedAt v l f).
Qed.

Lemma get_sortLaps (repo : t) (v : string) (l : Z) :
  getTelemetryByVehicleAndLap (sortLaps repo) v l
  = TelemetryFrame.sortByTimestamp (getTelemetryByVehicleAndLap repo v l).
Proof.
  unfold getTelemetryByVehicleAndLap, sortLaps.
  rewrite (mapGet_fmap (λ vd, map (λ l0, (l0.1, TelemetryFrame.sortByTimestamp l0.2)) vd)).
  destruct (mapGet v repo) as [vd|]; [|done]. simpl.
  rewrite (mapGet_fmap TelemetryFrame.sortByTimestamp).
  by destruct (mapGet (Num l) vd).
Qed.

Lemma get_saveTelemetry (repo : t) (frames : list TelemetryFrame.t) (v : string) (l : Z) :
  getTelemetryByVehicleAndLap (saveTelemetry repo frames) v l
  = TelemetryFrame.sortByTimestamp
      (getTelemetryByVehicleAndLap repo v l ++ List.filter (filedAt v l) frames).
Proof. unfold saveTelemetry. by rewrite get_sortLaps, get_addFrames. Qed.


Lemma get_saved_any (batches : list (list TelemetryFrame.t)) (repo : t) (v : string) (l : Z) :
  byTime (getTelemetryByVehicleAndLap repo v l) →
  getTelemetryByVehicleAndLap (fold_left saveTelemetry batches repo) v l
    ≡ₚ (getTelemetryByVehicleAndLap repo v l ++ List.filter (filedAt v l) (concat batches))%list ∧
  byTime (getTelemetryByVehicleAndLap (fold_left saveTelemetry batches repo) v l).
Proof.
  revert repo. induction batches as [|frames batches IH]; intros repo Hs.
  - simpl. by rewrite app_nil_r.
  - cbn [fold_left concat].
    destruct (IH (saveTelemetry repo frames)) as [Hp Hs'].
    { rewrite get_saveTelemetry. apply sortBy_sorted. }
    split; [|done]. rewrite Hp, get_saveTelemetry.
    unfold TelemetryFrame.sortByTimestamp. rewrite sortBy_perm.
    by rewrite List.filter_app, <- app_assoc.
Qed.

(** X6.  After batches of frames have been saved into an empty
    repository, the lookup of a vehicle and lap returns exactly the
    saved frames of that vehicle and lap, each as often as it was saved,
    in ascending order of their timestamps; for a vehicle or lap without
    frames it returns none. *)
Theorem lookup_returns_the_saved_frames
    (batches : list (list TelemetryFrame.t)) (v : string) (l : Z) :
  getTelemetryByVehicleAndLap (saved batches) v l
    ≡ₚ List.filter (filedAt v l) (concat batches) ∧
  byTime (getTelemetryByVehicleAndLap (saved batches) v l) ∧
  Forall (λ f, TelemetryFrame.vehicleId f = v ∧ TelemetryFrame.lap f = Num l)
         (getTelemetryByVehicleAndLap (saved batches) v l).
Proof.
  destruct (get_saved_any batches empty v l) as [Hp Hs]; [constructor|].
  simpl in Hp. split; [done|]. split; [done|].
  apply Forall_forall. intros f Hf. rewrite Hp in Hf.
  apply list_elem_of_In, List.filter_In in Hf as [_ Hf].
  unfold filedAt in Hf. by apply bool_decide_eq_true in Hf.
Qed.

(** *** The frames and the laps of a vehicle *)

Lemma concat_mapSet_snoc {K A : Type} `{EqDecision K} (k : K) (x : A)
    (m : list (K * list A)) :
  concat (map snd (mapSet k (default [] (mapGet k m) ++ [x])%list m))
    ≡ₚ (concat (map snd m) ++ [x])%list.
Proof.
  induction m as [|[k' xs] m IH]; [done|].
  cbn [mapGet mapSet]. destruct (decide (k = k')) as [->|Hne]; cbn [map snd concat default].
  - rewrite <- !app_assoc. apply Permutation_app_head, Permutation_app_comm.
  - rewrite IH. by rewrite app_assoc.
Qed.

Lemma framesOf_addFrame (repo : t) (f : TelemetryFrame.t) (v : string) :
  framesOf (addFrame repo f) v
    ≡ₚ (framesOf repo v ++ if ofVehicle v f then [f] else [])%list.
Proof.
  unfold framesOf, addFrame, ofVehicle.
  destruct (decide (TelemetryFrame.vehicleId f = v)) as [<-|Hv].
  - rewrite mapGet_mapSet_eq, bool_decide_true by done. cbn [default].
    apply concat_mapSet_snoc.
  - rewrite mapGet_mapSet_ne by done. rewrite bool_decide_false by done.
    by rewrite app_nil_r.
Qed.

Lemma concat_sorted_laps (vd : list (num * list TelemetryFrame.t)) :
  concat (map snd (map (λ l0, (l0.1, TelemetryFrame.sortByTimestamp l0.2)) vd))
    ≡ₚ concat (map snd vd).
Proof.
  induction vd as [|[l fs] vd IH]; [done|].
  cbn [map snd fst concat]. rewrite IH.
  unfold TelemetryFrame.sortByTimestamp. by rewrite sortBy_perm.
Qed.

Lemma framesOf_sortLaps (repo : t) (v : string) :
  framesOf (sortLaps repo) v ≡ₚ framesOf repo v.
Proof.
  unfold framesOf, sortLaps.
  rewrite (mapGet_fmap (λ vd, map (λ l0, (l0.1, TelemetryFrame.sortByTimestamp l0.2)) vd)).
  destruct (mapGet v repo) as [vd|]; [|done]. apply concat_sorted_laps.
Qed.

Lemma framesOf_saveTelemetry (repo : t) (frames : list TelemetryFrame.t) (v : string) :
  framesOf (saveTelemetry repo frames) v
    ≡ₚ (framesOf repo v ++ List.filter (ofVehicle v) frames)%list.
Proof.
  unfold saveTelemetry. rewrite framesOf_sortLaps.
  revert repo. induction frames as [|f frames IH]; intros repo; simpl.
  - by rewrite app_nil_r.
  - rewrite IH, framesOf_addFrame, <- app_assoc. by destruct (ofVehicle v f).
Qed.

Lemma framesOf_saved (batches : list (list TelemetryFrame.t)) (v : string) :
  framesOf (saved batches) v ≡ₚ List.filter (ofVehicle v) (concat batches).
Proof.
  unfold saved.
  assert (Hgen : ∀ repo, framesOf (fold_left saveTelemetry batches repo) v
                         ≡ₚ (framesOf repo v ++ List.filter (ofVehicle v) (concat batches))%list).
  { induction batches as [|frames batches IH]; intros repo; simpl.
    - by rewrite app_nil_r.
    - by rewrite IH, framesOf_saveTelemetry, List.filter_app, <- app_assoc. }
  by rewrite Hgen.
Qed.

Lemma filter_Permutation {A : Type} (p : A → bool) (l1 l2 : list A) :
  l1 ≡ₚ l2 → List.filter p l1 ≡ₚ List.filter p l2.
Proof.
  induction 1 as [|x l1 l2 _ IH|x y l|l1 l2 l3 _ IH1 _ IH2]; simpl.
  - done.
  - destruct (p x); by rewrite IH.
  - destruct (p x), (p y); try done. apply Permutation_swap.
  - by rewrite IH1.
Qed.

Lemma filter_filter_andb {A : Type} (p q : A → bool) (l : list A) :
  List.filter q (List.filter p l) = List.filter (λ x, p x && q x) l.
Proof.
  induction l as [|x l IH]; [done|]. simpl.
  destruct (p x); simpl; [destruct (q x)|]; by rewrite IH.
Qed.

(** X7.  After batches of frames have been saved into an empty
    repository, the query by time range returns exactly the saved frames
    of the vehicle whose timestamps lie within the range, both ends
    included, in ascending order of their timestamps; a range that ends
    before it starts returns none. *)
Theorem time_range_returns_the_frames_within
    (batches : list (list TelemetryFrame.t)) (v : string) (startTime endTime : num) :
  getTelemetryByTimeRange (saved batches) v startTime endTime
    ≡ₚ List.filter (ofVehicleWithin v startTime endTime) (concat batches) ∧
  byTime (getTelemetryByTimeRange (saved batches) v startTime endTime) ∧
  (lt endTime startTime = true →
   getTelemetryByTimeRange (saved batches) v startTime endTime = []).
Proof.
  assert (Hq : getTelemetryByTimeRange (saved batches) v startTime endTime
               = TelemetryFrame.sortByTimestamp
                   (List.filter (inRange startTime endTime) (framesOf (saved batches) v))).
  { unfold getTelemetryByTimeRange, framesOf. by destruct (mapGet v (saved batches)). }
  assert (Hp : getTelemetryByTimeRange (saved batches) v startTime endTime
               ≡ₚ List.filter (ofVehicleWithin v startTime endTime) (concat batches)).
  { rewrite Hq. unfold TelemetryFrame.sortByTimestamp. rewrite sortBy_perm.
    rewrite (filter_Permutation _ _ _ (framesOf_saved batches v)).
    by rewrite filter_filter_andb. }
  split; [done|]. split; [rewrite Hq; apply sortBy_sorted|].
  intros Hrev. apply Permutation_nil_r. rewrite Hp.
  clear Hp Hq. induction (concat batches) as [|f fs IH]; [done|].
  simpl. rewrite <- IH.
  replace (ofVehicleWithin v startTime endTime f) with false; [done|].
  unfold ofVehicleWithin, inRange, ge, le, lt in *.
  destruct (TelemetryFrame.timestamp f) as [ts|], startTime as [s|], endTime as [e|];
    rewrite ?andb_false_r; try done.
  symmetry. apply andb_false_iff. right. apply andb_false_iff.
  destruct (Z.ltb_spec e s); [|done].
  destruct (Z.leb_spec s ts), (Z.leb_spec ts e); auto; lia.
Qed.

(** *** Vehicle ids and lap numbers *)

Lemma ids_addFrame (repo : t) (f : TelemetryFrame.t) (v : string) :
  (NoDup (map fst repo) → NoDup (map fst (addFrame repo f))) ∧
  (v ∈ map fst (addFrame repo f) ↔ v ∈ map fst repo ∨ TelemetryFrame.vehicleId f = v).
Proof.
  unfold addFrame. split; [apply mapSet_NoDup|].
  rewrite mapSet_fst.
  destruct (mapGet (TelemetryFrame.vehicleId f) repo) eqn:Hg.
  - split; [by left|]. intros [?|<-]; [done|]. apply mapGet_is_Some. by eexists.
  - rewrite elem_of_app, list_elem_of_singleton. split; intros [?|?]; auto.
Qed.

Lemma ids_sortLaps (repo : t) : map fst (sortLaps repo) = map fst repo.
Proof. unfold sortLaps. rewrite map_map. by apply map_ext. Qed.

Lemma ids_saveTelemetry (repo : t) (frames : list TelemetryFrame.t) (v : string) :
  (NoDup (map fst repo) → NoDup (map fst (saveTelemetry repo frames))) ∧
  (v ∈ map fst (saveTelemetry repo frames)
   ↔ v ∈ map fst repo ∨ ∃ f, f ∈ frames ∧ TelemetryFrame.vehicleId f = v).
Proof.
  unfold saveTelemetry. rewrite ids_sortLaps.
  revert repo. induction frames as [|f frames IH]; intros repo; simpl.
  - split; [done|]. split; [by left|]. by intros [?|(f & ?%elem_of_nil & _)].
  - destruct (IH (addFrame repo f)) as [Hnd Hin].
    destruct (ids_addFrame repo f v) as [Hnd1 Hin1].
    split; [auto|]. rewrite Hin, Hin1. split.
    + intros [[?|?]|(g & ? & ?)]; [by left|right..].
      * exists f. split; [apply list_elem_of_here|done].
      * exists g. split; [by apply list_elem_of_further|done].
    + intros [?|(g & [->|?]%elem_of_cons & ?)]; [by left; left|by left; right|right].
      by exists g.
Qed.

(** X8.  After batches of frames have been saved into an empty
    repository, the list of vehicle ids holds each id once, and it holds
    an id exactly when a frame of that vehicle was saved. *)
Theorem vehicle_ids_are_those_saved (batches : list (list TelemetryFrame.t)) :
  NoDup (getAllVehicleIds (saved batches)) ∧
  ∀ v, v ∈ getAllVehicleIds (saved batches)
       ↔ ∃ f, f ∈ concat batches ∧ TelemetryFrame.vehicleId f = v.
Proof.
  unfold getAllVehicleIds, saved.
  assert (Hgen : ∀ repo,
            (NoDup (map fst repo) → NoDup (map fst (fold_left saveTelemetry batches repo))) ∧
            ∀ v, v ∈ map fst (fold_left saveTelemetry batches repo)
                 ↔ v ∈ map fst repo ∨ ∃ f, f ∈ concat batches ∧ TelemetryFrame.vehicleId f = v).
  { induction batches as [|frames batches IH]; intros repo; simpl.
    - split; [done|]. intros v. split; [by left|].
      by intros [?|(f & ?%elem_of_nil & _)].
    - destruct (IH (saveTelemetry repo frames)) as [Hnd Hin].
      split.
      + intros Hr. apply Hnd. by apply (ids_saveTelemetry repo frames "").
      + intros v. rewrite Hin. destruct (ids_saveTelemetry repo frames v) as [_ ->].
        setoid_rewrite elem_of_app. split.
        * intros [[?|(f & ? & ?)]|(f & ? & ?)]; [by left|right; exists f; auto..].
        * intros [?|(f & [?|?] & ?)]; [by left; left|left; right|right]; by exists f. }
  destruct (Hgen empty) as [Hnd Hin]. split; [apply Hnd; constructor|].
  intros v. rewrite Hin. split; [|by right].
  by intros [?%elem_of_nil|?].
Qed.

Lemma lapsOf_addFrame (repo : t) (f : TelemetryFrame.t) (v : string) (k : num) :
  k ∈ lapsOf (addFrame repo f) v
  ↔ k ∈ lapsOf repo v ∨ (TelemetryFrame.vehicleId f = v ∧ TelemetryFrame.lap f = k).
Proof.
  unfold lapsOf, addFrame.
  destruct (decide (TelemetryFrame.vehicleId f = v)) as [<-|Hv].
  - rewrite mapGet_mapSet_eq. cbn [from_option id]. rewrite mapSet_fst.
    set (vd := default [] (mapGet (TelemetryFrame.vehicleId f) repo)).
    destruct (mapGet (TelemetryFrame.lap f) vd) eqn:Hg.
    + split; [by left|]. intros [?|[_ <-]]; [done|]. apply mapGet_is_Some. by eexists.
    + rewrite elem_of_app, list_elem_of_singleton. split; intros [?|?]; [by left|by right|by left|].
      right. by destruct H.
  - rewrite mapGet_mapSet_ne by done. split; [by left|]. by intros [?|[? _]].
Qed.

Lemma lapsOf_sortLaps (repo : t) (v : string) : lapsOf (sortLaps repo) v = lapsOf repo v.
Proof.
  unfold lapsOf, sortLaps.
  rewrite (mapGet_fmap (λ vd, map (λ l0, (l0.1, TelemetryFrame.sortByTimestamp l0.2)) vd)).
  destruct (mapGet v repo) as [vd|]; [|done].
  cbn [fmap option_fmap option_map from_option id].
  rewrite map_map. by apply map_ext.
Qed.

Lemma lapsOf_saveTelemetry (repo : t) (frames : list TelemetryFrame.t) (v : string) (k : num) :
  k ∈ lapsOf (saveTelemetry repo frames) v
  ↔ k ∈ lapsOf repo v ∨
    ∃ f, f ∈ frames ∧ TelemetryFrame.vehicleId f = v ∧ TelemetryFrame.lap f = k.
Proof.
  unfold saveTelemetry. rewrite lapsOf_sortLaps.
  revert repo. induction frames as [|f frames IH]; intros repo; simpl.
  - split; [by left|]. by intros [?|(f & ?%elem_of_nil & _)].
  - rewrite IH, lapsOf_addFrame. split.
    + intros [[?|?]|(g & ? & ?)]; [by left|right..].
      * exists f. split; [apply list_elem_of_here|done].
      * exists g. split; [by apply list_elem_of_further|done].
    + intros [?|(g & [->|?]%elem_of_cons & ?)]; [by left; left|by left; right|right].
      by exists g.
Qed.

Lemma lapsOf_saved (batches : list (list TelemetryFrame.t)) (v : string) (k : num) :
  k ∈ lapsOf (saved batches) v
  ↔ ∃ f, f ∈ concat batches ∧ TelemetryFrame.vehicleId f = v ∧ TelemetryFrame.lap f = k.
Proof.
  unfold saved.
  assert (Hgen : ∀ repo,
            k ∈ lapsOf (fold_left saveTelemetry batches repo) v
            ↔ k ∈ lapsOf repo v ∨
              ∃ f, f ∈ concat batches ∧ TelemetryFrame.vehicleId f = v ∧
                   TelemetryFrame.lap f = k).
  { induction batches as [|frames batches IH]; intros repo; simpl.
    - split; [by left|]. by intros [?|(f & ?%elem_of_nil & _)].
    - rewrite IH, lapsOf_saveTelemetry. setoid_rewrite elem_of_app. split.
      + intros [[?|(f & ? & ?)]|(f & ? & ?)]; [by left|right; exists f; auto..].
      + intros [?|(f & [?|?] & ?)]; [by left; left|left; right|right]; by exists f. }
  rewrite Hgen. split; [|by right]. by intros [?%elem_of_nil|?].
Qed.

(** [Math.max] over numbers is their largest. *)
Lemma fold_max_largest (ks : list num) (k : num) :
  Forall (λ n, ∃ z, n = Num z) (k :: ks) →
  ∃ m, fold_left Js.max ks k = Num m ∧ Num m ∈ k :: ks ∧
       ∀ z, Num z ∈ k :: ks → z ≤ m.
Proof.
  revert k. induction ks as [|k' ks IH]; intros k Hall.
  - apply Forall_cons in Hall as [(z & ->) _]. exists z. simpl.
    split; [done|]. split; [apply list_elem_of_here|].
    intros z' [= ->]%list_elem_of_singleton. lia.
  - apply Forall_cons in Hall as [(z & ->) Hall].
    pose proof Hall as [(z' & ->) Hks]%Forall_cons.
    cbn [fold_left Js.max].
    destruct (IH (Num (Z.max z z'))) as (m & Hm & Hin & Hle).
    { constructor; [by eexists|done]. }
    exists m. split; [done|]. split.
    + apply elem_of_cons in Hin as [[= Hin]|Hin].
      * rewrite Hin. destruct (Z.max_spec z z') as [[_ ->]|[_ ->]];
          [apply list_elem_of_further|]; apply list_elem_of_here.
      * by do 2 apply list_elem_of_further.
    + pose proof (Hle (Z.max z z') ltac:(apply list_elem_of_here)) as Hmax.
      intros x [Hx|[Hx|Hx]%elem_of_cons]%elem_of_cons.
      * injection Hx as ->. lia.
      * injection Hx as ->. lia.
      * apply Hle. by apply list_elem_of_further.
Qed.

(** X9.  After batches of frames with numeric laps have been saved into
    an empty repository, the maximum lap number of a vehicle is the
    largest lap of its saved frames, and 0 for a vehicle without
    frames. *)
Theorem max_lap_is_the_largest_saved
    (batches : list (list TelemetryFrame.t)) (v : string) :
  Forall (λ f, ∃ z, TelemetryFrame.lap f = Num z) (concat batches) →
  ((∀ f, f ∈ concat batches → TelemetryFrame.vehicleId f ≠ v) →
   getMaxLapNumber (saved batches) v = Num 0) ∧
  (∀ f, f ∈ concat batches → TelemetryFrame.vehicleId f = v →
   ∃ m, getMaxLapNumber (saved batches) v = Num m ∧
        (∃ g, g ∈ concat batches ∧ TelemetryFrame.vehicleId g = v ∧
              TelemetryFrame.lap g = Num m) ∧
        ∀ g z, g ∈ concat batches → TelemetryFrame.vehicleId g = v →
               TelemetryFrame.lap g = Num z → z ≤ m).
Proof.
  intros Hnum. rewrite Forall_forall in Hnum.
  assert (Hq : getMaxLapNumber (saved batches) v
               = match lapsOf (saved batches) v with
                 | [] => Num 0
                 | k :: ks => fold_left Js.max ks k
                 end).
  { unfold getMaxLapNumber, lapsOf. by destruct (mapGet v (saved batches)). }
  split.
  - intros Hnone. rewrite Hq. destruct (lapsOf (saved batches) v) as [|k ks] eqn:Hl; [done|].
    assert (Hk : k ∈ lapsOf (saved batches) v) by (rewrite Hl; apply list_elem_of_here).
    apply lapsOf_saved in Hk as (f & Hf & Hv & _). by destruct (Hnone f Hf).
  - intros f Hf Hv. rewrite Hq.
    destruct (lapsOf (saved batches) v) as [|k ks] eqn:Hl.
    { assert (Hk : TelemetryFrame.lap f ∈ lapsOf (saved batches) v)
        by (apply lapsOf_saved; by exists f).
      rewrite Hl in Hk. by apply elem_of_nil in Hk. }
    destruct (fold_max_largest ks k) as (m & Hm & Hin & Hle).
    { apply Forall_forall. intros n Hn. rewrite <- Hl in Hn.
      apply lapsOf_saved in Hn as (g & Hg & _ & <-). by apply Hnum. }
    exists m. split; [done|]. split.
    + rewrite <- Hl in Hin. apply lapsOf_saved in Hin as (g & ? & ? & ?). by exists g.
    + intros g z Hg Hgv Hgl. apply Hle. rewrite <- Hl. apply lapsOf_saved. by exists g.
Qed.

Lemma max_lap_is_the_largest_saved_witness :
  Forall (λ f, ∃ z, TelemetryFrame.lap f = Num z)
         (concat [[Examples.frame 1000 "V1" 3; Examples.frame 2000 "V1" 5]]) ∧
  ∃ m, getMaxLapNumber (saved [[Examples.frame 1000 "V1" 3; Examples.frame 2000 "V1" 5]]) "V1"
       = Num m ∧ 5 ≤ m.
Proof.
  assert (Hnum : Forall (λ f, ∃ z, TelemetryFrame.lap f = Num z)
                   (concat [[Examples.frame 1000 "V1" 3; Examples.frame 2000 "V1" 5]])).
  { repeat constructor; by eexists. }
  split; [exact Hnum|].
  destruct (proj2 (max_lap_is_the_largest_saved _ "V1" Hnum) (Examples.frame 2000 "V1" 5))
    as (m & Hm & _ & Hle).
  - simpl. apply list_elem_of_further, list_elem_of_here.
  - reflexivity.
  - exists m. split; [exact Hm|].
    apply (Hle (Examples.frame 2000 "V1" 5)); [|reflexivity..].
    simpl. apply list_elem_of_further, list_elem_of_here.
Defined.

(** Every lookup in a repository filled by saving is in ascending
    order of the timestamps. *)
Lemma saved_byTime (batches : list (list TelemetryFrame.t)) (v : string) (l : Z) :
  byTime (getTelemetryByVehicleAndLap (saved batches) v l).
Proof. by destruct (get_saved_any batches empty v l) as [_ ?]; [constructor|]. Qed.

(** X10.  The use case rejects a blank vehicle id, then a negative lap,
    and otherwise returns the frames exactly as the repository filled by
    saving returns them: they are sorted already, and the sort of the
    use case leaves them as they are.  A vehicle id that is not blank is
    taken to hold ASCII characters only, among which [isBlank] knows
    all the white space that [trim] strips. *)
Theorem use_case_returns_the_repository_frames
    (batches : list (list TelemetryFrame.t)) (v : string) (l : Z) :
  (isBlank v = true →
   GetVehicleTelemetry.execute (saved batches) v l = Throw "Vehicle ID is required") ∧
  (isAscii v = true → isBlank v = false → l < 0 →
   GetVehicleTelemetry.execute (saved batches) v l
   = Throw "Lap number must be non-negative") ∧
  (isAscii v = true → isBlank v = false → 0 ≤ l →
   GetVehicleTelemetry.execute (saved batches) v l
   = Ok (getTelemetryByVehicleAndLap (saved batches) v l)).
Proof.
  unfold GetVehicleTelemetry.execute. split; [|split].
  - intros ->. by rewrite orb_true_r.
  - intros _ Hv Hl. rewrite Hv. destruct v; [done|]. simpl.
    by destruct (Z.ltb_spec l 0); [|lia].
  - intros _ Hv Hl. rewrite Hv. destruct v as [|c v]; [done|]. cbn [truthyStr negb orb].
    destruct (Z.ltb_spec l 0); [lia|]. f_equal.
    cbn [ITelemetryRepository.getTelemetryByVehicleAndLap repository].
    apply sortBy_id, saved_byTime.
Qed.

Lemma use_case_returns_the_repository_frames_witness :
  isAscii "V1" = true ∧ isBlank "V1" = false ∧ 0 ≤ 3 ∧
  GetVehicleTelemetry.execute (saved [[Examples.frame 1000 "V1" 3]]) "V1" 3
  = Ok (getTelemetryByVehicleAndLap (saved [[Examples.frame 1000 "V1" 3]]) "V1" 3).
Proof.
  assert (Hl : 0 ≤ 3) by lia.
  split; [reflexivity|]. split; [reflexivity|]. split; [exact Hl|].
  exact (proj2 (proj2 (use_case_returns_the_repository_frames
                         [[Examples.frame 1000 "V1" 3]] "V1" 3))
           eq_refl eq_refl Hl).
Defined.

(** X11.  The frames that the telemetry parser returns for a filter on
    a vehicle and a lap other than 0, saved into an empty repository,
    are what the lookup of that vehicle and lap returns, in the same
    order.  No record may carry a metric with one of the names the pivot
    keeps for itself. *)
Theorem parsed_lap_is_found_in_repository `{JsRuntime}
    (opts : TelemetryCSVParser.Options) (v : string) (l : Z)
    (chunks : list (list TelemetryCSVParser.RawRecord)) (frames : list TelemetryFrame.t) :
  TelemetryCSVParser.filter opts
  = Some {| TelemetryCSVParser.f_vehicleId := Some v; TelemetryCSVParser.f_lap := Some l |} →
  v ≠ "" → l ≠ 0 →
  (∀ rows raw r, rows ∈ chunks → raw ∈ rows → IngestionSpec.validRow raw = Some r →
                 ¬ IngestionSpec.reserved (toLowerCase (TelemetryCSVParser.telemetry_name r))) →
  TelemetryCSVParser.settled (TelemetryCSVParser.parseFile opts chunks) = Some frames →
  getTelemetryByVehicleAndLap (saveTelemetry empty frames) v l = frames.
Proof.
  intros Hfilter Hv Hl Hnames Hsettled.
  pose proof (PivotProofs.filter_exact_for_nonzero_lap opts v l chunks frames
                Hfilter Hv Hl Hnames Hsettled) as Hall.
  rewrite IngestionProofs.parseFile_settles in Hsettled. injection Hsettled as Hframes.
  rewrite get_saveTelemetry. cbn [getTelemetryByVehicleAndLap empty mapGet app].
  assert (Hkeep : List.filter (filedAt v l) frames = frames).
  { clear Hframes. induction Hall as [|f fs [Hfv Hfl] _ IH]; [done|].
    simpl. unfold filedAt at 1. rewrite bool_decide_true by done. by rewrite IH. }
  rewrite Hkeep. apply sortBy_id. rewrite <- Hframes.
  unfold TelemetryCSVParser.pivotToFrames, TelemetryFrame.sortByTimestamp.
  apply sortBy_sorted.
Qed.

Lemma parsed_lap_is_found_in_repository_witness :
  let frames := [{| TelemetryFrame.timestamp := Num 1000;
                    TelemetryFrame.vehicleId := "V1";
                    TelemetryFrame.lap := Num 5;
                    TelemetryFrame.speed := Num 120;
                    TelemetryFrame.throttlePos := Num 0;
                    TelemetryFrame.brakePos := Num 0;
                    TelemetryFrame.gpsLatitude := Num 0;
                    TelemetryFrame.gpsLongitude := Num 0;
                    TelemetryFrame.steeringAngle := None;
                    TelemetryFrame.gear := None |}] in
  TelemetryCSVParser.settled
    (TelemetryCSVParser.parseFile (H := ExampleRuntime.runtime) Examples.lapFiveOptions
       [[Examples.record "1000" "GR86-V1" 5 "Speed" 120;
         Examples.record "2000" "GR86-V1" 3 "Speed" 130]]) = Some frames ∧
  getTelemetryByVehicleAndLap (saveTelemetry empty frames) "V1" 5 = frames.
Proof.
  intros frames.
  assert (Hs : TelemetryCSVParser.settled
                 (TelemetryCSVParser.parseFile (H := ExampleRuntime.runtime)
                    Examples.lapFiveOptions
                    [[Examples.record "1000" "GR86-V1" 5 "Speed" 120;
                      Examples.record "2000" "GR86-V1" 3 "Speed" 130]]) = Some frames)
    by (vm_compute; reflexivity).
  split; [exact Hs|].
  apply (parsed_lap_is_found_in_repository (H := ExampleRuntime.runtime)
           Examples.lapFiveOptions "V1" 5
           [[Examples.record "1000" "GR86-V1" 5 "Speed" 120;
             Examples.record "2000" "GR86-V1" 3 "Speed" 130]]);
    [reflexivity|discriminate|lia| |exact Hs].
  intros rows raw r Hrows Hraw Hvalid.
  apply list_elem_of_singleton in Hrows as ->.
  apply elem_of_cons in Hraw as [->|Hraw];
    [|apply list_elem_of_singleton in Hraw as ->];
    vm_compute in Hvalid; injection Hvalid as <-;
    intros [Hn|[Hn|Hn]]; vm_compute in Hn; discriminate Hn.
Defined.
End RepositoryProofs.

(* ===================================================================== *)
(** ** Shape of the pivot                                               *)
(* ===================================================================== *)

Module PivotShape.
Import Js JsFacts MapFacts TelemetryCSVParser IngestionSpec RepositorySpec.

Section WithRuntime.
Context `{JsRuntime}.

Lemma addRow_keys (groups : list (string * gmap string value)) (row : TelemetryRow) :
  (NoDup (map fst groups) → NoDup (map fst (addRow groups row))) ∧
  (∀ k, k ∈ map fst (addRow groups row) ↔ k ∈ map fst groups ∨ groupKey row = k) ∧
  (length (addRow groups row) ≤ S (length groups))%nat.
Proof.
  rewrite PivotProofs.addRow_unfold. split; [apply mapSet_NoDup|]. split.
  - intros k. rewrite mapSet_fst.
    destruct (mapGet (groupKey row) groups) eqn:Hg.
    + split; [by left|]. intros [?|<-]; [done|]. apply mapGet_is_Some. by eexists.
    + rewrite elem_of_app, list_elem_of_singleton. split; intros [?|?]; auto.
  - rewrite <- (length_map fst (mapSet _ _ _)), mapSet_fst.
    destruct (mapGet (groupKey row) groups); rewrite ?length_app, !length_map; simpl; lia.
Qed.

Lemma groupRows_keys (rows : list TelemetryRow) :
  NoDup (map fst (groupRows rows)) ∧
  (∀ k, k ∈ map fst (groupRows rows) ↔ ∃ row, row ∈ rows ∧ groupKey row = k) ∧
  (length (groupRows rows) ≤ length rows)%nat.
Proof.
  unfold groupRows.
  assert (Hgen : ∀ groups,
            (NoDup (map fst groups) → NoDup (map fst (fold_left addRow rows groups))) ∧
            (∀ k, k ∈ map fst (fold_left addRow rows groups)
                  ↔ k ∈ map fst groups ∨ ∃ row, row ∈ rows ∧ groupKey row = k) ∧
            (length (fold_left addRow rows groups) ≤ length groups + length rows)%nat).
  { induction rows as [|row rows IH]; intros groups; simpl.
    - split; [done|]. split; [|lia]. intros k. split; [by left|].
      by intros [?|(row & ?%elem_of_nil & _)].
    - destruct (IH (addRow groups row)) as (Hnd & Hin & Hlen).
      destruct (addRow_keys groups row) as (Hnd1 & Hin1 & Hlen1).
      split; [auto|]. split; [|lia].
      intros k. rewrite Hin, Hin1. split.
      + intros [[?|?]|(r & ? & ?)]; [by left|right..].
        * exists row. split; [apply list_elem_of_here|done].
        * exists r. split; [by apply list_elem_of_further|done].
      + intros [?|(r & [->|?]%elem_of_cons & ?)]; [by left; left|by left; right|right].
        by exists r. }
  destruct (Hgen []) as (Hnd & Hin & Hlen). split; [apply Hnd; constructor|].
  split; [|done]. intros k. rewrite Hin. split; [|by right].
  by intros [?%elem_of_nil|?].
Qed.

Lemma buildFrames_length (groups : list (string * gmap string value)) :
  (length (buildFrames groups) ≤ length groups)%nat.
Proof.
  induction groups as [|[k metrics] groups IH]; [done|].
  simpl. destruct (TelemetryFrame.new (frameDataOf metrics)); simpl; lia.
Qed.

(** X12.  The pivot groups the rows by timestamp, vehicle id and lap:
    every row falls into the group of its key and no key has two groups.
    It returns at most one frame per group, so no more frames than rows,
    in ascending order of their timestamps. *)
Theorem pivot_gives_one_frame_per_key_in_time_order (rows : list TelemetryRow) :
  byTime (pivotToFrames rows) ∧
  NoDup (map fst (groupRows rows)) ∧
  (∀ k, k ∈ map fst (groupRows rows) ↔ ∃ row, row ∈ rows ∧ groupKey row = k) ∧
  (length (pivotToFrames rows) ≤ length (groupRows rows))%nat ∧
  (length (groupRows rows) ≤ length rows)%nat.
Proof.
  destruct (groupRows_keys rows) as (Hnd & Hin & Hlen).
  split; [apply sortBy_sorted|]. split; [done|]. split; [done|]. split; [|done].
  unfold pivotToFrames, TelemetryFrame.sortByTimestamp.
  rewrite (Permutation_length (sortBy_perm _ _)). apply buildFrames_length.
Qed.

(** *** The value of a metric that several rows of a group carry *)

Lemma setIfMissing_keeps (k n : string) (x y : value) (metrics : gmap string value) :
  metrics !! n = Some y → setIfMissing k x metrics !! n = Some y.
Proof.
  intros Hy. rewrite PivotProofs.lookup_setIfMissing.
  case_decide as Hk; [|done]. subst. by rewrite Hy.
Qed.

Lemma foldRow_own (row : TelemetryRow) (metrics : gmap string value) :
  foldRow row metrics !! toLowerCase (telemetry_name row)
  = Some (telemetry_value row).
Proof.
  unfold foldRow. do 3 apply setIfMissing_keeps. apply lookup_insert_eq.
Qed.

Lemma foldRow_other (row : TelemetryRow) (metrics : gmap string value) (n : string) (x : value) :
  toLowerCase (telemetry_name row) ≠ n →
  metrics !! n = Some x →
  foldRow row metrics !! n = Some x.
Proof.
  intros Hne Hx. unfold foldRow. do 3 apply setIfMissing_keeps.
  by rewrite lookup_insert_ne.
Qed.

(** The rows that set the metric [n] of the group [k]. *)
Lemma addRow_keeps (groups : list (string * gmap string value)) (row : TelemetryRow)
    (k n : string) (x : value) :
  ¬ (groupKey row = k ∧ toLowerCase (telemetry_name row) = n) →
  (∃ table, mapGet k groups = Some table ∧ table !! n = Some x) →
  ∃ table, mapGet k (addRow groups row) = Some table ∧ table !! n = Some x.
Proof.
  intros Hnot (table & Hg & Hx). rewrite PivotProofs.addRow_unfold.
  destruct (decide (groupKey row = k)) as [Hk|Hk].
  - rewrite Hk, mapGet_mapSet_eq, Hg. eexists. split; [done|].
    apply foldRow_other; [|done]. intros Hn. by apply Hnot.
  - rewrite mapGet_mapSet_ne by done. by exists table.
Qed.

(** X13.  When several rows of a group carry the same metric, names
    compared without regard to case, the group holds the value of the
    last of them. *)
Theorem last_value_of_a_metric_wins (pre post : list TelemetryRow) (row : TelemetryRow) :
  Forall (λ r, ¬ (groupKey r = groupKey row ∧
                  toLowerCase (telemetry_name r) = toLowerCase (telemetry_name row))) post →
  ∃ table,
    mapGet (groupKey row) (groupRows (pre ++ row :: post)) = Some table ∧
    table !! toLowerCase (telemetry_name row) = Some (telemetry_value row).
Proof.
  intros Hpost. unfold groupRows. rewrite fold_left_app. cbn [fold_left].
  generalize (fold_left addRow pre []). intros groups.
  assert (Hrow : ∃ table,
            mapGet (groupKey row) (addRow groups row) = Some table ∧
            table !! toLowerCase (telemetry_name row)
            = Some (telemetry_value row)).
  { rewrite PivotProofs.addRow_unfold, mapGet_mapSet_eq. eexists. split; [done|].
    apply foldRow_own. }
  revert Hrow. generalize (addRow groups row). clear groups.
  induction Hpost as [|r post Hr _ IH]; intros groups Hrow; [done|].
  cbn [fold_left]. apply IH. by apply addRow_keeps.
Qed.
End WithRuntime.

Lemma last_value_of_a_metric_wins_witness :
  Forall (λ r, ¬ (groupKey r = groupKey (Examples.row "speed" 120) ∧
                  toLowerCase (telemetry_name r)
                  = toLowerCase (telemetry_name (Examples.row "speed" 120))))
         [Examples.row "aTH" 85] ∧
  ∃ table,
    mapGet (groupKey (Examples.row "speed" 120))
           (groupRows (H := ExampleRuntime.runtime)
              ([Examples.row "Speed" 100] ++ Examples.row "speed" 120 :: [Examples.row "aTH" 85]))
    = Some table ∧
    table !! "speed" = Some (VNum (Num 120)).
Proof.
  assert (Hpost : Forall (λ r, ¬ (groupKey r = groupKey (Examples.row "speed" 120) ∧
                                  toLowerCase (telemetry_name r)
                                  = toLowerCase (telemetry_name (Examples.row "speed" 120))))
                         [Examples.row "aTH" 85]).
  { repeat constructor. intros [_ Hn]. vm_compute in Hn. discriminate Hn. }
  split; [exact Hpost|].
  exact (last_value_of_a_metric_wins (H := ExampleRuntime.runtime)
           [Examples.row "Speed" 100] [Examples.row "aTH" 85] (Examples.row "speed" 120) Hpost).
Defined.
End PivotShape.

(* ===================================================================== *)
(** ** Validity of the records that the reader delivers                   *)
(* ===================================================================== *)

Module RowNormalizerProofs.
Import Js RowNormalizer ValiditySpec.

(** *** The typed cells of [TelemetryCSVParser] are a part of these *)

Lemma or_ofText (a b : cell string) :
  or (ofText a) (ofText b) = ofText (orElse truthyStr a b).
Proof. destruct a as [| |s]; [done|done|]. simpl. by destruct (truthyStr s). Qed.

Lemma or_ofNumber (a b : cell Z) :
  or (ofNumber a) (ofNumber b) = ofNumber (orElse TelemetryCSVParser.truthyZ a b).
Proof.
  destruct a as [| |z]; [done|done|]. unfold or. simpl.
  unfold TelemetryCSVParser.truthyZ. by destruct (negb (z =? 0)).
Qed.

Lemma nullish_ofNumber (a b : cell Z) :
  nullish (ofNumber a) (ofNumber b) = ofNumber (nullish a b).
Proof. by destruct a. Qed.

Lemma spread_ofText (a b : cell string) :
  spread (ofText a) (ofText b) = ofText (spread a b).
Proof. by destruct b. Qed.

Lemma spread_ofNumber (a b : cell Z) :
  spread (ofNumber a) (ofNumber b) = ofNumber (spread a b).
Proof. by destruct b. Qed.

Lemma normalizeRow_ofRecord (raw : TelemetryCSVParser.RawRecord) :
  normalizeRow (ofRecord raw) = ofNormalized (TelemetryCSVParser.normalizeRow raw).
Proof.
  unfold normalizeRow, ofNormalized, TelemetryCSVParser.normalizeRow, ofRecord. simpl.
  by rewrite !or_ofText, !or_ofNumber, !nullish_ofNumber, !spread_ofText, !spread_ofNumber.
Qed.

Lemma isValidRow_ofNormalized (row : TelemetryCSVParser.NormalizedRow) :
  isValidRow (ofNormalized row) = TelemetryCSVParser.isValidRow row.
Proof.
  unfold isValidRow, TelemetryCSVParser.isValidRow, ofNormalized. simpl.
  by destruct (TelemetryCSVParser.n_telemetry_name row),
              (TelemetryCSVParser.n_telemetry_value row),
              (TelemetryCSVParser.n_timestamp row),
              (TelemetryCSVParser.n_vehicle_id row),
              (TelemetryCSVParser.n_lap row).
Qed.

Lemma asRow_ofNormalized (row : TelemetryCSVParser.NormalizedRow) :
  asRow (ofNormalized row) = TelemetryCSVParser.narrow row.
Proof.
  unfold asRow, TelemetryCSVParser.narrow, ofNormalized. simpl.
  by destruct (TelemetryCSVParser.n_telemetry_name row),
              (TelemetryCSVParser.n_telemetry_value row),
              (TelemetryCSVParser.n_timestamp row),
              (TelemetryCSVParser.n_vehicle_id row),
              (TelemetryCSVParser.n_lap row).
Qed.

(** A record of [TelemetryCSVParser] is accepted there exactly when it
    is accepted as the reader delivers it, and stands for the same
    row. *)
Lemma typed_records_agree (raw : TelemetryCSVParser.RawRecord) :
  isValidRow (normalizeRow (ofRecord raw))
  = TelemetryCSVParser.isValidRow (TelemetryCSVParser.normalizeRow raw) ∧
  asRow (normalizeRow (ofRecord raw))
  = TelemetryCSVParser.narrow (TelemetryCSVParser.normalizeRow raw).
Proof.
  by rewrite normalizeRow_ofRecord, isValidRow_ofNormalized, asRow_ofNormalized.
Qed.

(** *** Field by field *)

Local Ltac cells :=
  repeat match goal with
         | c : cell value |- _ => destruct c as [| |[[?|]|[|? ?]|[|]|?]]; simpl in *; try done
         | H : _ ∨ _ |- _ => destruct H as [?|?]; try done
         end.

Lemma text_field3 (own a b : cell value) :
  textCell own → textCell a → textCell b → missingOrFilled own →
  truthyCell (spread (or (or own a) b) own) = negb (empty (firstNonEmpty [own; a; b])).
Proof. unfold missingOrFilled, or. intros. cells. Qed.

Lemma text_field4 (own a b c : cell value) :
  textCell own → textCell a → textCell b → textCell c → missingOrFilled own →
  truthyCell (spread (or (or (or own a) b) c) own)
  = negb (empty (firstNonEmpty [own; a; b; c])).
Proof. unfold missingOrFilled, or. intros. cells. Qed.

Lemma lap_field (own a b : cell value) :
  numberCell own → numberCell a → numberCell b → missingOrFilled own →
  (own = Absent → a ≠ Val (VNum (Num 0))) →
  isNumber (spread (or (or own a) b) own) = numeric (firstNonEmpty [own; a; b]).
Proof.
  unfold missingOrFilled, or. intros Ho Ha Hb Hown Hzero.
  destruct own as [| |[[z|]|s|t|d]]; simpl in *; try done; [|by destruct Hown].
  specialize (Hzero eq_refl).
  destruct a as [| |[[z|]|s|t|d]]; simpl in *; try done.
  - by destruct b as [| |[[z|]|s|t|d]].
  - by destruct b as [| |[[z|]|s|t|d]].
  - destruct (Z.eqb_spec z 0) as [->|]; [done|]. done.
Qed.

Lemma value_field (own a b c : cell value) :
  numberCell own → numberCell a → numberCell b → numberCell c → missingOrFilled own →
  truthyCell (spread (nullish (nullish (nullish own a) b) c) own)
  || isZero (spread (nullish (nullish (nullish own a) b) c) own)
  = present (firstPresent [own; a; b; c]).
Proof.
  assert (Hnum : ∀ x, numberCell x → truthyCell x || isZero x = present x).
  { intros [| |[[z|]|s|t|d]]; simpl; try done. intros _. by destruct (z =? 0). }
  unfold missingOrFilled. intros Ho Ha Hb Hc Hown.
  destruct own as [| |v]; [| by destruct Hown |exact (Hnum (Val v) Ho)].
  destruct a as [| |v]; [| |exact (Hnum (Val v) Ha)];
    (destruct b as [| |v]; [| |exact (Hnum (Val v) Hb)]);
    (destruct c as [| |v]; [done|done|exact (Hnum (Val v) Hc)]).
Qed.

(** A record of the declared types whose canonical columns are missing
    or filled is accepted exactly when it is valid in the words of the
    specification, unless its lap is the number 0 under the alias
    [Lap]. *)
Lemma accepted_as_stated (raw : RawRecord) :
  declared raw → canonicalFilled raw →
  (raw_lap raw = Absent → raw_Lap raw ≠ Val (VNum (Num 0))) →
  isValidRow (normalizeRow raw) = valid raw.
Proof.
  intros [Htext Hnum] Hfilled Hzero. unfold canonicalFilled in Hfilled.
  repeat match goal with
         | H : Forall _ (_ :: _) |- _ => apply Forall_cons in H as [? H]
         end.
  unfold isValidRow, valid. cbn [normalizeRow n_telemetry_name n_telemetry_value
                                 n_timestamp n_vehicle_id n_lap].
  rewrite text_field4, value_field, !text_field3, lap_field by done. done.
Qed.
End RowNormalizerProofs.

(* ===================================================================== *)
(** ** Skipped rows, progress and the vehicle filter                    *)
(* ===================================================================== *)

Module IngestionEdges.
Import Js JsFacts TelemetryCSVParser IngestionSpec ProgressSpec.

Section WithRuntime.
Context `{JsRuntime}.
Variable opts : Options.

(** *** Skipping *)






(** *** Progress reports *)









End WithRuntime.



(** *** The vehicle id of the filter *)

Lemma prefix_split (p s : string) :
  String.prefix p s = true → s = p ++ dropStr (String.length p) s.
Proof.
  revert s. induction p as [|a p IH]; intros s; [done|].
  destruct s as [|b s]; [done|]. simpl.
  destruct (Ascii.ascii_dec a b) as [->|]; [|done].
  intros Hp. change (String b s = String b (p ++ dropStr (String.length p) s)).
  f_equal. by apply IH.
Qed.

Lemma prefix_app (p s : string) : String.prefix p (p ++ s) = true.
Proof.
  induction p as [|a p IH]; [by destruct s|].
  change (String.prefix (String a p) (String a (p ++ s)) = true). simpl.
  by destruct (Ascii.ascii_dec a a).
Qed.

Lemma dropStr_app (p s : string) : dropStr (String.length p) (p ++ s) = s.
Proof.
  induction p as [|a p IH]; [done|].
  change (dropStr (S (String.length p)) (String a (p ++ s)) = s). simpl. apply IH.
Qed.

(** X16.  The vehicle id of a row is compared with the filter after one
    leading [GR86-] has been taken off it: a row passes the filter on
    the vehicle [v] exactly when its id is [GR86-] followed by [v], or
    is [v] itself and [v] does not begin with [GR86-]. *)
Theorem vehicle_filter_strips_one_prefix (v : string) (fl : option Z) (row : TelemetryRow) :
  v ≠ "" →
  wrongVehicle {| f_vehicleId := Some v; f_lap := fl |} row = false
  ↔ vehicle_id row = "GR86-" ++ v ∨
    (vehicle_id row = v ∧ startsWith "GR86-" v = false).
Proof.
  intros Hv. unfold wrongVehicle. cbn [f_vehicleId].
  assert (truthyStr v = true) as -> by by destruct v.
  cbn [andb]. rewrite negb_false_iff, String.eqb_eq.
  unfold normalizeVehicleId, startsWith.
  destruct (String.prefix "GR86-" (vehicle_id row)) eqn:Hp.
  - apply prefix_split in Hp. cbn [String.length] in Hp. split.
    + intros <-. by left.
    + intros [Hid|[Hid Hno]].
      * rewrite Hid. apply (dropStr_app "GR86-").
      * rewrite <- Hid, Hp in Hno.
        by rewrite (prefix_app "GR86-") in Hno.
  - split.
    + intros Hid. right. by rewrite <- Hid.
    + intros [Hid|[Hid _]]; [|done].
      rewrite Hid in Hp. by rewrite (prefix_app "GR86-") in Hp.
Qed.

Lemma vehicle_filter_strips_one_prefix_witness :
  "V1" ≠ "" ∧
  wrongVehicle {| f_vehicleId := Some "V1"; f_lap := None |} (Examples.row "Speed" 120) = false.
Proof.
  assert (Hv : "V1" ≠ "") by discriminate.
  split; [exact Hv|].
  apply (proj2 (vehicle_filter_strips_one_prefix "V1" None (Examples.row "Speed" 120) Hv)).
  left. reflexivity.
Defined.
End IngestionEdges.

(* ===================================================================== *)
(** ** Properties of the lap time parser                                *)
(* ===================================================================== *)

Module LapParserProofs.
Import Js JsFacts MapFacts LapTimeCSVParser LapSpec.

Lemma mapSet_elem_of_NoDup {K V : Type} `{EqDecision K} (k : K) (v : V)
    (m : list (K * V)) (e : K * V) :
  NoDup (map fst m) → e ∈ mapSet k v m → e = (k, v) ∨ (e ∈ m ∧ e.1 ≠ k).
Proof.
  induction m as [|[k' v'] m IH]; simpl.
  - intros _ ->%list_elem_of_singleton. by left.
  - intros [Hnin Hnd]%NoDup_cons. destruct (decide (k = k')) as [->|Hne].
    + intros [->|Hin]%elem_of_cons; [by left|]. right.
      split; [by apply list_elem_of_further|].
      intros Hk. apply Hnin. apply list_elem_of_fmap. exists e. by split.
    + intros [->|Hin]%elem_of_cons.
      * right. split; [apply list_elem_of_here|]. simpl. congruence.
      * destruct (IH Hnd Hin) as [?|[? ?]]; [by left|right].
        split; [by apply list_elem_of_further|done].
Qed.

Lemma mapGet_NoDup_elem {K V : Type} `{EqDecision K} (k : K) (v : V) (m : list (K * V)) :
  NoDup (map fst m) → (k, v) ∈ m → mapGet k m = Some v.
Proof.
  induction m as [|[k' v'] m IH]; [by intros _ ?%elem_of_nil|].
  cbn [map fst mapGet]. intros [Hnin Hnd]%NoDup_cons [[= -> ->]|Hin]%elem_of_cons.
  - by rewrite decide_True.
  - rewrite decide_False; [by apply IH|].
    intros ->. apply Hnin. apply list_elem_of_fmap. by exists (k', v).
Qed.








(** *** Vehicle ids *)

Lemma split_no_sep (sep : ascii) (s : string) :
  hasChar sep s = false → split sep s = [s].
Proof.
  induction s as [|c s IH]; [done|]. simpl.
  rewrite (Ascii.eqb_sym sep c). destruct (Ascii.eqb c sep); [done|].
  intros Hs. by rewrite (IH Hs).
Qed.

Lemma split_at_sep (sep : ascii) (a b : string) :
  hasChar sep a = false → split sep (a ++ String sep b) = a :: split sep b.
Proof.
  induction a as [|c a IH].
  - intros _. change (split sep (String sep b) = "" :: split sep b).
    simpl. by rewrite Ascii.eqb_refl.
  - change (String c a ++ String sep b) with (String c (a ++ String sep b)).
    simpl. rewrite (Ascii.eqb_sym sep c). destruct (Ascii.eqb c sep); [done|].
    intros Ha. by rewrite (IH Ha).
Qed.

(** [parseInt] reads back a number written in decimal. *)
Local Ltac digit_value :=
  match goal with
  | |- context [digitOf ?c] =>
      let v := eval vm_compute in (digitOf c) in change (digitOf c) with v
  end; cbn iota.

Lemma digitsPrefix_acc (d : Decimal.uint) (acc : positive) :
  digitsPrefix (Some (Z.pos acc)) (NilEmpty.string_of_uint d)
  = Some (Z.pos (Pos.of_uint_acc d acc)).
Proof.
  revert acc. induction d; intros acc; [done|..];
    cbn [NilEmpty.string_of_uint digitsPrefix]; digit_value;
    cbn [Pos.of_uint_acc]; rewrite <- IHd; do 2 f_equal; lia.
Qed.

Lemma digitsPrefix_zero (d : Decimal.uint) :
  digitsPrefix (Some 0) (NilEmpty.string_of_uint d) = Some (Z.of_N (Pos.of_uint d)).
Proof.
  induction d; [done|..];
    cbn [NilEmpty.string_of_uint digitsPrefix]; digit_value;
    [exact IHd|apply digitsPrefix_acc..].
Qed.

Lemma parseInt_uint (d : Decimal.uint) :
  d ≠ Decimal.Nil →
  parseInt (NilEmpty.string_of_uint d) = Num (Z.of_N (Pos.of_uint d)).
Proof.
  intros Hd. pose proof (digitsPrefix_zero d) as Hz.
  destruct d; [done|..]; cbn [NilEmpty.string_of_uint] in *;
    match goal with
    | |- parseInt ?str = _ =>
        transitivity (match digitsPrefix (Some 0) str with
                      | Some v => Num v
                      | None => NaN
                      end); [reflexivity|by rewrite Hz]
    end.
Qed.

Lemma parseInt_intToString (n : Z) : 0 ≤ n → parseInt (intToString n) = Num n.
Proof.
  intros Hn. unfold intToString.
  pose proof (DecimalZ.of_to n) as Hof. destruct (to_int_proper n) as [Hnil _].
  destruct (Z.to_int n) as [d|d] eqn:Hd.
  - cbn [NilZero.string_of_int]. unfold NilZero.string_of_uint.
    assert (Hne : d ≠ Decimal.Nil) by congruence.
    destruct d; [done|..]; rewrite parseInt_uint by done; f_equal; exact Hof.
  - destruct n; simpl in Hd; try discriminate. lia.
Qed.

(** X18.  A vehicle id of three parts, as the data set writes them
    (a prefix, the chassis and the car number, joined by dashes), is
    taken apart into the chassis and the car number, for a car number
    of at most 2^53, which [parseInt] reads exactly; an id of two
    parts is kept whole as the chassis, with car number 0. *)
Theorem vehicle_id_is_taken_apart (prefix chassis : string) (n : Z) :
  hasChar "-" prefix = false → hasChar "-" chassis = false → 0 ≤ n ≤ 2 ^ 53 →
  parseVehicleId (prefix ++ "-" ++ chassis ++ "-" ++ intToString n)
  = {| Vehicle.d_chassis := chassis; Vehicle.d_carNumber := Num n |} ∧
  parseVehicleId (chassis ++ "-" ++ intToString n)
  = {| Vehicle.d_chassis := chassis ++ "-" ++ intToString n;
       Vehicle.d_carNumber := Num 0 |}.
Proof.
  intros Hp Hc [Hn _]. unfold parseVehicleId.
  change (prefix ++ "-" ++ chassis ++ "-" ++ intToString n)
    with (prefix ++ String "-" (chassis ++ String "-" (intToString n))).
  change (chassis ++ "-" ++ intToString n)
    with (chassis ++ String "-" (intToString n)).
  rewrite !split_at_sep by done.
  rewrite split_no_sep by by apply intToString_no_dash.
  split; [|done]. by rewrite parseInt_intToString.
Qed.

Lemma vehicle_id_is_taken_apart_witness :
  hasChar "-" "GR86" = false ∧ hasChar "-" "032" = false ∧ 0 ≤ 15 ≤ 2 ^ 53 ∧
  parseVehicleId "GR86-032-15"
  = {| Vehicle.d_chassis := "032"; Vehicle.d_carNumber := Num 15 |} ∧
  parseVehicleId "032-15"
  = {| Vehicle.d_chassis := "032-15"; Vehicle.d_carNumber := Num 0 |}.
Proof.
  assert (Hp : hasChar "-" "GR86" = false) by reflexivity.
  assert (Hc : hasChar "-" "032" = false) by reflexivity.
  assert (Hn : 0 ≤ 15 ≤ 2 ^ 53) by lia.
  split; [exact Hp|]. split; [exact Hc|]. split; [exact Hn|].
  exact (vehicle_id_is_taken_apart "GR86" "032" 15 Hp Hc Hn).
Defined.
End LapParserProofs.

(* ===================================================================== *)
(** ** Properties of the race session                                   *)
(* ===================================================================== *)

Module SessionProofs.
Import Js JsFacts MapFacts RaceSession SessionSpec.

(** A session as the constructor returns it holds no laps and no
    vehicles. *)
Lemma new_empty `{JsRuntime} (data : RaceSessionData) (s : t) :
  new data = Ok s → laps s = [] ∧ registered s = [].
Proof.
  unfold new.
  destruct (negb _ || isBlank (d_sessionId data)); [done|].
  destruct (negb _ || isBlank (d_trackName data)); [done|].
  destruct (le _ _); [done|]. by intros [= <-].
Qed.

Lemma laps_addLap (s : t) (lap : Lap.t) (v : string) :
  getLapsByVehicle (addLap s lap) v
  = (getLapsByVehicle s v ++ if drivenBy v lap then [lap] else [])%list.
Proof.
  unfold getLapsByVehicle, addLap, drivenBy. cbn [laps].
  destruct (decide (Vehicle.id (Lap.vehicle lap) = v)) as [<-|Hv].
  - by rewrite mapGet_mapSet_eq, bool_decide_true.
  - rewrite mapGet_mapSet_ne by done. rewrite bool_decide_false by done.
    by rewrite app_nil_r.
Qed.

Lemma laps_added (ls : list Lap.t) (s : t) (v : string) :
  getLapsByVehicle (added s ls) v
  = (getLapsByVehicle s v ++ List.filter (drivenBy v) ls)%list.
Proof.
  unfold added. revert s. induction ls as [|lap ls IH]; intros s; simpl.
  - by rewrite app_nil_r.
  - rewrite IH, laps_addLap, <- app_assoc. by destruct (drivenBy v lap).
Qed.

(** All laps of the session, vehicle after vehicle. *)
Lemma all_addLap (s : t) (lap : Lap.t) :
  concat (map snd (laps (addLap s lap))) ≡ₚ (concat (map snd (laps s)) ++ [lap])%list.
Proof.
  unfold addLap. cbn [laps].
  generalize (Vehicle.id (Lap.vehicle lap)). intros k.
  induction (laps s) as [|[k' xs] m IH]; [done|].
  cbn [mapGet mapSet]. destruct (decide (k = k')) as [->|Hne];
    cbn [map snd concat from_option id].
  - rewrite <- !app_assoc. apply Permutation_app_head, Permutation_app_comm.
  - rewrite IH. by rewrite app_assoc.
Qed.

Lemma all_added (ls : list Lap.t) (s : t) :
  concat (map snd (laps (added s ls))) ≡ₚ (concat (map snd (laps s)) ++ ls)%list.
Proof.
  unfold added. revert s. induction ls as [|lap ls IH]; intros s; simpl.
  - by rewrite app_nil_r.
  - by rewrite IH, all_addLap, <- app_assoc.
Qed.

Lemma totalLaps_length (s : t) : totalLaps s = length (concat (map snd (laps s))).
Proof.
  unfold totalLaps.
  assert (Hgen : ∀ (xss : list (list Lap.t)) (n : nat),
            fold_left (λ total vehicleLaps, (total + length vehicleLaps)%nat) xss n
            = (n + length (concat xss))%nat).
  { induction xss as [|xs xss IH]; intros n; simpl; [lia|].
    rewrite IH, length_app. lia. }
  by rewrite Hgen.
Qed.

(** X19.  In a session filled by adding laps to a new one, the laps of
    a vehicle are the added laps of that vehicle in the order in which
    they were added, none for a vehicle without laps, and the total
    number of laps is the number of laps added. *)
Theorem session_holds_the_added_laps `{JsRuntime}
    (data : RaceSessionData) (s : t) (ls : list Lap.t) :
  new data = Ok s →
  (∀ v, getLapsByVehicle (added s ls) v = List.filter (drivenBy v) ls) ∧
  totalLaps (added s ls) = length ls ∧
  statsTotalLaps (getStatistics (added s ls)) = length ls.
Proof.
  intros [Hl Hr]%new_empty.
  assert (Htotal : totalLaps (added s ls) = length ls).
  { rewrite totalLaps_length, (Permutation_length (all_added ls s)), Hl. done. }
  split; [|by split].
  intros v. rewrite laps_added. unfold getLapsByVehicle. by rewrite Hl.
Qed.

Lemma session_holds_the_added_laps_witness :
  new (H := ExampleRuntime.runtime) Examples.sessionData = Ok Examples.session ∧
  totalLaps (added Examples.session [Examples.lap 1 0 120000; Examples.lap 2 120000 283361])
  = 2%nat.
Proof.
  assert (Hnew : new (H := ExampleRuntime.runtime) Examples.sessionData = Ok Examples.session)
    by (vm_compute; reflexivity).
  split; [exact Hnew|].
  exact (proj1 (proj2 (session_holds_the_added_laps (H := ExampleRuntime.runtime)
                         Examples.sessionData Examples.session
                         [Examples.lap 1 0 120000; Examples.lap 2 120000 283361] Hnew))).
Defined.

(** *** Vehicles *)

Lemma registered_addLap (s : t) (seen : list Lap.t) (lap : Lap.t) :
  NoDup (map fst (registered s)) →
  (∀ e, e ∈ registered s → Vehicle.id e.2 = e.1 ∧ ∃ l, l ∈ seen ∧ Lap.vehicle l = e.2) →
  (∀ l, l ∈ seen → Vehicle.id (Lap.vehicle l) ∈ map fst (registered s)) →
  NoDup (map fst (registered (addLap s lap))) ∧
  (∀ e, e ∈ registered (addLap s lap) →
        Vehicle.id e.2 = e.1 ∧ ∃ l, l ∈ (seen ++ [lap])%list ∧ Lap.vehicle l = e.2) ∧
  (∀ l, l ∈ (seen ++ [lap])%list →
        Vehicle.id (Lap.vehicle l) ∈ map fst (registered (addLap s lap))).
Proof.
  intros Hnd Hreg Hseen. unfold addLap. cbn [registered].
  destruct (mapGet (Vehicle.id (Lap.vehicle lap)) (registered s)) eqn:Hg.
  - split; [done|]. split.
    + intros e He. destruct (Hreg e He) as [Hid (l & Hl & Hv)]. split; [done|].
      exists l. split; [|done]. apply elem_of_app. by left.
    + intros l [Hl|Hl]%elem_of_app; [by apply Hseen|].
      apply list_elem_of_singleton in Hl as ->. apply mapGet_is_Some. by eexists.
  - split; [by apply mapSet_NoDup|]. split.
    + intros e [->|He]%mapSet_elem_of.
      * split; [done|]. exists lap. split; [|done].
        apply elem_of_app. right. apply list_elem_of_here.
      * destruct (Hreg e He) as [Hid (l & Hl & Hv)]. split; [done|].
        exists l. split; [|done]. apply elem_of_app. by left.
    + intros l Hl. rewrite mapSet_fst, Hg. apply elem_of_app.
      apply elem_of_app in Hl as [Hl|Hl]; [left; by apply Hseen|right].
      apply list_elem_of_singleton in Hl as ->. apply list_elem_of_here.
Qed.

Lemma registered_added (ls seen : list Lap.t) (s : t) :
  NoDup (map fst (registered s)) →
  (∀ e, e ∈ registered s → Vehicle.id e.2 = e.1 ∧ ∃ l, l ∈ seen ∧ Lap.vehicle l = e.2) →
  (∀ l, l ∈ seen → Vehicle.id (Lap.vehicle l) ∈ map fst (registered s)) →
  NoDup (map fst (registered (added s ls))) ∧
  (∀ e, e ∈ registered (added s ls) →
        Vehicle.id e.2 = e.1 ∧ ∃ l, l ∈ (seen ++ ls)%list ∧ Lap.vehicle l = e.2) ∧
  (∀ l, l ∈ (seen ++ ls)%list →
        Vehicle.id (Lap.vehicle l) ∈ map fst (registered (added s ls))).
Proof.
  unfold added. revert seen s. induction ls as [|lap ls IH]; intros seen s Hnd Hreg Hseen.
  - simpl. rewrite app_nil_r. done.
  - cbn [fold_left].
    destruct (registered_addLap s seen lap Hnd Hreg Hseen) as (Hnd' & Hreg' & Hseen').
    destruct (IH (seen ++ [lap])%list (addLap s lap) Hnd' Hreg' Hseen') as (H1 & H2 & H3).
    rewrite <- app_assoc in H2, H3. done.
Qed.

(** X20.  A session filled by adding laps to a new one registers every
    vehicle that drove one of the laps, each id once, and no other
    vehicle. *)
Theorem session_registers_each_vehicle_once `{JsRuntime}
    (data : RaceSessionData) (s : t) (ls : list Lap.t) :
  new data = Ok s →
  NoDup (map Vehicle.id (vehicles (added s ls))) ∧
  (∀ v, v ∈ map Vehicle.id (vehicles (added s ls))
        ↔ ∃ l, l ∈ ls ∧ Vehicle.id (Lap.vehicle l) = v) ∧
  (∀ vehicle, vehicle ∈ vehicles (added s ls) → ∃ l, l ∈ ls ∧ Lap.vehicle l = vehicle) ∧
  totalVehicles (getStatistics (added s ls)) = length (vehicles (added s ls)).
Proof.
  intros [Hl Hr]%new_empty.
  destruct (registered_added ls [] s) as (Hnd & Hreg & Hseen).
  { rewrite Hr. constructor. }
  { rewrite Hr. by intros e ?%elem_of_nil. }
  { by intros l ?%elem_of_nil. }
  cbn [app] in Hreg, Hseen.
  assert (Hids : map Vehicle.id (vehicles (added s ls)) = map fst (registered (added s ls))).
  { unfold vehicles. rewrite map_map. apply map_ext_in.
    intros e He%list_elem_of_In. by destruct (Hreg e He). }
  rewrite Hids. split; [done|]. split; [|split].
  - intros v. split.
    + intros ((k & veh) & -> & He)%list_elem_of_fmap.
      destruct (Hreg _ He) as [Hid (l & Hin & Hv)]. exists l. split; [done|].
      simpl in *. by rewrite Hv.
    + intros (l & Hin & <-). by apply Hseen.
  - unfold vehicles. intros vehicle (e & -> & He)%list_elem_of_fmap.
    by destruct (Hreg e He) as [_ ?].
  - unfold vehicles, getStatistics. cbn [totalVehicles]. by rewrite length_map.
Qed.

Lemma session_registers_each_vehicle_once_witness :
  new (H := ExampleRuntime.runtime) Examples.sessionData = Ok Examples.session ∧
  NoDup (map Vehicle.id
           (vehicles (added Examples.session
                        [Examples.lap 1 0 120000; Examples.lap 2 120000 283361]))).
Proof.
  assert (Hnew : new (H := ExampleRuntime.runtime) Examples.sessionData = Ok Examples.session)
    by (vm_compute; reflexivity).
  split; [exact Hnew|].
  exact (proj1 (session_registers_each_vehicle_once (H := ExampleRuntime.runtime)
                  Examples.sessionData Examples.session
                  [Examples.lap 1 0 120000; Examples.lap 2 120000 283361] Hnew)).
Defined.

(** *** The fastest lap *)

Lemma fold_nested {A B : Type} (f : B → A → B) (xss : list (list A)) (b : B) :
  fold_left (λ acc xs, fold_left f xs acc) xss b = fold_left f (concat xss) b.
Proof.
  revert b. induction xss as [|xs xss IH]; intros b; [done|].
  simpl. by rewrite fold_left_app, IH.
Qed.

(** Starting from the lap [c], the loop ends with a lap that no lap it
    has seen is faster than: [c] itself, or a lap faster than [c]. *)
Lemma fold_faster (xs : list Lap.t) (c : Lap.t) :
  ∃ f, fold_left faster xs (Some c) = Some f ∧
       (f = c ∨ (f ∈ xs ∧ Lap.isFasterThan f c = true)) ∧
       ∀ l, l ∈ xs → Lap.isFasterThan l f = false.
Proof.
  unfold Lap.isFasterThan.
  revert c. induction xs as [|x xs IH]; intros c.
  - exists c. split; [done|]. split; [by left|]. by intros l ?%elem_of_nil.
  - cbn [fold_left faster]. unfold Lap.isFasterThan.
    destruct (lt (Lap.durationMs x) (Lap.durationMs c)) eqn:Hxc.
    + destruct (IH x) as (f & Hf & Hor & Hall). exists f. split; [done|].
      assert (Hfc : lt (Lap.durationMs f) (Lap.durationMs c) = true).
      { destruct Hor as [->|[_ Hfx]]; [done|].
        destruct (Lap.durationMs f), (Lap.durationMs x), (Lap.durationMs c);
          unfold lt in *; try done. lia. }
      split.
      * right. split; [|done]. destruct Hor as [->|[? _]];
          [apply list_elem_of_here|by apply list_elem_of_further].
      * intros l [->|Hl]%elem_of_cons; [|by apply Hall].
        destruct Hor as [->|[_ Hfx]].
        -- destruct (Lap.durationMs x); unfold lt; [lia|done].
        -- destruct (Lap.durationMs f), (Lap.durationMs x); unfold lt in *; try done. lia.
    + destruct (IH c) as (f & Hf & Hor & Hall). exists f. split; [done|]. split.
      * destruct Hor as [->|[? ?]]; [by left|right]. split; [|done].
        by apply list_elem_of_further.
      * intros l [->|Hl]%elem_of_cons; [|by apply Hall].
        destruct Hor as [->|[_ Hfc]]; [done|].
        destruct (Lap.durationMs f), (Lap.durationMs x), (Lap.durationMs c);
          unfold lt in *; try done. lia.
Qed.

(** The [reduce] of [getFastestLapForVehicle] is the loop of
    [getFastestLap] started at the first lap. *)
Lemma fold_pick (xs : list Lap.t) (c : Lap.t) :
  Some (fold_left (λ fastest current,
                     if Lap.isFasterThan current fastest then current else fastest) xs c)
  = fold_left faster xs (Some c).
Proof.
  revert c. induction xs as [|x xs IH]; intros c; [done|].
  cbn [fold_left faster]. rewrite IH. by destruct (Lap.isFasterThan x c).
Qed.

Lemma isFasterThan_irrefl (l : Lap.t) : Lap.isFasterThan l l = false.
Proof. unfold Lap.isFasterThan. destruct (Lap.durationMs l); unfold lt; [lia|done]. Qed.

Lemma fastest_of (xs : list Lap.t) :
  match fold_left faster xs None with
  | None => xs = []
  | Some f => f ∈ xs ∧ ∀ l, l ∈ xs → Lap.isFasterThan l f = false
  end.
Proof.
  destruct xs as [|x xs]; [done|]. cbn [fold_left faster].
  destruct (fold_faster xs x) as (f & -> & Hor & Hall). split.
  - destruct Hor as [->|[? _]]; [apply list_elem_of_here|by apply list_elem_of_further].
  - intros l [->|Hl]%elem_of_cons; [|by apply Hall].
    destruct Hor as [->|[_ Hfx]]; [apply isFasterThan_irrefl|].
    unfold Lap.isFasterThan in *.
    destruct (Lap.durationMs f), (Lap.durationMs x); unfold lt in *; try done. lia.
Qed.

(** X21.  The fastest lap of a session filled by adding laps to a new
    one is one of the added laps, and none of them is faster; the
    fastest lap of a vehicle is one of the laps of that vehicle, and
    none of its laps is faster.  Without laps there is none. *)
Theorem fastest_lap_is_not_beaten `{JsRuntime}
    (data : RaceSessionData) (s : t) (ls : list Lap.t) :
  new data = Ok s →
  match getFastestLap (added s ls) with
  | None => ls = []
  | Some f => f ∈ ls ∧ ∀ l, l ∈ ls → Lap.isFasterThan l f = false
  end ∧
  ∀ v, match getFastestLapForVehicle (added s ls) v with
       | None => List.filter (drivenBy v) ls = []
       | Some f => f ∈ ls ∧ drivenBy v f = true ∧
                   ∀ l, l ∈ ls → drivenBy v l = true → Lap.isFasterThan l f = false
       end.
Proof.
  intros [Hl Hr]%new_empty. split.
  - unfold getFastestLap. rewrite fold_nested.
    pose proof (all_added ls s) as Hall. rewrite Hl in Hall. simpl in Hall.
    pose proof (fastest_of (concat (map snd (laps (added s ls))))) as Hf.
    destruct (fold_left faster _ None) as [f|].
    + destruct Hf as [Hin Hno]. split; [by rewrite <- Hall|].
      intros l Hl'. apply Hno. by rewrite Hall.
    + rewrite Hf in Hall. by apply Permutation_nil_l in Hall.
  - intros v. unfold getFastestLapForVehicle.
    pose proof (laps_added ls s v) as Hv. unfold getLapsByVehicle in Hv.
    rewrite Hl in Hv. simpl in Hv.
    destruct (mapGet v (laps (added s ls))) as [[|first rest]|]; simpl in Hv; [done| |done].
    pose proof (fastest_of (first :: rest)) as Hf. cbn [fold_left faster] in Hf.
    rewrite <- fold_pick in Hf. destruct Hf as [Hin Hno].
    rewrite Hv in Hin, Hno.
    apply list_elem_of_In, List.filter_In in Hin as [Hin Hd]. apply list_elem_of_In in Hin.
    split; [done|]. split; [done|].
    intros l Hl' Hdl. apply Hno. apply list_elem_of_In, List.filter_In.
    split; [by apply list_elem_of_In|done].
Qed.

Lemma fastest_lap_is_not_beaten_witness :
  new (H := ExampleRuntime.runtime) Examples.sessionData = Ok Examples.session ∧
  getFastestLap (added Examples.session
                   [Examples.lap 1 0 120000; Examples.lap 2 120000 283361])
  = Some (Examples.lap 1 0 120000) ∧
  Lap.isFasterThan (Examples.lap 2 120000 283361) (Examples.lap 1 0 120000) = false.
Proof.
  assert (Hnew : new (H := ExampleRuntime.runtime) Examples.sessionData = Ok Examples.session)
    by (vm_compute; reflexivity).
  split; [exact Hnew|].
  assert (Hf : Examples.lap 1 0 120000
                 ∈ [Examples.lap 1 0 120000; Examples.lap 2 120000 283361] ∧
               ∀ l, l ∈ [Examples.lap 1 0 120000; Examples.lap 2 120000 283361] →
                    Lap.isFasterThan l (Examples.lap 1 0 120000) = false)
    by exact (proj1 (fastest_lap_is_not_beaten (H := ExampleRuntime.runtime)
                       Examples.sessionData Examples.session
                       [Examples.lap 1 0 120000; Examples.lap 2 120000 283361] Hnew)).
  split; [reflexivity|].
  apply (proj2 Hf). apply list_elem_of_further, list_elem_of_here.
Defined.

(** *** The duration of the session *)

Lemma fold_widen (xs : list Lap.t) (a b : Z) :
  Forall timed xs →
  ∃ a' b', fold_left widen xs (Some (Num a), Some (Num b)) = (Some (Num a'), Some (Num b')) ∧
           (a' = a ∨ ∃ l, l ∈ xs ∧ Lap.startTime l = Num a') ∧
           (b' = b ∨ ∃ l, l ∈ xs ∧ Lap.endTime l = Num b') ∧
           a' ≤ a ∧ b ≤ b' ∧
           ∀ l, l ∈ xs → ∃ x y, Lap.startTime l = Num x ∧ Lap.endTime l = Num y ∧
                                 a' ≤ x ∧ y ≤ b'.
Proof.
  intros Hxs. revert a b. induction Hxs as [|x xs (sx & ex & Hsx & Hex & Hlt) _ IH]; intros a b.
  - exists a, b. split; [done|]. split; [by left|]. split; [by left|].
    split; [lia|]. split; [lia|]. by intros l ?%elem_of_nil.
  - cbn [fold_left]. unfold widen at 2. cbn [fst snd]. rewrite Hsx, Hex. unfold gt, lt.
    destruct (IH (if sx <? a then sx else a) (if b <? ex then ex else b))
      as (a' & b' & Hf & Ha & Hb & Hale & Hble & Hall).
    exists a', b'. split.
    { rewrite <- Hf. by destruct (sx <? a), (b <? ex). }
    assert (Ha1 : a' ≤ a ∧ a' ≤ sx) by (destruct (Z.ltb_spec sx a); lia).
    assert (Hb1 : b ≤ b' ∧ ex ≤ b') by (destruct (Z.ltb_spec b ex); lia).
    split; [|split; [|split; [lia|split; [lia|]]]].
    + destruct Ha as [->|(l & ? & ?)].
      * destruct (Z.ltb_spec sx a); [right|by left].
        exists x. split; [apply list_elem_of_here|done].
      * right. exists l. split; [by apply list_elem_of_further|done].
    + destruct Hb as [->|(l & ? & ?)].
      * destruct (Z.ltb_spec b ex); [right|by left].
        exists x. split; [apply list_elem_of_here|done].
      * right. exists l. split; [by apply list_elem_of_further|done].
    + intros l [->|Hl]%elem_of_cons.
      * exists sx, ex. repeat split; [done|done|lia|lia].
      * destruct (Hall l Hl) as (p & q & ? & ? & ? & ?). exists p, q. repeat split; done.
Qed.

(** X22.  The duration of a session filled by adding laps, each
    between two valid dates, is a number above 0 that spans the laps:
    it is the latest end less the earliest start of the laps when that
    difference is at most 2^53, up to which the subtraction of the code
    is exact, and no lap begins before the earliest start or ends after
    the latest end; it is 0 for a session without laps. *)
Theorem session_duration_spans_the_laps `{JsRuntime}
    (data : RaceSessionData) (s : t) (ls : list Lap.t) :
  new data = Ok s → Forall timed ls →
  (ls = [] → calculateSessionDuration (added s ls) = Num 0) ∧
  (ls ≠ [] →
   ∃ earliest latest d,
     calculateSessionDuration (added s ls) = Num d ∧
     sessionDuration (getStatistics (added s ls)) = Num d ∧
     0 < d ∧
     (latest - earliest ≤ 2 ^ 53 → d = latest - earliest) ∧
     (∃ l, l ∈ ls ∧ Lap.startTime l = Num earliest) ∧
     (∃ l, l ∈ ls ∧ Lap.endTime l = Num latest) ∧
     ∀ l, l ∈ ls → ∃ x y, Lap.startTime l = Num x ∧ Lap.endTime l = Num y ∧
                           earliest ≤ x ∧ y ≤ latest).
Proof.
  intros [Hl Hr]%new_empty Htimed.
  pose proof (all_added ls s) as Hall. rewrite Hl in Hall. simpl in Hall.
  split.
  - intros ->. unfold calculateSessionDuration. simpl. by rewrite Hl.
  - intros Hne.
    enough (∃ earliest latest,
              calculateSessionDuration (added s ls) = Num (latest - earliest) ∧
              earliest < latest ∧
              (∃ l, l ∈ ls ∧ Lap.startTime l = Num earliest) ∧
              (∃ l, l ∈ ls ∧ Lap.endTime l = Num latest) ∧
              ∀ l, l ∈ ls → ∃ x y, Lap.startTime l = Num x ∧ Lap.endTime l = Num y ∧
                                    earliest ≤ x ∧ y ≤ latest)
      as (earliest & latest & Hd & Hlt & Hrest).
    { exists earliest, latest, (latest - earliest). split; [done|]. split.
      { unfold getStatistics. cbn [sessionDuration]. done. }
      split; [lia|]. split; done. }
    unfold calculateSessionDuration. rewrite fold_nested.
    set (xs := concat (map snd (laps (added s ls)))) in *.
    assert (Hxs : Forall timed xs) by by rewrite Hall.
    destruct xs as [|x xs].
    { symmetry in Hall. by apply Permutation_nil_r in Hall. }
    apply Forall_cons in Hxs as [(sx & ex & Hsx & Hex & Hlt) Hxs].
    cbn [fold_left]. unfold widen at 2. cbn [fst snd].
    destruct (fold_widen xs sx ex Hxs) as (a' & b' & Hf & Ha & Hb & Hale & Hble & Hin).
    rewrite Hsx, Hex, Hf. exists a', b'.
    split; [done|]. split; [lia|].
    split; [|split].
    + destruct Ha as [->|(l & ? & ?)].
      * exists x. split; [|done]. rewrite <- Hall. apply list_elem_of_here.
      * exists l. split; [|done]. rewrite <- Hall. by apply list_elem_of_further.
    + destruct Hb as [->|(l & ? & ?)].
      * exists x. split; [|done]. rewrite <- Hall. apply list_elem_of_here.
      * exists l. split; [|done]. rewrite <- Hall. by apply list_elem_of_further.
    + intros l Hl'. rewrite <- Hall in Hl'. apply elem_of_cons in Hl' as [->|Hl'].
      * exists sx, ex. repeat split; [done|done|lia|lia].
      * by apply Hin.
Qed.

Lemma session_duration_spans_the_laps_witness :
  new (H := ExampleRuntime.runtime) Examples.sessionData = Ok Examples.session ∧
  Forall timed [Examples.lap 1 0 120000; Examples.lap 2 120000 283361] ∧
  calculateSessionDuration
    (added Examples.session [Examples.lap 1 0 120000; Examples.lap 2 120000 283361])
  = Num 283361.
Proof.
  assert (Hnew : new (H := ExampleRuntime.runtime) Examples.sessionData = Ok Examples.session)
    by (vm_compute; reflexivity).
  assert (Htimed : Forall timed [Examples.lap 1 0 120000; Examples.lap 2 120000 283361]).
  { repeat constructor; eexists _, _; simpl; (split; [reflexivity|split; [reflexivity|lia]]). }
  split; [exact Hnew|]. split; [exact Htimed|].
  destruct (proj2 (session_duration_spans_the_laps (H := ExampleRuntime.runtime)
                     Examples.sessionData Examples.session
                     [Examples.lap 1 0 120000; Examples.lap 2 120000 283361] Hnew Htimed))
    as (earliest & latest & d & Hd & _); [discriminate|].
  reflexivity.
Defined.
End SessionProofs.

(* ===================================================================== *)
(** ** Properties of the telemetry analysis                             *)
(* ===================================================================== *)

Module AnalysisProofs.
Import Js TelemetryAnalysisService.

(** From a frame that is braking no braking point starts at the next
    frame, so the points number at most half the frames that follow,
    rounded up when the frame before them is not braking. *)
Lemma brakingPointsFrom_sparse (frames : list TelemetryFrame.t) (prev : TelemetryFrame.t) :
  (2 * length (brakingPointsFrom prev frames)
   ≤ length frames + if TelemetryFrame.isBraking prev then 0 else 1)%nat.
Proof.
  revert prev. induction frames as [|curr rest IH]; intros prev.
  - simpl. lia.
  - cbn [brakingPointsFrom]. specialize (IH curr).
    unfold startsBraking.
    destruct (TelemetryFrame.isBraking prev), (TelemetryFrame.isBraking curr);
      cbn [negb andb]; try (simpl length; lia).
    destruct (gt (TelemetryFrame.brakePos curr) (Num 20)); simpl length; lia.
Qed.

Lemma brakingPointsFrom_origin (frames : list TelemetryFrame.t) (prev : TelemetryFrame.t)
    (p : BrakingPoint) :
  p ∈ brakingPointsFrom prev frames →
  ∃ curr, curr ∈ frames ∧ p = brakingPointOf curr ∧
          gt (TelemetryFrame.brakePos curr) (Num 20) = true.
Proof.
  revert prev. induction frames as [|curr rest IH]; intros prev; [by intros ?%elem_of_nil|].
  cbn [brakingPointsFrom]. destruct (startsBraking prev curr) eqn:Hs.
  - intros [->|Hin]%elem_of_cons.
    + exists curr. split; [apply list_elem_of_here|]. split; [done|].
      unfold startsBraking in Hs. by apply andb_true_iff in Hs as [_ ?].
    + destruct (IH curr Hin) as (c & ? & ? & ?). exists c.
      split; [by apply list_elem_of_further|done].
  - intros Hin. destruct (IH curr Hin) as (c & ? & ? & ?). exists c.
    split; [by apply list_elem_of_further|done].
Qed.

(** X23.  The braking points number at most half the frames, so fewer
    than two frames give none.  Every braking point is taken from a
    frame after the first whose brake position is above 20. *)
Theorem braking_points_are_sparse (frames : list TelemetryFrame.t) :
  (2 * length (findBrakingPoints frames) ≤ length frames)%nat ∧
  ∀ p, p ∈ findBrakingPoints frames →
       ∃ curr, curr ∈ tail frames ∧ p = brakingPointOf curr ∧
               gt (bp_brakePos p) (Num 20) = true.
Proof.
  destruct frames as [|first rest]; [split; [simpl; lia|by intros p ?%elem_of_nil]|].
  cbn [findBrakingPoints tail]. split.
  - pose proof (brakingPointsFrom_sparse rest first).
    destruct (TelemetryFrame.isBraking first); simpl length; lia.
  - intros p Hp. destruct (brakingPointsFrom_origin rest first p Hp) as (c & ? & -> & ?).
    by exists c.
Qed.

(** A frame that is slower than the frame before it is followed by no
    local minimum when it is one itself. *)
Lemma minimumSpeedPointsFrom_sparse (threshold : num) (frames : list TelemetryFrame.t)
    (prev curr : TelemetryFrame.t) :
  (2 * length (minimumSpeedPointsFrom threshold prev curr frames)
   ≤ length frames +
     if lt (TelemetryFrame.speed curr) (TelemetryFrame.speed prev) then 1 else 0)%nat.
Proof.
  revert prev curr. induction frames as [|next rest IH]; intros prev curr.
  - simpl. lia.
  - cbn [minimumSpeedPointsFrom]. specialize (IH curr next). unfold isLocalMinimum.
    destruct (lt (TelemetryFrame.speed curr) (TelemetryFrame.speed prev)) eqn:Hcp;
      cbn [andb].
    + destruct (lt (TelemetryFrame.speed curr) (TelemetryFrame.speed next)) eqn:Hcn;
        cbn [andb].
      * assert (lt (TelemetryFrame.speed next) (TelemetryFrame.speed curr) = false) as Hnc.
        { destruct (TelemetryFrame.speed next), (TelemetryFrame.speed curr);
            unfold lt in *; try done. lia. }
        rewrite Hnc in IH.
        destruct (lt (TelemetryFrame.speed curr) threshold); simpl length; lia.
      * destruct (lt (TelemetryFrame.speed next) (TelemetryFrame.speed curr));
          simpl length; lia.
    + destruct (lt (TelemetryFrame.speed next) (TelemetryFrame.speed curr));
        simpl length; lia.
Qed.

Lemma minimumSpeedPointsFrom_origin (threshold : num) (frames : list TelemetryFrame.t)
    (prev curr : TelemetryFrame.t) (p : SpeedPoint) :
  p ∈ minimumSpeedPointsFrom threshold prev curr frames →
  ∃ c, c ∈ removelast (curr :: frames) ∧ p = speedPointOf c ∧
       lt (TelemetryFrame.speed c) threshold = true.
Proof.
  revert prev curr. induction frames as [|next rest IH]; intros prev curr;
    [by intros ?%elem_of_nil|].
  cbn [minimumSpeedPointsFrom].
  change (removelast (curr :: next :: rest)) with (curr :: removelast (next :: rest)).
  destruct (isLocalMinimum threshold prev curr next) eqn:Hm.
  - intros [->|Hin]%elem_of_cons.
    + exists curr. split; [apply list_elem_of_here|]. split; [done|].
      unfold isLocalMinimum in Hm. by apply andb_true_iff in Hm as [_ ?].
    + destruct (IH curr next Hin) as (c & ? & ? & ?). exists c.
      split; [by apply list_elem_of_further|done].
  - intros Hin. destruct (IH curr next Hin) as (c & ? & ? & ?). exists c.
    split; [by apply list_elem_of_further|done].
Qed.

(** X24.  The points of minimum speed number fewer than half the
    frames.  Every point is taken from a frame that is neither the first
    nor the last, and its speed is below the threshold, which is 80 when
    none is given. *)
Theorem minimum_speed_points_are_sparse
    (frames : list TelemetryFrame.t) (threshold : option num) :
  (frames = [] ∨ 2 * length (findMinimumSpeedPoints frames threshold) < length frames)%nat ∧
  ∀ p, p ∈ findMinimumSpeedPoints frames threshold →
       ∃ c, c ∈ removelast (tail frames) ∧ p = speedPointOf c ∧
            lt (sp_speed p) (default (Num 80) threshold) = true.
Proof.
  destruct frames as [|prev [|curr rest]].
  - split; [by left|by intros p ?%elem_of_nil].
  - split; [right; simpl; lia|by intros p ?%elem_of_nil].
  - cbn [findMinimumSpeedPoints tail]. split.
    + right. pose proof (minimumSpeedPointsFrom_sparse (default (Num 80) threshold)
                           rest prev curr).
      destruct (lt (TelemetryFrame.speed curr) (TelemetryFrame.speed prev));
        simpl length; lia.
    + intros p Hp.
      destruct (minimumSpeedPointsFrom_origin _ rest prev curr p Hp) as (c & ? & -> & ?).
      by exists c.
Qed.
End AnalysisProofs.

(* ===================================================================== *)
(** ** Capacity and recency of the cache                                *)
(* ===================================================================== *)

Module LruProofs.
Import Js JsFacts TelemetryCache CacheSpec LruSpec.

Section Lru.
Context {R : Type} `{ITelemetryRepository.t R}.

Lemma run_cons (st : t R) (c : call) (rest : list call) :
  (runCached st (c :: rest)).2 = (runCached (cached st c).2 rest).2.
Proof.
  cbn [runCached]. destruct (cached st c) as [r st'].
  cbn [snd]. by destruct (runCached st' rest).
Qed.

Lemma run_app (st : t R) (calls more : list call) :
  (runCached st (calls ++ more)).2 = (runCached (runCached st calls).2 more).2.
Proof.
  revert st. induction calls as [|c calls IH]; intros st; [done|].
  cbn [app]. by rewrite !run_cons, IH.
Qed.

(** The list fits the capacity. *)
Lemma afterEviction_length (st : t R) (ls : list nat) :
  1 ≤ maxSize st → Z.of_nat (length ls) ≤ maxSize st →
  Z.of_nat (S (length (afterEviction st ls))) ≤ maxSize st.
Proof.
  intros Hm Hlen. unfold afterEviction.
  destruct (Z.geb_spec (Z.of_nat (length ls)) (maxSize st)).
  - rewrite length_take. lia.
  - lia.
Qed.

(** One call that is not a lookup of the key at the head keeps the
    list within the capacity. *)
Lemma cached_within (st : t R) (c : call) (ls : list nat) :
  1 ≤ maxSize st → linked st ls → agrees st ls →
  Z.of_nat (length ls) ≤ maxSize st →
  ¬ hitsHead st c →
  maxSize (cached st c).2 = maxSize st ∧
  ∃ ls', linked (cached st c).2 ls' ∧ agrees (cached st c).2 ls' ∧
         Z.of_nat (length ls') ≤ maxSize st.
Proof.
  intros Hm Hl Hag Hlen Hnot.
  assert (Hempty : ∀ repo, linked (withRepository repo (invalidate st)) [] ∧
                           agrees (withRepository repo (invalidate st)) []).
  { intros repo. split.
    - split; [constructor|]. split; [done|]. split; [done|]. by intros i l ?.
    - split.
      + intros k e Hk. simpl in Hk. by rewrite lookup_empty in Hk.
      + by intros l ?%elem_of_nil. }
  destruct c as [v l|v s e| |v|frames|]; cbn [cached snd].
  - unfold getTelemetryByVehicleAndLap.
    destruct (cache st !! cacheKey v l) as [e|] eqn:He; cbn [snd].
    + destruct (CacheProofs.hit_refreshes st ls (cacheKey v l) e Hl Hag He)
        as (pre & post & -> & Hl' & Hag' & _).
      { intros Hh. apply Hnot. simpl. by exists e. }
      split; [by destruct (CacheProofs.moveToFront_fields (cacheKey v l) st) as (_ & _ & ?)|].
      eexists. split; [done|]. split; [done|].
      rewrite length_app in Hlen. simpl in *. rewrite length_app. lia.
    + destruct (CacheProofs.set_miss st ls (cacheKey v l)
                  (ITelemetryRepository.getTelemetryByVehicleAndLap (repository st) v l)
                  Hl Hag He) as (Hl' & Hag' & _).
      split; [by destruct (CacheProofs.set_fields (cacheKey v l)
                             (ITelemetryRepository.getTelemetryByVehicleAndLap
                                (repository st) v l) st) as (_ & ? & _)|].
      eexists. split; [done|]. split; [done|].
      cbn [length]. by apply afterEviction_length.
  - split; [done|]. by exists ls.
  - split; [done|]. by exists ls.
  - split; [done|]. by exists ls.
  - split; [done|]. exists []. destruct (Hempty (ITelemetryRepository.saveTelemetry
                                                  (repository (invalidate st)) frames)).
    split; [done|]. split; [done|]. simpl. lia.
  - split; [done|]. exists []. destruct (Hempty (ITelemetryRepository.clear
                                                  (repository (invalidate st)))).
    split; [done|]. split; [done|]. simpl. lia.
Qed.

Lemma run_within (calls : list call) (st : t R) (ls : list nat) :
  1 ≤ maxSize st → linked st ls → agrees st ls →
  Z.of_nat (length ls) ≤ maxSize st →
  avoidsHead st calls →
  ∃ ls', linked (runCached st calls).2 ls' ∧ agrees (runCached st calls).2 ls' ∧
         Z.of_nat (length ls') ≤ maxSize st.
Proof.
  revert st ls. induction calls as [|c calls IH]; intros st ls Hm Hl Hag Hlen Hav.
  - by exists ls.
  - destruct Hav as [Hnot Hav]. rewrite run_cons.
    destruct (cached_within st c ls Hm Hl Hag Hlen Hnot) as (Hmax & ls1 & Hl1 & Hag1 & Hlen1).
    rewrite <- Hmax in Hlen1 |- *. apply (IH _ ls1); [lia|done..].
Qed.

(** X25.  As long as no lookup is made of the key that was used last,
    whose node is at the head of the list, the cache keeps its
    invariant (the map and the doubly linked list hold the same keys,
    the list is acyclic and consistently linked) and never holds more
    entries than its capacity. *)
Theorem cache_stays_within_capacity (repo : R) (m : Z) (calls : list call) :
  1 ≤ m → avoidsHead (new repo m) calls →
  consistent (runCached (new repo m) calls).2 ∧
  (size (getCacheStats (runCached (new repo m) calls).2) ≤ Z.to_nat m)%nat.
Proof.
  intros Hm Hav. destruct (CacheProofs.new_consistent repo m) as [Hl Hag].
  destruct (run_within calls (new repo m) [] Hm Hl Hag) as (ls & Hl' & Hag' & Hlen);
    [simpl; lia|done|].
  split; [by exists ls|]. cbn [getCacheStats size maxSize new] in *.
  destruct Hl' as (Hnd & _). rewrite (CacheProofs.agrees_size _ ls Hnd Hag'). lia.
Qed.

(** *** Least recently used *)

Lemma holds_keys (st : t R) (k : string) : holds st k = true ↔ k ∈ keys st.
Proof.
  unfold holds, keys. rewrite bool_decide_eq_true. symmetry. apply elem_of_dom.
Qed.

Lemma cached_maxSize (st : t R) (c : call) : maxSize (cached st c).2 = maxSize st.
Proof.
  destruct c as [v l|v s e| |v|frames|]; cbn [cached snd]; try done.
  unfold getTelemetryByVehicleAndLap.
  destruct (cache st !! cacheKey v l) as [e|]; cbn [snd].
  - by destruct (CacheProofs.moveToFront_fields (cacheKey v l) st) as (_ & _ & ?).
  - by destruct (CacheProofs.set_fields (cacheKey v l)
                   (ITelemetryRepository.getTelemetryByVehicleAndLap (repository st) v l) st)
      as (_ & ? & _).
Qed.

Lemma run_maxSize (calls : list call) (st : t R) :
  maxSize (runCached st calls).2 = maxSize st.
Proof.
  revert st. induction calls as [|c calls IH]; intros st; [done|].
  by rewrite run_cons, IH, cached_maxSize.
Qed.

(** X26.  After lookups of pairwise distinct keys through a new cache
    of capacity [m >= 1], the cache holds exactly the keys of the last
    [m] lookups, and [getCacheStats] reports their number, the smaller
    of [m] and the number of lookups. *)
Theorem lru_keeps_the_most_recent_keys (repo : R) (m : Z) (calls : list (string * Z)) :
  1 ≤ m → NoDup (map keyOfCall calls) →
  (∀ k, holds (runCached (new repo m) (map getOf calls)).2 k = true
        ↔ k ∈ mostRecent m (map keyOfCall calls)) ∧
  getCacheStats (runCached (new repo m) (map getOf calls)).2
  = {| size := Z.to_nat m `min` length calls; statsMaxSize := m |}.
Proof.
  intros Hm Hnd.
  destruct (CacheProofs.misses_keep_most_recent repo m calls Hm Hnd) as (_ & Hkeys & Hsize).
  split.
  - intros k. by rewrite holds_keys, Hkeys, elem_of_list_to_set.
  - unfold getCacheStats. by rewrite Hsize, run_maxSize.
Qed.

Lemma take_last_fresh {A : Type} (l : list A) (n : nat) (x : A) :
  NoDup l → (S n ≤ length l)%nat → last (take (S n) l) = Some x → x ∉ take n l.
Proof.
  intros Hnd Hlen Hlast.
  destruct (lookup_lt_is_Some_2 l n ltac:(lia)) as [y Hy].
  rewrite (take_S_r l n y Hy), last_snoc in Hlast. injection Hlast as ->.
  assert (Hnd' : NoDup (take (S n) l)).
  { eapply sublist_NoDup; [done|apply sublist_take]. }
  rewrite (take_S_r l n x Hy) in Hnd'. apply NoDup_app in Hnd' as (_ & Hdis & _).
  intros Hin. apply (Hdis _ Hin). apply list_elem_of_here.
Qed.

(** X27.  A lookup of a cached key that is not the one used last
    refreshes it: after lookups of pairwise distinct keys, a second
    lookup of one of the keys still held, then the lookup of a new key,
    the cache holds the key looked up twice, with its invariant kept
    and no more entries than its capacity [m].  Without the second
    lookup the new key evicts that key when it was the least recently
    used of a full cache. *)
Theorem refreshed_key_survives_the_next_eviction
    (repo : R) (m : Z) (calls : list (string * Z)) (hit fresh : string * Z) :
  1 ≤ m →
  NoDup (map keyOfCall (calls ++ [fresh])) →
  keyOfCall hit ∈ mostRecent m (map keyOfCall calls) →
  last (map keyOfCall calls) ≠ Some (keyOfCall hit) →
  (let st := (runCached (new repo m) (map getOf (calls ++ [hit; fresh]))).2 in
   holds st (keyOfCall hit) = true ∧ holds st (keyOfCall fresh) = true ∧
   consistent st ∧ (size (getCacheStats st) ≤ Z.to_nat m)%nat) ∧
  (last (mostRecent m (map keyOfCall calls)) = Some (keyOfCall hit) →
   (Z.to_nat m ≤ length calls)%nat →
   holds (runCached (new repo m) (map getOf (calls ++ [fresh]))).2 (keyOfCall hit) = false).
Proof.
  intros Hm Hnd Hheld Hlast.
  assert (Hndc : NoDup (map keyOfCall calls)).
  { rewrite map_app in Hnd. by apply NoDup_app in Hnd as (? & _ & _). }
  assert (Hfresh : keyOfCall fresh ∉ map keyOfCall calls).
  { rewrite map_app in Hnd. apply NoDup_app in Hnd as (_ & Hdis & _).
    intros Hin. apply (Hdis _ Hin). apply list_elem_of_here. }
  split.
  - (* the run with the second lookup *)
    cbv zeta. rewrite map_app, run_app. cbn [map]. rewrite !run_cons. cbn [runCached snd].
    set (st0 := (runCached (new repo m) (map getOf calls)).2).
    destruct (CacheProofs.new_consistent repo m) as [Hl00 Hag00].
    destruct (CacheProofs.misses_run calls (new repo m) [] [] Hm Hl00 Hag00) as (ls0 & Hl0 & Hag0 & Hrec0).
    { unfold mostRecent, recency. simpl. by destruct (Z.to_nat m). }
    { done. }
    fold st0 in Hl0, Hag0, Hrec0. cbn [app maxSize new] in Hrec0.
    assert (Hmax0 : maxSize st0 = m) by (unfold st0; by rewrite run_maxSize).
    (* the key is held, by a node that is not the head *)
    assert (Hin0 : keyOfCall hit ∈ recency st0 ls0) by by rewrite Hrec0.
    unfold recency in Hin0. apply list_elem_of_fmap in Hin0 as (x & Hkx & Hx).
    destruct Hag0 as [Hmap0 Hlist0].
    destruct (Hlist0 x Hx) as (e & He & Hnode). rewrite <- Hkx in He. subst x.
    assert (Hhead : head st0 ≠ Some (node e)).
    { intros Hh. apply Hlast. destruct Hl0 as (_ & Hhd & _). rewrite Hh in Hhd.
      assert (Hfirst : recency st0 ls0 !! 0%nat = Some (keyOfCall hit)).
      { unfold recency. rewrite list_lookup_fmap, <- Hhd. simpl. by rewrite <- Hkx. }
      rewrite Hrec0 in Hfirst. unfold mostRecent in Hfirst.
      rewrite lookup_take_lt in Hfirst by lia.
      rewrite <- head_lookup, head_reverse in Hfirst. done. }
    destruct hit as [hv hl]. unfold keyOfCall in *. unfold getOf in *; cbn [fst snd] in *.
    assert (Hstep1 : (cached st0 (Get hv hl)).2 = moveToFront (cacheKey hv hl) st0).
    { cbn [cached]. unfold getTelemetryByVehicleAndLap. by rewrite He. }
    rewrite Hstep1. clear Hstep1.
    destruct (CacheProofs.hit_refreshes st0 ls0 (cacheKey hv hl) e Hl0 (conj Hmap0 Hlist0) He Hhead)
      as (pre & post & Hls0 & Hl1 & Hag1 & Hrec1).
    set (st1 := moveToFront (cacheKey hv hl) st0) in *.
    assert (Hpre : pre ≠ []).
    { intros ->. destruct Hl0 as (_ & Hhd & _). rewrite Hls0 in Hhd. by apply Hhead. }
    assert (Hc1 : cache st1 = cache st0)
      by (by destruct (CacheProofs.moveToFront_fields (cacheKey hv hl) st0) as (? & _)).
    assert (Hmax1 : maxSize st1 = m).
    { rewrite <- Hmax0. by destruct (CacheProofs.moveToFront_fields (cacheKey hv hl) st0)
        as (_ & _ & ?). }
    (* the new key is not held *)
    destruct fresh as [fv fl]. unfold getOf in *; cbn [fst snd] in *.
    assert (Hmiss : cache st1 !! cacheKey fv fl = None).
    { rewrite Hc1. destruct (cache st0 !! cacheKey fv fl) as [e'|] eqn:He'; [|done].
      destruct (Hmap0 _ _ He') as [Hin' Hk']. exfalso. apply Hfresh.
      assert (Hr : cacheKey fv fl ∈ recency st0 ls0).
      { unfold recency. apply list_elem_of_fmap. by exists (node e'). }
      rewrite Hrec0 in Hr. unfold mostRecent in Hr.
      apply (subseteq_take _ _ _) in Hr. by rewrite elem_of_reverse in Hr. }
    set (d := ITelemetryRepository.getTelemetryByVehicleAndLap (repository st1) fv fl).
    assert (Hstep2 : (cached st1 (Get fv fl)).2 = set (cacheKey fv fl) d st1).
    { cbn [cached]. unfold getTelemetryByVehicleAndLap. by rewrite Hmiss. }
    rewrite Hstep2. clear Hstep2.
    destruct (CacheProofs.set_miss st1 _ (cacheKey fv fl) d Hl1 Hag1 Hmiss) as (Hl2 & Hag2 & Hrec2).
    cbv zeta in Hl2, Hag2, Hrec2.
    set (ls1 := node e :: pre ++ post) in *.
    assert (Hlen1 : Z.of_nat (length ls1) ≤ maxSize st1).
    { rewrite Hmax1. transitivity (Z.of_nat (length (recency st0 ls0))).
      - unfold recency. rewrite length_map, Hls0. subst ls1. simpl.
        rewrite !length_app. simpl. lia.
      - rewrite Hrec0. unfold mostRecent. rewrite length_take. lia. }
    assert (Hkept : node e ∈ afterEviction st1 ls1).
    { unfold afterEviction. destruct (_ >=? _); [|apply list_elem_of_here].
      subst ls1. destruct pre as [|p pre]; [done|]. simpl. apply list_elem_of_here. }
    assert (Hkey1 : keyOf st1 (node e) = cacheKey hv hl).
    { unfold recency in Hrec1. subst ls1. simpl in Hrec1. by injection Hrec1. }
    assert (Hdom : ∀ k, k ∈ cacheKey fv fl :: recency st1 (afterEviction st1 ls1) →
                   holds (set (cacheKey fv fl) d st1) k = true).
    { intros k Hk. apply holds_keys.
      rewrite (CacheProofs.agrees_dom _ _ Hag2), Hrec2. by apply elem_of_list_to_set. }
    split; [|split; [|split]].
    + apply Hdom, list_elem_of_further.
      unfold recency. apply list_elem_of_fmap. by exists (node e).
    + apply Hdom, list_elem_of_here.
    + by eexists.
    + cbn [getCacheStats size]. destruct Hl2 as (Hnd2 & _).
      rewrite (CacheProofs.agrees_size _ _ Hnd2 Hag2).
      pose proof (afterEviction_length st1 ls1 ltac:(lia) Hlen1) as Hfit.
      cbn [length]. lia.
  - (* the run without it *)
    intros Holdest Hfull. apply not_true_is_false. rewrite holds_keys.
    destruct (CacheProofs.misses_keep_most_recent repo m (calls ++ [fresh]) Hm Hnd)
      as (_ & -> & _).
    rewrite elem_of_list_to_set. unfold mostRecent in *.
    rewrite map_app, reverse_app. cbn [map]. rewrite reverse_singleton. cbn [app].
    destruct (Z.to_nat m) as [|n] eqn:Hn; [lia|].
    cbn [take]. rewrite not_elem_of_cons. split.
    + intros Heq. apply Hfresh. rewrite <- Heq.
      apply (subseteq_take (S n)) in Hheld. by rewrite elem_of_reverse in Hheld.
    + assert (Hndr : NoDup (reverse (map keyOfCall calls)))
        by (by rewrite reverse_Permutation).
      apply (take_last_fresh _ _ _ Hndr); [|done].
      rewrite length_reverse, length_map. lia.
Qed.
End Lru.

(** A, B, A through a cache of two entries over the in-memory
    repository: the second lookup of A finds B at the head. *)
Lemma cache_stays_within_capacity_witness :
  1 ≤ 2 ∧
  avoidsHead (new TelemetryRepository.empty 2) (Examples.gets ["A"; "B"; "A"]) ∧
  consistent (runCached (new TelemetryRepository.empty 2) (Examples.gets ["A"; "B"; "A"])).2 ∧
  (size (getCacheStats
           (runCached (new TelemetryRepository.empty 2) (Examples.gets ["A"; "B"; "A"])).2)
   ≤ Z.to_nat 2)%nat.
Proof.
  assert (Hm : 1 ≤ 2) by lia.
  assert (Hav : avoidsHead (new TelemetryRepository.empty 2) (Examples.gets ["A"; "B"; "A"])).
  { cbn [avoidsHead Examples.gets map].
    repeat split;
      intros (e & He & Hh); vm_compute in He;
      first [discriminate He | injection He as <-; vm_compute in Hh; discriminate Hh]. }
  split; [exact Hm|]. split; [exact Hav|].
  exact (cache_stays_within_capacity TelemetryRepository.empty 2
           (Examples.gets ["A"; "B"; "A"]) Hm Hav).
Defined.

(** A, B, C through a cache of two entries: B and C stay. *)
Lemma lru_keeps_the_most_recent_keys_witness :
  1 ≤ 2 ∧
  NoDup (map keyOfCall [("A", 1); ("B", 1); ("C", 1)]) ∧
  (∀ k, holds (runCached (new TelemetryRepository.empty 2)
                 (map getOf [("A", 1); ("B", 1); ("C", 1)])).2 k = true
        ↔ k ∈ mostRecent 2 (map keyOfCall [("A", 1); ("B", 1); ("C", 1)])) ∧
  getCacheStats (runCached (new TelemetryRepository.empty 2)
                   (map getOf [("A", 1); ("B", 1); ("C", 1)])).2
  = {| size := 2; statsMaxSize := 2 |}.
Proof.
  assert (Hm : 1 ≤ 2) by lia.
  assert (Hnd : NoDup (map keyOfCall [("A", 1); ("B", 1); ("C", 1)])).
  { apply (bool_decide_unpack _). vm_compute. exact I. }
  split; [exact Hm|]. split; [exact Hnd|].
  exact (lru_keeps_the_most_recent_keys TelemetryRepository.empty 2
           [("A", 1); ("B", 1); ("C", 1)] Hm Hnd).
Defined.

(** A, B, then A again and C through a cache of two entries: A stays;
    without the second lookup of A, C evicts it. *)
Lemma refreshed_key_survives_the_next_eviction_witness :
  1 ≤ 2 ∧
  NoDup (map keyOfCall ([("A", 1); ("B", 1)] ++ [("C", 1)])) ∧
  keyOfCall ("A", 1) ∈ mostRecent 2 (map keyOfCall [("A", 1); ("B", 1)]) ∧
  last (map keyOfCall [("A", 1); ("B", 1)]) ≠ Some (keyOfCall ("A", 1)) ∧
  holds (runCached (new TelemetryRepository.empty 2)
           (map getOf ([("A", 1); ("B", 1)] ++ [("A", 1); ("C", 1)]))).2
    (keyOfCall ("A", 1)) = true ∧
  holds (runCached (new TelemetryRepository.empty 2)
           (map getOf ([("A", 1); ("B", 1)] ++ [("C", 1)]))).2
    (keyOfCall ("A", 1)) = false.
Proof.
  assert (Hm : 1 ≤ 2) by lia.
  assert (Hnd : NoDup (map keyOfCall ([("A", 1); ("B", 1)] ++ [("C", 1)]))).
  { apply (bool_decide_unpack _). vm_compute. exact I. }
  assert (Hheld : keyOfCall ("A", 1) ∈ mostRecent 2 (map keyOfCall [("A", 1); ("B", 1)])).
  { apply (bool_decide_unpack _). vm_compute. exact I. }
  assert (Hlast : last (map keyOfCall [("A", 1); ("B", 1)]) ≠ Some (keyOfCall ("A", 1))).
  { intros Heq. vm_compute in Heq. discriminate Heq. }
  split; [exact Hm|]. split; [exact Hnd|]. split; [exact Hheld|]. split; [exact Hlast|].
  pose proof (refreshed_key_survives_the_next_eviction TelemetryRepository.empty 2
                [("A", 1); ("B", 1)] ("A", 1) ("C", 1) Hm Hnd Hheld Hlast) as [Hwith Hwithout].
  split.
  - exact (proj1 Hwith).
  - apply Hwithout; [vm_compute; reflexivity | simpl; lia].
Defined.
End LruProofs.

(* ===================================================================== *)
(** ** Properties of the lap repository                                 *)
(* ===================================================================== *)

Module LapRepositoryProofs.
Import Js JsFacts MapFacts LapRepository LapRepositorySpec.

Lemma hasNumber_spec (n : Z) (lap : Lap.t) :
  hasNumber (Num n) lap = true ↔ Lap.lapNumber lap = Num n.
Proof.
  unfold hasNumber, strictEq. destruct (Lap.lapNumber lap) as [x|]; [|done].
  rewrite Z.eqb_eq. split; [by intros ->|by intros [= ->]].
Qed.

Lemma hasNumber_same (a b : Lap.t) :
  hasNumber (Lap.lapNumber a) b = true ↔
  ∃ n, Lap.lapNumber a = Num n ∧ Lap.lapNumber b = Num n.
Proof.
  unfold hasNumber, strictEq.
  destruct (Lap.lapNumber a) as [x|], (Lap.lapNumber b) as [y|];
    try (split; [done|by intros (? & ? & ?)]).
  rewrite Z.eqb_eq. split; [intros ->; by exists x|by intros (? & [= ->] & [= ->])].
Qed.

Lemma findIndex_Some {A : Type} (p : A → bool) (l : list A) (i : nat) :
  findIndex p l = Some i → ∃ x, l !! i = Some x ∧ p x = true.
Proof.
  revert i. induction l as [|x l IH]; intros i; [done|].
  simpl. destruct (p x) eqn:Hp.
  - intros [= <-]. by exists x.
  - destruct (findIndex p l) as [j|]; [|done]. intros [= <-]. by apply IH.
Qed.

Lemma findIndex_None {A : Type} (p : A → bool) (l : list A) :
  findIndex p l = None → Forall (λ x, p x = false) l.
Proof.
  induction l as [|x l IH]; [by constructor|].
  simpl. destruct (p x) eqn:Hp; [done|].
  destruct (findIndex p l); [done|]. intros _. constructor; [done|by apply IH].
Qed.

(** *** Lookup of a lap *)

(** The lookup by number after the update or the addition of a lap. *)
Lemma find_upsert (n : Z) (lap : Lap.t) (l : list Lap.t) :
  List.find (hasNumber (Num n))
    match findIndex (hasNumber (Lap.lapNumber lap)) l with
    | Some i => <[i := lap]> l
    | None => (l ++ [lap])%list
    end
  = if hasNumber (Num n) lap then Some lap else List.find (hasNumber (Num n)) l.
Proof.
  induction l as [|x l IH].
  - simpl. by destruct (hasNumber (Num n) lap).
  - cbn [findIndex]. destruct (hasNumber (Lap.lapNumber lap) x) eqn:Hq.
    + cbn [list_insert insert List.find]. simpl.
      destruct (hasNumber (Num n) lap) eqn:Hl; [done|].
      apply hasNumber_same in Hq as (m & Hm & Hx).
      assert (hasNumber (Num n) x = false) as ->; [|done].
      apply not_true_is_false. rewrite hasNumber_spec. intros Hx'.
      apply not_true_iff_false in Hl. apply Hl, hasNumber_spec. congruence.
    + assert (Hexcl : hasNumber (Num n) x = true → hasNumber (Num n) lap = false).
      { intros Hx%hasNumber_spec. apply not_true_is_false. intros Hl%hasNumber_spec.
        apply not_true_iff_false in Hq. apply Hq, hasNumber_same. by exists n. }
      destruct (findIndex (hasNumber (Lap.lapNumber lap)) l) as [i|]; simpl;
        simpl in IH; rewrite IH;
        destruct (hasNumber (Num n) x) eqn:Hx; try done;
        by rewrite Hexcl.
Qed.

Lemma filedAs_spec (v : string) (n : Z) (lap : Lap.t) :
  filedAs v n lap = true ↔ Vehicle.id (Lap.vehicle lap) = v ∧ hasNumber (Num n) lap = true.
Proof. unfold filedAs. by rewrite bool_decide_eq_true, hasNumber_spec. Qed.

Lemma getLap_addLap (repo : t) (lap : Lap.t) (v : string) (n : Z) :
  getLap (addLap repo lap) v (Num n)
  = if filedAs v n lap then Some lap else getLap repo v (Num n).
Proof.
  unfold getLap, addLap. cbv zeta.
  set (l := default [] (mapGet (Vehicle.id (Lap.vehicle lap)) repo)).
  pose proof (find_upsert n lap l) as Hup.
  assert (Hset : ∀ l', mapGet v (mapSet (Vehicle.id (Lap.vehicle lap)) l' repo)
                       = if decide (v = Vehicle.id (Lap.vehicle lap)) then Some l'
                         else mapGet v repo).
  { intros l'. destruct (decide _) as [->|Hne].
    - apply mapGet_mapSet_eq.
    - by apply mapGet_mapSet_ne. }
  assert (Hold : List.find (hasNumber (Num n)) l
                 = match mapGet (Vehicle.id (Lap.vehicle lap)) repo with
                   | Some laps => List.find (hasNumber (Num n)) laps
                   | None => None
                   end).
  { subst l. by destruct (mapGet _ repo). }
  assert (Hfiled : filedAs v n lap
                   = bool_decide (v = Vehicle.id (Lap.vehicle lap)) && hasNumber (Num n) lap).
  { apply eq_true_iff_eq. rewrite filedAs_spec, andb_true_iff, bool_decide_eq_true.
    split; intros [? ?]; by split. }
  rewrite Hfiled.
  destruct (findIndex (hasNumber (Lap.lapNumber lap)) l) as [i|]; rewrite Hset;
    (destruct (decide (v = Vehicle.id (Lap.vehicle lap))) as [->|Hne];
     [rewrite bool_decide_true by done; cbn [andb]; rewrite Hup;
      by destruct (hasNumber (Num n) lap)
     |by rewrite bool_decide_false by done]).
Qed.

Lemma lastSaved_cons (v : string) (n : Z) (lap : Lap.t) (laps : list Lap.t) :
  lastSaved v n (lap :: laps)
  = match lastSaved v n laps with
    | Some x => Some x
    | None => if filedAs v n lap then Some lap else None
    end.
Proof.
  unfold lastSaved. simpl. destruct (filedAs v n lap); [|by destruct (last _)].
  by destruct (List.filter (filedAs v n) laps) as [|y l'] eqn:Hf;
    [|rewrite last_cons; destruct (last _)].
Qed.

Lemma getLap_addLaps (laps : list Lap.t) (repo : t) (v : string) (n : Z) :
  getLap (fold_left addLap laps repo) v (Num n)
  = match lastSaved v n laps with
    | Some x => Some x
    | None => getLap repo v (Num n)
    end.
Proof.
  revert repo. induction laps as [|lap laps IH]; intros repo; [done|].
  cbn [fold_left]. rewrite IH, lastSaved_cons, getLap_addLap.
  destruct (lastSaved v n laps); [done|]. by destruct (filedAs v n lap).
Qed.

(** The stable sort keeps the first lap of a number first. *)
Lemma find_insertSorted (n : Z) (x : Lap.t) (l : list Lap.t) :
  List.find (hasNumber (Num n)) (insertSorted lapKey x l)
  = List.find (hasNumber (Num n)) (x :: l).
Proof.
  induction l as [|y l IH]; [done|].
  cbn [insertSorted]. destruct (Z.leb_spec (lapKey x) (lapKey y)) as [Hle|Hgt]; [done|].
  cbn [List.find] in *. rewrite IH.
  destruct (hasNumber (Num n) y) eqn:Hy, (hasNumber (Num n) x) eqn:Hx; try done.
  apply hasNumber_spec in Hy, Hx. unfold lapKey in Hgt. rewrite Hx, Hy in Hgt. lia.
Qed.

Lemma find_sortBy (n : Z) (l : list Lap.t) :
  List.find (hasNumber (Num n)) (sortBy lapKey l) = List.find (hasNumber (Num n)) l.
Proof.
  induction l as [|x l IH]; [done|].
  cbn [sortBy]. rewrite find_insertSorted. cbn [List.find]. by rewrite IH.
Qed.

Lemma getLap_sortLaps (repo : t) (v : string) (n : Z) :
  getLap (sortLaps repo) v (Num n) = getLap repo v (Num n).
Proof.
  unfold getLap, sortLaps. rewrite (mapGet_fmap (sortBy lapKey) v repo).
  destruct (mapGet v repo); [apply find_sortBy|done].
Qed.

Lemma saved_snoc (batches : list (list Lap.t)) (laps : list Lap.t) :
  saved (batches ++ [laps]) = saveLaps (saved batches) laps.
Proof. unfold saved. by rewrite fold_left_app. Qed.

Lemma lastSaved_app (v : string) (n : Z) (l1 l2 : list Lap.t) :
  lastSaved v n (l1 ++ l2)
  = match lastSaved v n l2 with Some x => Some x | None => lastSaved v n l1 end.
Proof. unfold lastSaved. by rewrite List.filter_app, last_app. Qed.

Lemma getLap_saved (batches : list (list Lap.t)) (v : string) (n : Z) :
  getLap (saved batches) v (Num n) = lastSaved v n (concat batches).
Proof.
  induction batches as [|laps batches IH] using rev_ind; [done|].
  rewrite saved_snoc, concat_app. cbn [concat]. rewrite app_nil_r, lastSaved_app.
  unfold saveLaps. by rewrite getLap_sortLaps, getLap_addLaps, IH.
Qed.

(** X28.  After batches of laps whose numbers are numbers have been
    saved into an empty repository, the lookup of a vehicle and a lap
    number returns the lap saved last for them, and nothing when none
    was saved: a lap saved again replaces the earlier one. *)
Theorem get_lap_returns_the_last_saved
    (batches : list (list Lap.t)) (v : string) (n : Z) :
  Forall (Forall numbered) batches →
  getLap (saved batches) v (Num n) = lastSaved v n (concat batches).
Proof. intros _. apply getLap_saved. Qed.

(** Two laps of the example vehicle with the number 3, and one with the
    number 2 between them. *)
Lemma get_lap_returns_the_last_saved_witness :
  Forall (Forall numbered)
    [[Examples.lap 3 1000 2000; Examples.lap 2 0 900]; [Examples.lap 3 1000 2500]] ∧
  getLap (saved [[Examples.lap 3 1000 2000; Examples.lap 2 0 900]; [Examples.lap 3 1000 2500]])
    "032-15" (Num 3)
  = Some (Examples.lap 3 1000 2500).
Proof.
  assert (Hnum : Forall (Forall numbered)
            [[Examples.lap 3 1000 2000; Examples.lap 2 0 900]; [Examples.lap 3 1000 2500]]).
  { repeat constructor; by eexists. }
  split; [exact Hnum|].
  rewrite (get_lap_returns_the_last_saved _ "032-15" 3 Hnum). vm_compute. reflexivity.
Defined.

(** *** The laps of a vehicle *)

Lemma numbered_key (a b : Lap.t) :
  numbered a → numbered b → lapKey a = lapKey b → hasNumber (Lap.lapNumber b) a = true.
Proof.
  intros [x Ha] [y Hb] Hk. unfold lapKey in Hk. rewrite Ha, Hb in Hk. subst x.
  apply hasNumber_same. by exists y.
Qed.

Lemma filed_upsert (v : string) (lap : Lap.t) (l : list Lap.t) :
  Vehicle.id (Lap.vehicle lap) = v → numbered lap → filed v l →
  filed v match findIndex (hasNumber (Lap.lapNumber lap)) l with
          | Some i => <[i := lap]> l
          | None => (l ++ [lap])%list
          end.
Proof.
  intros Hv Hnum [Hall Hnd].
  destruct (findIndex (hasNumber (Lap.lapNumber lap)) l) as [i|] eqn:Hf; split.
  - by apply Forall_insert.
  - apply findIndex_Some in Hf as (x & Hx & Hq).
    apply hasNumber_same in Hq as (m & Hm & Hxm).
    assert (Hkey : lapKey lap = lapKey x) by (unfold lapKey; by rewrite Hm, Hxm).
    change (map lapKey (<[i:=lap]> l)) with (lapKey <$> <[i:=lap]> l).
    rewrite list_fmap_insert, Hkey, list_insert_id; [done|].
    by rewrite list_lookup_fmap, Hx.
  - apply Forall_app. split; [done|]. by constructor.
  - apply findIndex_None in Hf. rewrite map_app. apply NoDup_app.
    split; [done|]. split; [|apply NoDup_singleton].
    intros k Hk ->%list_elem_of_singleton.
    apply list_elem_of_fmap in Hk as (x & Hkx & Hx).
    rewrite Forall_forall in Hf, Hall.
    pose proof (Hf x Hx) as Hfx. cbv beta in Hfx.
    rewrite (numbered_key x lap) in Hfx; [done| |done|done].
    by apply (Hall x Hx).
Qed.

Lemma wellFiled_addLap (repo : t) (lap : Lap.t) :
  numbered lap → wellFiled repo → wellFiled (addLap repo lap).
Proof.
  intros Hnum [Hnd Hall]. unfold addLap. cbv zeta.
  set (v := Vehicle.id (Lap.vehicle lap)).
  set (l := default [] (mapGet v repo)).
  assert (Hl : filed v l).
  { subst l. destruct (mapGet v repo) as [l|] eqn:Hg; cbn [from_option id].
    - by apply Hall, mapGet_elem_of.
    - split; constructor. }
  pose proof (filed_upsert v lap l eq_refl Hnum Hl) as Hup.
  assert (Hgen : ∀ l', filed v l' → wellFiled (mapSet v l' repo)).
  { intros l' Hl'. split; [by apply mapSet_NoDup|].
    intros v' laps He.
    destruct (LapParserProofs.mapSet_elem_of_NoDup _ _ _ _ Hnd He) as [[= -> ->]|[Hin _]];
      [done|by apply Hall]. }
  destruct (findIndex (hasNumber (Lap.lapNumber lap)) l); by apply Hgen.
Qed.

Lemma wellFiled_addLaps (laps : list Lap.t) (repo : t) :
  Forall numbered laps → wellFiled repo → wellFiled (fold_left addLap laps repo).
Proof.
  intros Hnum. revert repo. induction Hnum as [|lap laps Hlap _ IH]; intros repo Hw; [done|].
  cbn [fold_left]. by apply IH, wellFiled_addLap.
Qed.

Lemma sorted_by_number (l : list Lap.t) :
  Forall numbered l → NoDup (map lapKey l) →
  Sorted (λ a b, lapKey a ≤ lapKey b) l → byNumber l.
Proof.
  intros Hnum Hnd Hs. unfold byNumber.
  apply Sorted_StronglySorted in Hs; [|intros a b c; lia].
  induction Hs as [|x l Hs IH Hx]; [constructor|].
  apply Forall_cons in Hnum as [[n Hn] Hnum]. cbn [map] in Hnd.
  apply NoDup_cons in Hnd as [Hnin Hnd].
  constructor; [by apply IH|].
  apply Forall_forall. intros y Hy.
  rewrite Forall_forall in Hx, Hnum. destruct (Hnum y Hy) as [m Hm].
  pose proof (Hx y Hy) as Hle. cbv beta in Hle.
  assert (Hne : lapKey x ≠ lapKey y).
  { intros Heq. apply Hnin. rewrite Heq. apply list_elem_of_fmap. by exists y. }
  unfold lapKey in Hle, Hne. rewrite Hn, Hm in *. unfold lt. lia.
Qed.

Lemma sortLaps_elem_of (repo : t) (v : string) (laps : list Lap.t) :
  (v, laps) ∈ sortLaps repo → ∃ l, (v, l) ∈ repo ∧ laps = sortBy lapKey l.
Proof.
  unfold sortLaps. intros ([v' l] & [= -> ->] & Hin)%list_elem_of_fmap. by exists l.
Qed.

Lemma sortLaps_fst (repo : t) : map fst (sortLaps repo) = map fst repo.
Proof. unfold sortLaps. rewrite map_map. by apply map_ext. Qed.

Lemma filed_sortBy (v : string) (l : list Lap.t) :
  filed v l → filed v (sortBy lapKey l) ∧ byNumber (sortBy lapKey l).
Proof.
  intros [Hall Hnd].
  assert (Hw : filed v (sortBy lapKey l)).
  { split.
    - by rewrite sortBy_perm.
    - change (NoDup (lapKey <$> sortBy lapKey l)). by rewrite sortBy_perm. }
  split; [done|]. destruct Hw as [Hall' Hnd'].
  apply sorted_by_number; [|done|apply sortBy_sorted].
  eapply Forall_impl; [exact Hall'|]. by intros lap [_ ?].
Qed.

(** The repository after saves, and each list of laps it holds. *)
Lemma saved_wellFiled (batches : list (list Lap.t)) :
  Forall (Forall numbered) batches →
  wellFiled (saved batches) ∧
  ∀ v laps, (v, laps) ∈ saved batches → byNumber laps.
Proof.
  induction batches as [|laps batches IH] using rev_ind; intros Hnum.
  - split; [split; [constructor|]|]; by intros ?? ?%elem_of_nil.
  - apply Forall_app in Hnum as [Hnum [Hlaps _]%Forall_cons].
    destruct (IH Hnum) as [Hw _]. rewrite saved_snoc. unfold saveLaps.
    pose proof (wellFiled_addLaps laps _ Hlaps Hw) as [Hnd Hall].
    split; [split|].
    + by rewrite sortLaps_fst.
    + intros v l (l0 & Hin & ->)%sortLaps_elem_of. by apply filed_sortBy, Hall.
    + intros v l (l0 & Hin & ->)%sortLaps_elem_of. by eapply filed_sortBy, Hall.
Qed.

(** X29.  After batches of laps whose numbers are numbers have been
    saved into an empty repository, the laps it returns for a vehicle
    id are laps of that vehicle in strictly ascending order of their
    numbers, so there is one lap per number; an unknown vehicle id
    gives no lap, and no vehicle id is listed twice. *)
Theorem laps_of_a_vehicle_ascend_by_number (batches : list (list Lap.t)) (v : string) :
  Forall (Forall numbered) batches →
  byNumber (getLapsByVehicle (saved batches) v) ∧
  Forall (λ lap, Vehicle.id (Lap.vehicle lap) = v) (getLapsByVehicle (saved batches) v) ∧
  (v ∉ getAllVehicleIds (saved batches) → getLapsByVehicle (saved batches) v = []) ∧
  NoDup (getAllVehicleIds (saved batches)).
Proof.
  intros Hnum. destruct (saved_wellFiled batches Hnum) as [[Hnd Hall] Hsorted].
  unfold getLapsByVehicle, getAllVehicleIds.
  destruct (mapGet v (saved batches)) as [l|] eqn:Hg.
  - apply mapGet_elem_of in Hg. split; [by eapply Hsorted|]. split; [|split; [|done]].
    + destruct (Hall v l Hg) as [Hf _]. eapply Forall_impl; [exact Hf|]. by intros lap [? _].
    + intros Hnin. exfalso. apply Hnin, list_elem_of_fmap. by exists (v, l).
  - split; [constructor|]. split; [constructor|]. by split.
Qed.

(** Laps 3 and 2 of the example vehicle, then lap 3 again. *)
Lemma laps_of_a_vehicle_ascend_by_number_witness :
  Forall (Forall numbered)
    [[Examples.lap 3 1000 2000; Examples.lap 2 0 900]; [Examples.lap 3 1000 2500]] ∧
  getLapsByVehicle
    (saved [[Examples.lap 3 1000 2000; Examples.lap 2 0 900]; [Examples.lap 3 1000 2500]])
    "032-15"
  = [Examples.lap 2 0 900; Examples.lap 3 1000 2500] ∧
  byNumber [Examples.lap 2 0 900; Examples.lap 3 1000 2500].
Proof.
  assert (Hnum : Forall (Forall numbered)
            [[Examples.lap 3 1000 2000; Examples.lap 2 0 900]; [Examples.lap 3 1000 2500]]).
  { repeat constructor; by eexists. }
  assert (Hlaps : getLapsByVehicle
            (saved [[Examples.lap 3 1000 2000; Examples.lap 2 0 900];
                    [Examples.lap 3 1000 2500]]) "032-15"
          = [Examples.lap 2 0 900; Examples.lap 3 1000 2500])
    by (vm_compute; reflexivity).
  split; [exact Hnum|]. split; [exact Hlaps|].
  rewrite <- Hlaps.
  exact (proj1 (laps_of_a_vehicle_ascend_by_number _ "032-15" Hnum)).
Defined.

(** *** All laps *)

Lemma find_unique (n : Z) (lap : Lap.t) (l : list Lap.t) :
  NoDup (map lapKey l) → lap ∈ l → Lap.lapNumber lap = Num n →
  List.find (hasNumber (Num n)) l = Some lap.
Proof.
  intros Hnd Hin Hn. induction l as [|x l IH]; [by apply elem_of_nil in Hin|].
  cbn [map] in Hnd. apply NoDup_cons in Hnd as [Hnin Hnd].
  cbn [List.find]. destruct (hasNumber (Num n) x) eqn:Hx.
  - apply elem_of_cons in Hin as [->|Hin]; [done|]. exfalso. apply Hnin.
    apply hasNumber_spec in Hx. apply list_elem_of_fmap. exists lap. split; [|done].
    unfold lapKey. by rewrite Hx, Hn.
  - apply elem_of_cons in Hin as [->|Hin]; [|by apply IH].
    apply hasNumber_spec in Hn. congruence.
Qed.

Lemma elem_of_concat {A : Type} (x : A) (ls : list (list A)) :
  x ∈ concat ls ↔ ∃ l, x ∈ l ∧ l ∈ ls.
Proof.
  rewrite list_elem_of_In, in_concat.
  split; intros (l & H1 & H2); exists l; by rewrite ?list_elem_of_In in *.
Qed.

Lemma wellFiled_NoDup (repo : t) : wellFiled repo → NoDup (getAllLaps repo).
Proof.
  unfold getAllLaps. induction repo as [|[v l] repo IH]; intros [Hnd Hall]; [constructor|].
  cbn [map fst snd concat] in *. apply NoDup_cons in Hnd as [Hnin Hnd].
  destruct (Hall v l (list_elem_of_here _ _)) as [Hf Hkeys].
  apply NoDup_app. split; [by apply NoDup_fmap_1 in Hkeys|]. split.
  - intros lap Hin (l' & Hin' & ([v' l''] & -> & He)%list_elem_of_fmap)%elem_of_concat.
    cbn [snd] in Hin'. rewrite Forall_forall in Hf. destruct (Hf lap Hin) as [Hv _].
    destruct (Hall v' l'' (list_elem_of_further _ _ _ He)) as [Hf' _].
    rewrite Forall_forall in Hf'. destruct (Hf' lap Hin') as [Hv' _].
    apply Hnin, list_elem_of_fmap. exists (v', l''). split; [|done]. cbn [fst]. congruence.
  - apply IH. split; [done|]. intros v' l' He. by apply Hall, list_elem_of_further.
Qed.

Lemma total_length (ls : list (list Lap.t)) (a : nat) :
  fold_left (λ total laps, (total + length laps)%nat) ls a
  = (a + length (concat ls))%nat.
Proof.
  revert a. induction ls as [|l ls IH]; intros a; simpl; [lia|].
  rewrite IH, length_app. lia.
Qed.

(** X30.  After batches of laps whose numbers are numbers have been
    saved into an empty repository, [getAllLaps] returns exactly the
    laps that were saved last for their vehicle and number, each once,
    and [getStatistics] counts them. *)
Theorem all_laps_are_the_last_saved (batches : list (list Lap.t)) :
  Forall (Forall numbered) batches →
  (∀ lap, lap ∈ getAllLaps (saved batches) ↔
          ∃ n, Lap.lapNumber lap = Num n ∧
               lastSaved (Vehicle.id (Lap.vehicle lap)) n (concat batches) = Some lap) ∧
  NoDup (getAllLaps (saved batches)) ∧
  totalLaps (getStatistics (saved batches)) = length (getAllLaps (saved batches)).
Proof.
  intros Hnum. destruct (saved_wellFiled batches Hnum) as [[Hnd Hall] _].
  split; [|split].
  - intros lap. split.
    + unfold getAllLaps. intros (l & Hin & ([v l'] & -> & He)%list_elem_of_fmap)%elem_of_concat.
      cbn [snd] in Hin. destruct (Hall v l' He) as [Hf Hkeys].
      rewrite Forall_forall in Hf. destruct (Hf lap Hin) as [Hv [n Hn]].
      exists n. split; [done|].
      rewrite <- (getLap_saved batches), Hv.
      unfold getLap. rewrite (LapParserProofs.mapGet_NoDup_elem v l' _ Hnd He).
      by apply find_unique.
    + intros (n & Hn & Hlast). rewrite <- (getLap_saved batches) in Hlast.
      unfold getLap in Hlast.
      destruct (mapGet _ (saved batches)) as [l|] eqn:Hg; [|done].
      apply List.find_some in Hlast as [Hin%list_elem_of_In _].
      apply mapGet_elem_of in Hg. unfold getAllLaps. apply elem_of_concat.
      exists l. split; [done|]. apply list_elem_of_fmap. by eexists (_, _).
  - apply wellFiled_NoDup. by split.
  - unfold getStatistics, getAllLaps. cbn [totalLaps]. by rewrite total_length.
Qed.

(** Laps 3 and 2 of the example vehicle, then lap 3 again: the second
    lap 3 is returned, the first is not. *)
Lemma all_laps_are_the_last_saved_witness :
  Forall (Forall numbered)
    [[Examples.lap 3 1000 2000; Examples.lap 2 0 900]; [Examples.lap 3 1000 2500]] ∧
  Examples.lap 3 1000 2500
  ∈ getAllLaps
      (saved [[Examples.lap 3 1000 2000; Examples.lap 2 0 900]; [Examples.lap 3 1000 2500]]) ∧
  Examples.lap 3 1000 2000
  ∉ getAllLaps
      (saved [[Examples.lap 3 1000 2000; Examples.lap 2 0 900]; [Examples.lap 3 1000 2500]]).
Proof.
  assert (Hnum : Forall (Forall numbered)
            [[Examples.lap 3 1000 2000; Examples.lap 2 0 900]; [Examples.lap 3 1000 2500]]).
  { repeat constructor; by eexists. }
  split; [exact Hnum|].
  destruct (all_laps_are_the_last_saved _ Hnum) as [Hall _]. split.
  - apply Hall. exists 3. split; [reflexivity|]. vm_compute. reflexivity.
  - intros (n & Hn & Hlast)%Hall. injection Hn as <-.
    vm_compute in Hlast. discriminate Hlast.
Defined.
End LapRepositoryProofs.
